(* ===== verification/_CoqProject ===== *)
-Q . S2P
Prelude.v
Core.v
Events.v
Inventory.v
Products.v
Parties.v
Auth.v
Users.v
Sales.v
Invoicing.v
Purchasing.v
Accounting.v
Bus.v
EventStore.v
EventQuery.v
Dispatcher.v
System.v
Saga.v
ReadModel.v
Projection.v
Stock.v
Receivables.v
TrialBalance.v
Directories.v
UserDirectory.v
Services.v
Replay.v
Utf8.v
Redis.v
Http.v
Routes.v
AdminRoutes.v
EventStream.v
Api.v
Jobs.v
Executor.v
OfflineQueue.v
DesktopSync.v
CustomerBalances.v
Valuation.v
PgStore.v
PgRefinement.v
PgTransactions.v
PgReadModel.v
Float.v
Anomaly.v
AnomalyRunner.v
Worker.v
ReadApi.v
JobLoop.v
Wiring.v
InOrder.v
Histories.v
EndToEnd.v
Recovery.v
