(* ===== verification/Prelude.v ===== *)
(** * ForgeERP: a verification development

    ForgeERP is a multi-tenant, event-sourced ERP back end written in Rust
    (under [src/crates]).  A command arrives over HTTP; the API authenticates and
    authorises it and hands it to the command dispatcher, which loads the event
    stream of the aggregate the command addresses, rehydrates the aggregate,
    lets it decide, appends the decided events to the event store under
    optimistic concurrency and publishes them on an event bus.  Projections
    consume the published envelopes and maintain read models per tenant;
    background jobs run from a job store.

    ** The files and what they model

    The domain, one aggregate per file, each with its data, its handlers (every
    guard and error in source order), its [apply], an invariant, and the
    specification [accepts] / [evolved] of what a command may do:
    - [Core]: [core/src]: identifiers, [DomainError], [ExpectedVersion], the texts of
      identifiers and times that the program prints and parses (class [Texts]), and
      the [Aggregate] trait as a type class.  Its laws ([AggregateLaws]: the version
      counts events, the invariant survives decide-then-evolve) are what the
      infrastructure relies on; every aggregate file proves them.
    - [Events]: [events/src]: the [Event] and [Projection] traits, envelopes, and
      the [ProjectionRunner].
    - [Inventory], [Products], [Parties], [Sales], [Invoicing], [Purchasing],
      [Accounting], [Users]: [inventory/src/item.rs], [products/src/product.rs],
      [parties/src/party.rs], [sales/src/order.rs], [invoicing/src/invoice.rs],
      [purchasing/src/order.rs], [accounting/src/ledger.rs], [auth/src/user.rs].
    - [Auth]: the rest of [auth/src] (claims, policy, explanations), the built-in
      role mapping of [infra/src/projections/users.rs], and the API's guards
      ([api/src/middleware.rs], [api/src/authz.rs]).

    The infrastructure ([infra/src]):
    - [Bus]: the [EventBus] contract as a class, and the in-memory bus
      ([events/src/in_memory_bus.rs]) with its subscribers' channels.
    - [EventStore]: stored and uncommitted events, the store's contract as a
      class, the in-memory store, the publishing store.
    - [EventQuery]: the in-memory store's queries.
    - [Dispatcher]: [command_dispatcher.rs], for any store, bus and aggregate
      that meet the classes.  A dispatch is split at its append into
      [decide_events] and [commit_events], so that two of them can interleave.
    - [System]: the transition system of interleaved dispatches over one store,
      and the aggregates' invariants in it.
    - [Saga]: [infra/src/saga], the sales-to-receivables process manager, with the
      loop body of [api/src/app/services.rs] that runs it.
    - [ReadModel], [Projection]: tenant stores, cursors, the loop all projections
      share ([apply_envelope], [rebuild_from_scratch]), and the theory of
      projections with one entry per aggregate (class [Keyed]).
    - [Stock], [Receivables], [TrialBalance], [Directories], [UserDirectory],
      [CustomerBalances], [Valuation]: the projections of [projections/]:
      [inventory_stock.rs]; [invoices.rs], [invoicing.rs] and [open_invoices.rs];
      [accounting.rs]; [products.rs], [parties.rs], [sales_orders.rs] and
      [purchase_orders.rs]; [users.rs]; [customer_balances.rs]; and
      [inventory_valuation.rs].
    - [ReadApi]: what else the projections offer: constructors, lookups, listings,
      rebuilds, and the queries over the open invoices.
    - [Worker]: [workers/projection_worker.rs].
    - [Replay]: [api/src/app/routes/replay.rs], the background rebuild of the
      projections and its job table.
    - [Redis]: [event_bus/redis_streams.rs], over any server that meets the
      documented behaviour of the stream commands; [Utf8]: the text of a byte string.
    - [Jobs], [Executor], [JobLoop]: [jobs/types.rs] and [jobs/store.rs];
      [jobs/executor.rs] with the transition system of executors that share one
      store; the backoff in [f64], the listings, and the executor's thread.
    - [PgStore], [PgRefinement], [PgTransactions]: [event_store/postgres.rs] over the
      tables of [docker/migrations], each statement a round trip that may fail; that
      it implements the store's contract; and overlapping transactions.
    - [PgReadModel]: [read_model/postgres.rs] and the Postgres half of
      [projections/cursor_store.rs].

    Anomaly detection ([ai/src] and [infra/src/ai]):
    - [Float]: [f64], by the Standard Library's executable specification.
    - [Anomaly]: the job [inventory_anomaly.rs] and the scheduler.
    - [AnomalyRunner]: the runner of a tenant, [inventory_anomaly_runner.rs].

    The API ([api/src]):
    - [Services]: [app/services.rs], which wires stores, bus, projections and saga
      together in memory, its subscriber loop and its read accessors; [Wiring]: its
      Postgres and Redis variant, and the insight sink.
    - [Http]: [app/dto.rs] and [app/errors.rs]: bodies, responses, JSON.
    - [Routes], [AdminRoutes]: the handlers of [app/routes/], in a monad of early
      returns over the dispatcher; [EventStream]: [event_stream.rs]; [Replay] (above).
    - [Api]: the requests of all routes behind the middleware, with the replays and the
      live streams.

    The whole:
    - [InOrder], [Histories], [EndToEnd]: the in-memory deployment as one transition
      system: request threads that append and publish step by step, the bus, and the
      subscriber that maintains the read models.  [Histories] says what the streams
      hold that the commands of all modules left, [InOrder] what envelopes in their
      order offer a projection.  [Recovery] runs the replays of [Replay] in any state
      the deployment reaches.

    The desktop client ([desktop/src]):
    - [OfflineQueue]: [command_queue.rs] and [types.rs], the table of commands
      waiting to be sent.
    - [DesktopSync]: the cache, the offline command handler, the sync manager and
      its worker, over a server given by its answers.

    ** What the theorems show

    - End to end: when the commands on one stream do not overlap, what the API reads
      of an aggregate is at every moment the aggregate rehydrated from some first
      events of its stream, and from all of them when nothing is left to publish and
      to take, a state that is always within reach; and the accounts of a tenant
      balance ([EndToEnd]).  When commands do overlap, replays of the projections
      make them show what is stored ([Recovery]).  Whatever commands are dispatched in whatever
      interleaving, every stream decodes and rehydrates to an aggregate that satisfies
      its invariant ([System]); a dispatch refines the aggregate's own step, two
      concurrent ones are serialised by the version check, and nothing is
      published that was not stored first ([Dispatcher]); the in-memory store
      appends exactly the batches its contract allows ([EventStore]); the bus
      delivers to each subscriber everything published, in order ([Bus]).
    - Domain rules: stock is never negative, an invoice is never overpaid and its
      payments add up, the ledger accepts exactly balanced entries, confirmed
      sales orders and approved purchase orders are frozen, goods receipts
      repeat the ordered lines, products move forward through their lifecycle,
      a suspension of a party is permanent, a user holds exactly the roles that
      were rightly granted and not revoked.  The handlers' [_exact] theorems
      characterise acceptance in both directions and give the resulting state.
    - Read side: the read models of [Stock] and [Receivables] equal the
      rehydrated aggregates under at-least-once delivery in any interleaving, a
      rebuild restores them from any state, and the account balances of a
      tenant add up to zero.  [Directories] and [UserDirectory] extend this to
      the products, parties, orders and users; [CustomerBalances] shows a
      customer's balance to be the sum of the customer's open invoices.
      [Services] shows that what the subscriber applied is what was stored, and
      [Replay] that the background rebuild ends and leaves the read models a
      rebuild from scratch would.
    - Postgres: the store refines the in-memory one, an append happens as a whole or
      not at all, and transactions that overlap commit as if one after the other.
    - Transport: what is published on the Redis bus is read back unchanged, and
      acknowledged only after it was handed over.
    - Desktop: the table of the queue implements a list of commands, and a pass
      of the synchronisation leaves every command it attempted settled, where its calls
      may block; as tasks of tokio, which they are, they panic first.
    - Access: a request reaches its handler exactly when its token and roles
      allow it, and explanations of a decision are truthful.  A request writes only
      the stream it addresses, in its own tenant; its response tells what was
      stored; and what a tenant is answered depends on no other tenant, the replay jobs
      apart ([Api]).
    - Jobs: no job is run twice at once, lost, or attempted beyond its policy; the
      executor's thread counts what it does and stops when told to.
    - Workers: a projection worker handles its tenant's events in order; an anomaly
      runner attends to every trigger, whatever fails, and catches up.
    - Some theorems document defects of the code.  Domain:
      [issue_truncates_line_amount].  Concurrency and delivery:
      [overlapping_commands_freeze_item], [replay_loses_event_taken_meanwhile],
      [redis_batch_loses_events], [published_never_dead_lettered],
      [redelivered_assignment_regrants], [sales_ar_saga_never_runs],
      [runner_rebuild_iff] (a history of two streams is refused).  Jobs:
      [exhausted_retry_is_stranded], [delay_above_cap], [zero_interval_hangs],
      [wired_detection_is_blind].  API: [sales_routes_admin_only],
      [commands_need_admin], [refused_purchase_order_is_kept],
      [customer_route_renames_unshown_supplier], [event_stream_dies_at_wide_character],
      [suspension_is_not_consulted], [replay_jobs_cross_tenants], [rebuild_forgets_costs],
      [open_summary_counts_every_invoice].  The persistent variant:
      [persistent_variant_panics_in_tasks], [persistent_runner_sees_no_stock],
      [restart_empties_read_models], [outage_loses_stock_update],
      [forgotten_cursor_reapplies].  Desktop: [outage_strands_commands],
      [worker_never_reconnects], [versionless_refetch_conflicts], [desktop_tasks_panic].

    ** Conventions

    - Integers are [Z] with their width as a range predicate.  Plain arithmetic
      and [as] casts wrap, as in a release build (the crates do not set
      [overflow-checks]); [checked_*] and [saturating_*] are as named.
    - A [String] is its UTF-8 bytes; [str::trim] uses Unicode's White_Space.
    - Values the program reads from its surroundings are arguments: clocks, fresh
      UUIDs (a function of a counter), the iteration order of hash maps and sets
      (any enumeration), the shortest decimal text of a floating-point number.
    - JSON is a type parameter [J] with encoding and decoding functions (class
      [Serde]); a theorem that needs them to be inverse says so ([SerdeLaws]).
      Token decoding by the [jsonwebtoken] crate is a parameter.
    - A poisoned lock is part of a store's state where the code returns an error
      for it; a handler that panics while it holds one is not modelled.
    - Recursion is structural, so every operation of the model returns, except for
      two loops that have fuel: the pages of [Replay], where one page more than the
      events of the tenant fill is enough, and [catch_up] of [AnomalyRunner], where
      one turn more than the ticks that were missed is; theorems say so.  Loops of the code
      that run forever (executors, subscriptions) are transition systems, and
      their theorems hold in every reachable state.
    - The desktop's commands and worker ticks run one after another; what drives them is
      an argument ([Driver]), and [None] is the panic of a task that blocks.

    ** What is not modelled

    Postgres itself, beyond the documented behaviour of the statements the store
    sends (the rows are the model's, a round trip may fail before or after it took
    effect); axum's matching of paths and extraction of bodies; the opening of
    connections, sockets and the reading of the environment ([main.rs]); the
    desktop's user interface; tracing and metrics; the sleeping of threads.  The
    per-projection copies of the cursor code are modelled once, in [ReadModel].
    The deployment as a whole is modelled in memory only: the persistent variant
    does not run its commands and loses its read models (see the theorems on
    [Wiring] and [PgReadModel]), so it has no end-to-end theorem to state; its
    store, read models and buses are modelled by themselves.

    This file itself holds what all components share: results and their monad,
    folds that can fail, machine integers, sums, strings, stable sorting, and the
    tactics for the guards of a handler. *)

From stdpp Require Export base tactics decidable option numbers list sorting gmap strings pretty.


(** ** Rust's [Result] *)

(** [core::result::Result<A, E>], the error type first so that [Result E] is
    the monad of the [?] operator. *)
Inductive Result (E A : Type) : Type :=
| Ok (a : A)
| Err (e : E).
Arguments Ok {E A} a.
Arguments Err {E A} e.

#[global] Instance Result_ret {E} : MRet (Result E) := fun A a => Ok a.

#[global] Instance Result_bind {E} : MBind (Result E) := fun A B f m =>
  match m with Ok a => f a | Err e => Err e end.

#[global] Instance Result_eq_dec {E A} `{EqDecision E, EqDecision A} :
  EqDecision (Result E A).
Proof. solve_decision. Defined.

(** [Result::map_err]. *)
Definition map_err {E F A} (f : E -> F) (m : Result E A) : Result F A :=
  match m with Ok a => Ok a | Err e => Err (f e) end.

(** [Option::ok_or_else]. *)
Definition ok_or {E A} (o : option A) (e : E) : Result E A :=
  match o with Some a => Ok a | None => Err e end.

(** [Option::unwrap_or]. *)
Definition unwrap_or {A} (o : option A) (d : A) : A :=
  match o with Some a => a | None => d end.

Definition is_ok {E A} (m : Result E A) : bool :=
  match m with Ok _ => true | Err _ => false end.

Section ResultLemmas.
Context {E A B : Type}.

Lemma bind_Ok_inv (m : Result E A) (f : A -> Result E B) (b : B) :
  (m ≫= f) = Ok b -> exists a, m = Ok a /\ f a = Ok b.
Proof. destruct m as [a|e]; [eauto | discriminate]. Qed.

Lemma bind_Err_inv (m : Result E A) (f : A -> Result E B) (e : E) :
  (m ≫= f) = Err e -> m = Err e \/ exists a, m = Ok a /\ f a = Err e.
Proof. destruct m as [a|e']; simpl; [eauto | intros [= ->]; auto]. Qed.

Lemma map_err_Ok {F} (f : E -> F) (m : Result E A) (a : A) :
  map_err f m = Ok a <-> m = Ok a.
Proof. destruct m; naive_solver. Qed.
End ResultLemmas.

(** [iter().try_for_each] and [for x in xs { f(x)?; }] over a state: the fold of
    a fallible step that stops at the first error. *)
Fixpoint try_fold {E S X : Type} (f : S -> X -> Result E S) (s : S) (xs : list X)
  : Result E S :=
  match xs with
  | [] => Ok s
  | x :: xs' => match f s x with Ok s' => try_fold f s' xs' | Err e => Err e end
  end.

Lemma try_fold_app {E S X} (f : S -> X -> Result E S) s xs ys :
  try_fold f s (xs ++ ys) =
  match try_fold f s xs with Ok s' => try_fold f s' ys | Err e => Err e end.
Proof.
  revert s; induction xs as [|x xs IH]; intros s; simpl; [done|].
  destruct (f s x); [apply IH | done].
Qed.

(** An invariant of the step is an invariant of the fold. *)
Lemma try_fold_inv {E S X} (f : S -> X -> Result E S) (P : S -> Prop) xs :
  (forall s x s', x ∈ xs -> P s -> f s x = Ok s' -> P s') ->
  forall s s', P s -> try_fold f s xs = Ok s' -> P s'.
Proof.
  induction xs as [|x xs IH]; simpl; intros Hf s s' Hs H.
  - by injection H as <-.
  - destruct (f s x) as [s1|] eqn:E1; [|done].
    apply (IH (fun s x s' Hx => Hf s x s' (list_elem_of_further _ _ _ Hx)) s1); [|done].
    apply (Hf s x); [left | done | done].
Qed.

(** ** Machine integers

    Values are [Z]; a type of width [w] is a range predicate, and an operation
    that can leave it says what the release build does: plain [+], [-], [*] and
    [as] casts wrap (the crates set no [overflow-checks]), [checked_*] gives
    [None], [saturating_*] clamps. *)

Definition inU (w x : Z) : Prop := (0 <= x < 2 ^ w)%Z.
Definition inS (w x : Z) : Prop := (- 2 ^ (w - 1) <= x < 2 ^ (w - 1))%Z.

Abbreviation is_u32 := (inU 32).
Abbreviation is_u64 := (inU 64).
Abbreviation is_i64 := (inS 64).
Abbreviation is_i128 := (inS 128).

#[global] Instance inU_dec w x : Decision (inU w x).
Proof. unfold inU; apply _. Defined.
#[global] Instance inS_dec w x : Decision (inS w x).
Proof. unfold inS; apply _. Defined.

Definition wrapU (w x : Z) : Z := (x mod 2 ^ w)%Z.
Definition wrapS (w x : Z) : Z := ((x + 2 ^ (w - 1)) mod 2 ^ w - 2 ^ (w - 1))%Z.

Definition checked_addU (w x y : Z) : option Z :=
  if decide (inU w (x + y)%Z) then Some (x + y)%Z else None.
Definition checked_mulS (w x y : Z) : option Z :=
  if decide (inS w (x * y)%Z) then Some (x * y)%Z else None.
Definition saturating_subU (x y : Z) : Z := Z.max 0 (x - y).
Definition saturating_mulU (w x y : Z) : Z := Z.min (2 ^ w - 1) (x * y).

Section Integers.
Local Open Scope Z_scope.
Implicit Types w x y : Z.

Lemma wrapU_id w x : inU w x -> wrapU w x = x.
Proof. intros [??]. by apply Z.mod_small. Qed.

Lemma wrapU_range w x : 0 < w -> inU w (wrapU w x).
Proof. intros. apply Z.mod_pos_bound, Z.pow_pos_nonneg; lia. Qed.

Lemma pow2_half w : 0 < w -> 2 ^ w = 2 * 2 ^ (w - 1).
Proof. intros. rewrite <- Z.pow_succ_r by lia. f_equal; lia. Qed.

Lemma wrapS_id w x : 0 < w -> inS w x -> wrapS w x = x.
Proof.
  intros Hw [Hl Hu]. unfold wrapS. pose proof (pow2_half w Hw).
  rewrite Z.mod_small; lia.
Qed.

Lemma wrapS_range w x : 0 < w -> inS w (wrapS w x).
Proof.
  intros Hw. unfold wrapS, inS. pose proof (pow2_half w Hw).
  pose proof (Z.mod_pos_bound (x + 2 ^ (w - 1)) (2 ^ w)
                ltac:(apply Z.pow_pos_nonneg; lia)). lia.
Qed.

(** Wrapping past the top of the signed range lands [2^w] lower. *)
Lemma wrapS_above w x :
  0 < w -> 2 ^ (w - 1) <= x < 2 ^ (w - 1) + 2 ^ w -> wrapS w x = x - 2 ^ w.
Proof.
  intros Hw Hx. unfold wrapS. pose proof (pow2_half w Hw).
  replace (x + 2 ^ (w - 1)) with ((x - 2 ^ (w - 1)) + 1 * 2 ^ w) by lia.
  rewrite Z.mod_add by lia. rewrite Z.mod_small; lia.
Qed.

Lemma wrapS_add_l w x y : wrapS w (wrapS w x + y) = wrapS w (x + y).
Proof.
  unfold wrapS. f_equal.
  replace ((x + 2 ^ (w - 1)) mod 2 ^ w - 2 ^ (w - 1) + y + 2 ^ (w - 1))
    with ((x + 2 ^ (w - 1)) mod 2 ^ w + y) by lia.
  rewrite Zplus_mod_idemp_l. f_equal; lia.
Qed.

(** A wrapped successor composes with the sum it continues. *)
(** A value bound as a signed integer and read back as the unsigned one. *)
Lemma wrapU_wrapS w x : inU w x -> wrapU w (wrapS w x) = x.
Proof.
  unfold inU, wrapU, wrapS. intros H. rewrite Zminus_mod, Zmod_mod, <- Zminus_mod.
  rewrite Z.add_simpl_r. by apply Z.mod_small.
Qed.

Lemma wrapU_add_l w x y : wrapU w (wrapU w x + y) = wrapU w (x + y).
Proof. apply Zplus_mod_idemp_l. Qed.

Lemma wrapU_add_r w x y : wrapU w (x + wrapU w y) = wrapU w (x + y).
Proof. apply Zplus_mod_idemp_r. Qed.

Lemma checked_addU_Some w x y z :
  checked_addU w x y = Some z <-> inU w (x + y) /\ z = x + y.
Proof. unfold checked_addU. destruct (decide _); naive_solver. Qed.

Lemma checked_mulS_Some w x y z :
  checked_mulS w x y = Some z <-> inS w (x * y) /\ z = x * y.
Proof. unfold checked_mulS. destruct (decide _); naive_solver. Qed.

Lemma saturating_subU_range w x y : inU w x -> 0 <= y -> inU w (saturating_subU x y).
Proof. unfold inU, saturating_subU. lia. Qed.
End Integers.

#[global] Opaque wrapU wrapS.

(** The widths of the crates, unfolded to numerals so that [lia] decides. *)
Ltac unfold_widths :=
  unfold inU, inS in *;
  change (2 ^ 32)%Z with 4294967296%Z in *;
  change (2 ^ 64)%Z with 18446744073709551616%Z in *;
  change (2 ^ (64 - 1))%Z with 9223372036854775808%Z in *;
  change (2 ^ 128)%Z with 340282366920938463463374607431768211456%Z in *;
  change (2 ^ (128 - 1))%Z with 170141183460469231731687303715884105728%Z in *.

Ltac ilia := unfold_widths; lia.

(** [iter().sum()] over the integers. *)
Definition sumZ (l : list Z) : Z := foldr Z.add 0%Z l.

Lemma sumZ_app l l' : sumZ (l ++ l') = (sumZ l + sumZ l')%Z.
Proof. induction l as [|x l IH]; simpl; [done|]. rewrite IH. lia. Qed.

Lemma sumZ_perm l l' : l ≡ₚ l' -> sumZ l = sumZ l'.
Proof. induction 1; simpl; lia. Qed.

#[global] Instance sumZ_proper : Proper ((≡ₚ) ==> (=)) sumZ := sumZ_perm.
#[global] Instance map_perm {A B} (f : A -> B) : Proper ((≡ₚ) ==> (≡ₚ)) (map f) :=
  @Permutation_map A B f.

Lemma sumZ_nonneg l : Forall (fun x => 0 <= x)%Z l -> (0 <= sumZ l)%Z.
Proof. induction 1; simpl; lia. Qed.

(** The sum of a function over the entries of a map. *)
Section SumMap.
Context {K V : Type} `{Countable K}.
Local Open Scope Z_scope.
Implicit Types (f : K -> V -> Z) (m : gmap K V).

Definition sum_map f m : Z := sumZ (map (fun kv => f kv.1 kv.2) (map_to_list m)).

Lemma sum_map_empty f : sum_map f ∅ = 0.
Proof. unfold sum_map. by rewrite map_to_list_empty. Qed.

(** An entry replaced, or added. *)
Lemma sum_map_insert f m k v :
  sum_map f (<[k := v]> m)
  = sum_map f m - match m !! k with Some v0 => f k v0 | None => 0 end + f k v.
Proof.
  unfold sum_map. destruct (m !! k) as [v0|] eqn:E.
  - rewrite <- (insert_delete_id m k v0 E) at 2. rewrite <- (insert_delete_eq m k v).
    rewrite !(map_to_list_insert (delete k m)) by apply lookup_delete_eq. simpl. lia.
  - rewrite (map_to_list_insert m k v E). simpl. lia.
Qed.

Lemma sum_map_nonneg f m : (forall k v, m !! k = Some v -> 0 <= f k v) -> 0 <= sum_map f m.
Proof.
  intros Hf. apply sumZ_nonneg, Forall_map, Forall_forall. intros [k v] Hin.
  by apply Hf, elem_of_map_to_list.
Qed.

Lemma sum_map_le f g m :
  (forall k v, m !! k = Some v -> f k v <= g k v) -> sum_map f m <= sum_map g m.
Proof.
  intros Hf. unfold sum_map.
  assert (forall kv, kv ∈ map_to_list m -> f kv.1 kv.2 <= g kv.1 kv.2) as Hl
    by (intros [k v] Hin; by apply Hf, elem_of_map_to_list).
  induction (map_to_list m) as [|kv l IH]; simpl; [done|].
  pose proof (Hl kv (list_elem_of_here _ _)).
  assert (forall kv, kv ∈ l -> f kv.1 kv.2 <= g kv.1 kv.2)
    by (intros; by apply Hl, list_elem_of_further). specialize (IH ltac:(done)). lia.
Qed.

(** One entry is part of a sum of terms that are not negative. *)
Lemma sum_map_elem f m k v :
  (forall k v, m !! k = Some v -> 0 <= f k v) -> m !! k = Some v -> f k v <= sum_map f m.
Proof.
  intros Hf E. rewrite <- (insert_delete_id m k v E), sum_map_insert, lookup_delete_eq.
  pose proof (sum_map_nonneg f (delete k m)) as Hd.
  enough (0 <= sum_map f (delete k m)) by lia. apply Hd.
  intros k' v' [_ Hk']%lookup_delete_Some. by apply Hf.
Qed.
End SumMap.

(** ** Strings

    A Rust [String] is its UTF-8 bytes. [str::trim] removes the characters of
    Unicode's White_Space property at both ends; the three tests below are that
    set, by the number of bytes of the encoding. *)

Definition byte_in (a : Ascii.ascii) (lo hi : N) : bool :=
  ((lo <=? Ascii.N_of_ascii a) && (Ascii.N_of_ascii a <=? hi))%N.

Definition ws1 (a : Ascii.ascii) : bool := byte_in a 9 13 || byte_in a 32 32.

Definition ws2 (a b : Ascii.ascii) : bool :=
  byte_in a 194 194 && (byte_in b 133 133 || byte_in b 160 160).

Definition ws3 (a b c : Ascii.ascii) : bool :=
  (byte_in a 225 225 && byte_in b 154 154 && byte_in c 128 128)
  || (byte_in a 226 226 && byte_in b 128 128
      && (byte_in c 128 138 || byte_in c 168 169 || byte_in c 175 175))
  || (byte_in a 226 226 && byte_in b 129 129 && byte_in c 159 159)
  || (byte_in a 227 227 && byte_in b 128 128 && byte_in c 128 128).

(** Drop the leading characters one of the three tests accepts. *)
Fixpoint trim_front (w1 : Ascii.ascii -> bool) (w2 : Ascii.ascii -> Ascii.ascii -> bool)
    (w3 : Ascii.ascii -> Ascii.ascii -> Ascii.ascii -> bool)
    (l : list Ascii.ascii) : list Ascii.ascii :=
  match l with
  | [] => []
  | a :: l1 =>
    if w1 a then trim_front w1 w2 w3 l1 else
    match l1 with
    | [] => l
    | b :: l2 =>
      if w2 a b then trim_front w1 w2 w3 l2 else
      match l2 with
      | [] => l
      | c :: l3 => if w3 a b c then trim_front w1 w2 w3 l3 else l
      end
    end
  end.

Definition trim_bytes (l : list Ascii.ascii) : list Ascii.ascii :=
  let l1 := trim_front ws1 ws2 ws3 l in
  rev (trim_front ws1 (fun b a => ws2 a b) (fun c b a => ws3 a b c) (rev l1)).

(** [str::trim]. *)
Definition str_trim (s : string) : string :=
  String.string_of_list_ascii (trim_bytes (String.list_ascii_of_string s)).

(** [s.trim().is_empty()]. *)
Definition is_blank (s : string) : bool := bool_decide (str_trim s = ""%string).

(** [str::contains(char)] for an ASCII character. *)
Definition str_contains (c : Ascii.ascii) (s : string) : bool :=
  existsb (Ascii.eqb c) (String.list_ascii_of_string s).

(** [str::starts_with]. *)
Definition starts_with (p s : string) : bool := String.prefix p s.

Lemma trim_front_nil_rev_nil l :
  trim_front ws1 ws2 ws3 l = [] -> trim_bytes l = [].
Proof. unfold trim_bytes. by intros ->. Qed.

Example is_blank_spaces : is_blank "   " = true.
Proof. reflexivity. Qed.
Example is_blank_word : is_blank " a " = false.
Proof. reflexivity. Qed.
Example str_trim_word : str_trim "  a b "%string = "a b"%string.
Proof. reflexivity. Qed.

(** [str::contains] for a text. *)
Fixpoint mentions (s pat : string) : bool :=
  String.prefix pat s || match s with String _ s' => mentions s' pat | EmptyString => false end.

(** [str::parse] for an unsigned type of [w] bits: an optional plus sign and
    decimal digits, in range. *)
Definition digit (a : Ascii.ascii) : option Z :=
  if byte_in a 48 57 then Some (Z.of_N (Ascii.N_of_ascii a) - 48)%Z else None.

Fixpoint parse_digits (w acc : Z) (s : string) : option Z :=
  match s with
  | EmptyString => Some acc
  | String a s' =>
    d ← digit a;
    let n := (acc * 10 + d)%Z in
    if decide (inU w n) then parse_digits w n s' else None
  end.

Definition parse_uint (w : Z) (s : string) : option Z :=
  match s with
  | EmptyString => None
  | String a s' =>
    if byte_in a 43 43
    then match s' with EmptyString => None | _ => parse_digits w 0 s' end
    else parse_digits w 0 s
  end.

Lemma parse_digits_range w acc s n : inU w acc -> parse_digits w acc s = Some n -> inU w n.
Proof.
  revert acc; induction s as [|a s IH]; intros acc Ha; simpl; [by intros [= <-]|].
  destruct (digit a); simpl; [|done]. case_decide; [by apply IH | done].
Qed.

Lemma parse_uint_range w s n : (0 < w)%Z -> parse_uint w s = Some n -> inU w n.
Proof.
  intros Hw. assert (inU w 0) by (split; [done | by apply Z.pow_pos_nonneg; lia]).
  destruct s as [|a s]; [done|]. unfold parse_uint.
  destruct (byte_in a 43 43); [destruct s; [done|]|]; by apply parse_digits_range.
Qed.

(** ** Stable sorting

    [slice::sort_by_key] and [sort_by] are stable. [sort_by le] inserts from the
    right, each element before the first one it is [<=] to, so equal elements
    keep their order. *)
Section Sorting.
Context {A : Type} (le : A -> A -> bool).

Fixpoint insert_by (x : A) (l : list A) : list A :=
  match l with
  | [] => [x]
  | y :: l' => if le x y then x :: l else y :: insert_by x l'
  end.

Definition sort_by (l : list A) : list A := foldr insert_by [] l.

Lemma insert_by_perm x l : insert_by x l ≡ₚ x :: l.
Proof.
  induction l as [|y l IH]; simpl; [done|].
  destruct (le x y); [done|]. rewrite IH. apply Permutation_swap.
Qed.

Lemma sort_by_perm l : sort_by l ≡ₚ l.
Proof. induction l as [|x l IH]; simpl; [done|]. by rewrite insert_by_perm, IH. Qed.

(** A list already in order is its own sort. *)
Lemma sort_by_sorted_id l : StronglySorted (fun x y => le x y = true) l -> sort_by l = l.
Proof.
  induction 1 as [|x l _ IH Hx]; simpl; [done|]. rewrite IH.
  destruct l as [|y l]; simpl; [done|].
  apply Forall_cons_1 in Hx as [Hxy _]. by rewrite Hxy.
Qed.

Context (le_total : forall x y, le x y = true \/ le y x = true)
        (le_trans : forall x y z, le x y = true -> le y z = true -> le x z = true).

Lemma insert_by_sorted x l :
  StronglySorted (fun x y => le x y = true) l ->
  StronglySorted (fun x y => le x y = true) (insert_by x l).
Proof.
  induction 1 as [|y l Hl IH Hy]; simpl; [repeat constructor|].
  destruct (le x y) eqn:Exy.
  - constructor; [by constructor|]. constructor; [done|].
    eapply Forall_impl; [done|]. intros z. by apply le_trans.
  - constructor; [done|]. rewrite insert_by_perm. constructor; [|done].
    destruct (le_total x y); congruence.
Qed.

Lemma sort_by_sorted l : StronglySorted (fun x y => le x y = true) (sort_by l).
Proof. induction l as [|x l IH]; simpl; [constructor | by apply insert_by_sorted]. Qed.
End Sorting.

(** Sorting by the key of an image is sorting the image. *)
Lemma map_sort_by {A B} (le : A -> A -> bool) (le' : B -> B -> bool) (f : A -> B) l :
  (forall x y, le x y = le' (f x) (f y)) -> map f (sort_by le l) = sort_by le' (map f l).
Proof.
  intros Hle. induction l as [|x l IH]; simpl; [done|]. rewrite <- IH.
  generalize (sort_by le l) as m. induction m as [|y m IHm]; simpl; [done|].
  rewrite <- Hle. destruct (le x y); simpl; [done|]. by rewrite IHm.
Qed.

(** A list whose elements are in order, two by two. *)
Lemma sorted_by_lookup {A} (le : A -> A -> bool) l :
  (forall i j x y, i < j -> l !! i = Some x -> l !! j = Some y -> le x y = true) ->
  StronglySorted (fun x y => le x y = true) l.
Proof.
  induction l as [|x l IH]; intros H; constructor.
  - apply IH. intros i j y z Hij Hi Hj. apply (H (S i) (S j)); simpl; auto; lia.
  - apply Forall_lookup. intros j y Hj. apply (H 0 (S j)); simpl; auto; lia.
Qed.

(** Filtering and flattening do not see the order. *)
#[global] Instance bfilter_perm {A} (f : A -> bool) :
  Proper ((≡ₚ) ==> (≡ₚ)) (List.filter f).
Proof.
  induction 1 as [|x l l' _ IH|x y l|l1 l2 l3 _ IH1 _ IH2]; simpl; [done|..].
  - destruct (f x); [by constructor | done].
  - destruct (f x), (f y); done || constructor.
  - by rewrite IH1.
Qed.

#[global] Instance concat_perm {A} : Proper ((≡ₚ) ==> (≡ₚ)) (@concat A).
Proof.
  induction 1 as [|x l l' _ IH|x y l|l1 l2 l3 _ IH1 _ IH2]; simpl; [done|..].
  - by rewrite IH.
  - rewrite !app_assoc. by rewrite (Permutation_app_comm y x).
  - by rewrite IH1.
Qed.

#[global] Instance omap_perm {A B} (f : A -> option B) : Proper ((≡ₚ) ==> (≡ₚ)) (omap f).
Proof.
  induction 1 as [|x l l' _ IH|x y l|l1 l2 l3 _ IH1 _ IH2]; simpl; [done|..].
  - destruct (f x); [by constructor | done].
  - destruct (f x), (f y); done || constructor.
  - by rewrite IH1.
Qed.

(** [Vec::dedup] for a sorted vector: consecutive repeats removed. *)
Fixpoint dedup {A} `{EqDecision A} (l : list A) : list A :=
  match l with
  | x :: ((y :: _) as l') => if decide (x = y) then dedup l' else x :: dedup l'
  | _ => l
  end.

Lemma dedup_elem_of {A} `{EqDecision A} (l : list A) x : x ∈ dedup l <-> x ∈ l.
Proof.
  induction l as [|y [|z l] IH]; [done..|].
  change (dedup (y :: z :: l)) with (if decide (y = z) then dedup (z :: l) else y :: dedup (z :: l)).
  case_decide as Hyz; subst; set_solver.
Qed.

(** ** Case analysis on the guards of a handler

    [guards H] splits every test a handler makes before it returns [Ok],
    discards the branches that return an error, and leaves the equations. *)
Lemma ensure_eq_Ok {E A} `{EqDecision A} (x y : A) (e : E) :
  (if decide (x <> y) then Err e else Ok tt) = Ok tt <-> x = y.
Proof.
  destruct (decide _) as [Hn|Hn]; [naive_solver|].
  split; [intros _; apply dec_stable, Hn | done].
Qed.

Ltac clean_guards :=
  repeat match goal with
  | H : ~ (?x <> ?y) |- _ => apply dec_stable in H
  | H : negb _ = false |- _ => apply negb_false_iff in H
  | H : negb _ = true |- _ => apply negb_true_iff in H
  | H : bool_decide _ = true |- _ => apply bool_decide_eq_true_1 in H
  | H : bool_decide _ = false |- _ => apply bool_decide_eq_false_1 in H
  | H : orb _ _ = false |- _ => apply orb_false_iff in H; destruct H
  | H : andb _ _ = true |- _ => apply andb_true_iff in H; destruct H
  end.

Ltac guards_step H :=
  match type of H with
  | Ok _ = Ok _ => injection H; clear H; intros; subst
  | Err _ = Ok _ => discriminate H
  | Ok _ = Err _ => discriminate H
  | mbind _ _ = Ok _ =>
      let a := fresh "a" in let Ha := fresh "Ha" in
      apply bind_Ok_inv in H; destruct H as [a [Ha H]]
  | (if decide ?P then _ else _) = _ => destruct (decide P)
  | (if ?b then _ else _) = _ => destruct b eqn:?
  | match ?x with _ => _ end = _ => destruct x eqn:?
  end.

Ltac guards H := repeat guards_step H; clean_guards.

Ltac by_guards :=
  repeat (case_decide || case_match || simplify_eq/=); try done.

Create HintDb forge.
#[export] Hint Resolve wrapU_range wrapS_range insert_by_perm sort_by_perm : forge.
#[export] Hint Rewrite @try_fold_app : forge.
