(* ===== verification/Core.v ===== *)
(** * The domain foundation: [crates/core] and the identifiers and time it uses

    Identifiers, [DomainError], [ExpectedVersion] and the [Aggregate] trait as a
    type class with its laws; the generic consequences of the laws (rehydration,
    version counting, invariants of a replayed history) are proved here once for
    every aggregate. *)

From Stdlib Require Import DecimalString DecimalN.
From S2P Require Import Prelude.

(** ** Identifiers and time

    [uuid::Uuid] is its 128-bit value; the byte order [as_bytes] sorts by is the
    order of that number.  A [DateTime<Utc>] is its instant as an integer number
    of nanoseconds. *)
Abbreviation Uuid := N.
Abbreviation DateTime := Z.

(** @src crates/core/src/id.rs 9-12 [TenantId] *)
Record TenantId := mkTenantId { tenant_uuid : Uuid }.

(** @src crates/core/src/id.rs 29-31 [UserId] *)
Record UserId := mkUserId { user_uuid : Uuid }.

(** @src crates/core/src/id.rs 55-57 [AggregateId] *)
Record AggregateId := mkAggregateId { aggregate_uuid : Uuid }.

#[global] Instance TenantId_eq_dec : EqDecision TenantId.
Proof. solve_decision. Defined.
#[global] Instance UserId_eq_dec : EqDecision UserId.
Proof. solve_decision. Defined.
#[global] Instance AggregateId_eq_dec : EqDecision AggregateId.
Proof. solve_decision. Defined.

#[global] Instance TenantId_countable : Countable TenantId.
Proof. refine (inj_countable' tenant_uuid mkTenantId _); by intros []. Defined.
#[global] Instance UserId_countable : Countable UserId.
Proof. refine (inj_countable' user_uuid mkUserId _); by intros []. Defined.
#[global] Instance AggregateId_countable : Countable AggregateId.
Proof. refine (inj_countable' aggregate_uuid mkAggregateId _); by intros []. Defined.

(** ** Domain errors *)

(** @src crates/core/src/error.rs 54-79 [DomainError] *)
Inductive DomainError : Type :=
| Validation (msg : string)
| InvariantViolation (msg : string)
| InvalidId (msg : string)
| NotFound
| Conflict (msg : string)
| Unauthorized.

#[global] Instance DomainError_eq_dec : EqDecision DomainError.
Proof. solve_decision. Defined.

(** The [Display] text.

    @src crates/core/src/error.rs 54-79 [DomainError] *)
Definition show_domain_error (e : DomainError) : string :=
  match e with
  | Validation m => "validation failed: " +:+ m
  | InvariantViolation m => "invariant violated: " +:+ m
  | InvalidId m => "invalid identifier: " +:+ m
  | NotFound => "not found"
  | Conflict m => "conflict: " +:+ m
  | Unauthorized => "unauthorized"
  end.

(** @src crates/core/src/error.rs 14-14 [DomainResult] *)
Definition DomainResult : Type -> Type := Result DomainError.

(** ** Texts of identifiers and times

    The printers and parsers of the [uuid] and [chrono] crates. *)
Class Texts := {
  show_uuid : Uuid -> string;
  parse_uuid : string -> Result string Uuid;
  to_rfc3339 : DateTime -> string;
  parse_rfc3339 : string -> Result string DateTime
}.

(** A UUID is read as it was printed. *)
Class TextsLaws `{Texts} : Prop := {
  parse_show_uuid u : parse_uuid (show_uuid u) = Ok u
}.

(** [str::parse::<TenantId>] and [::<AggregateId>].

    @src crates/core/src/id.rs 97-105 [from_str] *)
Definition id_from_str `{Texts} {T} (name : string) (wrap : Uuid -> T) (s : string)
  : DomainResult T :=
  uuid ← map_err (fun e => InvalidId (name +:+ ": " +:+ e)) (parse_uuid s);
  Ok (wrap uuid).

#[global] Instance DomainResult_bind : MBind DomainResult := Result_bind.
#[global] Instance DomainResult_ret : MRet DomainResult := Result_ret.

(** ** Optimistic concurrency *)

(** @src crates/core/src/aggregate.rs 86-101 [ExpectedVersion] *)
Inductive ExpectedVersion : Type :=
| AnyVersion
| Exact (v : Z).

#[global] Instance ExpectedVersion_eq_dec : EqDecision ExpectedVersion.
Proof. solve_decision. Defined.

(** @src crates/core/src/aggregate.rs 105-110 [ExpectedVersion::matches] *)
Definition matches (self : ExpectedVersion) (actual : Z) : bool :=
  match self with
  | AnyVersion => true
  | Exact v => bool_decide (v = actual)
  end.

(** The derived [Debug] text of an expectation, used in messages. *)
Definition show_expected (self : ExpectedVersion) : string :=
  match self with
  | AnyVersion => "Any"
  | Exact v => "Exact(" +:+ pretty v +:+ ")"
  end.

(** @src crates/core/src/aggregate.rs 112-120 [ExpectedVersion::check] *)
Definition check (self : ExpectedVersion) (actual : Z) : DomainResult unit :=
  if matches self actual then Ok tt
  else Err (Conflict ("optimistic concurrency check failed (expected: "
                      +:+ show_expected self +:+ ", actual: " +:+ pretty actual +:+ ")")).

Lemma check_Ok e n : check e n = Ok tt <-> matches e n = true.
Proof. unfold check. destruct (matches e n); naive_solver. Qed.

(** ** The [Aggregate] trait

    [version] comes from [AggregateRoot], [apply] and [handle] from [Aggregate]. *)

(** @src crates/core/src/aggregate.rs 182-250 [Aggregate] *)
Class Aggregate (A C E : Type) := {
  agg_version : A -> Z;
  agg_apply : A -> E -> A;
  agg_handle : A -> C -> DomainResult (list E)
}.

(** Rehydration: [for ev in history { aggregate.apply(&ev) }]. *)
Definition replay {A C E} `{Aggregate A C E} (a : A) (es : list E) : A :=
  foldl agg_apply a es.

(** What the trait's documentation asks of an implementation: [apply] adds one to
    a [u64] version, and [inv] is an invariant of the decide/evolve cycle: the
    events a handler emits from a good state lead, one after the other, through
    good states. *)
Class AggregateLaws (A C E : Type) `{Aggregate A C E} := {
  agg_inv : A -> Prop;
  cmd_ok : C -> Prop;
  apply_version a e : agg_version (agg_apply a e) = wrapU 64 (agg_version a + 1);
  handle_inv a c es : agg_inv a -> cmd_ok c -> agg_handle a c = Ok es ->
    agg_inv (replay a es)
}.

Section AggregateTheory.
Context {A C E : Type} `{HA : Aggregate A C E}.

Lemma replay_app (a : A) (es es' : list E) :
  replay a (es ++ es') = replay (replay a es) es'.
Proof. apply foldl_app. Qed.

Lemma replay_snoc (a : A) (es : list E) (e : E) :
  replay a (es ++ [e]) = agg_apply (replay a es) e.
Proof. apply replay_app. Qed.

Context `{!AggregateLaws A C E}.

(** Rehydration counts the events, modulo the width of the counter. *)
Lemma replay_version (a : A) (es : list E) :
  is_u64 (agg_version a) ->
  agg_version (replay a es) = wrapU 64 (agg_version a + Z.of_nat (length es)).
Proof.
  revert a; induction es as [|e es IH]; intros a Ha; simpl.
  - by rewrite Z.add_0_r, wrapU_id.
  - rewrite IH; rewrite !apply_version; [|by apply wrapU_range].
    rewrite wrapU_add_l. f_equal. lia.
Qed.
End AggregateTheory.

(** A command run: decide on the current state, evolve by the decided events;
    a rejected command leaves the state as it was. *)
Definition run_command {A C E} `{Aggregate A C E} (a : A) (c : C) : A :=
  match agg_handle a c with Ok es => replay a es | Err _ => a end.

(** The events a run of commands emits, in order. *)
Fixpoint emitted {A C E} `{Aggregate A C E} (a : A) (cs : list C) : list E :=
  match cs with
  | [] => []
  | c :: cs' =>
    match agg_handle a c with Ok es => es | Err _ => [] end ++ emitted (run_command a c) cs'
  end.

(** Rehydrating from the emitted events gives the state the run ended in. *)
Lemma replay_emitted {A C E} `{Aggregate A C E} (a : A) (cs : list C) :
  replay a (emitted a cs) = foldl run_command a cs.
Proof.
  revert a; induction cs as [|c cs IH]; intros a; simpl; [done|].
  unfold replay. rewrite foldl_app, <- IH. unfold run_command, replay.
  by destruct (agg_handle a c).
Qed.

(** A fold over the emitted events follows the states of the run: if a relation
    between the fold and the state holds at the start and every accepted command
    keeps it, it holds at the end. *)
Lemma emitted_follows {A C E} `{AggregateLaws A C E} {V} (step : V -> E -> V)
    (R : V -> A -> Prop) (P : C -> Prop) (cs : list C) :
  (forall v a c es, R v a -> agg_inv a -> cmd_ok c -> P c -> agg_handle a c = Ok es ->
     R (foldl step v es) (replay a es)) ->
  forall v a, R v a -> agg_inv a -> Forall cmd_ok cs -> Forall P cs ->
  R (foldl step v (emitted a cs)) (foldl run_command a cs).
Proof.
  intros Hstep. induction cs as [|c cs IH]; intros v a Hr Hi Hok HP; simpl; [done|].
  apply Forall_cons_1 in Hok as [Hc Hok]. apply Forall_cons_1 in HP as [Hp HP].
  rewrite foldl_app. unfold run_command at 1 3.
  destruct (agg_handle a c) as [es|] eqn:Eh; [|by apply IH].
  apply IH; [by apply (Hstep v a c es) | by eapply handle_inv | done | done].
Qed.

(** When every accepted command of which [P] holds emits one event, the first events
    of a run of such commands are those of its first commands. *)
Lemma take_emitted_for {A C E} `{AggregateLaws A C E} (P : C -> Prop) (cs : list C) :
  (forall a c es, agg_inv a -> cmd_ok c -> P c -> agg_handle a c = Ok es -> length es = 1) ->
  forall a n, agg_inv a -> Forall cmd_ok cs -> Forall P cs ->
  exists m, take n (emitted a cs) = emitted a (take m cs).
Proof.
  intros Hone. induction cs as [|c cs IH]; intros a n Hi Hok HP; [exists 0; by destruct n|].
  apply Forall_cons_1 in Hok as [Hc Hok]. apply Forall_cons_1 in HP as [Hp HP].
  destruct n as [|n]; [by exists 0|]. cbn [emitted].
  destruct (agg_handle a c) as [es|err] eqn:Eh.
  - pose proof (Hone a c es Hi Hc Hp Eh) as Hl. destruct es as [|e [|]]; try discriminate.
    assert (Hi' : agg_inv (run_command a c))
      by (unfold run_command; rewrite Eh; by eapply handle_inv).
    destruct (IH _ n Hi' Hok HP) as [m Hm]. exists (S m). cbn [take emitted]. rewrite Eh. simpl.
    f_equal. exact Hm.
  - assert (Hr : run_command a c = a) by (unfold run_command; by rewrite Eh).
    rewrite Hr. destruct (IH a (S n) Hi Hok HP) as [m Hm]. exists (S m). cbn [take emitted].
    rewrite Eh, Hr. exact Hm.
Qed.

Lemma take_emitted {A C E} `{AggregateLaws A C E} (cs : list C) :
  (forall a c es, agg_inv a -> cmd_ok c -> agg_handle a c = Ok es -> length es = 1) ->
  forall a n, agg_inv a -> Forall cmd_ok cs ->
  exists m, take n (emitted a cs) = emitted a (take m cs).
Proof.
  intros Hone a n Hi Hok.
  apply (take_emitted_for (fun _ => True)); [eauto | done | done | by apply Forall_true].
Qed.

(** Every state a sequence of commands reaches satisfies the invariant. *)
Lemma run_commands_inv {A C E} `{AggregateLaws A C E} (cs : list C) (a : A) :
  agg_inv a -> Forall cmd_ok cs -> agg_inv (foldl run_command a cs).
Proof.
  revert a; induction cs as [|c cs IH]; intros a Ha Hcs; simpl; [done|].
  apply Forall_cons_1 in Hcs as [Hc Hcs]. apply IH; [|done]. unfold run_command.
  destruct (agg_handle a c) as [es|] eqn:Eh; [|done]. by eapply handle_inv.
Qed.

(** A fact [P] of the state that holds exactly since the last command that set it
    ([sets]) and until one that clears it ([clears]) holds at the end of a run iff
    some command of the run set it and none after that one cleared it. *)
Section Since.
Context {A C E : Type} `{Aggregate A C E}.
Variables (P : A -> Prop) (sets clears : A -> C -> Prop).

Definition set_since (a : A) (cs : list C) : Prop :=
  exists before c after, cs = before ++ c :: after
    /\ sets (foldl run_command a before) c
    /\ forall between c' rest, after = between ++ c' :: rest ->
         ~ clears (foldl run_command a (before ++ c :: between)) c'.

Lemma set_since_snoc a cs c :
  set_since a (cs ++ [c]) <->
  sets (foldl run_command a cs) c
  \/ (set_since a cs /\ ~ clears (foldl run_command a cs) c).
Proof.
  split.
  - intros (before & c1 & after & E1 & Hs & Hk).
    destruct after as [|x l _] using rev_ind.
    + apply app_inj_tail in E1 as [-> ->]. by left.
    + rewrite app_comm_cons, app_assoc in E1. apply app_inj_tail in E1 as [-> ->]. right.
      split; [|by apply (Hk l x [])].
      exists before, c1, l. split; [done|]. split; [done|]. intros between c' rest ->.
      apply (Hk between c' (rest ++ [x])). by rewrite <- app_assoc.
  - intros [Hs|[(before & c1 & after & -> & Hs & Hk) Hc]].
    + exists cs, c, []. split; [done|]. split; [done|].
      intros between c' rest E1. by destruct between.
    + exists before, c1, (after ++ [c]). split; [by rewrite <- app_assoc|]. split; [done|].
      intros between c' rest E1. destruct rest as [|x l _] using rev_ind.
      * apply app_inj_tail in E1 as [-> ->]. done.
      * rewrite app_comm_cons, app_assoc in E1. apply app_inj_tail in E1 as [E1 ->].
        by apply (Hk between c' l).
Qed.

Lemma run_since (Inv : A -> Prop) a cs :
  Inv a -> ~ P a ->
  (forall s c, Inv s -> Inv (run_command s c)
     /\ (P (run_command s c) <-> sets s c \/ (P s /\ ~ clears s c))) ->
  P (foldl run_command a cs) <-> set_since a cs.
Proof.
  intros Ha Hp Hstep.
  enough (Hboth : Inv (foldl run_command a cs)
    /\ (P (foldl run_command a cs) <-> set_since a cs)) by apply Hboth.
  induction cs as [|c cs [IHi IHp]] using rev_ind.
  - split; [done|]. split; [done|]. intros (before & c & after & E1 & _). by destruct before.
  - rewrite foldl_snoc, set_since_snoc, <- IHp. by apply Hstep.
Qed.
End Since.

#[export] Hint Resolve run_commands_inv : forge.

(** ** Concrete texts

    Numbers stand for the texts of UUIDs and times in the sample runs. *)
Module SampleTexts.

Definition show_number (n : N) : string := NilEmpty.string_of_uint (N.to_uint n).
Definition read_number (s : string) : Result string N :=
  match NilEmpty.uint_of_string s with
  | Some d => Ok (N.of_uint d) | None => Err "invalid"%string
  end.

Lemma read_show_number n : read_number (show_number n) = Ok n.
Proof. unfold read_number, show_number. by rewrite NilEmpty.usu, DecimalN.Unsigned.of_to. Qed.

#[export] Instance sample_texts : Texts := {|
  show_uuid := show_number; parse_uuid := read_number;
  to_rfc3339 t := show_number (Z.to_N t);
  parse_rfc3339 s := n ← read_number s; Ok (Z.of_N n)
|}.

#[export] Instance sample_texts_laws : TextsLaws.
Proof. constructor. exact read_show_number. Qed.
End SampleTexts.
