(* ===== verification/Events.v ===== *)
(** * The event contract: [crates/events]

    The [Event] trait, the envelope every event travels in, the in-place
    [execute] of a command, and the [ProjectionRunner] that feeds envelopes to a
    projection under a cursor. *)

From S2P Require Import Prelude Core.

(** ** The [Event] trait *)

(** @src crates/events/src/event.rs 44-99 [Event] *)
Class Event (E : Type) := {
  event_type : E -> string;
  event_version : E -> Z;
  occurred_at : E -> DateTime
}.

(** ** Envelopes *)

(** @src crates/events/src/envelope.rs 58-70 [EventEnvelope] *)
Record EventEnvelope (P : Type) := mkEnvelope {
  env_event_id : Uuid;
  env_tenant_id : TenantId;
  env_aggregate_id : AggregateId;
  env_aggregate_type : string;
  env_sequence_number : Z;
  env_payload : P
}.
Arguments mkEnvelope {P}.
Arguments env_event_id {P}.
Arguments env_tenant_id {P}.
Arguments env_aggregate_id {P}.
Arguments env_aggregate_type {P}.
Arguments env_sequence_number {P}.
Arguments env_payload {P}.

(** @src crates/events/src/tenant.rs 32-42 [TenantScoped] *)
Class TenantScoped (M : Type) := { scoped_tenant : M -> TenantId }.

#[global] Instance envelope_scoped {P} : TenantScoped (EventEnvelope P) :=
  {| scoped_tenant := env_tenant_id |}.

(** ** Executing a command in place *)

(** @src crates/events/src/handler.rs 64-75 [execute] *)
Definition execute {A C E} `{Aggregate A C E} (aggregate : A) (command : C)
  : A * DomainResult (list E) :=
  match agg_handle aggregate command with
  | Err e => (aggregate, Err e)
  | Ok events => (foldl agg_apply aggregate events, Ok events)
  end.

(** [execute] is the command run of the aggregate theory. *)
Lemma execute_run_command {A C E} `{Aggregate A C E} (a : A) (c : C) :
  (execute a c).1 = run_command a c.
Proof. unfold execute, run_command, replay. by destruct (agg_handle a c). Qed.

(** ** Projections and their runner *)

(** @src crates/events/src/projection.rs 48-85 [Projection] *)
Class Projection (P Ev : Type) := { proj_apply : P -> EventEnvelope Ev -> P }.

(** @src crates/events/src/runner.rs 30-35 [ProjectionCursor] *)
Record ProjectionCursor := mkCursor {
  cur_tenant_id : TenantId;
  cur_last_sequence_number : Z
}.

(** @src crates/events/src/runner.rs 47-51 [ProjectionError] *)
Inductive ProjectionError : Type :=
| TenantMismatch (expected found : TenantId)
| NonMonotonicSequence (last found : Z).

(** @src crates/events/src/runner.rs 103-110 [ProjectionRunner] *)
Record ProjectionRunner (P : Type) := mkRunner {
  projection : P;
  cursor : option ProjectionCursor
}.
Arguments mkRunner {P}.
Arguments projection {P}.
Arguments cursor {P}.

Section Runner.
Context {P Ev : Type} `{!Projection P Ev}.

(** @src crates/events/src/runner.rs 116-121 [ProjectionRunner::new] *)
Definition runner_new (p : P) : ProjectionRunner P :=
  {| projection := p; cursor := None |}.

(** @src crates/events/src/runner.rs 123-135 [ProjectionRunner::new_for_tenant] *)
Definition runner_new_for_tenant (tenant_id : TenantId) (p : P) : ProjectionRunner P :=
  {| projection := p;
     cursor := Some {| cur_tenant_id := tenant_id; cur_last_sequence_number := 0 |} |}.

(** The runner is updated in place: an error comes with the state the run
    stopped in.

    @src crates/events/src/runner.rs 183-216 [ProjectionRunner::apply] *)
Definition runner_apply (self : ProjectionRunner P) (envelope : EventEnvelope Ev)
  : ProjectionRunner P * Result ProjectionError unit :=
  let found_tenant := env_tenant_id envelope in
  let found_seq := env_sequence_number envelope in
  match cursor self with
  | None =>
    ({| projection := proj_apply (projection self) envelope;
        cursor := Some {| cur_tenant_id := found_tenant;
                          cur_last_sequence_number := found_seq |} |}, Ok tt)
  | Some c =>
    if decide (cur_tenant_id c <> found_tenant) then
      (self, Err (TenantMismatch (cur_tenant_id c) found_tenant))
    else if decide (found_seq <= cur_last_sequence_number c)%Z then
      (self, Err (NonMonotonicSequence (cur_last_sequence_number c) found_seq))
    else
      ({| projection := proj_apply (projection self) envelope;
          cursor := Some {| cur_tenant_id := cur_tenant_id c;
                            cur_last_sequence_number := found_seq |} |}, Ok tt)
  end.

(** @src crates/events/src/runner.rs 218-230 [ProjectionRunner::run] *)
Fixpoint runner_run (self : ProjectionRunner P) (envelopes : list (EventEnvelope Ev))
  : ProjectionRunner P * Result ProjectionError unit :=
  match envelopes with
  | [] => (self, Ok tt)
  | env :: rest =>
    match runner_apply self env with
    | (self', Ok _) => runner_run self' rest
    | (self', Err e) => (self', Err e)
    end
  end.

(** @src crates/events/src/runner.rs 277-287 [ProjectionRunner::rebuild_from_scratch] *)
Definition runner_rebuild (factory : unit -> P) (envelopes : list (EventEnvelope Ev))
  : Result ProjectionError (P * option ProjectionCursor) :=
  let '(runner, r) := runner_run (runner_new (factory tt)) envelopes in
  match r with
  | Ok _ => Ok (projection runner, cursor runner)
  | Err e => Err e
  end.

(** ** What the runner accepts

    The cursor an envelope leaves behind, and when the runner takes it. *)
Definition cursor_of (e : EventEnvelope Ev) : ProjectionCursor :=
  {| cur_tenant_id := env_tenant_id e; cur_last_sequence_number := env_sequence_number e |}.

Definition acceptable (c : option ProjectionCursor) (e : EventEnvelope Ev) : Prop :=
  match c with
  | None => True
  | Some c => env_tenant_id e = cur_tenant_id c
              /\ (cur_last_sequence_number c < env_sequence_number e)%Z
  end.

Fixpoint accepted (c : option ProjectionCursor) (es : list (EventEnvelope Ev)) : Prop :=
  match es with
  | [] => True
  | e :: es' => acceptable c e /\ accepted (Some (cursor_of e)) es'
  end.

Definition cursor_after (c : option ProjectionCursor) (es : list (EventEnvelope Ev))
  : option ProjectionCursor :=
  match last es with Some e => Some (cursor_of e) | None => c end.

Definition refusal (c : option ProjectionCursor) (e : EventEnvelope Ev)
  : option ProjectionError :=
  match c with
  | None => None
  | Some c =>
    if decide (cur_tenant_id c <> env_tenant_id e)
    then Some (TenantMismatch (cur_tenant_id c) (env_tenant_id e))
    else if decide (env_sequence_number e <= cur_last_sequence_number c)%Z
    then Some (NonMonotonicSequence (cur_last_sequence_number c) (env_sequence_number e))
    else None
  end.

Lemma refusal_None c e : refusal c e = None <-> acceptable c e.
Proof.
  unfold refusal, acceptable. destruct c as [c|]; [|done].
  destruct (decide _) as [Ht|Ht]; [split; [done|intros [? ?]; congruence]|].
  destruct (decide _) as [Hs|Hs]; [split; [done|lia]|].
  split; [|done]. intros _. split; [|lia].
  apply dec_stable; intros Hn; apply Ht; congruence.
Qed.

Lemma runner_apply_spec (r : ProjectionRunner P) (e : EventEnvelope Ev) :
  runner_apply r e =
  match refusal (cursor r) e with
  | None => ({| projection := proj_apply (projection r) e;
                cursor := Some (cursor_of e) |}, Ok tt)
  | Some err => (r, Err err)
  end.
Proof.
  unfold runner_apply, refusal, cursor_of.
  destruct (cursor r) as [c|]; [|done]. destruct (decide _) as [Ht|Ht]; [done|].
  case_decide; [done|].
  replace (cur_tenant_id c) with (env_tenant_id e); [done|]. apply dec_stable; intros Hn; apply Ht; congruence.
Qed.

Lemma cursor_after_cons c e es :
  cursor_after c (e :: es) = cursor_after (Some (cursor_of e)) es.
Proof.
  destruct es as [|e' es]; [done|]. unfold cursor_after. rewrite last_cons_cons.
  destruct (last (e' :: es)) eqn:El; [done|]. by apply last_None in El.
Qed.

(** Feeding a list of envelopes to a runner applies exactly the longest
    prefix in which every envelope carries the pinned tenant and a sequence
    number above the previous one; the projection and the cursor are those of
    that prefix, and the first refused envelope gives the error. *)
Theorem runner_run_prefix (self : ProjectionRunner P) (envs : list (EventEnvelope Ev)) :
  exists pre post,
    envs = pre ++ post
    /\ accepted (cursor self) pre
    /\ (runner_run self envs).1
       = {| projection := foldl proj_apply (projection self) pre;
            cursor := cursor_after (cursor self) pre |}
    /\ match post with
       | [] => (runner_run self envs).2 = Ok tt
       | e :: _ => exists err, refusal (cursor_after (cursor self) pre) e = Some err
                               /\ (runner_run self envs).2 = Err err
       end.
Proof.
  revert self; induction envs as [|e envs IH]; intros self.
  { exists [], []. by destruct self. }
  simpl. rewrite runner_apply_spec. 
  destruct (refusal (cursor self) e) as [err|] eqn:Er.
  { exists [], (e :: envs). destruct self; simpl in *. eauto 6. }
  destruct (IH {| projection := proj_apply (projection self) e;
                  cursor := Some (cursor_of e) |}) as (pre & post & -> & Hacc & Hr & Hp).
  exists (e :: pre), post. rewrite cursor_after_cons. simpl in *.
  apply refusal_None in Er. naive_solver.
Qed.

Lemma accepted_all_ok (self : ProjectionRunner P) envs :
  (runner_run self envs).2 = Ok tt <-> accepted (cursor self) envs.
Proof.
  revert self; induction envs as [|e envs IH]; intros self; simpl; [done|].
  rewrite runner_apply_spec. pose proof (refusal_None (cursor self) e).
  destruct (refusal (cursor self) e) as [err|]; simpl; [|rewrite IH; simpl; tauto].
  split; [done|]. intros [Ha _]. by apply H in Ha.
Qed.

Lemma accepted_sorted (c : option ProjectionCursor) (es : list (EventEnvelope Ev)) :
  accepted c es <->
  StronglySorted (fun e e' => env_tenant_id e' = env_tenant_id e
                              /\ (env_sequence_number e < env_sequence_number e')%Z) es
  /\ Forall (acceptable c) es.
Proof.
  revert c; induction es as [|e es IH]; intros c; simpl.
  { split; [|done]. by repeat constructor. }
  rewrite IH. split.
  - intros [Hc [Hs Hf]]. split; [by constructor|]. constructor; [done|].
    eapply Forall_impl; [exact Hf|]. intros e' [Ht Hl]; simpl in *.
    destruct c as [c|]; simpl in *; [|done]. destruct Hc. split; [congruence|lia].
  - intros [Hs Hf]. apply StronglySorted_inv in Hs as [Hs He].
    apply Forall_cons_1 in Hf as [Hc Hf]. done.
Qed.

(** A rebuild from scratch succeeds exactly on histories of one tenant whose
    sequence numbers strictly increase from one envelope to every later one (so
    never on the history of two streams, each of which starts at 1). *)
Theorem runner_rebuild_iff (factory : unit -> P) (envs : list (EventEnvelope Ev)) :
  is_ok (runner_rebuild factory envs) = true <->
  StronglySorted (fun e e' => env_tenant_id e' = env_tenant_id e
                              /\ (env_sequence_number e < env_sequence_number e')%Z) envs.
Proof.
  unfold runner_rebuild.
  pose proof (accepted_all_ok (runner_new (factory tt)) envs) as Ha.
  destruct (runner_run _ envs) as [r [[]|err]]; simpl in *;
    rewrite accepted_sorted in Ha; [naive_solver|].
  split; [done|]. intros Hs. discriminate (proj2 Ha (conj Hs (Forall_true _ _ (fun _ => I)))).
Qed.
End Runner.
