(* ===== verification/Inventory.v ===== *)
(** * Inventory items: [crates/inventory/src/item.rs]

    The [InventoryItem] aggregate: its events and commands, [apply], the
    handlers, and the invariant that stock stays a non-negative [i64].  [i64]
    additions wrap, as in the release build. *)

From S2P Require Import Prelude Core Events.

(** @src crates/inventory/src/item.rs 7-16 [InventoryItemId] *)
Record InventoryItemId := mkInventoryItemId { item_aggregate : AggregateId }.

#[global] Instance InventoryItemId_eq_dec : EqDecision InventoryItemId.
Proof. solve_decision. Defined.
#[global] Instance InventoryItemId_countable : Countable InventoryItemId.
Proof. refine (inj_countable' item_aggregate mkInventoryItemId _); by intros []. Defined.

(** @src crates/inventory/src/item.rs 24-33 [InventoryItem] *)
Record InventoryItem := mkInventoryItem {
  item_id : InventoryItemId;
  item_tenant_id : option TenantId;
  item_name : string;
  item_stock : Z;
  item_version : Z;
  item_created : bool
}.

(** @src crates/inventory/src/item.rs 36-46 [InventoryItem::empty] *)
Definition empty (id : InventoryItemId) : InventoryItem :=
  {| item_id := id; item_tenant_id := None; item_name := ""; item_stock := 0;
     item_version := 0; item_created := false |}.

(** @src crates/inventory/src/item.rs 73-80 [CreateItem] *)
Record CreateItem := mkCreateItem {
  ci_tenant_id : TenantId;
  ci_item_id : InventoryItemId;
  ci_name : string;
  ci_occurred_at : DateTime
}.

(** @src crates/inventory/src/item.rs 82-89 [AdjustStock] *)
Record AdjustStock := mkAdjustStock {
  as_tenant_id : TenantId;
  as_item_id : InventoryItemId;
  as_delta : Z;
  as_occurred_at : DateTime
}.

(** @src crates/inventory/src/item.rs 91-95 [InventoryCommand] *)
Inductive InventoryCommand : Type :=
| CmdCreateItem (cmd : CreateItem)
| CmdAdjustStock (cmd : AdjustStock).

(** @src crates/inventory/src/item.rs 97-104 [ItemCreated] *)
Record ItemCreated := mkItemCreated {
  ic_tenant_id : TenantId;
  ic_item_id : InventoryItemId;
  ic_name : string;
  ic_occurred_at : DateTime
}.

(** @src crates/inventory/src/item.rs 106-113 [StockAdjusted] *)
Record StockAdjusted := mkStockAdjusted {
  sa_tenant_id : TenantId;
  sa_item_id : InventoryItemId;
  sa_delta : Z;
  sa_occurred_at : DateTime
}.

(** @src crates/inventory/src/item.rs 115-119 [InventoryEvent] *)
Inductive InventoryEvent : Type :=
| EvItemCreated (e : ItemCreated)
| EvStockAdjusted (e : StockAdjusted).

#[global] Instance ItemCreated_eq_dec : EqDecision ItemCreated.
Proof. solve_decision. Defined.
#[global] Instance StockAdjusted_eq_dec : EqDecision StockAdjusted.
Proof. solve_decision. Defined.
#[global] Instance InventoryEvent_eq_dec : EqDecision InventoryEvent.
Proof. solve_decision. Defined.

(** @src crates/inventory/src/item.rs 121-139 [InventoryEvent::event_type] *)
#[global] Instance InventoryEvent_event : Event InventoryEvent := {|
  event_type ev :=
    match ev with
    | EvItemCreated _ => "inventory.item.created"
    | EvStockAdjusted _ => "inventory.item.stock_adjusted"
    end%string;
  event_version _ := 1%Z;
  occurred_at ev :=
    match ev with
    | EvItemCreated e => ic_occurred_at e
    | EvStockAdjusted e => sa_occurred_at e
    end
|}.

(** @src crates/inventory/src/item.rs 146-162 [InventoryItem::apply] *)
Definition apply (self : InventoryItem) (event : InventoryEvent) : InventoryItem :=
  match event with
  | EvItemCreated e =>
    {| item_id := ic_item_id e; item_tenant_id := Some (ic_tenant_id e);
       item_name := ic_name e; item_stock := 0;
       item_version := wrapU 64 (item_version self + 1); item_created := true |}
  | EvStockAdjusted e =>
    {| item_id := item_id self; item_tenant_id := item_tenant_id self;
       item_name := item_name self;
       item_stock := wrapS 64 (item_stock self + sa_delta e);
       item_version := wrapU 64 (item_version self + 1);
       item_created := item_created self |}
  end.

(** @src crates/inventory/src/item.rs 173-181 [InventoryItem::ensure_tenant] *)
Definition ensure_tenant (self : InventoryItem) (tenant_id : TenantId) : DomainResult unit :=
  if negb (item_created self) then Ok tt
  else if decide (item_tenant_id self <> Some tenant_id)
  then Err (InvariantViolation "tenant mismatch")
  else Ok tt.

(** @src crates/inventory/src/item.rs 183-188 [InventoryItem::ensure_item_id] *)
Definition ensure_item_id (self : InventoryItem) (id : InventoryItemId) : DomainResult unit :=
  if decide (item_id self <> id) then Err (InvariantViolation "item_id mismatch") else Ok tt.

(** @src crates/inventory/src/item.rs 190-203 [InventoryItem::handle_create] *)
Definition handle_create (self : InventoryItem) (cmd : CreateItem)
  : DomainResult (list InventoryEvent) :=
  if item_created self then Err (Conflict "item already exists")
  else if is_blank (ci_name cmd) then Err (Validation "name cannot be empty")
  else Ok [EvItemCreated {| ic_tenant_id := ci_tenant_id cmd; ic_item_id := ci_item_id cmd;
                            ic_name := ci_name cmd; ic_occurred_at := ci_occurred_at cmd |}].

(** @src crates/inventory/src/item.rs 205-227 [InventoryItem::handle_adjust] *)
Definition handle_adjust (self : InventoryItem) (cmd : AdjustStock)
  : DomainResult (list InventoryEvent) :=
  if negb (item_created self) then Err NotFound else
  _ ← ensure_tenant self (as_tenant_id cmd);
  _ ← ensure_item_id self (as_item_id cmd);
  if decide (as_delta cmd = 0%Z) then Err (Validation "delta cannot be zero") else
  let new_stock := wrapS 64 (item_stock self + as_delta cmd) in
  if decide (new_stock < 0)%Z then Err (InvariantViolation "stock cannot go negative")
  else Ok [EvStockAdjusted {| sa_tenant_id := as_tenant_id cmd; sa_item_id := as_item_id cmd;
                              sa_delta := as_delta cmd;
                              sa_occurred_at := as_occurred_at cmd |}].

(** @src crates/inventory/src/item.rs 164-169 [InventoryItem::handle] *)
Definition handle (self : InventoryItem) (command : InventoryCommand)
  : DomainResult (list InventoryEvent) :=
  match command with
  | CmdCreateItem cmd => handle_create self cmd
  | CmdAdjustStock cmd => handle_adjust self cmd
  end.

(** @src crates/inventory/src/item.rs 61-71 [AggregateRoot for InventoryItem] *)
#[global] Instance InventoryItem_aggregate
  : Aggregate InventoryItem InventoryCommand InventoryEvent :=
  {| agg_version := item_version; agg_apply := apply; agg_handle := handle |}.

(** ** The invariant *)

Definition inv (s : InventoryItem) : Prop :=
  is_u64 (item_version s)
  /\ (0 <= item_stock s < 2 ^ 63)%Z
  /\ item_created s = bool_decide (is_Some (item_tenant_id s))
  /\ (item_created s = false -> item_stock s = 0%Z).

(** A deserialized command carries an [i64] delta. *)
Definition command_ok (c : InventoryCommand) : Prop :=
  match c with CmdCreateItem _ => True | CmdAdjustStock c => is_i64 (as_delta c) end.

Lemma item_empty_inv id : inv (empty id).
Proof. unfold inv, empty; simpl. repeat split; ilia. Qed.

(** The wrapped sum is non-negative exactly when the mathematical sum is a
    non-negative [i64], and then they agree. *)
Lemma wrapped_stock_nonneg stock delta :
  (0 <= stock < 2 ^ 63)%Z -> is_i64 delta ->
  (0 <= wrapS 64 (stock + delta))%Z ->
  (0 <= stock + delta < 2 ^ 63)%Z /\ wrapS 64 (stock + delta) = (stock + delta)%Z.
Proof.
  intros Hs Hd Hw. destruct (decide (stock + delta < 2 ^ 63)%Z) as [Hlt|Hge].
  - rewrite wrapS_id in *; [split; [lia|done]|lia|ilia|lia|ilia].
  - rewrite wrapS_above in Hw; ilia.
Qed.

(** What acceptance of an adjustment says. *)
Definition adjust_accepted (s : InventoryItem) (c : AdjustStock) : Prop :=
  item_created s = true /\ item_tenant_id s = Some (as_tenant_id c)
  /\ item_id s = as_item_id c /\ as_delta c <> 0%Z
  /\ (0 <= item_stock s + as_delta c < 2 ^ 63)%Z.

Lemma item_ensure_tenant_Ok s t :
  item_created s = true -> ensure_tenant s t = Ok tt <-> item_tenant_id s = Some t.
Proof.
  unfold ensure_tenant. intros ->; simpl. destruct (decide _) as [H|H]; [naive_solver|].
  split; [|done]. intros _. apply dec_stable, H.
Qed.

Lemma ensure_item_id_Ok s i : ensure_item_id s i = Ok tt <-> item_id s = i.
Proof.
  unfold ensure_item_id. destruct (decide _) as [H|H]; [naive_solver|].
  split; [|done]. intros _. apply dec_stable, H.
Qed.

Lemma handle_adjust_Ok s c es :
  inv s -> is_i64 (as_delta c) -> handle_adjust s c = Ok es ->
  adjust_accepted s c
  /\ es = [EvStockAdjusted {| sa_tenant_id := as_tenant_id c; sa_item_id := as_item_id c;
                              sa_delta := as_delta c; sa_occurred_at := as_occurred_at c |}].
Proof.
  intros (_ & Hs & _) Hd. unfold handle_adjust.
  destruct (item_created s) eqn:Ec; simpl; [|done]. intros H.
  apply bind_Ok_inv in H as [[] [Ht H]]. apply bind_Ok_inv in H as [[] [Hi H]].
  apply item_ensure_tenant_Ok in Ht; [|done]. apply ensure_item_id_Ok in Hi.
  destruct (decide _) as [|Hz]; [done|]. destruct (decide _) as [|Hn]; [done|].
  injection H as <-. split; [|done]. unfold adjust_accepted.
  destruct (wrapped_stock_nonneg (item_stock s) (as_delta c)); naive_solver lia.
Qed.

Lemma handle_create_Ok s c es :
  handle_create s c = Ok es ->
  item_created s = false /\ is_blank (ci_name c) = false
  /\ es = [EvItemCreated {| ic_tenant_id := ci_tenant_id c; ic_item_id := ci_item_id c;
                            ic_name := ci_name c; ic_occurred_at := ci_occurred_at c |}].
Proof. unfold handle_create. intros H; guards H; try done. Qed.

(** What an accepted command does to the state. *)
Definition evolved (s : InventoryItem) (c : InventoryCommand) : InventoryItem :=
  match c with
  | CmdCreateItem c =>
    {| item_id := ci_item_id c; item_tenant_id := Some (ci_tenant_id c);
       item_name := ci_name c; item_stock := 0;
       item_version := wrapU 64 (item_version s + 1); item_created := true |}
  | CmdAdjustStock c =>
    {| item_id := item_id s; item_tenant_id := item_tenant_id s; item_name := item_name s;
       item_stock := item_stock s + as_delta c;
       item_version := wrapU 64 (item_version s + 1); item_created := item_created s |}
  end.

Definition accepts (s : InventoryItem) (c : InventoryCommand) : Prop :=
  match c with
  | CmdCreateItem c => item_created s = false /\ is_blank (ci_name c) = false
  | CmdAdjustStock c => adjust_accepted s c
  end.

Lemma handle_Ok s c es :
  inv s -> command_ok c -> handle s c = Ok es ->
  accepts s c /\ replay s es = evolved s c /\ length es = 1.
Proof.
  intros Hi Hc H. destruct c as [c|c]; simpl in H.
  - apply handle_create_Ok in H as (Hc1 & Hb & ->). done.
  - apply handle_adjust_Ok in H as [Ha ->]; [|done..]. split; [done|]. split; [|done].
    unfold replay, evolved; simpl. f_equal.
    destruct Ha as (_ & _ & _ & _ & Hr). rewrite wrapS_id; ilia.
Qed.

Lemma item_evolved_inv s c : inv s -> command_ok c -> accepts s c -> inv (evolved s c).
Proof.
  intros (Hv & Hs & Hc & Hz) Hok Ha.
  assert (Hw : is_u64 (wrapU 64 (item_version s + 1))) by (apply wrapU_range; lia).
  destruct c as [c|c]; simpl in *; (split; [exact Hw|]).
  - simpl. repeat split; ilia.
  - destruct Ha as (Hcr & Ht & _ & _ & Hr). simpl.
    split; [lia|]. split; [by rewrite Hcr, Ht|]. congruence.
Qed.

#[global] Instance InventoryItem_laws
  : AggregateLaws InventoryItem InventoryCommand InventoryEvent.
Proof.
  refine {| agg_inv := inv; cmd_ok := command_ok |}.
  - by intros s [e|e].
  - intros s c es Hi Hc H. destruct (handle_Ok s c es Hi Hc H) as (Ha & -> & _).
    by apply item_evolved_inv.
Defined.

(** ** Properties *)

(** On every reachable state and every [i64] delta, an adjustment is accepted
    exactly when the item exists, tenant and item match, the delta is not zero
    and the exact sum is a non-negative [i64]; the addition of the handler and
    the one of [apply] then do not overflow and the stock becomes that sum. *)
Theorem adjust_stock_exact (s : InventoryItem) (c : AdjustStock) :
  inv s -> is_i64 (as_delta c) ->
  (is_ok (handle s (CmdAdjustStock c)) = true <-> adjust_accepted s c)
  /\ (forall es, handle s (CmdAdjustStock c) = Ok es ->
        item_stock (replay s es) = (item_stock s + as_delta c)%Z).
Proof.
  intros Hi Hd. split.
  - split; simpl.
    + destruct (handle_adjust s c) as [es|e] eqn:E; [|done]. intros _.
      by apply handle_adjust_Ok in E as [].
    + intros (Hc & Ht & Hid & Hz & Hr). unfold handle_adjust. rewrite Hc; simpl.
      rewrite (proj2 (item_ensure_tenant_Ok _ _ Hc) Ht); simpl.
      rewrite (proj2 (ensure_item_id_Ok _ _) Hid); simpl.
      rewrite decide_False by done. rewrite wrapS_id by ilia.
      by rewrite decide_False by lia.
  - intros es H. by destruct (handle_Ok s (CmdAdjustStock c) es Hi Hd H) as (_ & -> & _).
Qed.

Definition sample_id : InventoryItemId := {| item_aggregate := {| aggregate_uuid := 7 |} |}.
Definition sample_tenant : TenantId := {| tenant_uuid := 1 |}.
Definition sample_item : InventoryItem :=
  run_command (empty sample_id)
    (CmdCreateItem {| ci_tenant_id := sample_tenant; ci_item_id := sample_id;
                      ci_name := "bolt"; ci_occurred_at := 0 |}).
Definition sample_adjust (d : Z) : AdjustStock :=
  {| as_tenant_id := sample_tenant; as_item_id := sample_id; as_delta := d;
     as_occurred_at := 0 |}.

Lemma sample_item_inv : inv sample_item.
Proof. vm_compute. repeat split; congruence. Qed.

Lemma adjust_stock_exact_witness :
  is_ok (handle sample_item (CmdAdjustStock (sample_adjust 5))) = true
  /\ is_ok (handle sample_item (CmdAdjustStock (sample_adjust (-1)))) = false
  /\ (is_ok (handle sample_item (CmdAdjustStock (sample_adjust 5))) = true
      <-> adjust_accepted sample_item (sample_adjust 5)).
Proof.
  split; [reflexivity|]. split; [reflexivity|].
  apply (adjust_stock_exact sample_item (sample_adjust 5)); [apply sample_item_inv|].
  vm_compute; split; congruence.
Defined.

(** C12: whatever sequence of commands is sent to an item, accepted or not, its
    stock is a non-negative [i64] at every point. *)
Theorem stock_never_negative (id : InventoryItemId) (cs : list InventoryCommand) :
  Forall command_ok cs ->
  (0 <= item_stock (foldl run_command (empty id) cs) < 2 ^ 63)%Z.
Proof.
  intros Hcs. destruct (run_commands_inv cs (empty id)) as (_ & Hs & _);
    [apply item_empty_inv | exact Hcs | exact Hs].
Qed.

Lemma stock_never_negative_witness :
  (0 <= item_stock (foldl run_command sample_item
          [CmdAdjustStock (sample_adjust 9); CmdAdjustStock (sample_adjust (-20))]) < 2 ^ 63)%Z
  /\ (0 <= item_stock (foldl run_command (empty sample_id)
          [CmdAdjustStock (sample_adjust 9)]) < 2 ^ 63)%Z.
Proof.
  split; [vm_compute; split; congruence|]. apply stock_never_negative.
  constructor; [|constructor]. vm_compute; split; congruence.
Defined.
