(* ===== verification/Products.v ===== *)
(** * The product catalogue: [crates/products/src/product.rs]

    The [Product] aggregate and its life cycle Draft, Active, Archived. *)

From S2P Require Import Prelude Core Events.

(** @src crates/products/src/product.rs 7-16 [ProductId] *)
Record ProductId := mkProductId { product_aggregate : AggregateId }.

#[global] Instance ProductId_eq_dec : EqDecision ProductId.
Proof. solve_decision. Defined.
#[global] Instance ProductId_countable : Countable ProductId.
Proof. refine (inj_countable' product_aggregate mkProductId _); by intros []. Defined.

(** @src crates/products/src/product.rs 24-31 [ProductStatus] *)
Inductive ProductStatus : Type := Draft | Active | Archived.

#[global] Instance ProductStatus_eq_dec : EqDecision ProductStatus.
Proof. solve_decision. Defined.

(** @src crates/products/src/product.rs 33-38 [PricingMetadata] *)
Record PricingMetadata := mkPricing {
  base_price : option Z;
  currency : option string
}.

#[global] Instance PricingMetadata_eq_dec : EqDecision PricingMetadata.
Proof. solve_decision. Defined.

(** @src crates/products/src/product.rs 40-47 [PricingMetadata::default] *)
Definition pricing_default : PricingMetadata := {| base_price := None; currency := None |}.

(** @src crates/products/src/product.rs 49-60 [Product] *)
Record Product := mkProduct {
  prod_id : ProductId;
  prod_tenant_id : option TenantId;
  prod_sku : string;
  prod_name : string;
  prod_status : ProductStatus;
  prod_pricing : PricingMetadata;
  prod_version : Z;
  prod_created : bool
}.

(** @src crates/products/src/product.rs 63-75 [Product::empty] *)
Definition empty (id : ProductId) : Product :=
  {| prod_id := id; prod_tenant_id := None; prod_sku := ""; prod_name := "";
     prod_status := Draft; prod_pricing := pricing_default; prod_version := 0;
     prod_created := false |}.

(** @src crates/products/src/product.rs 101-104 [Product::can_be_sold] *)
Definition can_be_sold (self : Product) : bool := bool_decide (prod_status self = Active).

(** @src crates/products/src/product.rs 119-128 [CreateProduct] *)
Record CreateProduct := mkCreateProduct {
  cp_tenant_id : TenantId;
  cp_product_id : ProductId;
  cp_sku : string;
  cp_name : string;
  cp_pricing : option PricingMetadata;
  cp_occurred_at : DateTime
}.

(** @src crates/products/src/product.rs 130-136 [ActivateProduct] *)
Record ActivateProduct := mkActivateProduct {
  acp_tenant_id : TenantId;
  acp_product_id : ProductId;
  acp_occurred_at : DateTime
}.

(** @src crates/products/src/product.rs 138-144 [ArchiveProduct] *)
Record ArchiveProduct := mkArchiveProduct {
  arp_tenant_id : TenantId;
  arp_product_id : ProductId;
  arp_occurred_at : DateTime
}.

(** @src crates/products/src/product.rs 146-151 [ProductCommand] *)
Inductive ProductCommand : Type :=
| CmdCreateProduct (cmd : CreateProduct)
| CmdActivateProduct (cmd : ActivateProduct)
| CmdArchiveProduct (cmd : ArchiveProduct).

(** @src crates/products/src/product.rs 153-162 [ProductCreated] *)
Record ProductCreated := mkProductCreated {
  pc_tenant_id : TenantId;
  pc_product_id : ProductId;
  pc_sku : string;
  pc_name : string;
  pc_pricing : PricingMetadata;
  pc_occurred_at : DateTime
}.

(** @src crates/products/src/product.rs 164-170 [ProductActivated] *)
Record ProductActivated := mkProductActivated {
  pa_tenant_id : TenantId;
  pa_product_id : ProductId;
  pa_occurred_at : DateTime
}.

(** @src crates/products/src/product.rs 172-178 [ProductArchived] *)
Record ProductArchived := mkProductArchived {
  par_tenant_id : TenantId;
  par_product_id : ProductId;
  par_occurred_at : DateTime
}.

(** @src crates/products/src/product.rs 180-185 [ProductEvent] *)
Inductive ProductEvent : Type :=
| EvProductCreated (e : ProductCreated)
| EvProductActivated (e : ProductActivated)
| EvProductArchived (e : ProductArchived).

(** @src crates/products/src/product.rs 187-207 [Event for ProductEvent] *)
#[global] Instance ProductEvent_event : Event ProductEvent := {|
  event_type ev :=
    match ev with
    | EvProductCreated _ => "products.product.created"
    | EvProductActivated _ => "products.product.activated"
    | EvProductArchived _ => "products.product.archived"
    end%string;
  event_version _ := 1%Z;
  occurred_at ev :=
    match ev with
    | EvProductCreated e => pc_occurred_at e
    | EvProductActivated e => pa_occurred_at e
    | EvProductArchived e => par_occurred_at e
    end
|}.

(** [self.status = status; self.version += 1]. *)
Definition with_status (self : Product) (status : ProductStatus) : Product :=
  {| prod_id := prod_id self; prod_tenant_id := prod_tenant_id self;
     prod_sku := prod_sku self; prod_name := prod_name self; prod_status := status;
     prod_pricing := prod_pricing self;
     prod_version := wrapU 64 (prod_version self + 1); prod_created := prod_created self |}.

(** @src crates/products/src/product.rs 214-235 [Product::apply] *)
Definition apply (self : Product) (event : ProductEvent) : Product :=
  match event with
  | EvProductCreated e =>
    {| prod_id := pc_product_id e; prod_tenant_id := Some (pc_tenant_id e);
       prod_sku := pc_sku e; prod_name := pc_name e; prod_status := Draft;
       prod_pricing := pc_pricing e;
       prod_version := wrapU 64 (prod_version self + 1); prod_created := true |}
  | EvProductActivated _ => with_status self Active
  | EvProductArchived _ => with_status self Archived
  end.

(** @src crates/products/src/product.rs 247-255 [Product::ensure_tenant] *)
Definition ensure_tenant (self : Product) (tenant_id : TenantId) : DomainResult unit :=
  if negb (prod_created self) then Ok tt
  else if decide (prod_tenant_id self <> Some tenant_id)
  then Err (InvariantViolation "tenant mismatch")
  else Ok tt.

(** @src crates/products/src/product.rs 257-262 [Product::ensure_product_id] *)
Definition ensure_product_id (self : Product) (id : ProductId) : DomainResult unit :=
  if decide (prod_id self <> id)
  then Err (InvariantViolation "product_id mismatch") else Ok tt.

(** @src crates/products/src/product.rs 264-290 [Product::handle_create] *)
Definition handle_create (self : Product) (cmd : CreateProduct)
  : DomainResult (list ProductEvent) :=
  if prod_created self then Err (Conflict "product already exists")
  else if is_blank (cp_name cmd) then Err (Validation "name cannot be empty")
  else if is_blank (cp_sku cmd) then Err (Validation "SKU cannot be empty")
  else Ok [EvProductCreated
    {| pc_tenant_id := cp_tenant_id cmd; pc_product_id := cp_product_id cmd;
       pc_sku := cp_sku cmd; pc_name := cp_name cmd;
       pc_pricing := unwrap_or (cp_pricing cmd) pricing_default;
       pc_occurred_at := cp_occurred_at cmd |}].

(** @src crates/products/src/product.rs 292-312 [Product::handle_activate] *)
Definition handle_activate (self : Product) (cmd : ActivateProduct)
  : DomainResult (list ProductEvent) :=
  if negb (prod_created self) then Err NotFound else
  _ ← ensure_tenant self (acp_tenant_id cmd);
  _ ← ensure_product_id self (acp_product_id cmd);
  if decide (prod_status self = Active) then Err (Conflict "product is already active")
  else if decide (prod_status self = Archived)
  then Err (InvariantViolation "archived products cannot be activated")
  else Ok [EvProductActivated
    {| pa_tenant_id := acp_tenant_id cmd; pa_product_id := acp_product_id cmd;
       pa_occurred_at := acp_occurred_at cmd |}].

(** @src crates/products/src/product.rs 314-330 [Product::handle_archive] *)
Definition handle_archive (self : Product) (cmd : ArchiveProduct)
  : DomainResult (list ProductEvent) :=
  if negb (prod_created self) then Err NotFound else
  _ ← ensure_tenant self (arp_tenant_id cmd);
  _ ← ensure_product_id self (arp_product_id cmd);
  if decide (prod_status self = Archived) then Err (Conflict "product is already archived")
  else Ok [EvProductArchived
    {| par_tenant_id := arp_tenant_id cmd; par_product_id := arp_product_id cmd;
       par_occurred_at := arp_occurred_at cmd |}].

(** @src crates/products/src/product.rs 237-243 [Product::handle] *)
Definition handle (self : Product) (command : ProductCommand)
  : DomainResult (list ProductEvent) :=
  match command with
  | CmdCreateProduct cmd => handle_create self cmd
  | CmdActivateProduct cmd => handle_activate self cmd
  | CmdArchiveProduct cmd => handle_archive self cmd
  end.

(** @src crates/products/src/product.rs 107-117 [AggregateRoot for Product] *)
#[global] Instance Product_aggregate : Aggregate Product ProductCommand ProductEvent :=
  {| agg_version := prod_version; agg_apply := apply; agg_handle := handle |}.

(** ** The life cycle, abstractly

    [phase] forgets everything but the life cycle; [lifecycle] is its step
    relation, [command_step] the step a command asks for. *)
Definition phase (s : Product) : option ProductStatus :=
  if prod_created s then Some (prod_status s) else None.

Inductive lifecycle : option ProductStatus -> option ProductStatus -> Prop :=
| life_create : lifecycle None (Some Draft)
| life_activate : lifecycle (Some Draft) (Some Active)
| life_archive st : st <> Archived -> lifecycle (Some st) (Some Archived).

Definition target (c : ProductCommand) : ProductStatus :=
  match c with
  | CmdCreateProduct _ => Draft
  | CmdActivateProduct _ => Active
  | CmdArchiveProduct _ => Archived
  end.

(** The command addresses this product, in this tenant, with valid text. *)
Definition well_addressed (s : Product) (c : ProductCommand) : Prop :=
  match c with
  | CmdCreateProduct c => is_blank (cp_name c) = false /\ is_blank (cp_sku c) = false
  | CmdActivateProduct c =>
    prod_tenant_id s = Some (acp_tenant_id c) /\ prod_id s = acp_product_id c
  | CmdArchiveProduct c =>
    prod_tenant_id s = Some (arp_tenant_id c) /\ prod_id s = arp_product_id c
  end.

Lemma product_ensure_tenant_Ok s t :
  prod_created s = true -> ensure_tenant s t = Ok tt <-> prod_tenant_id s = Some t.
Proof. unfold ensure_tenant. intros ->. apply ensure_eq_Ok. Qed.

Lemma ensure_product_id_Ok s i : ensure_product_id s i = Ok tt <-> prod_id s = i.
Proof. apply ensure_eq_Ok. Qed.

(** An accepted command is well addressed, is a step of the life cycle, and
    emits one event that takes that step. *)
Lemma product_handle_sound s c es :
  handle s c = Ok es ->
  well_addressed s c /\ lifecycle (phase s) (Some (target c))
  /\ phase (replay s es) = Some (target c) /\ length es = 1.
Proof.
  intros H. unfold phase. destruct c as [c|c|c]; simpl in H.
  - unfold handle_create in H. guards H. simpl.
    destruct (prod_created s); [done|]. repeat split; try done. constructor.
  - unfold handle_activate in H. guards H. destruct a, a0.
    apply product_ensure_tenant_Ok in Ha; [|done]. apply ensure_product_id_Ok in Ha0.
    simpl. rewrite Heqb. repeat split; try done.
    destruct (prod_status s); try done. constructor.
  - unfold handle_archive in H. guards H. destruct a, a0.
    apply product_ensure_tenant_Ok in Ha; [|done]. apply ensure_product_id_Ok in Ha0.
    simpl. rewrite Heqb. repeat split; try done. by constructor.
Qed.

Lemma product_handle_complete s c :
  well_addressed s c -> lifecycle (phase s) (Some (target c)) -> is_ok (handle s c) = true.
Proof.
  unfold phase. intros Hw Hl. destruct c as [c|c|c]; simpl in *.
  - destruct (prod_created s) eqn:Ec.
    { inversion Hl. }
    unfold handle_create. rewrite Ec. by destruct Hw as [-> ->].
  - destruct (prod_created s) eqn:Ec; inversion Hl as [|Hd|]; destruct Hw as [Ht Hi].
    unfold handle_activate. rewrite Ec; simpl.
    rewrite (proj2 (product_ensure_tenant_Ok _ _ Ec) Ht); simpl.
    rewrite (proj2 (ensure_product_id_Ok _ _) Hi); simpl. by rewrite <- Hd.
  - destruct (prod_created s) eqn:Ec; inversion Hl as [| |st Hst]; destruct Hw as [Ht Hi].
    unfold handle_archive. rewrite Ec; simpl.
    rewrite (proj2 (product_ensure_tenant_Ok _ _ Ec) Ht); simpl.
    rewrite (proj2 (ensure_product_id_Ok _ _) Hi); simpl. by rewrite decide_False.
Qed.

(** C35: the product handlers implement the life cycle: a command is accepted
    exactly when it addresses the product and asks for a step of the life cycle
    from its current phase; an accepted one takes exactly that step. *)
Theorem product_implements_lifecycle (s : Product) (c : ProductCommand) :
  (is_ok (handle s c) = true <->
     well_addressed s c /\ lifecycle (phase s) (Some (target c)))
  /\ (forall es, handle s c = Ok es -> phase (replay s es) = Some (target c)).
Proof.
  split; [split|].
  - destruct (handle s c) as [es|e] eqn:E; [|done]. apply product_handle_sound in E. naive_solver.
  - intros [Hw Hl]. by apply product_handle_complete.
  - intros es H. apply product_handle_sound in H. naive_solver.
Qed.

(** ** Laws and monotonicity *)

Definition inv (s : Product) : Prop :=
  is_u64 (prod_version s) /\ prod_created s = bool_decide (is_Some (prod_tenant_id s))
  /\ (prod_created s = false -> prod_status s = Draft).

Lemma product_empty_inv id : inv (empty id).
Proof. unfold inv; simpl. repeat split; ilia. Qed.

Lemma product_apply_inv s e : (prod_created s = true \/ exists c, e = EvProductCreated c) ->
  inv s -> inv (apply s e).
Proof.
  intros Hc (Hv & Ht & Hd).
  destruct e; (split; [apply wrapU_range; lia|]); simpl; [done| |];
    (destruct Hc as [Hc|[? ?]]; [split; [done|congruence]|done]).
Qed.

#[global] Instance Product_laws : AggregateLaws Product ProductCommand ProductEvent.
Proof.
  refine {| agg_inv := inv; cmd_ok := fun _ => True |}.
  - by intros s [].
  - intros s c es Hi _ H. destruct c as [c|c|c]; simpl in H;
      [unfold handle_create in H | unfold handle_activate in H | unfold handle_archive in H];
      guards H; apply (product_apply_inv s); eauto.
Defined.

Definition rank (st : ProductStatus) : nat :=
  match st with Draft => 0 | Active => 1 | Archived => 2 end.

(** What never changes once a product exists. *)
Definition identity (s : Product)
  : ProductId * option TenantId * string * string * PricingMetadata :=
  (prod_id s, prod_tenant_id s, prod_sku s, prod_name s, prod_pricing s).

Lemma run_command_forward s c :
  prod_created s = true ->
  prod_created (run_command s c) = true /\ identity (run_command s c) = identity s
  /\ (rank (prod_status s) <= rank (prod_status (run_command s c)))%nat.
Proof.
  intros Hc. unfold run_command. simpl. destruct c as [c|c|c]; simpl.
  - unfold handle_create. by rewrite Hc.
  - destruct (handle_activate s c) as [es|] eqn:H; [|done]. unfold handle_activate in H.
    guards H. simpl. destruct (prod_status s); simpl; repeat split; congruence || lia.
  - destruct (handle_archive s c) as [es|] eqn:H; [|done]. unfold handle_archive in H.
    guards H. simpl. destruct (prod_status s); simpl; repeat split; try done; lia.
Qed.

(** Once created, a product keeps its identifier, tenant, SKU, name and
    price whatever commands it is sent, and its status only moves forward; so an
    archived product is never sold again. *)
Theorem product_only_moves_forward (s : Product) (cs : list ProductCommand) :
  prod_created s = true ->
  let s' := foldl run_command s cs in
  identity s' = identity s
  /\ (rank (prod_status s) <= rank (prod_status s'))%nat
  /\ (prod_status s = Archived -> can_be_sold s' = false).
Proof.
  intros Hc s'. assert (H : prod_created s' = true /\ identity s' = identity s
    /\ (rank (prod_status s) <= rank (prod_status s'))%nat).
  { unfold s'. clear s'. revert s Hc. induction cs as [|c cs IH]; intros s Hc; simpl; [done|].
    destruct (run_command_forward s c Hc) as (Hc' & Hi & Hr).
    destruct (IH _ Hc') as (Hc'' & Hi' & Hr'). rewrite Hi', Hi. repeat split; [done|lia]. }
  destruct H as (_ & Hi & Hr). split; [done|]. split; [done|].
  intros Ha. unfold can_be_sold. rewrite Ha in Hr. by destruct (prod_status s'); simpl in *; try lia.
Qed.

Definition sample_id : ProductId := {| product_aggregate := {| aggregate_uuid := 3 |} |}.
Definition sample_tenant : TenantId := {| tenant_uuid := 1 |}.
Definition sample_commands : list ProductCommand :=
  [CmdCreateProduct {| cp_tenant_id := sample_tenant; cp_product_id := sample_id;
                       cp_sku := "SKU"; cp_name := "bolt"; cp_pricing := None;
                       cp_occurred_at := 0 |};
   CmdActivateProduct {| acp_tenant_id := sample_tenant; acp_product_id := sample_id;
                         acp_occurred_at := 1 |};
   CmdArchiveProduct {| arp_tenant_id := sample_tenant; arp_product_id := sample_id;
                        arp_occurred_at := 2 |}].

Lemma product_only_moves_forward_witness :
  phase (foldl run_command (empty sample_id) (take 2 sample_commands)) = Some Active
  /\ can_be_sold (foldl run_command (foldl run_command (empty sample_id) sample_commands)
                    sample_commands) = false.
Proof.
  split; [reflexivity|].
  apply (product_only_moves_forward (foldl run_command (empty sample_id) sample_commands)
           sample_commands); reflexivity.
Defined.
