(* ===== verification/Parties.v ===== *)
(** * Customers and suppliers: [crates/parties/src/party.rs]

    The [Party] aggregate: registration, updates of the details, suspension. *)

From S2P Require Import Prelude Core Events.

(** @src crates/parties/src/party.rs 7-16 [PartyId] *)
Record PartyId := mkPartyId { party_aggregate : AggregateId }.

#[global] Instance PartyId_eq_dec : EqDecision PartyId.
Proof. solve_decision. Defined.
#[global] Instance PartyId_countable : Countable PartyId.
Proof. refine (inj_countable' party_aggregate mkPartyId _); by intros []. Defined.

(** @src crates/parties/src/party.rs 24-30 [PartyKind] *)
Inductive PartyKind : Type := Customer | Supplier.

(** @src crates/parties/src/party.rs 32-38 [PartyStatus] *)
Inductive PartyStatus : Type := Active | Suspended.

#[global] Instance PartyKind_eq_dec : EqDecision PartyKind.
Proof. solve_decision. Defined.
#[global] Instance PartyStatus_eq_dec : EqDecision PartyStatus.
Proof. solve_decision. Defined.

(** @src crates/parties/src/party.rs 40-46 [ContactInfo] *)
Record ContactInfo := mkContact {
  email : option string;
  phone : option string;
  address : option string
}.

(** @src crates/parties/src/party.rs 48-56 [ContactInfo::default] *)
Definition contact_default : ContactInfo :=
  {| email := None; phone := None; address := None |}.

(** @src crates/parties/src/party.rs 58-69 [Party] *)
Record Party := mkParty {
  party_id : PartyId;
  party_tenant_id : option TenantId;
  party_kind : PartyKind;
  party_name : string;
  party_contact : ContactInfo;
  party_status : PartyStatus;
  party_version : Z;
  party_created : bool
}.

(** @src crates/parties/src/party.rs 72-84 [Party::empty] *)
Definition empty (id : PartyId) : Party :=
  {| party_id := id; party_tenant_id := None; party_kind := Customer; party_name := "";
     party_contact := contact_default; party_status := Active; party_version := 0;
     party_created := false |}.

(** @src crates/parties/src/party.rs 110-115 [Party::can_transact] *)
Definition can_transact (self : Party) : bool := bool_decide (party_status self = Active).

(** @src crates/parties/src/party.rs 130-139 [RegisterParty] *)
Record RegisterParty := mkRegisterParty {
  rp_tenant_id : TenantId;
  rp_party_id : PartyId;
  rp_kind : PartyKind;
  rp_name : string;
  rp_contact : option ContactInfo;
  rp_occurred_at : DateTime
}.

(** @src crates/parties/src/party.rs 141-151 [UpdateDetails] *)
Record UpdateDetails := mkUpdateDetails {
  ud_tenant_id : TenantId;
  ud_party_id : PartyId;
  ud_name : option string;
  ud_contact : option ContactInfo;
  ud_occurred_at : DateTime
}.

(** @src crates/parties/src/party.rs 153-161 [SuspendParty] *)
Record SuspendParty := mkSuspendParty {
  sp_tenant_id : TenantId;
  sp_party_id : PartyId;
  sp_reason : option string;
  sp_occurred_at : DateTime
}.

(** @src crates/parties/src/party.rs 163-168 [PartyCommand] *)
Inductive PartyCommand : Type :=
| CmdRegisterParty (cmd : RegisterParty)
| CmdUpdateDetails (cmd : UpdateDetails)
| CmdSuspendParty (cmd : SuspendParty).

(** @src crates/parties/src/party.rs 170-179 [PartyRegistered] *)
Record PartyRegistered := mkPartyRegistered {
  pr_tenant_id : TenantId;
  pr_party_id : PartyId;
  pr_kind : PartyKind;
  pr_name : string;
  pr_contact : ContactInfo;
  pr_occurred_at : DateTime
}.

(** @src crates/parties/src/party.rs 181-189 [PartyUpdated] *)
Record PartyUpdated := mkPartyUpdated {
  pu_tenant_id : TenantId;
  pu_party_id : PartyId;
  pu_name : string;
  pu_contact : ContactInfo;
  pu_occurred_at : DateTime
}.

(** @src crates/parties/src/party.rs 191-198 [PartySuspended] *)
Record PartySuspended := mkPartySuspended {
  ps_tenant_id : TenantId;
  ps_party_id : PartyId;
  ps_reason : option string;
  ps_occurred_at : DateTime
}.

(** @src crates/parties/src/party.rs 200-205 [PartyEvent] *)
Inductive PartyEvent : Type :=
| EvPartyRegistered (e : PartyRegistered)
| EvPartyUpdated (e : PartyUpdated)
| EvPartySuspended (e : PartySuspended).

(** @src crates/parties/src/party.rs 207-227 [Event for PartyEvent] *)
#[global] Instance PartyEvent_event : Event PartyEvent := {|
  event_type ev :=
    match ev with
    | EvPartyRegistered _ => "parties.party.registered"
    | EvPartyUpdated _ => "parties.party.updated"
    | EvPartySuspended _ => "parties.party.suspended"
    end%string;
  event_version _ := 1%Z;
  occurred_at ev :=
    match ev with
    | EvPartyRegistered e => pr_occurred_at e
    | EvPartyUpdated e => pu_occurred_at e
    | EvPartySuspended e => ps_occurred_at e
    end
|}.

(** @src crates/parties/src/party.rs 234-256 [Party::apply] *)
Definition apply (self : Party) (event : PartyEvent) : Party :=
  match event with
  | EvPartyRegistered e =>
    {| party_id := pr_party_id e; party_tenant_id := Some (pr_tenant_id e);
       party_kind := pr_kind e; party_name := pr_name e; party_contact := pr_contact e;
       party_status := Active; party_version := wrapU 64 (party_version self + 1);
       party_created := true |}
  | EvPartyUpdated e =>
    {| party_id := party_id self; party_tenant_id := party_tenant_id self;
       party_kind := party_kind self; party_name := pu_name e; party_contact := pu_contact e;
       party_status := party_status self;
       party_version := wrapU 64 (party_version self + 1);
       party_created := party_created self |}
  | EvPartySuspended _ =>
    {| party_id := party_id self; party_tenant_id := party_tenant_id self;
       party_kind := party_kind self; party_name := party_name self;
       party_contact := party_contact self; party_status := Suspended;
       party_version := wrapU 64 (party_version self + 1);
       party_created := party_created self |}
  end.

(** @src crates/parties/src/party.rs 268-276 [Party::ensure_tenant] *)
Definition ensure_tenant (self : Party) (tenant_id : TenantId) : DomainResult unit :=
  if negb (party_created self) then Ok tt
  else if decide (party_tenant_id self <> Some tenant_id)
  then Err (InvariantViolation "tenant mismatch")
  else Ok tt.

(** @src crates/parties/src/party.rs 278-283 [Party::ensure_party_id] *)
Definition ensure_party_id (self : Party) (id : PartyId) : DomainResult unit :=
  if decide (party_id self <> id)
  then Err (InvariantViolation "party_id mismatch") else Ok tt.

(** @src crates/parties/src/party.rs 285-304 [Party::handle_register] *)
Definition handle_register (self : Party) (cmd : RegisterParty)
  : DomainResult (list PartyEvent) :=
  if party_created self then Err (Conflict "party already exists")
  else if is_blank (rp_name cmd) then Err (Validation "name cannot be empty")
  else
    let contact := unwrap_or (rp_contact cmd) contact_default in
    Ok [EvPartyRegistered
      {| pr_tenant_id := rp_tenant_id cmd; pr_party_id := rp_party_id cmd;
         pr_kind := rp_kind cmd; pr_name := rp_name cmd; pr_contact := contact;
         pr_occurred_at := rp_occurred_at cmd |}].

(** @src crates/parties/src/party.rs 306-327 [Party::handle_update] *)
Definition handle_update (self : Party) (cmd : UpdateDetails)
  : DomainResult (list PartyEvent) :=
  if negb (party_created self) then Err NotFound else
  _ ← ensure_tenant self (ud_tenant_id cmd);
  _ ← ensure_party_id self (ud_party_id cmd);
  let new_name := unwrap_or (ud_name cmd) (party_name self) in
  if is_blank new_name then Err (Validation "name cannot be empty") else
  let new_contact := unwrap_or (ud_contact cmd) (party_contact self) in
  Ok [EvPartyUpdated
    {| pu_tenant_id := ud_tenant_id cmd; pu_party_id := ud_party_id cmd;
       pu_name := new_name; pu_contact := new_contact;
       pu_occurred_at := ud_occurred_at cmd |}].

(** @src crates/parties/src/party.rs 329-346 [Party::handle_suspend] *)
Definition handle_suspend (self : Party) (cmd : SuspendParty)
  : DomainResult (list PartyEvent) :=
  if negb (party_created self) then Err NotFound else
  _ ← ensure_tenant self (sp_tenant_id cmd);
  _ ← ensure_party_id self (sp_party_id cmd);
  if decide (party_status self = Suspended)
  then Err (Conflict "party is already suspended")
  else Ok [EvPartySuspended
    {| ps_tenant_id := sp_tenant_id cmd; ps_party_id := sp_party_id cmd;
       ps_reason := sp_reason cmd; ps_occurred_at := sp_occurred_at cmd |}].

(** @src crates/parties/src/party.rs 258-264 [Party::handle] *)
Definition handle (self : Party) (command : PartyCommand) : DomainResult (list PartyEvent) :=
  match command with
  | CmdRegisterParty cmd => handle_register self cmd
  | CmdUpdateDetails cmd => handle_update self cmd
  | CmdSuspendParty cmd => handle_suspend self cmd
  end.

(** @src crates/parties/src/party.rs 118-128 [AggregateRoot for Party] *)
#[global] Instance Party_aggregate : Aggregate Party PartyCommand PartyEvent :=
  {| agg_version := party_version; agg_apply := apply; agg_handle := handle |}.

(** ** The invariant: a registered party has a name and a tenant *)

Definition inv (s : Party) : Prop :=
  is_u64 (party_version s)
  /\ party_created s = bool_decide (is_Some (party_tenant_id s))
  /\ (party_created s = true -> is_blank (party_name s) = false).

Lemma party_empty_inv id : inv (empty id).
Proof. unfold inv; simpl. repeat split; ilia. Qed.

Lemma party_ensure_tenant_Ok s t :
  party_created s = true -> ensure_tenant s t = Ok tt <-> party_tenant_id s = Some t.
Proof. unfold ensure_tenant. intros ->. apply ensure_eq_Ok. Qed.

Lemma ensure_party_id_Ok s i : ensure_party_id s i = Ok tt <-> party_id s = i.
Proof. apply ensure_eq_Ok. Qed.

(** What a command asks for, as a state. *)
Definition evolved (s : Party) (c : PartyCommand) : Party :=
  let version := wrapU 64 (party_version s + 1) in
  match c with
  | CmdRegisterParty c =>
    {| party_id := rp_party_id c; party_tenant_id := Some (rp_tenant_id c);
       party_kind := rp_kind c; party_name := rp_name c;
       party_contact := unwrap_or (rp_contact c) contact_default; party_status := Active;
       party_version := version; party_created := true |}
  | CmdUpdateDetails c =>
    {| party_id := party_id s; party_tenant_id := party_tenant_id s;
       party_kind := party_kind s; party_name := unwrap_or (ud_name c) (party_name s);
       party_contact := unwrap_or (ud_contact c) (party_contact s);
       party_status := party_status s; party_version := version;
       party_created := party_created s |}
  | CmdSuspendParty c =>
    {| party_id := party_id s; party_tenant_id := party_tenant_id s;
       party_kind := party_kind s; party_name := party_name s;
       party_contact := party_contact s; party_status := Suspended;
       party_version := version; party_created := party_created s |}
  end.

(** When it is granted. *)
Definition accepts (s : Party) (c : PartyCommand) : Prop :=
  match c with
  | CmdRegisterParty c => party_created s = false /\ is_blank (rp_name c) = false
  | CmdUpdateDetails c =>
    party_created s = true /\ party_tenant_id s = Some (ud_tenant_id c)
    /\ party_id s = ud_party_id c
    /\ is_blank (unwrap_or (ud_name c) (party_name s)) = false
  | CmdSuspendParty c =>
    party_created s = true /\ party_tenant_id s = Some (sp_tenant_id c)
    /\ party_id s = sp_party_id c /\ party_status s = Active
  end.

Lemma party_handle_sound s c es :
  handle s c = Ok es -> accepts s c /\ replay s es = evolved s c.
Proof.
  intros H. destruct c as [c|c|c]; simpl in H.
  - unfold handle_register in H. guards H. done.
  - unfold handle_update in H. guards H. destruct a, a0.
    apply party_ensure_tenant_Ok in Ha; [|done]. apply ensure_party_id_Ok in Ha0. done.
  - unfold handle_suspend in H. guards H. destruct a, a0.
    apply party_ensure_tenant_Ok in Ha; [|done]. apply ensure_party_id_Ok in Ha0.
    simpl. destruct (party_status s); done.
Qed.

Lemma party_handle_complete s c : accepts s c -> is_ok (handle s c) = true.
Proof.
  destruct c as [c|c|c]; simpl.
  - unfold handle_register. by intros [-> ->].
  - intros (Hc & Ht & Hi & Hb). unfold handle_update. rewrite Hc; simpl.
    rewrite (proj2 (party_ensure_tenant_Ok _ _ Hc) Ht); simpl.
    rewrite (proj2 (ensure_party_id_Ok _ _) Hi); simpl. by rewrite Hb.
  - intros (Hc & Ht & Hi & Hs). unfold handle_suspend. rewrite Hc; simpl.
    rewrite (proj2 (party_ensure_tenant_Ok _ _ Hc) Ht); simpl.
    rewrite (proj2 (ensure_party_id_Ok _ _) Hi); simpl. by rewrite Hs.
Qed.

Lemma party_evolved_inv s c : inv s -> accepts s c -> inv (evolved s c).
Proof.
  intros (Hv & Hc & Hn) Ha. destruct c as [c|c|c]; (split; [apply wrapU_range; lia|]);
    simpl in *; [naive_solver| |]; destruct Ha as (Hcr & Ht & Hi & Hx); auto.
Qed.

#[global] Instance Party_laws : AggregateLaws Party PartyCommand PartyEvent.
Proof.
  refine {| agg_inv := inv; cmd_ok := fun _ => True |}.
  - by intros s [].
  - intros s c es Hi _ H. apply party_handle_sound in H as [Ha ->]. by apply party_evolved_inv.
Defined.

(** The party handlers accept exactly the commands of [accepts] and an
    accepted one evolves the party to [evolved] (an update fills the fields it
    leaves out from the current details and keeps the status). *)
Theorem party_handle_exact (s : Party) (c : PartyCommand) :
  (is_ok (handle s c) = true <-> accepts s c)
  /\ (forall es, handle s c = Ok es -> replay s es = evolved s c).
Proof.
  split; [split|].
  - destruct (handle s c) as [es|] eqn:E; [|done]. by apply party_handle_sound in E as [].
  - apply party_handle_complete.
  - intros es H. by apply party_handle_sound in H as [].
Qed.

(** A suspended party stays suspended, in its tenant and of its kind, and can
    never transact again, whatever commands follow: no command lifts a
    suspension. *)
Theorem suspension_is_permanent (s : Party) (cs : list PartyCommand) :
  party_created s = true -> party_status s = Suspended ->
  let s' := foldl run_command s cs in
  party_status s' = Suspended /\ can_transact s' = false
  /\ party_tenant_id s' = party_tenant_id s /\ party_kind s' = party_kind s.
Proof.
  intros Hc Hs s'.
  assert (H : party_created s' = true /\ party_status s' = Suspended
    /\ party_tenant_id s' = party_tenant_id s /\ party_kind s' = party_kind s).
  { unfold s'. clear s'. revert s Hc Hs.
    induction cs as [|c cs IH]; intros s Hc Hs; simpl; [done|].
    assert (Hstep : party_created (run_command s c) = true
      /\ party_status (run_command s c) = Suspended
      /\ party_tenant_id (run_command s c) = party_tenant_id s
      /\ party_kind (run_command s c) = party_kind s).
    { unfold run_command. simpl. destruct (handle s c) as [es|] eqn:E; [|done].
      apply party_handle_sound in E as [Ha ->]. destruct c; simpl in *; repeat split; intuition congruence. }
    destruct Hstep as (H1 & H2 & <- & <-). by apply IH. }
  destruct H as (_ & H2 & H3 & H4). unfold can_transact. by rewrite H2.
Qed.

Definition sample_id : PartyId := {| party_aggregate := {| aggregate_uuid := 4 |} |}.
Definition sample_tenant : TenantId := {| tenant_uuid := 1 |}.
Definition sample_register : PartyCommand :=
  CmdRegisterParty {| rp_tenant_id := sample_tenant; rp_party_id := sample_id;
    rp_kind := Supplier; rp_name := "ACME"; rp_contact := None; rp_occurred_at := 0 |}.
Definition sample_suspend : PartyCommand :=
  CmdSuspendParty {| sp_tenant_id := sample_tenant; sp_party_id := sample_id;
    sp_reason := None; sp_occurred_at := 1 |}.
Definition sample_update : PartyCommand :=
  CmdUpdateDetails {| ud_tenant_id := sample_tenant; ud_party_id := sample_id;
    ud_name := Some "ACME Ltd"%string; ud_contact := None; ud_occurred_at := 2 |}.

Lemma suspension_is_permanent_witness :
  let s := foldl run_command (empty sample_id) [sample_register; sample_suspend] in
  party_name (run_command s sample_update) = "ACME Ltd"%string
  /\ can_transact (foldl run_command s [sample_update; sample_register]) = false.
Proof.
  intros s. split; [reflexivity|].
  apply (suspension_is_permanent s [sample_update; sample_register]); reflexivity.
Defined.
