(* ===== verification/Auth.v ===== *)
(** * Authentication and authorisation: [crates/auth] and the API's guards

    Roles, permissions, token claims and their validity window, the policy check
    [authorize] with its explanation, the built-in role mapping, and the two
    guards the API puts in front of a command: [auth_middleware] and
    [authorize_command]. *)

From S2P Require Import Prelude Core.

(** ** Roles, permissions, principals *)

(** @src crates/auth/src/roles.rs 5-21 [Role] *)
Record Role := mkRole { role_str : string }.

(** @src crates/auth/src/permissions.rs 5-20 [Permission] *)
Record Permission := mkPermission { perm_str : string }.

(** @src crates/auth/src/permissions.rs 22-24 [Permission::is_wildcard] *)
Definition is_wildcard (self : Permission) : bool := bool_decide (perm_str self = "*"%string).

(** @src crates/auth/src/principal.rs 8-24 [PrincipalId] *)
Record PrincipalId := mkPrincipalId { principal_uuid : Uuid }.

(** @src crates/auth/src/principal.rs 52-61 [TenantMembership] *)
Record TenantMembership := mkMembership {
  tm_tenant_id : TenantId;
  tm_roles : list Role;
  tm_permissions : list Permission
}.

(** @src crates/auth/src/authorize.rs 10-19 [Principal] *)
Record Principal := mkPrincipal {
  principal_id : PrincipalId;
  active_tenant_id : TenantId;
  membership : TenantMembership
}.

#[global] Instance Role_eq_dec : EqDecision Role.
Proof. solve_decision. Defined.
#[global] Instance Permission_eq_dec : EqDecision Permission.
Proof. solve_decision. Defined.
#[global] Instance PrincipalId_eq_dec : EqDecision PrincipalId.
Proof. solve_decision. Defined.

(** [roles.iter().any(|r| r.as_str() == name)]. *)
Definition has_role (roles : list Role) (name : string) : bool :=
  existsb (fun r => String.eqb (role_str r) name) roles.

Lemma has_role_spec roles name : has_role roles name = true <-> mkRole name ∈ roles.
Proof.
  unfold has_role. rewrite existsb_exists, list_elem_of_In. split.
  - intros ([n] & Hin & E). apply String.eqb_eq in E. simpl in E. by subst.
  - intros Hin. exists (mkRole name). split; [done | apply String.eqb_refl].
Qed.

(** ** Token claims *)

(** @src crates/auth/src/claims.rs 9-31 [JwtClaims] *)
Record JwtClaims := mkClaims {
  sub : PrincipalId;
  claims_tenant_id : TenantId;
  claims_roles : list Role;
  issued_at : DateTime;
  expires_at : DateTime
}.

(** @src crates/auth/src/claims.rs 33-52 [TokenValidationError] *)
Inductive TokenValidationError : Type :=
| MissingToken
| InvalidFormat
| InvalidToken (msg : string)
| Expired
| NotYetValid
| InvalidTimeWindow.

(** @src crates/auth/src/claims.rs 54-69 [validate_claims] *)
Definition validate_claims (claims : JwtClaims) (now : DateTime)
  : Result TokenValidationError unit :=
  if (expires_at claims <=? issued_at claims)%Z then Err InvalidTimeWindow
  else if (now <? issued_at claims)%Z then Err NotYetValid
  else if (expires_at claims <=? now)%Z then Err Expired
  else Ok tt.

(** The validator decodes and verifies with the [jsonwebtoken] crate: [decode] is
    its answer for a secret and a token, the claims or the text of its error. *)
Abbreviation Decoder := (list Byte.byte -> string -> Result string JwtClaims).

(** @src crates/auth/src/claims.rs 76-79 [Hs256JwtValidator] *)
Record Hs256JwtValidator := mkValidator { secret : list Byte.byte }.

(** @src crates/auth/src/claims.rs 91-110 [Hs256JwtValidator::validate] *)
Definition validate (decode : Decoder) (self : Hs256JwtValidator) (token : string)
    (now : DateTime) : Result TokenValidationError JwtClaims :=
  if is_blank token then Err MissingToken else
  claims ← map_err InvalidToken (decode (secret self) token);
  match validate_claims claims now with Ok _ => Ok claims | Err e => Err e end.

Lemma validate_claims_Ok c now :
  validate_claims c now = Ok tt <-> (issued_at c <= now < expires_at c)%Z.
Proof.
  unfold validate_claims.
  destruct (expires_at c <=? issued_at c)%Z eqn:E1, (now <? issued_at c)%Z eqn:E2,
    (expires_at c <=? now)%Z eqn:E3;
    rewrite ?Z.leb_le, ?Z.leb_gt, ?Z.ltb_lt, ?Z.ltb_ge in *; split; done || lia.
Qed.

Lemma validate_Ok decode v token now c :
  validate decode v token now = Ok c <->
  is_blank token = false /\ decode (secret v) token = Ok c
  /\ (issued_at c <= now < expires_at c)%Z.
Proof.
  rewrite <- validate_claims_Ok. unfold validate.
  destruct (is_blank token); [by split; [|intros []]|].
  destruct (decode (secret v) token) as [c'|]; simpl; [|by split; [|intros (_ & ? & _)]].
  destruct (validate_claims c' now) as [[]|] eqn:E.
  - split; [by intros [= <-] | by intros (_ & [= <-] & _)].
  - split; [done | intros (_ & [= <-] & Hv); congruence].
Qed.

(** ** The policy check *)

(** @src crates/auth/src/authorize.rs 21-28 [AuthzError] *)
Inductive AuthzError : Type :=
| TenantMismatch
| Forbidden (permission : string).

(** The [Display] text.

    @src crates/auth/src/authorize.rs 21-28 [AuthzError] *)
Definition show_authz_error (e : AuthzError) : string :=
  match e with
  | TenantMismatch => "tenant mismatch"
  | Forbidden permission => "forbidden: missing permission '" +:+ permission +:+ "'"
  end.

(** @src crates/auth/src/authorize.rs 39-60 [authorize] *)
Definition authorize (principal : Principal) (required : Permission) : Result AuthzError unit :=
  if decide (active_tenant_id principal <> tm_tenant_id (membership principal))
  then Err TenantMismatch
  else
    let perms : gset string :=
      list_to_set (map perm_str (tm_permissions (membership principal))) in
    if bool_decide ("*"%string ∈ perms) || bool_decide (perm_str required ∈ perms)
    then Ok tt
    else Err (Forbidden (perm_str required)).

(** ** The built-in roles *)

(** @src crates/infra/src/projections/users.rs 190-263 [default_role_permissions] *)
Definition default_role_permissions (role : string) : list string :=
  (if String.eqb role "admin" then ["*"]
  else if String.eqb role "manager" then
    ["inventory.read"; "inventory.write"; "products.read"; "products.write"; "sales.read";
     "sales.write"; "invoices.read"; "invoices.write"; "purchases.read"; "purchases.write";
     "parties.read"; "parties.write"; "ledger.read"; "admin.users.list"; "admin.users.read"]
  else if String.eqb role "accountant" then
    ["inventory.read"; "products.read"; "sales.read"; "purchases.read"; "parties.read";
     "ledger.read"; "ledger.write"; "invoices.read"; "invoices.write"]
  else if String.eqb role "salesperson" then
    ["parties.read"; "parties.write"; "products.read"; "sales.read"; "sales.write";
     "invoices.read"]
  else if String.eqb role "warehouse" then
    ["inventory.read"; "inventory.write"; "products.read"; "purchases.read";
     "purchases.write"]
  else if String.eqb role "user" then ["inventory.read"; "products.read"]
  else [])%string.

(** The permissions the four routes of sales orders ask for, in source order. *)
(** @src crates/api/src/app/routes/sales.rs 51-54 [create_sales_order (required)] *)
Definition create_sales_order_required : list Permission := [mkPermission "sales.orders.create"].
(** @src crates/api/src/app/routes/sales.rs 100-103 [add_sales_order_line (required)] *)
Definition add_sales_order_line_required : list Permission :=
  [mkPermission "sales.orders.add_line"].
(** @src crates/api/src/app/routes/sales.rs 140-143 [confirm_sales_order (required)] *)
Definition confirm_sales_order_required : list Permission := [mkPermission "sales.orders.confirm"].
(** @src crates/api/src/app/routes/sales.rs 180-183 [mark_sales_order_invoiced (required)] *)
Definition mark_sales_order_invoiced_required : list Permission :=
  [mkPermission "sales.orders.mark_invoiced"].

(** ** The guards of the API

    A [HashSet] hands out its elements in an order of its own: [order] is that
    order, any enumeration of the set. *)
Class SetOrder := {
  set_order : gset string -> list string;
  set_order_perm s : set_order s ≡ₚ elements s
}.

(** @src crates/api/src/context.rs 4-20 [TenantContext] *)
Record TenantContext := mkTenantContext { ctx_tenant_id : TenantId }.

(** @src crates/api/src/context.rs 22-41 [PrincipalContext] *)
Record PrincipalContext := mkPrincipalContext {
  ctx_principal_id : PrincipalId;
  ctx_roles : list Role
}.

(** The HTTP statuses the API answers with, and their numbers. *)
Inductive StatusCode : Type :=
| OK | CREATED | ACCEPTED
| BAD_REQUEST | UNAUTHORIZED | FORBIDDEN | NOT_FOUND | CONFLICT | UNPROCESSABLE_ENTITY
| INTERNAL_SERVER_ERROR | NOT_IMPLEMENTED | BAD_GATEWAY.

Definition as_u16 (s : StatusCode) : Z :=
  match s with
  | OK => 200 | CREATED => 201 | ACCEPTED => 202
  | BAD_REQUEST => 400 | UNAUTHORIZED => 401 | FORBIDDEN => 403 | NOT_FOUND => 404
  | CONFLICT => 409 | UNPROCESSABLE_ENTITY => 422
  | INTERNAL_SERVER_ERROR => 500 | NOT_IMPLEMENTED => 501 | BAD_GATEWAY => 502
  end.

#[global] Instance StatusCode_eq_dec : EqDecision StatusCode.
Proof. solve_decision. Defined.

(** [str::strip_prefix]. *)
Definition strip_prefix (p s : string) : option string :=
  if String.prefix p s
  then Some (String.substring (String.length p) (String.length s - String.length p) s)
  else None.

(** @src crates/api/src/middleware.rs 42-59 [extract_bearer] *)
Definition extract_bearer {HeaderValue : Type} (to_str : HeaderValue -> option string)
    (authorization : option HeaderValue) : Result StatusCode string :=
  header ← ok_or authorization UNAUTHORIZED;
  header ← ok_or (to_str header) UNAUTHORIZED;
  header ← ok_or (strip_prefix "Bearer " header) UNAUTHORIZED;
  let token := str_trim header in
  if String.eqb token "" then Err UNAUTHORIZED else Ok token.

(** The middleware hands the request on with the two contexts, or answers itself. *)
(** @src crates/api/src/middleware.rs 20-40 [auth_middleware] *)
Definition auth_middleware {HeaderValue : Type} (to_str : HeaderValue -> option string)
    (decode : Decoder) (jwt : Hs256JwtValidator) (authorization : option HeaderValue)
    (now : DateTime) : Result StatusCode (TenantContext * PrincipalContext) :=
  token ← extract_bearer to_str authorization;
  claims ← map_err (fun _ => UNAUTHORIZED) (validate decode jwt token now);
  Ok (mkTenantContext (claims_tenant_id claims),
      mkPrincipalContext (sub claims) (claims_roles claims)).

(** The inner loop of a role: its permissions go into the set. *)
Definition insert_all (s : gset string) (perms : list string) : gset string :=
  foldl (fun s perm => {[perm]} ∪ s) s perms.

Section Guards.
Context `{SetOrder}.

(** @src crates/api/src/authz.rs 37-54 [permissions_from_roles] *)
Definition permissions_from_roles (roles : list Role) : list Permission :=
  let all_permissions :=
    foldl (fun s role => insert_all s (default_role_permissions (role_str role)))
      (∅ : gset string) roles in
  map mkPermission (set_order all_permissions).

(** @src crates/api/src/authz.rs 10-35 [authorize_command] *)
Definition authorize_command (tenant : TenantContext) (principal : PrincipalContext)
    (required_permissions : list Permission) : Result AuthzError unit :=
  let membership :=
    {| tm_tenant_id := ctx_tenant_id tenant;
       tm_roles := ctx_roles principal;
       tm_permissions := permissions_from_roles (ctx_roles principal) |} in
  let principal :=
    {| principal_id := ctx_principal_id principal;
       active_tenant_id := ctx_tenant_id tenant;
       membership := membership |} in
  try_fold (fun _ perm => authorize principal perm) tt required_permissions.

Lemma elem_of_insert_all s perms p : p ∈ insert_all s perms <-> p ∈ s \/ p ∈ perms.
Proof.
  revert s; induction perms as [|q perms IH]; intros s; simpl; [set_solver|].
  rewrite IH. set_solver.
Qed.

(** What collecting the permissions of a list of roles gives. *)
Lemma elem_of_collected {R} (f : R -> list string) s (roles : list R) p :
  p ∈ foldl (fun s role => insert_all s (f role)) s roles
  <-> p ∈ s \/ exists r, r ∈ roles /\ p ∈ f r.
Proof.
  revert s; induction roles as [|r roles IH]; intros s; simpl; [set_solver|].
  rewrite IH, elem_of_insert_all. set_solver.
Qed.

Lemma elem_of_permissions_from_roles roles p :
  mkPermission p ∈ permissions_from_roles roles <->
  exists r, r ∈ roles /\ p ∈ default_role_permissions (role_str r).
Proof.
  unfold permissions_from_roles. rewrite list_elem_of_fmap. split.
  - intros (q & [= ->] & Hq). rewrite set_order_perm, elem_of_elements in Hq.
    apply elem_of_collected in Hq. set_solver.
  - intros Hr. exists p. split; [done|]. rewrite set_order_perm, elem_of_elements.
    apply (elem_of_collected (fun r => default_role_permissions (role_str r))). by right.
Qed.

Lemma elem_of_perm_strs p perms : p ∈ map perm_str perms <-> mkPermission p ∈ perms.
Proof.
  rewrite list_elem_of_fmap. split; [intros ([q] & -> & Hq); done | intros Hp; by exists (mkPermission p)].
Qed.

Lemma authorize_Ok principal required :
  authorize principal required = Ok tt <->
  active_tenant_id principal = tm_tenant_id (membership principal)
  /\ (mkPermission "*" ∈ tm_permissions (membership principal)
      \/ required ∈ tm_permissions (membership principal)).
Proof.
  destruct required as [r]. unfold authorize. simpl.
  case_decide as Ht; [naive_solver|].
  rewrite <- (elem_of_perm_strs "*"), <- (elem_of_perm_strs r).
  setoid_rewrite <- (elem_of_list_to_set (C := gset string)).
  do 2 case_bool_decide; naive_solver.
Qed.

(** Only the administrator holds the wildcard. *)
Lemma wildcard_role r : "*"%string ∈ default_role_permissions r <-> r = "admin"%string.
Proof.
  unfold default_role_permissions. repeat case_match;
    rewrite ?String.eqb_eq, ?String.eqb_neq in *; subst; set_solver.
Qed.

Lemma authorize_command_Ok tenant principal required :
  authorize_command tenant principal required = Ok tt <->
  Forall (fun p => mkRole "admin" ∈ ctx_roles principal
    \/ exists r, r ∈ ctx_roles principal
         /\ perm_str p ∈ default_role_permissions (role_str r)) required.
Proof.
  unfold authorize_command. set (P := mkPrincipal _ _ _).
  assert (Hone : forall p, authorize P p = Ok tt <->
    (mkRole "admin" ∈ ctx_roles principal
     \/ exists r, r ∈ ctx_roles principal
          /\ perm_str p ∈ default_role_permissions (role_str r))).
  { intros [p]. rewrite authorize_Ok. simpl. rewrite !elem_of_permissions_from_roles.
    setoid_rewrite wildcard_role. split; [intros [_ [([n] & Hr & E)|]]|]; simpl in *; subst; auto.
    intros [Ha|Hr]; (split; [done|]); [left; by exists (mkRole "admin") | by right]. }
  induction required as [|p required IH]; simpl; [by split; constructor|].
  rewrite Forall_cons, <- Hone, <- IH. destruct (authorize P p) as [[]|]; naive_solver.
Qed.
End Guards.

(** ** The explanation of a decision *)

(** @src crates/auth/src/authorize.rs 89-97 [PrincipalState] *)
Record PrincipalState := mkPrincipalState {
  ps_principal_id : PrincipalId;
  ps_active_tenant_id : TenantId;
  ps_membership_tenant_id : TenantId;
  ps_roles : list string;
  effective_permissions : list string;
  has_wildcard : bool
}.

(** @src crates/auth/src/authorize.rs 107-112 [DenialKind] *)
Inductive DenialKind : Type := DeniedTenantMismatch | DeniedMissingPermission.

(** @src crates/auth/src/authorize.rs 100-105 [DenialReason] *)
Record DenialReason := mkDenialReason {
  denial_kind : DenialKind;
  denial_message : string;
  suggestions : list string
}.

(** @src crates/auth/src/authorize.rs 70-86 [AuthorizationExplanation] *)
Record AuthorizationExplanation := mkExplanation {
  required_permission : string;
  granted : bool;
  reason : string;
  explained : PrincipalState;
  denial_reason : option DenialReason
}.

Section Explanation.
Context `{SetOrder}.
(** The texts of the standard library's [Display] of a tenant and [Debug] of a
    list of strings. *)
Context (show_tenant : TenantId -> string) (debug_strs : list string -> string).

(** @src crates/auth/src/authorize.rs 132-263 [explain_authorization] *)
Definition explain_authorization (principal : Principal) (required : Permission)
    (role_permissions : string -> list string) : AuthorizationExplanation :=
  let m := membership principal in
  let required_str := perm_str required in
  if decide (active_tenant_id principal <> tm_tenant_id m) then
    {| required_permission := required_str;
       granted := false;
       reason := "Tenant mismatch: principal is active in tenant "
         +:+ show_tenant (active_tenant_id principal) +:+ " but membership is for tenant "
         +:+ show_tenant (tm_tenant_id m);
       explained :=
         {| ps_principal_id := principal_id principal;
            ps_active_tenant_id := active_tenant_id principal;
            ps_membership_tenant_id := tm_tenant_id m;
            ps_roles := map role_str (tm_roles m);
            effective_permissions := map perm_str (tm_permissions m);
            has_wildcard := existsb is_wildcard (tm_permissions m) |};
       denial_reason := Some
         {| denial_kind := DeniedTenantMismatch;
            denial_message :=
              "Principal is authenticated in a different tenant than their membership";
            suggestions :=
              ["Verify the tenant_id in the JWT token matches the principal's tenant membership";
               "Check that the principal has the correct tenant context for this operation"]%string |} |}
  else
    let effective_perms :=
      foldl (fun s role => insert_all s (role_permissions (role_str role)))
        (∅ : gset string) (tm_roles m) in
    let effective_perms := insert_all effective_perms (map perm_str (tm_permissions m)) in
    let has_wildcard := bool_decide ("*"%string ∈ effective_perms) in
    let has_required := bool_decide (required_str ∈ effective_perms) in
    let effective_perms_list := sort_by String.leb (set_order effective_perms) in
    let state :=
      {| ps_principal_id := principal_id principal;
         ps_active_tenant_id := active_tenant_id principal;
         ps_membership_tenant_id := tm_tenant_id m;
         ps_roles := map role_str (tm_roles m);
         effective_permissions := effective_perms_list;
         has_wildcard := has_wildcard |} in
    if has_wildcard || has_required then
      {| required_permission := required_str;
         granted := true;
         reason :=
           if has_wildcard
           then "Principal has wildcard permission '*' (granted by admin role)"%string
           else "Principal has explicit permission '" +:+ required_str +:+ "'";
         explained := state;
         denial_reason := None |}
    else
      let granting_roles :=
        map role_str (List.filter (fun role =>
          existsb (fun p => String.eqb p required_str || String.eqb p "*")
            (role_permissions (role_str role))) (tm_roles m)) in
      let suggestions :=
        ["Assign a role that grants the '" +:+ required_str +:+ "' permission";
         "Grant the '" +:+ required_str +:+ "' permission directly to the principal"] in
      let suggestions :=
        if bool_decide (granting_roles <> [])
        then ("One of the following roles already assigned would grant this permission (check role-permission mapping): "
              +:+ debug_strs granting_roles) :: suggestions
        else suggestions in
      {| required_permission := required_str;
         granted := false;
         reason := "Principal does not have permission '" +:+ required_str
           +:+ "'. Current permissions: " +:+ debug_strs effective_perms_list;
         explained :=
           {| ps_principal_id := principal_id principal;
              ps_active_tenant_id := active_tenant_id principal;
              ps_membership_tenant_id := tm_tenant_id m;
              ps_roles := map role_str (tm_roles m);
              effective_permissions := effective_perms_list;
              has_wildcard := false |};
         denial_reason := Some
           {| denial_kind := DeniedMissingPermission;
              denial_message := "Missing required permission: '" +:+ required_str +:+ "'";
              suggestions := suggestions |} |}.

(** What a principal holds: the permissions of its membership and those its roles
    grant under a mapping. *)
Definition holds (principal : Principal) (role_permissions : string -> list string)
    (p : string) : Prop :=
  mkPermission p ∈ tm_permissions (membership principal)
  \/ exists r, r ∈ tm_roles (membership principal) /\ p ∈ role_permissions (role_str r).

Lemma elem_of_effective principal role_permissions p :
  p ∈ insert_all (foldl (fun s role => insert_all s (role_permissions (role_str role)))
        (∅ : gset string) (tm_roles (membership principal)))
        (map perm_str (tm_permissions (membership principal)))
  <-> holds principal role_permissions p.
Proof.
  unfold holds. rewrite elem_of_insert_all, elem_of_perm_strs.
  rewrite (elem_of_collected (fun r => role_permissions (role_str r))). set_solver.
Qed.

Lemma leb_total s t : String.leb s t = true \/ String.leb t s = true.
Proof. apply String.leb_total. Qed.

Lemma leb_trans s t u : String.leb s t = true -> String.leb t u = true -> String.leb s u = true.
Proof.
  intros H1 H2. apply Is_true_true. apply (transitivity (R := String.le) (y := t));
    by apply Is_true_true.
Qed.

Lemma sort_strings_spec (l : list string) :
  StronglySorted String.le (sort_by String.leb l) /\ sort_by String.leb l ≡ₚ l.
Proof.
  split; [|apply sort_by_perm].
  pose proof (sort_by_sorted String.leb leb_total leb_trans l) as Hs.
  induction Hs as [|x l' _ IH Hx]; constructor; [done|].
  eapply Forall_impl; [done|]. intros y Hy. by apply Is_true_true.
Qed.

(** No role of a principal that lacks a permission could have granted it. *)
Lemma no_granting_role principal role_permissions required :
  ~ holds principal role_permissions "*" -> ~ holds principal role_permissions required ->
  List.filter (fun role => existsb (fun p => String.eqb p required || String.eqb p "*")
    (role_permissions (role_str role))) (tm_roles (membership principal)) = [].
Proof.
  unfold holds. intros Hw Hr.
  assert (Hall : forall r, r ∈ tm_roles (membership principal) ->
    existsb (fun p => String.eqb p required || String.eqb p "*") (role_permissions (role_str r))
    = false).
  { intros r Hin. apply not_true_iff_false. rewrite existsb_exists.
    intros (p & Hp%list_elem_of_In & [E%String.eqb_eq|E%String.eqb_eq]%orb_true_iff);
      subst p; eauto. }
  clear Hw Hr. induction (tm_roles (membership principal)) as [|r rs IH]; simpl; [done|].
  rewrite Hall by left. apply IH. intros r' Hr'. apply Hall. by right.
Qed.

(** The sorted enumeration of a set. *)
Lemma listed_spec (l : gset string) (P : string -> Prop) :
  (forall p, p ∈ l <-> P p) ->
  (forall p, p ∈ sort_by String.leb (set_order l) <-> P p)
  /\ NoDup (sort_by String.leb (set_order l))
  /\ StronglySorted String.le (sort_by String.leb (set_order l)).
Proof.
  intros Hl. destruct (sort_strings_spec (set_order l)) as [Hs Hp].
  pose proof (Permutation_trans Hp (set_order_perm l)) as Hp'. clear Hp. rename Hp' into Hp.
  split; [|split; [|done]].
  - intros p. by rewrite Hp, elem_of_elements.
  - rewrite Hp. apply NoDup_elements.
Qed.

(** The three outcomes of an explanation, by what the principal holds. *)
Lemma explain_cases principal required role_permissions :
  let e := explain_authorization principal required role_permissions in
  let P := holds principal role_permissions in
  (active_tenant_id principal <> tm_tenant_id (membership principal)
   /\ granted e = false /\ exists d, denial_reason e = Some d /\ length (suggestions d) = 2%nat)
  \/ (active_tenant_id principal = tm_tenant_id (membership principal)
   /\ (exists l, effective_permissions (explained e) = sort_by String.leb (set_order l)
        /\ forall p, p ∈ l <-> P p)
   /\ ((P "*"%string \/ P (perm_str required)) /\ granted e = true /\ denial_reason e = None
       \/ (~ P "*"%string /\ ~ P (perm_str required)) /\ granted e = false
          /\ exists d, denial_reason e = Some d /\ length (suggestions d) = 2%nat)).
Proof.
  unfold explain_authorization. case_decide as Ht; [left; by eauto|right].
  split; [done|].
  pose proof (elem_of_effective principal role_permissions) as He.
  revert He. set (l := insert_all _ _). intros He.
  pose proof (He "*"%string) as Hw. pose proof (He (perm_str required)) as Hr.
  destruct (decide ("*"%string ∈ l)) as [E1|E1];
    [rewrite (bool_decide_eq_true_2 _ E1)|rewrite (bool_decide_eq_false_2 _ E1)];
    [simpl; split; [by eauto|]; left; naive_solver|].
  destruct (decide (perm_str required ∈ l)) as [E2|E2];
    [rewrite (bool_decide_eq_true_2 _ E2)|rewrite (bool_decide_eq_false_2 _ E2)];
    simpl; (split; [by eauto|]); [left; naive_solver|right].
  rewrite no_granting_role by naive_solver. simpl. split; [naive_solver|]. by eauto.
Qed.

(** An explanation tells the truth about the decision.  It says granted
    exactly when the tenants agree and the principal holds the wildcard or the
    permission, directly or through a role; it gives a denial reason exactly when
    it is not granted; the permissions it lists are those the principal holds,
    each once, in order; a denial always comes with the two standard suggestions
    (no role already assigned can have granted what is missing); and it agrees with
    [authorize] whenever the membership carries what its roles grant. *)
Theorem authorization_explanation_exact (principal : Principal) (required : Permission)
    (role_permissions : string -> list string) :
  let e := explain_authorization principal required role_permissions in
  let P := holds principal role_permissions in
  let same_tenant := active_tenant_id principal = tm_tenant_id (membership principal) in
  let listed := effective_permissions (explained e) in
  (granted e = true <-> same_tenant /\ (P "*"%string \/ P (perm_str required)))
  /\ (denial_reason e = None <-> granted e = true)
  /\ (same_tenant ->
      (forall p, p ∈ listed <-> P p) /\ NoDup listed /\ StronglySorted String.le listed)
  /\ (forall d, denial_reason e = Some d -> length (suggestions d) = 2%nat)
  /\ ((forall r p, r ∈ tm_roles (membership principal) -> p ∈ role_permissions (role_str r) ->
        mkPermission p ∈ tm_permissions (membership principal)) ->
      (granted e = true <-> authorize principal required = Ok tt)).
Proof.
  intros e P same listed.
  assert (Hag : (forall r p, r ∈ tm_roles (membership principal) ->
      p ∈ role_permissions (role_str r) -> mkPermission p ∈ tm_permissions (membership principal)) ->
    same /\ (P "*"%string \/ P (perm_str required)) <-> authorize principal required = Ok tt).
  { intros Hcov. rewrite authorize_Ok. unfold P, holds. destruct required as [r]; simpl.
    split; intros [Hs Hp]; (split; [exact Hs|]).
    - destruct Hp as [[Hp|(r' & H1 & H2)]|[Hp|(r' & H1 & H2)]]; eauto.
    - destruct Hp; auto. }
  pose proof (explain_cases principal required role_permissions) as Hc. cbv zeta in Hc.
  fold e P same listed in Hc.
  destruct Hc as [(Hn & Hf & d & Hd & Hl)
    |(Hs & (l & El & Hel) & [(Hp & Ht & Hd)|((Hw & Hr) & Hf & d & Hd & Hl)])].
  - rewrite Hf, Hd. split; [split; [done | by intros [? _]]|]. split; [done|].
    split; [by intros Hs|]. split; [by intros ? [= <-]|].
    intros Hcov. rewrite <- (Hag Hcov). split; [done | by intros [? _]].
  - rewrite Ht, Hd, El. split; [done|]. split; [done|]. split; [intros _; by apply listed_spec|].
    split; [done|]. intros Hcov. rewrite <- (Hag Hcov). done.
  - rewrite Hf, Hd, El. split; [split; [done | by intros (_ & [?|?])]|]. split; [done|].
    split; [intros _; by apply listed_spec|]. split; [by intros ? [= <-]|].
    intros Hcov. rewrite <- (Hag Hcov). split; [done | by intros (_ & [?|?])].
Qed.
End Explanation.

(** ** What reaches a handler *)

Lemma substring_full s : String.substring 0 (String.length s) s = s.
Proof. induction s as [|a s IH]; simpl; [done | by rewrite IH]. Qed.

Lemma strip_prefix_Some p s r : strip_prefix p s = Some r <-> s = p +:+ r.
Proof.
  unfold strip_prefix. revert s; induction p as [|a p IH]; intros s; simpl.
  - rewrite Nat.sub_0_r, substring_full. change ("" +:+ r) with r.
    destruct s; simpl; (split; intros E; [by injection E | by f_equal]).
  - destruct s as [|b s]; simpl; [done|].
    destruct (Ascii.ascii_dec a b) as [->|Hn]; [|by split; [|intros [= E _]; destruct Hn]].
    rewrite (IH s). split; [by intros -> | by intros [= ->]].
Qed.

Lemma extract_bearer_Ok {HeaderValue} (to_str : HeaderValue -> option string) auth token :
  extract_bearer to_str auth = Ok token <->
  exists hv rest, auth = Some hv /\ to_str hv = Some ("Bearer " +:+ rest)
    /\ token = str_trim rest /\ token <> ""%string.
Proof.
  unfold extract_bearer. destruct auth as [hv|]; simpl;
    [|by split; [|intros (? & ? & ? & _)]].
  destruct (to_str hv) as [text|] eqn:Et; simpl;
    [|split; [done | intros (? & ? & [= <-] & ? & _); congruence]].
  destruct (strip_prefix "Bearer " text) as [rest|] eqn:Es; cbn [ok_or mbind Result_bind].
  - apply strip_prefix_Some in Es as ->.
    destruct (String.eqb_spec (str_trim rest) ""); [|]; split.
    + done.
    + intros (? & rest' & [= <-] & E & -> & Hne).
      assert (rest' = rest) as -> by (rewrite E in Et; by injection Et). done.
    + intros [= <-]. by exists hv, rest.
    + intros (? & rest' & [= <-] & E & -> & Hne).
      assert (rest' = rest) as -> by (rewrite E in Et; by injection Et). done.
  - split; [done|]. intros (? & rest' & [= <-] & E & _). rewrite Et in E. injection E as ->.
    by rewrite (proj2 (strip_prefix_Some _ _ rest') eq_refl) in Es.
Qed.

Section Requests.
Context `{SetOrder} {HeaderValue : Type} (to_str : HeaderValue -> option string).
Context (decode : Decoder) (jwt : Hs256JwtValidator).

(** C21: what the guards before a handler check, exactly: they let a request pass if
    and only if the header is a bearer token that is not blank, the token verifies to
    claims [c], the clock is in the half-open window from [iat] to [exp], and every
    permission the route asks for is granted by a role of the claims (or the claims
    name the administrator); and the handler then runs in the tenant, with the
    identity and the roles, of the claims and of nothing else in the request.  The
    token is all they look at: not the [User] aggregate, so that a user who is
    suspended, and who by the documentation of [UserStatus] and of the crate cannot
    authenticate, passes them until the token expires
    ([Api.suspension_is_not_consulted]). *)
Theorem request_authorized_exact (authorization : option HeaderValue) (now : DateTime)
    (required : list Permission) (tenant : TenantContext) (principal : PrincipalContext) :
  (auth_middleware to_str decode jwt authorization now = Ok (tenant, principal)
   /\ authorize_command tenant principal required = Ok tt)
  <->
  exists hv rest c,
    authorization = Some hv /\ to_str hv = Some ("Bearer " +:+ rest)
    /\ is_blank (str_trim rest) = false
    /\ decode (secret jwt) (str_trim rest) = Ok c
    /\ (issued_at c <= now < expires_at c)%Z
    /\ tenant = mkTenantContext (claims_tenant_id c)
    /\ principal = mkPrincipalContext (sub c) (claims_roles c)
    /\ Forall (fun p => mkRole "admin" ∈ claims_roles c
         \/ exists r, r ∈ claims_roles c
              /\ perm_str p ∈ default_role_permissions (role_str r)) required.
Proof.
  rewrite authorize_command_Ok. unfold auth_middleware. split.
  - intros [Hm Hf]. apply bind_Ok_inv in Hm as (token & Ht & Hm).
    apply bind_Ok_inv in Hm as (c & Hv & Hm). apply map_err_Ok, validate_Ok in Hv as (Hb & Hd & Hw).
    injection Hm as <- <-. apply extract_bearer_Ok in Ht as (hv & rest & Ha & Hs & -> & _).
    by exists hv, rest, c.
  - intros (hv & rest & c & -> & Hs & Hb & Hd & Hw & -> & -> & Hf). split; [|exact Hf].
    rewrite (proj2 (extract_bearer_Ok to_str (Some hv) (str_trim rest))).
    + simpl. by rewrite (proj2 (validate_Ok decode jwt _ now c)).
    + exists hv, rest. repeat split; [done|]. intros E. by rewrite E in Hb.
Qed.
End Requests.

(** No built-in role but the administrator's can work with sales orders: the
    four routes ask for [sales.orders.*] permissions, while the mapping grants
    [sales.read] and [sales.write], so the manager and the salesperson, who hold
    [sales.write], are refused. *)
Theorem sales_routes_admin_only `{SetOrder} (tenant : TenantContext)
    (principal : PrincipalContext) :
  Forall (fun required =>
    authorize_command tenant principal required = Ok tt
    <-> mkRole "admin" ∈ ctx_roles principal)
  [create_sales_order_required; add_sales_order_line_required;
   confirm_sales_order_required; mark_sales_order_invoiced_required]
  /\ "sales.write"%string ∈ default_role_permissions "salesperson"
  /\ "sales.write"%string ∈ default_role_permissions "manager".
Proof.
  assert (Hnone : forall p r, p ∈ ["sales.orders.create"; "sales.orders.add_line";
    "sales.orders.confirm"; "sales.orders.mark_invoiced"]%string ->
    p ∉ default_role_permissions r).
  { intros p r Hp. unfold default_role_permissions. rewrite !elem_of_cons, elem_of_nil in Hp.
    destruct Hp as [->|[->|[->|[->|[]]]]]; repeat case_match;
      apply (bool_decide_unpack _); vm_compute; exact I. }
  split; [|split; apply list_elem_of_In; simpl; tauto].
  unfold create_sales_order_required, add_sales_order_line_required,
    confirm_sales_order_required, mark_sales_order_invoiced_required.
  repeat (apply Forall_cons; split); [..|apply Forall_nil; done];
    (rewrite authorize_command_Ok, Forall_singleton; split; [intros [?|(r & _ & Hr)]|by left];
     [done|]; exfalso; eapply Hnone; [|exact Hr]; set_solver).
Qed.

(** ** A sample request *)
Module Sample.
#[local] Instance sample_order : SetOrder := {| set_order := elements; set_order_perm s := Permutation_refl _ |}.

Definition tenant : TenantId := mkTenantId 1.
Definition claims : JwtClaims := mkClaims (mkPrincipalId 5) tenant [mkRole "warehouse"] 10 20.
Definition decode_one : Decoder := fun _ token =>
  if String.eqb token "t0ken" then Ok claims else Err "bad signature"%string.
Definition pass (header : string) (now : DateTime) : Result StatusCode (TenantContext * PrincipalContext) :=
  auth_middleware Some decode_one (mkValidator []) (Some header) now.
Definition asks (perms : list string) : Result AuthzError unit :=
  authorize_command (mkTenantContext tenant) (mkPrincipalContext (mkPrincipalId 5) (claims_roles claims))
    (map mkPermission perms).

Example token_window :
  map (pass "Bearer  t0ken ") [9; 10; 19; 20]%Z
  = [Err UNAUTHORIZED; Ok (mkTenantContext tenant, mkPrincipalContext (mkPrincipalId 5) [mkRole "warehouse"]);
     Ok (mkTenantContext tenant, mkPrincipalContext (mkPrincipalId 5) [mkRole "warehouse"]);
     Err UNAUTHORIZED].
Proof. vm_compute. reflexivity. Qed.
Example no_bearer : pass "Basic t0ken" 15 = Err UNAUTHORIZED.
Proof. reflexivity. Qed.
Example warehouse_permissions :
  (asks ["inventory.write"], asks ["inventory.read"; "ledger.read"])%string
  = (Ok tt, Err (Forbidden "ledger.read")).
Proof. vm_compute. reflexivity. Qed.
End Sample.
