(* ===== verification/Users.v ===== *)
(** * Identity management: [crates/auth/src/user.rs]

    The [User] aggregate: creation, role assignment and revocation, suspension,
    activation; who may hand out which role. *)

From Stdlib Require Import Ascii.
From S2P Require Import Prelude Core Events Auth.

(** [str::to_lowercase] maps by Unicode's tables; nothing here depends on them. *)
Class Lowercase := to_lowercase : string -> string.

(** @src crates/auth/src/user.rs 19-33 [UserId] *)
Record UserId := mkUserId { user_id_uuid : Uuid }.

#[global] Instance UserId_eq_dec : EqDecision UserId.
Proof. solve_decision. Defined.

(** @src crates/auth/src/user.rs 77-86 [UserStatus] *)
Inductive UserStatus : Type := Active | Suspended.

#[global] Instance UserStatus_eq_dec : EqDecision UserStatus.
Proof. solve_decision. Defined.

(** @src crates/auth/src/user.rs 101-118 [User] *)
Record User := mkUser {
  id : UserId;
  user_tenant_id : option TenantId;
  email : string;
  display_name : string;
  roles : list Role;
  status : UserStatus;
  version : Z;
  created : bool
}.

(** @src crates/auth/src/user.rs 120-133 [User::default] *)
Definition default (fresh : UserId) : User :=
  {| id := fresh; user_tenant_id := None; email := ""; display_name := ""; roles := [];
     status := Active; version := 0; created := false |}.

(** @src crates/auth/src/user.rs 136-142 [User::new] *)
Definition new (tenant_id : TenantId) (id : UserId) : User :=
  {| id := id; user_tenant_id := Some tenant_id; email := ""; display_name := ""; roles := [];
     status := Active; version := 0; created := false |}.

(** @src crates/auth/src/user.rs 144-149 [User::empty] *)
Definition empty (id : UserId) : User := default id.

(** @src crates/auth/src/user.rs 151-159 [User::ensure_tenant] *)
Definition ensure_tenant (self : User) (tenant_id : TenantId) : DomainResult unit :=
  if negb (created self) then Ok tt
  else if decide (user_tenant_id self <> Some tenant_id)
  then Err (InvariantViolation "tenant mismatch")
  else Ok tt.

(** @src crates/auth/src/user.rs 161-166 [User::ensure_not_suspended] *)
Definition ensure_not_suspended (self : User) : DomainResult unit :=
  if decide (status self = Suspended) then Err (InvariantViolation "user is suspended")
  else Ok tt.

(** @src crates/auth/src/user.rs 185-194 [CreateUser] *)
Record CreateUser := mkCreateUser {
  cu_tenant_id : TenantId;
  cu_user_id : UserId;
  cu_email : string;
  cu_display_name : string;
  cu_initial_roles : list Role;
  cu_occurred_at : DateTime
}.

(** @src crates/auth/src/user.rs 196-205 [AssignRole] *)
Record AssignRole := mkAssignRole {
  ar_tenant_id : TenantId;
  ar_user_id : UserId;
  ar_role : Role;
  actor_roles : list Role;
  ar_occurred_at : DateTime
}.

(** @src crates/auth/src/user.rs 207-214 [RevokeRole] *)
Record RevokeRole := mkRevokeRole {
  rr_tenant_id : TenantId;
  rr_user_id : UserId;
  rr_role : Role;
  rr_occurred_at : DateTime
}.

(** @src crates/auth/src/user.rs 216-223 [SuspendUser] *)
Record SuspendUser := mkSuspendUser {
  su_tenant_id : TenantId;
  su_user_id : UserId;
  su_reason : string;
  su_occurred_at : DateTime
}.

(** @src crates/auth/src/user.rs 225-231 [ActivateUser] *)
Record ActivateUser := mkActivateUser {
  au_tenant_id : TenantId;
  au_user_id : UserId;
  au_occurred_at : DateTime
}.

(** @src crates/auth/src/user.rs 233-241 [UserCommand] *)
Inductive UserCommand : Type :=
| CmdCreate (cmd : CreateUser)
| CmdAssignRole (cmd : AssignRole)
| CmdRevokeRole (cmd : RevokeRole)
| CmdSuspend (cmd : SuspendUser)
| CmdActivate (cmd : ActivateUser).

(** @src crates/auth/src/user.rs 247-256 [UserCreated] *)
Record UserCreated := mkUserCreated {
  uc_tenant_id : TenantId;
  uc_user_id : UserId;
  uc_email : string;
  uc_display_name : string;
  uc_initial_roles : list Role;
  uc_occurred_at : DateTime
}.

(** @src crates/auth/src/user.rs 258-265 [RoleAssigned] *)
Record RoleAssigned := mkRoleAssigned {
  ra_tenant_id : TenantId;
  ra_user_id : UserId;
  ra_role : Role;
  ra_occurred_at : DateTime
}.

(** @src crates/auth/src/user.rs 267-274 [RoleRevoked] *)
Record RoleRevoked := mkRoleRevoked {
  rv_tenant_id : TenantId;
  rv_user_id : UserId;
  rv_role : Role;
  rv_occurred_at : DateTime
}.

(** @src crates/auth/src/user.rs 276-283 [UserSuspended] *)
Record UserSuspended := mkUserSuspended {
  us_tenant_id : TenantId;
  us_user_id : UserId;
  us_reason : string;
  us_occurred_at : DateTime
}.

(** @src crates/auth/src/user.rs 285-291 [UserActivated] *)
Record UserActivated := mkUserActivated {
  ua_tenant_id : TenantId;
  ua_user_id : UserId;
  ua_occurred_at : DateTime
}.

(** @src crates/auth/src/user.rs 293-301 [UserEvent] *)
Inductive UserEvent : Type :=
| EvCreated (e : UserCreated)
| EvRoleAssigned (e : RoleAssigned)
| EvRoleRevoked (e : RoleRevoked)
| EvSuspended (e : UserSuspended)
| EvActivated (e : UserActivated).

(** @src crates/auth/src/user.rs 303-327 [Event for UserEvent] *)
#[global] Instance UserEvent_event : Event UserEvent := {|
  event_type ev :=
    match ev with
    | EvCreated _ => "auth.user.created"
    | EvRoleAssigned _ => "auth.user.role_assigned"
    | EvRoleRevoked _ => "auth.user.role_revoked"
    | EvSuspended _ => "auth.user.suspended"
    | EvActivated _ => "auth.user.activated"
    end%string;
  event_version _ := 1%Z;
  occurred_at ev :=
    match ev with
    | EvCreated e => uc_occurred_at e
    | EvRoleAssigned e => ra_occurred_at e
    | EvRoleRevoked e => rv_occurred_at e
    | EvSuspended e => us_occurred_at e
    | EvActivated e => ua_occurred_at e
    end
|}.

(** ** Handlers *)

Section Handlers.
Context `{Lowercase}.

(** @src crates/auth/src/user.rs 376-399 [User::handle_create] *)
Definition handle_create (self : User) (cmd : CreateUser) : DomainResult (list UserEvent) :=
  if created self then Err (InvariantViolation "user already exists")
  else if is_blank (cu_email cmd) || negb (str_contains "@"%char (cu_email cmd))
  then Err (Validation "invalid email format")
  else if is_blank (cu_display_name cmd)
  then Err (Validation "display name cannot be empty")
  else Ok [EvCreated
    {| uc_tenant_id := cu_tenant_id cmd; uc_user_id := cu_user_id cmd;
       uc_email := to_lowercase (str_trim (cu_email cmd));
       uc_display_name := str_trim (cu_display_name cmd);
       uc_initial_roles := cu_initial_roles cmd; uc_occurred_at := cu_occurred_at cmd |}].

(** @src crates/auth/src/user.rs 401-432 [User::handle_assign_role] *)
Definition handle_assign_role (self : User) (cmd : AssignRole)
  : DomainResult (list UserEvent) :=
  if negb (created self) then Err NotFound else
  _ ← ensure_tenant self (ar_tenant_id cmd);
  _ ← ensure_not_suspended self;
  if has_role (roles self) (role_str (ar_role cmd))
  then Err (InvariantViolation "role already assigned") else
  let actor_has_admin := has_role (actor_roles cmd) "admin" in
  let actor_has_role := has_role (actor_roles cmd) (role_str (ar_role cmd)) in
  if negb actor_has_admin && negb actor_has_role then Err Unauthorized else
  Ok [EvRoleAssigned
    {| ra_tenant_id := ar_tenant_id cmd; ra_user_id := ar_user_id cmd;
       ra_role := ar_role cmd; ra_occurred_at := ar_occurred_at cmd |}].

(** @src crates/auth/src/user.rs 434-452 [User::handle_revoke_role] *)
Definition handle_revoke_role (self : User) (cmd : RevokeRole)
  : DomainResult (list UserEvent) :=
  if negb (created self) then Err NotFound else
  _ ← ensure_tenant self (rr_tenant_id cmd);
  if negb (has_role (roles self) (role_str (rr_role cmd)))
  then Err (InvariantViolation "role not assigned") else
  Ok [EvRoleRevoked
    {| rv_tenant_id := rr_tenant_id cmd; rv_user_id := rr_user_id cmd;
       rv_role := rr_role cmd; rv_occurred_at := rr_occurred_at cmd |}].

(** @src crates/auth/src/user.rs 454-471 [User::handle_suspend] *)
Definition handle_suspend (self : User) (cmd : SuspendUser) : DomainResult (list UserEvent) :=
  if negb (created self) then Err NotFound else
  _ ← ensure_tenant self (su_tenant_id cmd);
  if decide (status self = Suspended)
  then Err (InvariantViolation "user already suspended") else
  Ok [EvSuspended
    {| us_tenant_id := su_tenant_id cmd; us_user_id := su_user_id cmd;
       us_reason := su_reason cmd; us_occurred_at := su_occurred_at cmd |}].

(** @src crates/auth/src/user.rs 473-489 [User::handle_activate] *)
Definition handle_activate (self : User) (cmd : ActivateUser) : DomainResult (list UserEvent) :=
  if negb (created self) then Err NotFound else
  _ ← ensure_tenant self (au_tenant_id cmd);
  if decide (status self = Active)
  then Err (InvariantViolation "user already active") else
  Ok [EvActivated
    {| ua_tenant_id := au_tenant_id cmd; ua_user_id := au_user_id cmd;
       ua_occurred_at := au_occurred_at cmd |}].

(** @src crates/auth/src/user.rs 360-368 [User::handle] *)
Definition handle (self : User) (command : UserCommand) : DomainResult (list UserEvent) :=
  match command with
  | CmdCreate cmd => handle_create self cmd
  | CmdAssignRole cmd => handle_assign_role self cmd
  | CmdRevokeRole cmd => handle_revoke_role self cmd
  | CmdSuspend cmd => handle_suspend self cmd
  | CmdActivate cmd => handle_activate self cmd
  end.

(** ** Appliers *)

(** @src crates/auth/src/user.rs 495-503 [User::apply_created] *)
Definition apply_created (self : User) (e : UserCreated) : User :=
  {| id := uc_user_id e; user_tenant_id := Some (uc_tenant_id e); email := uc_email e;
     display_name := uc_display_name e; roles := uc_initial_roles e; status := Active;
     version := version self; created := true |}.

(** [self.roles = rs] and [self.status = st]. *)
Definition with_roles_status (self : User) (rs : list Role) (st : UserStatus) : User :=
  {| id := id self; user_tenant_id := user_tenant_id self; email := email self;
     display_name := display_name self; roles := rs; status := st;
     version := version self; created := created self |}.

(** @src crates/auth/src/user.rs 505-507 [User::apply_role_assigned] *)
Definition apply_role_assigned (self : User) (e : RoleAssigned) : User :=
  with_roles_status self (roles self ++ [ra_role e]) (status self).

(** @src crates/auth/src/user.rs 509-511 [User::apply_role_revoked] *)
Definition apply_role_revoked (self : User) (e : RoleRevoked) : User :=
  with_roles_status self
    (List.filter (fun r => negb (String.eqb (role_str r) (role_str (rv_role e)))) (roles self))
    (status self).

(** @src crates/auth/src/user.rs 513-515 [User::apply_suspended] *)
Definition apply_suspended (self : User) (_ : UserSuspended) : User :=
  with_roles_status self (roles self) Suspended.

(** @src crates/auth/src/user.rs 517-519 [User::apply_activated] *)
Definition apply_activated (self : User) (_ : UserActivated) : User :=
  with_roles_status self (roles self) Active.

(** @src crates/auth/src/user.rs 349-358 [User::apply] *)
Definition apply (self : User) (event : UserEvent) : User :=
  let self :=
    match event with
    | EvCreated e => apply_created self e
    | EvRoleAssigned e => apply_role_assigned self e
    | EvRoleRevoked e => apply_role_revoked self e
    | EvSuspended e => apply_suspended self e
    | EvActivated e => apply_activated self e
    end in
  {| id := id self; user_tenant_id := user_tenant_id self; email := email self;
     display_name := display_name self; roles := roles self; status := status self;
     version := wrapU 64 (version self + 1); created := created self |}.

(** @src crates/auth/src/user.rs 169-179 [AggregateRoot for User] *)
#[global] Instance User_aggregate : Aggregate User UserCommand UserEvent :=
  {| agg_version := version; agg_apply := apply; agg_handle := handle |}.

(** ** What a command asks for, and when it is granted *)

Definition evolved (s : User) (c : UserCommand) : User :=
  let bump := wrapU 64 (version s + 1) in
  let keep rs st :=
    {| id := id s; user_tenant_id := user_tenant_id s; email := email s;
       display_name := display_name s; roles := rs; status := st; version := bump;
       created := created s |} in
  match c with
  | CmdCreate c =>
    {| id := cu_user_id c; user_tenant_id := Some (cu_tenant_id c);
       email := to_lowercase (str_trim (cu_email c));
       display_name := str_trim (cu_display_name c); roles := cu_initial_roles c;
       status := Active; version := bump; created := true |}
  | CmdAssignRole c => keep (roles s ++ [ar_role c]) (status s)
  | CmdRevokeRole c =>
    keep (List.filter (fun r => negb (String.eqb (role_str r) (role_str (rr_role c)))) (roles s))
      (status s)
  | CmdSuspend _ => keep (roles s) Suspended
  | CmdActivate _ => keep (roles s) Active
  end.

(** An actor may hand out a role it holds, and the administrator any role. *)
Definition may_grant (actor : list Role) (r : Role) : Prop :=
  mkRole "admin" ∈ actor \/ r ∈ actor.

Definition accepts (s : User) (c : UserCommand) : Prop :=
  match c with
  | CmdCreate c =>
    created s = false /\ is_blank (cu_email c) = false
    /\ str_contains "@"%char (cu_email c) = true /\ is_blank (cu_display_name c) = false
  | CmdAssignRole c =>
    created s = true /\ user_tenant_id s = Some (ar_tenant_id c) /\ status s = Active
    /\ ar_role c ∉ roles s /\ may_grant (actor_roles c) (ar_role c)
  | CmdRevokeRole c =>
    created s = true /\ user_tenant_id s = Some (rr_tenant_id c) /\ rr_role c ∈ roles s
  | CmdSuspend c =>
    created s = true /\ user_tenant_id s = Some (su_tenant_id c) /\ status s = Active
  | CmdActivate c =>
    created s = true /\ user_tenant_id s = Some (au_tenant_id c) /\ status s = Suspended
  end.

Lemma user_ensure_tenant_Ok s t :
  created s = true -> ensure_tenant s t = Ok tt <-> user_tenant_id s = Some t.
Proof. unfold ensure_tenant. intros ->. apply ensure_eq_Ok. Qed.

Lemma has_role_false rs r : has_role rs (role_str r) = false <-> r ∉ rs.
Proof. rewrite <- not_true_iff_false, has_role_spec. by destruct r. Qed.

Lemma has_role_true rs r : has_role rs (role_str r) = true <-> r ∈ rs.
Proof. rewrite has_role_spec. by destruct r. Qed.

Lemma may_grant_spec actor r :
  negb (has_role actor "admin") && negb (has_role actor (role_str r)) = false
  <-> may_grant actor r.
Proof.
  unfold may_grant. rewrite <- (has_role_true actor r), <- has_role_spec.
  destruct (has_role actor "admin"), (has_role actor (role_str r)); simpl; naive_solver.
Qed.

Lemma user_handle_sound s c es :
  handle s c = Ok es -> accepts s c /\ replay s es = evolved s c.
Proof.
  intros H0. destruct c as [c|c|c|c|c]; simpl in H0.
  - unfold handle_create in H0. guards H0. done.
  - unfold handle_assign_role, ensure_not_suspended in H0. guards H0.
    destruct a. apply user_ensure_tenant_Ok in Ha; [|done].
    split; [|done]. repeat split; [done..| | |].
    + by destruct (status s).
    + by apply has_role_false.
    + by apply may_grant_spec.
  - unfold handle_revoke_role in H0. guards H0. destruct a.
    apply user_ensure_tenant_Ok in Ha; [|done]. split; [|done].
    repeat split; [done..|]. by apply has_role_true.
  - unfold handle_suspend in H0. guards H0. destruct a.
    apply user_ensure_tenant_Ok in Ha; [|done]. split; [|done].
    repeat split; [done..|]. by destruct (status s).
  - unfold handle_activate in H0. guards H0. destruct a.
    apply user_ensure_tenant_Ok in Ha; [|done]. split; [|done].
    repeat split; [done..|]. by destruct (status s).
Qed.

Lemma user_handle_complete s c : accepts s c -> is_ok (handle s c) = true.
Proof.
  destruct c as [c|c|c|c|c]; simpl.
  - intros (Hc & He & Ha & Hd). unfold handle_create. by rewrite Hc, He, Ha, Hd.
  - intros (Hc & Ht & Hs & Hr & Hg). unfold handle_assign_role, ensure_not_suspended.
    rewrite (proj2 (user_ensure_tenant_Ok _ _ Hc) Ht), Hc, Hs. simpl.
    apply has_role_false in Hr. rewrite Hr. apply may_grant_spec in Hg. by rewrite Hg.
  - intros (Hc & Ht & Hr). unfold handle_revoke_role.
    rewrite (proj2 (user_ensure_tenant_Ok _ _ Hc) Ht), Hc. simpl.
    apply has_role_true in Hr. by rewrite Hr.
  - intros (Hc & Ht & Hs). unfold handle_suspend.
    rewrite (proj2 (user_ensure_tenant_Ok _ _ Hc) Ht), Hc. simpl. by rewrite Hs.
  - intros (Hc & Ht & Hs). unfold handle_activate.
    rewrite (proj2 (user_ensure_tenant_Ok _ _ Hc) Ht), Hc. simpl. by rewrite Hs.
Qed.

Lemma user_handle_iff s c : is_ok (handle s c) = true <-> accepts s c.
Proof.
  split; [|apply user_handle_complete].
  destruct (handle s c) as [es|] eqn:E; [|done]. by apply user_handle_sound in E as [].
Qed.

(** A created user has a tenant; a user not created yet has no role. *)
Definition inv (s : User) : Prop :=
  is_u64 (version s)
  /\ (created s = true -> is_Some (user_tenant_id s))
  /\ (created s = false -> roles s = []).

Lemma user_new_inv t i : inv (new t i).
Proof. unfold inv; simpl. repeat split; try done; ilia. Qed.

Lemma user_evolved_inv s c : inv s -> accepts s c -> inv (evolved s c).
Proof.
  intros (Hv & Hc & Hn) Ha. destruct c as [c|c|c|c|c];
    (split; [apply wrapU_range; lia|]); simpl in *; [by eauto|..];
    destruct Ha as (Hcr & Ha); rewrite Hcr; split; auto; discriminate.
Qed.

#[global] Instance User_laws : AggregateLaws User UserCommand UserEvent.
Proof.
  refine {| agg_inv := inv; cmd_ok := fun _ => True |}.
  - by intros s [].
  - intros s c es Hi _ Hh. apply user_handle_sound in Hh as [Ha ->]. by apply user_evolved_inv.
Defined.

(** ** Who holds a role *)

(** The commands that, accepted, hand out and take away a role. *)
Definition grants (r : Role) (s : User) (c : UserCommand) : Prop :=
  accepts s c /\
  match c with
  | CmdCreate c => r ∈ cu_initial_roles c
  | CmdAssignRole c => ar_role c = r
  | _ => False
  end.

Definition revokes (r : Role) (s : User) (c : UserCommand) : Prop :=
  accepts s c /\ match c with CmdRevokeRole c => rr_role c = r | _ => False end.

Lemma user_run_command s c :
  accepts s c /\ run_command s c = evolved s c \/ ~ accepts s c /\ run_command s c = s.
Proof.
  unfold run_command. simpl. destruct (handle s c) as [es|e] eqn:Eh.
  - left. by apply user_handle_sound in Eh as [Ha ->].
  - right. split; [|done]. rewrite <- user_handle_iff. by rewrite Eh.
Qed.

Lemma elem_of_retain (rs : list Role) r q :
  r ∈ List.filter (fun x => negb (String.eqb (role_str x) (role_str q))) rs <-> r ∈ rs /\ q <> r.
Proof.
  rewrite !list_elem_of_In, filter_In, negb_true_iff, String.eqb_neq.
  destruct r as [r], q as [q]; simpl. split; intros [Hin Hn]; (split; [done|]); congruence.
Qed.

Lemma role_step r s c :
  inv s -> r ∈ roles (run_command s c) <-> grants r s c \/ (r ∈ roles s /\ ~ revokes r s c).
Proof.
  intros (_ & _ & Hn). unfold grants, revokes.
  destruct (user_run_command s c) as [[Ha ->]|[Ha ->]]; [|naive_solver].
  destruct c as [c|c|c|c|c]; simpl in *; [|rewrite elem_of_app, list_elem_of_singleton|
    rewrite elem_of_retain|..]; [|naive_solver..].
  destruct Ha as [Hc Ha]. rewrite (Hn Hc). set_solver.
Qed.

(** C25: the handlers accept exactly the commands of [accepts], and a user holds a
    role exactly when it was rightly granted and not revoked since: by the accepted
    command that created the user with it, or by an accepted assignment, made in
    the user's own tenant while the user was not suspended, by an actor that holds
    the role or is an administrator. *)
Theorem roles_held_exactly_as_granted (t : TenantId) (i : UserId) (cs : list UserCommand)
    (r : Role) :
  (forall s c, is_ok (handle s c) = true <-> accepts s c)
  /\ (r ∈ roles (foldl run_command (new t i) cs)
      <-> set_since (grants r) (revokes r) (new t i) cs).
Proof.
  split; [apply user_handle_iff|].
  apply (run_since (fun s => r ∈ roles s) (grants r) (revokes r) inv).
  - apply user_new_inv.
  - simpl. set_solver.
  - intros s c Hi. split; [|by apply role_step]. change (agg_inv (foldl run_command s [c])).
    apply run_commands_inv; [done | repeat constructor].
Qed.
End Handlers.

(** ** A sample: a clerk creates a user and tries to hand out roles *)
Module Sample.
#[local] Instance sample_lowercase : Lowercase := fun s => s.

Definition tenant : TenantId := mkTenantId 1.
Definition alice : UserId := mkUserId 2.
Definition create : UserCommand :=
  CmdCreate (mkCreateUser tenant alice "alice@example.com" "Alice" [mkRole "user"] 0).
Definition assign (role : string) (actor : list Role) : UserCommand :=
  CmdAssignRole (mkAssignRole tenant alice (mkRole role) actor 1).
Definition suspend : UserCommand := CmdSuspend (mkSuspendUser tenant alice "left" 2).

(** A manager may pass on its own role but not another; a suspended user gets no
    role at all, from the administrator either. *)
Example roles_after_run :
  roles (foldl run_command (new tenant alice)
    [create; assign "manager" [mkRole "manager"]; assign "admin" [mkRole "manager"];
     suspend; assign "accountant" [mkRole "admin"]])
  = [mkRole "user"; mkRole "manager"].
Proof. reflexivity. Qed.

Example escalation_unauthorized :
  handle (foldl run_command (new tenant alice) [create]) (assign "admin" [mkRole "manager"])
  = Err Unauthorized.
Proof. reflexivity. Qed.
End Sample.
