(* ===== verification/Sales.v ===== *)
(** * Sales orders: [crates/sales/src/order.rs]

    The [SalesOrder] aggregate: lines are added while the order is a draft, then
    it is confirmed and invoiced. *)

From S2P Require Import Prelude Core Events Products.

(** @src crates/sales/src/order.rs 8-17 [SalesOrderId] *)
Record SalesOrderId := mkSalesOrderId { so_aggregate : AggregateId }.

#[global] Instance SalesOrderId_eq_dec : EqDecision SalesOrderId.
Proof. solve_decision. Defined.
#[global] Instance SalesOrderId_countable : Countable SalesOrderId.
Proof. refine (inj_countable' so_aggregate mkSalesOrderId _); by intros []. Defined.

(** @src crates/sales/src/order.rs 25-33 [SalesOrderStatus] *)
Inductive SalesOrderStatus : Type := Draft | Confirmed | Invoiced | Closed.

#[global] Instance SalesOrderStatus_eq_dec : EqDecision SalesOrderStatus.
Proof. solve_decision. Defined.

(** @src crates/sales/src/order.rs 35-43 [OrderLine] *)
Record OrderLine := mkOrderLine {
  line_no : Z;
  product_id : ProductId;
  quantity : Z;
  unit_price : Z
}.

#[global] Instance OrderLine_eq_dec : EqDecision OrderLine.
Proof. solve_decision. Defined.

(** @src crates/sales/src/order.rs 45-54 [SalesOrder] *)
Record SalesOrder := mkSalesOrder {
  so_id : SalesOrderId;
  so_tenant_id : option TenantId;
  so_status : SalesOrderStatus;
  so_lines : list OrderLine;
  so_version : Z;
  so_created : bool
}.

(** @src crates/sales/src/order.rs 57-67 [SalesOrder::empty] *)
Definition empty (id : SalesOrderId) : SalesOrder :=
  {| so_id := id; so_tenant_id := None; so_status := Draft; so_lines := [];
     so_version := 0; so_created := false |}.

(** @src crates/sales/src/order.rs 85-87 [SalesOrder::is_modifiable] *)
Definition is_modifiable (self : SalesOrder) : bool :=
  match so_status self with Draft => true | _ => false end.

(** @src crates/sales/src/order.rs 89-91 [SalesOrder::is_invoice_allowed] *)
Definition is_invoice_allowed (self : SalesOrder) : bool :=
  match so_status self with Confirmed => true | _ => false end.

(** @src crates/sales/src/order.rs 106-112 [CreateSalesOrder] *)
Record CreateSalesOrder := mkCreateSalesOrder {
  cso_tenant_id : TenantId;
  cso_order_id : SalesOrderId;
  cso_occurred_at : DateTime
}.

(** @src crates/sales/src/order.rs 114-123 [AddLine] *)
Record AddLine := mkAddLine {
  al_tenant_id : TenantId;
  al_order_id : SalesOrderId;
  al_product_id : ProductId;
  al_quantity : Z;
  al_unit_price : Z;
  al_occurred_at : DateTime
}.

(** @src crates/sales/src/order.rs 125-131 [ConfirmOrder] *)
Record ConfirmOrder := mkConfirmOrder {
  co_tenant_id : TenantId;
  co_order_id : SalesOrderId;
  co_occurred_at : DateTime
}.

(** @src crates/sales/src/order.rs 133-139 [MarkInvoiced] *)
Record MarkInvoiced := mkMarkInvoiced {
  mi_tenant_id : TenantId;
  mi_order_id : SalesOrderId;
  mi_occurred_at : DateTime
}.

(** @src crates/sales/src/order.rs 141-147 [SalesOrderCommand] *)
Inductive SalesOrderCommand : Type :=
| CmdCreateSalesOrder (cmd : CreateSalesOrder)
| CmdAddLine (cmd : AddLine)
| CmdConfirmOrder (cmd : ConfirmOrder)
| CmdMarkInvoiced (cmd : MarkInvoiced).

(** @src crates/sales/src/order.rs 149-155 [SalesOrderCreated] *)
Record SalesOrderCreated := mkSalesOrderCreated {
  soc_tenant_id : TenantId;
  soc_order_id : SalesOrderId;
  soc_occurred_at : DateTime
}.

(** @src crates/sales/src/order.rs 157-167 [LineAdded] *)
Record LineAdded := mkLineAdded {
  la_tenant_id : TenantId;
  la_order_id : SalesOrderId;
  la_line_no : Z;
  la_product_id : ProductId;
  la_quantity : Z;
  la_unit_price : Z;
  la_occurred_at : DateTime
}.

(** @src crates/sales/src/order.rs 169-175 [OrderConfirmed] *)
Record OrderConfirmed := mkOrderConfirmed {
  oc_tenant_id : TenantId;
  oc_order_id : SalesOrderId;
  oc_occurred_at : DateTime
}.

(** @src crates/sales/src/order.rs 177-183 [OrderInvoiced] *)
Record OrderInvoiced := mkOrderInvoiced {
  oi_tenant_id : TenantId;
  oi_order_id : SalesOrderId;
  oi_occurred_at : DateTime
}.

(** @src crates/sales/src/order.rs 185-191 [SalesOrderEvent] *)
Inductive SalesOrderEvent : Type :=
| EvSalesOrderCreated (e : SalesOrderCreated)
| EvLineAdded (e : LineAdded)
| EvOrderConfirmed (e : OrderConfirmed)
| EvOrderInvoiced (e : OrderInvoiced).

(** @src crates/sales/src/order.rs 193-215 [Event for SalesOrderEvent] *)
#[global] Instance SalesOrderEvent_event : Event SalesOrderEvent := {|
  event_type ev :=
    match ev with
    | EvSalesOrderCreated _ => "sales.order.created"
    | EvLineAdded _ => "sales.order.line_added"
    | EvOrderConfirmed _ => "sales.order.confirmed"
    | EvOrderInvoiced _ => "sales.order.invoiced"
    end%string;
  event_version _ := 1%Z;
  occurred_at ev :=
    match ev with
    | EvSalesOrderCreated e => soc_occurred_at e
    | EvLineAdded e => la_occurred_at e
    | EvOrderConfirmed e => oc_occurred_at e
    | EvOrderInvoiced e => oi_occurred_at e
    end
|}.

(** @src crates/sales/src/order.rs 222-250 [SalesOrder::apply] *)
Definition apply (self : SalesOrder) (event : SalesOrderEvent) : SalesOrder :=
  let version := wrapU 64 (so_version self + 1) in
  match event with
  | EvSalesOrderCreated e =>
    {| so_id := soc_order_id e; so_tenant_id := Some (soc_tenant_id e); so_status := Draft;
       so_lines := []; so_version := version; so_created := true |}
  | EvLineAdded e =>
    let line := {| line_no := la_line_no e; product_id := la_product_id e;
                   quantity := la_quantity e; unit_price := la_unit_price e |} in
    {| so_id := so_id self; so_tenant_id := so_tenant_id self; so_status := so_status self;
       so_lines := so_lines self ++ [line]; so_version := version;
       so_created := so_created self |}
  | EvOrderConfirmed _ =>
    {| so_id := so_id self; so_tenant_id := so_tenant_id self; so_status := Confirmed;
       so_lines := so_lines self; so_version := version; so_created := so_created self |}
  | EvOrderInvoiced _ =>
    {| so_id := so_id self; so_tenant_id := so_tenant_id self; so_status := Invoiced;
       so_lines := so_lines self; so_version := version; so_created := so_created self |}
  end.

(** @src crates/sales/src/order.rs 263-271 [SalesOrder::ensure_tenant] *)
Definition ensure_tenant (self : SalesOrder) (tenant_id : TenantId) : DomainResult unit :=
  if negb (so_created self) then Ok tt
  else if decide (so_tenant_id self <> Some tenant_id)
  then Err (InvariantViolation "tenant mismatch")
  else Ok tt.

(** @src crates/sales/src/order.rs 273-278 [SalesOrder::ensure_order_id] *)
Definition ensure_order_id (self : SalesOrder) (id : SalesOrderId) : DomainResult unit :=
  if decide (so_id self <> id)
  then Err (InvariantViolation "order_id mismatch") else Ok tt.

(** @src crates/sales/src/order.rs 280-293 [SalesOrder::handle_create] *)
Definition handle_create (self : SalesOrder) (cmd : CreateSalesOrder)
  : DomainResult (list SalesOrderEvent) :=
  if so_created self then Err (Conflict "sales order already exists")
  else Ok [EvSalesOrderCreated
    {| soc_tenant_id := cso_tenant_id cmd; soc_order_id := cso_order_id cmd;
       soc_occurred_at := cso_occurred_at cmd |}].

(** [(self.lines.len() as u32) + 1]. *)
Definition next_line_no (lines : list OrderLine) : Z :=
  wrapU 32 (wrapU 32 (Z.of_nat (length lines)) + 1).

(** @src crates/sales/src/order.rs 295-327 [SalesOrder::handle_add_line] *)
Definition handle_add_line (self : SalesOrder) (cmd : AddLine)
  : DomainResult (list SalesOrderEvent) :=
  if negb (so_created self) then Err NotFound else
  _ ← ensure_tenant self (al_tenant_id cmd);
  _ ← ensure_order_id self (al_order_id cmd);
  if negb (is_modifiable self)
  then Err (InvariantViolation "cannot modify order once it is confirmed or invoiced")
  else if decide (al_quantity cmd <= 0)%Z then Err (Validation "quantity must be positive")
  else if decide (al_unit_price cmd = 0)%Z then Err (Validation "unit_price must be positive")
  else Ok [EvLineAdded
    {| la_tenant_id := al_tenant_id cmd; la_order_id := al_order_id cmd;
       la_line_no := next_line_no (so_lines self); la_product_id := al_product_id cmd;
       la_quantity := al_quantity cmd; la_unit_price := al_unit_price cmd;
       la_occurred_at := al_occurred_at cmd |}].

(** @src crates/sales/src/order.rs 329-356 [SalesOrder::handle_confirm] *)
Definition handle_confirm (self : SalesOrder) (cmd : ConfirmOrder)
  : DomainResult (list SalesOrderEvent) :=
  if negb (so_created self) then Err NotFound else
  _ ← ensure_tenant self (co_tenant_id cmd);
  _ ← ensure_order_id self (co_order_id cmd);
  if decide (so_status self <> Draft)
  then Err (InvariantViolation "only draft orders can be confirmed")
  else if decide (so_lines self = [])
  then Err (Validation "cannot confirm order without lines")
  else Ok [EvOrderConfirmed
    {| oc_tenant_id := co_tenant_id cmd; oc_order_id := co_order_id cmd;
       oc_occurred_at := co_occurred_at cmd |}].

(** @src crates/sales/src/order.rs 358-379 [SalesOrder::handle_mark_invoiced] *)
Definition handle_mark_invoiced (self : SalesOrder) (cmd : MarkInvoiced)
  : DomainResult (list SalesOrderEvent) :=
  if negb (so_created self) then Err NotFound else
  _ ← ensure_tenant self (mi_tenant_id cmd);
  _ ← ensure_order_id self (mi_order_id cmd);
  if negb (is_invoice_allowed self)
  then Err (InvariantViolation "cannot invoice order that is not confirmed")
  else Ok [EvOrderInvoiced
    {| oi_tenant_id := mi_tenant_id cmd; oi_order_id := mi_order_id cmd;
       oi_occurred_at := mi_occurred_at cmd |}].

(** @src crates/sales/src/order.rs 252-259 [SalesOrder::handle] *)
Definition handle (self : SalesOrder) (command : SalesOrderCommand)
  : DomainResult (list SalesOrderEvent) :=
  match command with
  | CmdCreateSalesOrder cmd => handle_create self cmd
  | CmdAddLine cmd => handle_add_line self cmd
  | CmdConfirmOrder cmd => handle_confirm self cmd
  | CmdMarkInvoiced cmd => handle_mark_invoiced self cmd
  end.

(** @src crates/sales/src/order.rs 94-104 [AggregateRoot for SalesOrder] *)
#[global] Instance SalesOrder_aggregate
  : Aggregate SalesOrder SalesOrderCommand SalesOrderEvent :=
  {| agg_version := so_version; agg_apply := apply; agg_handle := handle |}.

(** ** The invariant *)

(** Lines are numbered from 1 in the order they were added (modulo the width of
    the number) and sell a positive quantity at a positive price. *)
Definition line_ok (i : nat) (l : OrderLine) : Prop :=
  line_no l = wrapU 32 (Z.of_nat i + 1)
  /\ (0 < quantity l < 2 ^ 63)%Z /\ (0 < unit_price l < 2 ^ 64)%Z.

Definition lines_ok (ls : list OrderLine) : Prop :=
  forall i l, ls !! i = Some l -> line_ok i l.

Definition inv (s : SalesOrder) : Prop :=
  is_u64 (so_version s)
  /\ so_created s = bool_decide (is_Some (so_tenant_id s))
  /\ lines_ok (so_lines s)
  /\ so_status s <> Closed
  /\ (so_created s = false -> so_status s = Draft /\ so_lines s = [])
  /\ (so_status s <> Draft -> so_lines s <> []).

Definition command_ok (c : SalesOrderCommand) : Prop :=
  match c with
  | CmdAddLine c => is_i64 (al_quantity c) /\ is_u64 (al_unit_price c)
  | _ => True
  end.

Lemma order_lines_ok_nil : lines_ok [].
Proof. intros i l. by rewrite lookup_nil. Qed.

Lemma order_lines_ok_snoc ls l : lines_ok ls -> line_ok (length ls) l -> lines_ok (ls ++ [l]).
Proof.
  intros Hls Hl i l' Hi. apply lookup_app_Some in Hi as [Hi|[Hlen Hi]]; [by apply Hls|].
  apply list_lookup_singleton_Some in Hi as [Hi <-].
  by replace i with (length ls) by lia.
Qed.

Lemma order_next_line_no_eq ls : next_line_no ls = wrapU 32 (Z.of_nat (length ls) + 1).
Proof. apply wrapU_add_l. Qed.

Lemma order_empty_inv id : inv (empty id).
Proof. unfold inv; simpl. split_and!; try done; ilia. Qed.

Lemma order_ensure_tenant_Ok s t :
  so_created s = true -> ensure_tenant s t = Ok tt <-> so_tenant_id s = Some t.
Proof. unfold ensure_tenant. intros ->. apply ensure_eq_Ok. Qed.

Lemma order_ensure_order_id_Ok s i : ensure_order_id s i = Ok tt <-> so_id s = i.
Proof. apply ensure_eq_Ok. Qed.

(** The common guard of the three commands on an existing order. *)
Definition addressed (s : SalesOrder) (t : TenantId) (i : SalesOrderId) : Prop :=
  so_created s = true /\ so_tenant_id s = Some t /\ so_id s = i.

Definition accepts (s : SalesOrder) (c : SalesOrderCommand) : Prop :=
  match c with
  | CmdCreateSalesOrder _ => so_created s = false
  | CmdAddLine c =>
    addressed s (al_tenant_id c) (al_order_id c) /\ so_status s = Draft
    /\ (0 < al_quantity c)%Z /\ al_unit_price c <> 0%Z
  | CmdConfirmOrder c =>
    addressed s (co_tenant_id c) (co_order_id c) /\ so_status s = Draft /\ so_lines s <> []
  | CmdMarkInvoiced c =>
    addressed s (mi_tenant_id c) (mi_order_id c) /\ so_status s = Confirmed
  end.

Definition evolved (s : SalesOrder) (c : SalesOrderCommand) : SalesOrder :=
  let version := wrapU 64 (so_version s + 1) in
  match c with
  | CmdCreateSalesOrder c =>
    mkSalesOrder (cso_order_id c) (Some (cso_tenant_id c)) Draft [] version true
  | CmdAddLine c =>
    mkSalesOrder (so_id s) (so_tenant_id s) (so_status s)
      (so_lines s ++ [mkOrderLine (next_line_no (so_lines s)) (al_product_id c)
                        (al_quantity c) (al_unit_price c)]) version (so_created s)
  | CmdConfirmOrder _ =>
    mkSalesOrder (so_id s) (so_tenant_id s) Confirmed (so_lines s) version (so_created s)
  | CmdMarkInvoiced _ =>
    mkSalesOrder (so_id s) (so_tenant_id s) Invoiced (so_lines s) version (so_created s)
  end.

Ltac addressed_guards H :=
  guards H;
  repeat match goal with
  | u : unit |- _ => destruct u
  | Ht : ensure_tenant _ _ = Ok tt |- _ => apply order_ensure_tenant_Ok in Ht; [|done]
  | Hi : ensure_order_id _ _ = Ok tt |- _ => apply order_ensure_order_id_Ok in Hi
  end.

Lemma order_handle_sound s c es :
  handle s c = Ok es -> accepts s c /\ replay s es = evolved s c.
Proof.
  intros H. destruct c as [c|c|c|c]; simpl in H.
  - unfold handle_create in H. guards H. done.
  - unfold handle_add_line, is_modifiable in H. addressed_guards H.
    unfold accepts, addressed. destruct (so_status s) eqn:Es; try done.
    split_and!; try done. lia.
  - unfold handle_confirm in H. addressed_guards H. done.
  - unfold handle_mark_invoiced, is_invoice_allowed in H. addressed_guards H.
    unfold accepts, addressed. by destruct (so_status s) eqn:Es.
Qed.

Lemma order_handle_complete s c : accepts s c -> is_ok (handle s c) = true.
Proof.
  assert (Hens : forall t i, addressed s t i ->
    ensure_tenant s t = Ok tt /\ ensure_order_id s i = Ok tt).
  { intros t i (Hc & Ht & Hi). by rewrite order_ensure_tenant_Ok, order_ensure_order_id_Ok. }
  destruct c as [c|c|c|c]; simpl.
  - unfold handle_create. by intros ->.
  - intros (Ha & Hs & Hq & Hp). destruct (Hens _ _ Ha) as [Ht Hi].
    unfold handle_add_line, is_modifiable. destruct Ha as (-> & _ & _); simpl.
    rewrite Ht, Hi, Hs; simpl. by rewrite decide_False by lia; rewrite decide_False.
  - intros (Ha & Hs & Hl). destruct (Hens _ _ Ha) as [Ht Hi].
    unfold handle_confirm. destruct Ha as (-> & _ & _); simpl.
    rewrite Ht, Hi; simpl. by rewrite Hs, (decide_False (P := so_lines s = [])).
  - intros (Ha & Hs). destruct (Hens _ _ Ha) as [Ht Hi].
    unfold handle_mark_invoiced, is_invoice_allowed. destruct Ha as (-> & _ & _); simpl.
    by rewrite Ht, Hi, Hs.
Qed.

Lemma order_evolved_inv s c : inv s -> command_ok c -> accepts s c -> inv (evolved s c).
Proof.
  intros (Hv & Hc & Hl & Hcl & He & Hd) Hok Ha.
  assert (Hw : is_u64 (wrapU 64 (so_version s + 1))) by (apply wrapU_range; lia).
  destruct c as [c|c|c|c]; (split; [exact Hw|]); simpl in *.
  - split_and!; try done.
  - destruct Ha as ((Hcr & _ & _) & Hs & Hq & Hp), Hok as [Hqi Hpu].
    split_and!; try done; try congruence.
    apply order_lines_ok_snoc; [done|]. split; [apply order_next_line_no_eq|]. simpl. ilia.
  - destruct Ha as ((Hcr & _ & _) & Hs & Hln). split_and!; try done; congruence.
  - destruct Ha as ((Hcr & _ & _) & Hs). split_and!; try done; try congruence.
    intros _. apply Hd. congruence.
Qed.

#[global] Instance SalesOrder_laws
  : AggregateLaws SalesOrder SalesOrderCommand SalesOrderEvent.
Proof.
  refine {| agg_inv := inv; cmd_ok := command_ok |}.
  - by intros s [].
  - intros s c es Hi Hc H. apply order_handle_sound in H as [Ha ->]. by apply order_evolved_inv.
Defined.

(** ** Properties *)

(** C34: whatever commands an order receives, its lines stay numbered 1, 2, 3, ...
    in order of addition with positive quantities and prices, it is never
    confirmed or invoiced without lines, and it never reaches [Closed]. *)
Theorem order_reachable_inv (id : SalesOrderId) (cs : list SalesOrderCommand) :
  Forall command_ok cs ->
  let s := foldl run_command (empty id) cs in
  lines_ok (so_lines s) /\ (so_status s <> Draft -> so_lines s <> [])
  /\ so_status s <> Closed.
Proof.
  intros Hcs s.
  destruct (run_commands_inv cs (empty id)) as (_ & _ & Hl & Hcl & _ & Hd);
    [apply order_empty_inv | exact Hcs | done].
Qed.

Definition sample_id : SalesOrderId := {| so_aggregate := {| aggregate_uuid := 5 |} |}.
Definition sample_tenant : TenantId := {| tenant_uuid := 1 |}.
Definition sample_add (q p : Z) : SalesOrderCommand :=
  CmdAddLine {| al_tenant_id := sample_tenant; al_order_id := sample_id;
    al_product_id := mkProductId (mkAggregateId 9); al_quantity := q; al_unit_price := p;
    al_occurred_at := 1 |}.
Definition sample_create : SalesOrderCommand :=
  CmdCreateSalesOrder {| cso_tenant_id := sample_tenant; cso_order_id := sample_id;
                         cso_occurred_at := 0 |}.
Definition sample_confirm : SalesOrderCommand :=
  CmdConfirmOrder {| co_tenant_id := sample_tenant; co_order_id := sample_id;
                     co_occurred_at := 2 |}.

Lemma order_reachable_inv_witness :
  let cs := [sample_create; sample_confirm; sample_add 2 100; sample_add 0 5;
             sample_add 1 30; sample_confirm] in
  let s := foldl run_command (empty sample_id) cs in
  so_status s = Confirmed /\ (line_no <$> so_lines s) = [1; 2]%Z
  /\ (so_status s <> Draft -> so_lines s <> []).
Proof.
  intros cs s. split; [reflexivity|]. split; [reflexivity|].
  assert (Hok : Forall command_ok cs) by
    (repeat constructor; vm_compute; congruence).
  destruct (order_reachable_inv sample_id cs Hok) as (_ & H & _). exact H.
Defined.

Definition rank (st : SalesOrderStatus) : nat :=
  match st with Draft => 0 | Confirmed => 1 | Invoiced => 2 | Closed => 3 end.

(** An order that left [Draft] is frozen: whatever commands follow, its
    lines, identifier and tenant stay as they are and its status only moves
    forward. *)
Theorem confirmed_order_is_frozen (s : SalesOrder) (cs : list SalesOrderCommand) :
  so_created s = true -> so_status s <> Draft ->
  let s' := foldl run_command s cs in
  so_lines s' = so_lines s /\ so_id s' = so_id s /\ so_tenant_id s' = so_tenant_id s
  /\ (rank (so_status s) <= rank (so_status s'))%nat.
Proof.
  revert s. induction cs as [|c cs IH]; intros s Hc Hs; simpl; [done|].
  assert (Hstep : so_created (run_command s c) = true /\ so_status (run_command s c) <> Draft
    /\ so_lines (run_command s c) = so_lines s /\ so_id (run_command s c) = so_id s
    /\ so_tenant_id (run_command s c) = so_tenant_id s
    /\ (rank (so_status s) <= rank (so_status (run_command s c)))%nat).
  { unfold run_command. simpl. destruct (handle s c) as [es|] eqn:E; [|done].
    apply order_handle_sound in E as [Ha ->]. destruct c as [c|c|c|c]; simpl in *;
      [congruence | destruct Ha as (_ & ? & _); done | destruct Ha as (_ & ? & _); done |].
    destruct Ha as [_ ->]. simpl. split_and!; done || lia. }
  destruct Hstep as (H1 & H2 & <- & <- & <- & Hr).
  destruct (IH _ H1 H2) as (-> & -> & -> & Hr'). split_and!; done || lia.
Qed.

Lemma confirmed_order_is_frozen_witness :
  let s := foldl run_command (empty sample_id) [sample_create; sample_add 2 100; sample_confirm] in
  so_lines (foldl run_command s [sample_add 3 7; sample_create]) = so_lines s.
Proof.
  intros s. apply (confirmed_order_is_frozen s [sample_add 3 7; sample_create]);
    [reflexivity | vm_compute; congruence].
Defined.

(** The order handlers accept exactly the commands of [accepts] (addressed to
    the order, allowed in its status, with positive amounts) and evolve it as
    [evolved] says. *)
Theorem order_handle_exact (s : SalesOrder) (c : SalesOrderCommand) :
  (is_ok (handle s c) = true <-> accepts s c)
  /\ (forall es, handle s c = Ok es -> replay s es = evolved s c).
Proof.
  split; [split|].
  - destruct (handle s c) as [es|] eqn:E; [|done]. by apply order_handle_sound in E as [].
  - apply order_handle_complete.
  - intros es H. by apply order_handle_sound in H as [].
Qed.
