(* ===== verification/Invoicing.v ===== *)
(** * Invoices: [crates/invoicing/src/invoice.rs]

    The [Invoice] aggregate: issuing with a checked total, registering payments,
    voiding. *)

From S2P Require Import Prelude Core Events Products Sales.

(** @src crates/invoicing/src/invoice.rs 9-18 [InvoiceId] *)
Record InvoiceId := mkInvoiceId { invoice_aggregate : AggregateId }.

#[global] Instance InvoiceId_eq_dec : EqDecision InvoiceId.
Proof. solve_decision. Defined.
#[global] Instance InvoiceId_countable : Countable InvoiceId.
Proof. refine (inj_countable' invoice_aggregate mkInvoiceId _); by intros []. Defined.

(** @src crates/invoicing/src/invoice.rs 26-33 [InvoiceStatus] *)
Inductive InvoiceStatus : Type := Open | Paid | Void.

#[global] Instance InvoiceStatus_eq_dec : EqDecision InvoiceStatus.
Proof. solve_decision. Defined.

(** @src crates/invoicing/src/invoice.rs 35-44 [InvoiceLine] *)
Record InvoiceLine := mkInvoiceLine {
  il_line_no : Z;
  il_sales_order_id : SalesOrderId;
  il_product_id : ProductId;
  il_quantity : Z;
  il_unit_price : Z
}.

#[global] Instance InvoiceLine_eq_dec : EqDecision InvoiceLine.
Proof. solve_decision. Defined.

(** @src crates/invoicing/src/invoice.rs 46-58 [Invoice] *)
Record Invoice := mkInvoice {
  inv_id : InvoiceId;
  inv_tenant_id : option TenantId;
  inv_status : InvoiceStatus;
  inv_lines : list InvoiceLine;
  inv_due_date : option DateTime;
  inv_total_amount : Z;
  inv_total_paid : Z;
  inv_version : Z;
  inv_created : bool
}.

(** @src crates/invoicing/src/invoice.rs 61-74 [Invoice::empty] *)
Definition empty (id : InvoiceId) : Invoice :=
  {| inv_id := id; inv_tenant_id := None; inv_status := Open; inv_lines := [];
     inv_due_date := None; inv_total_amount := 0; inv_total_paid := 0; inv_version := 0;
     inv_created := false |}.

(** @src crates/invoicing/src/invoice.rs 100-102 [Invoice::outstanding_amount] *)
Definition outstanding_amount (self : Invoice) : Z :=
  saturating_subU (inv_total_amount self) (inv_total_paid self).

(** @src crates/invoicing/src/invoice.rs 108-111 [Invoice::can_accept_payment] *)
Definition can_accept_payment (self : Invoice) : bool :=
  bool_decide (inv_status self <> Void) && bool_decide (0 < outstanding_amount self)%Z.

(** @src crates/invoicing/src/invoice.rs 126-135 [IssueInvoice] *)
Record IssueInvoice := mkIssueInvoice {
  ii_tenant_id : TenantId;
  ii_invoice_id : InvoiceId;
  ii_sales_order_id : SalesOrderId;
  ii_lines : list InvoiceLine;
  ii_due_date : DateTime;
  ii_occurred_at : DateTime
}.

(** @src crates/invoicing/src/invoice.rs 137-145 [RegisterPayment] *)
Record RegisterPayment := mkRegisterPayment {
  rpay_tenant_id : TenantId;
  rpay_invoice_id : InvoiceId;
  rpay_amount : Z;
  rpay_occurred_at : DateTime
}.

(** @src crates/invoicing/src/invoice.rs 147-154 [VoidInvoice] *)
Record VoidInvoice := mkVoidInvoice {
  vi_tenant_id : TenantId;
  vi_invoice_id : InvoiceId;
  vi_reason : option string;
  vi_occurred_at : DateTime
}.

(** @src crates/invoicing/src/invoice.rs 156-161 [InvoiceCommand] *)
Inductive InvoiceCommand : Type :=
| CmdIssueInvoice (cmd : IssueInvoice)
| CmdRegisterPayment (cmd : RegisterPayment)
| CmdVoidInvoice (cmd : VoidInvoice).

(** @src crates/invoicing/src/invoice.rs 163-173 [InvoiceIssued] *)
Record InvoiceIssued := mkInvoiceIssued {
  iss_tenant_id : TenantId;
  iss_invoice_id : InvoiceId;
  iss_sales_order_id : SalesOrderId;
  iss_lines : list InvoiceLine;
  iss_due_date : DateTime;
  iss_total_amount : Z;
  iss_occurred_at : DateTime
}.

(** @src crates/invoicing/src/invoice.rs 175-183 [PaymentRegistered] *)
Record PaymentRegistered := mkPaymentRegistered {
  pay_tenant_id : TenantId;
  pay_invoice_id : InvoiceId;
  pay_amount : Z;
  pay_new_total_paid : Z;
  pay_occurred_at : DateTime
}.

(** @src crates/invoicing/src/invoice.rs 185-192 [InvoiceVoided] *)
Record InvoiceVoided := mkInvoiceVoided {
  voi_tenant_id : TenantId;
  voi_invoice_id : InvoiceId;
  voi_reason : option string;
  voi_occurred_at : DateTime
}.

(** @src crates/invoicing/src/invoice.rs 194-199 [InvoiceEvent] *)
Inductive InvoiceEvent : Type :=
| EvInvoiceIssued (e : InvoiceIssued)
| EvPaymentRegistered (e : PaymentRegistered)
| EvInvoiceVoided (e : InvoiceVoided).

(** @src crates/invoicing/src/invoice.rs 201-221 [Event for InvoiceEvent] *)
#[global] Instance InvoiceEvent_event : Event InvoiceEvent := {|
  event_type ev :=
    match ev with
    | EvInvoiceIssued _ => "invoicing.invoice.issued"
    | EvPaymentRegistered _ => "invoicing.invoice.payment_registered"
    | EvInvoiceVoided _ => "invoicing.invoice.voided"
    end%string;
  event_version _ := 1%Z;
  occurred_at ev :=
    match ev with
    | EvInvoiceIssued e => iss_occurred_at e
    | EvPaymentRegistered e => pay_occurred_at e
    | EvInvoiceVoided e => voi_occurred_at e
    end
|}.

(** @src crates/invoicing/src/invoice.rs 228-253 [Invoice::apply] *)
Definition apply (self : Invoice) (event : InvoiceEvent) : Invoice :=
  let version := wrapU 64 (inv_version self + 1) in
  match event with
  | EvInvoiceIssued e =>
    {| inv_id := iss_invoice_id e; inv_tenant_id := Some (iss_tenant_id e);
       inv_status := Open; inv_lines := iss_lines e; inv_due_date := Some (iss_due_date e);
       inv_total_amount := iss_total_amount e; inv_total_paid := 0;
       inv_version := version; inv_created := true |}
  | EvPaymentRegistered e =>
    {| inv_id := inv_id self; inv_tenant_id := inv_tenant_id self;
       inv_status := if decide (inv_total_amount self <= pay_new_total_paid e)%Z
                     then Paid else inv_status self;
       inv_lines := inv_lines self; inv_due_date := inv_due_date self;
       inv_total_amount := inv_total_amount self;
       inv_total_paid := pay_new_total_paid e;
       inv_version := version; inv_created := inv_created self |}
  | EvInvoiceVoided _ =>
    {| inv_id := inv_id self; inv_tenant_id := inv_tenant_id self; inv_status := Void;
       inv_lines := inv_lines self; inv_due_date := inv_due_date self;
       inv_total_amount := inv_total_amount self; inv_total_paid := inv_total_paid self;
       inv_version := version; inv_created := inv_created self |}
  end.

(** @src crates/invoicing/src/invoice.rs 265-273 [Invoice::ensure_tenant] *)
Definition ensure_tenant (self : Invoice) (tenant_id : TenantId) : DomainResult unit :=
  if negb (inv_created self) then Ok tt
  else if decide (inv_tenant_id self <> Some tenant_id)
  then Err (InvariantViolation "tenant mismatch")
  else Ok tt.

(** @src crates/invoicing/src/invoice.rs 275-280 [Invoice::ensure_invoice_id] *)
Definition ensure_invoice_id (self : Invoice) (id : InvoiceId) : DomainResult unit :=
  if decide (inv_id self <> id)
  then Err (InvariantViolation "invoice_id mismatch") else Ok tt.

(** One turn of the loop that totals the lines: the product is checked at
    [i128], then cast to [u64] with [as], then added with a check.

    @src crates/invoicing/src/invoice.rs 294-316 [Invoice::handle_issue (loop body)] *)
Definition add_line_total (total : Z) (line : InvoiceLine) : DomainResult Z :=
  if decide (il_quantity line <= 0)%Z
  then Err (Validation "invoice line quantity must be positive")
  else if decide (il_unit_price line = 0)%Z
  then Err (Validation "invoice line unit_price must be positive")
  else
    line_total ← ok_or (checked_mulS 128 (il_quantity line) (il_unit_price line))
                   (InvariantViolation "invoice line amount overflow");
    if decide (line_total <= 0)%Z
    then Err (InvariantViolation "invoice line total must be positive")
    else ok_or (checked_addU 64 total (wrapU 64 line_total))
           (InvariantViolation "invoice total overflow").

(** @src crates/invoicing/src/invoice.rs 282-327 [Invoice::handle_issue] *)
Definition handle_issue (self : Invoice) (cmd : IssueInvoice)
  : DomainResult (list InvoiceEvent) :=
  if inv_created self then Err (Conflict "invoice already exists")
  else if decide (ii_lines cmd = [])
  then Err (Validation "cannot issue invoice without lines")
  else
    total ← try_fold add_line_total 0%Z (ii_lines cmd);
    Ok [EvInvoiceIssued
      {| iss_tenant_id := ii_tenant_id cmd; iss_invoice_id := ii_invoice_id cmd;
         iss_sales_order_id := ii_sales_order_id cmd; iss_lines := ii_lines cmd;
         iss_due_date := ii_due_date cmd; iss_total_amount := total;
         iss_occurred_at := ii_occurred_at cmd |}].

(** @src crates/invoicing/src/invoice.rs 329-367 [Invoice::handle_register_payment] *)
Definition handle_register_payment (self : Invoice) (cmd : RegisterPayment)
  : DomainResult (list InvoiceEvent) :=
  if negb (inv_created self) then Err NotFound else
  _ ← ensure_tenant self (rpay_tenant_id cmd);
  _ ← ensure_invoice_id self (rpay_invoice_id cmd);
  if negb (can_accept_payment self)
  then Err (InvariantViolation "cannot register payment on void or fully paid invoice")
  else if decide (rpay_amount cmd = 0)%Z
  then Err (Validation "payment amount must be positive")
  else
    new_total_paid ← ok_or (checked_addU 64 (inv_total_paid self) (rpay_amount cmd))
                       (InvariantViolation "payment total overflow");
    if decide (inv_total_amount self < new_total_paid)%Z
    then Err (InvariantViolation "cannot overpay invoice")
    else Ok [EvPaymentRegistered
      {| pay_tenant_id := rpay_tenant_id cmd; pay_invoice_id := rpay_invoice_id cmd;
         pay_amount := rpay_amount cmd; pay_new_total_paid := new_total_paid;
         pay_occurred_at := rpay_occurred_at cmd |}].

(** @src crates/invoicing/src/invoice.rs 369-386 [Invoice::handle_void] *)
Definition handle_void (self : Invoice) (cmd : VoidInvoice)
  : DomainResult (list InvoiceEvent) :=
  if negb (inv_created self) then Err NotFound else
  _ ← ensure_tenant self (vi_tenant_id cmd);
  _ ← ensure_invoice_id self (vi_invoice_id cmd);
  if decide (inv_status self = Void) then Err (Conflict "invoice is already void")
  else Ok [EvInvoiceVoided
    {| voi_tenant_id := vi_tenant_id cmd; voi_invoice_id := vi_invoice_id cmd;
       voi_reason := vi_reason cmd; voi_occurred_at := vi_occurred_at cmd |}].

(** @src crates/invoicing/src/invoice.rs 255-261 [Invoice::handle] *)
Definition handle (self : Invoice) (command : InvoiceCommand)
  : DomainResult (list InvoiceEvent) :=
  match command with
  | CmdIssueInvoice cmd => handle_issue self cmd
  | CmdRegisterPayment cmd => handle_register_payment self cmd
  | CmdVoidInvoice cmd => handle_void self cmd
  end.

(** @src crates/invoicing/src/invoice.rs 114-124 [AggregateRoot for Invoice] *)
#[global] Instance Invoice_aggregate : Aggregate Invoice InvoiceCommand InvoiceEvent :=
  {| agg_version := inv_version; agg_apply := apply; agg_handle := handle |}.

(** ** Totals *)

Definition line_amount (l : InvoiceLine) : Z := (il_quantity l * il_unit_price l)%Z.

(** The sum the code computes: each amount through the [as u64] cast. *)
Definition cast_total (ls : list InvoiceLine) : Z :=
  sumZ ((fun l => wrapU 64 (line_amount l)) <$> ls).

(** The sum an invoice is worth. *)
Definition exact_total (ls : list InvoiceLine) : Z := sumZ (line_amount <$> ls).

Lemma cast_total_cons l ls :
  cast_total (l :: ls) = (wrapU 64 (line_amount l) + cast_total ls)%Z.
Proof. reflexivity. Qed.

Definition line_in_range (l : InvoiceLine) : Prop :=
  is_i64 (il_quantity l) /\ is_u64 (il_unit_price l).

Definition line_positive (l : InvoiceLine) : Prop :=
  (0 < il_quantity l)%Z /\ il_unit_price l <> 0%Z.

(** An [i64] times a [u64] always fits an [i128]: the overflow branch of the
    multiplication is never taken. *)
Lemma line_amount_fits l : line_in_range l -> is_i128 (line_amount l).
Proof.
  unfold line_in_range, line_amount. intros [Hq Hp]. unfold_widths.
  set (q := il_quantity l) in *; set (p := il_unit_price l) in *. nia.
Qed.

Lemma add_line_total_spec t l :
  line_in_range l -> is_u64 t ->
  add_line_total t l =
  if decide (il_quantity l <= 0)%Z
  then Err (Validation "invoice line quantity must be positive")
  else if decide (il_unit_price l = 0)%Z
  then Err (Validation "invoice line unit_price must be positive")
  else if decide (is_u64 (t + wrapU 64 (line_amount l)))%Z
  then Ok (t + wrapU 64 (line_amount l))%Z
  else Err (InvariantViolation "invoice total overflow").
Proof.
  intros Hl Ht. unfold add_line_total.
  destruct (decide (il_quantity l <= 0)%Z) as [|Hq]; [done|].
  destruct (decide (il_unit_price l = 0)%Z) as [|Hp]; [done|].
  pose proof (line_amount_fits l Hl) as Hf. destruct Hl as [_ Hpu].
  unfold checked_mulS. fold (line_amount l). rewrite decide_True by done. simpl.
  assert (0 < line_amount l)%Z by (unfold line_amount; unfold_widths; nia).
  rewrite decide_False by lia. unfold checked_addU. by destruct (decide _).
Qed.

Lemma total_fold_Ok ls : forall t t',
  Forall line_in_range ls -> is_u64 t -> try_fold add_line_total t ls = Ok t' ->
  Forall line_positive ls /\ t' = (t + cast_total ls)%Z /\ is_u64 t'.
Proof.
  induction ls as [|l ls IH]; simpl; intros t t' Hr Ht H.
  - injection H as <-. split_and!; [constructor|change (cast_total []) with 0%Z; lia|done].
  - apply Forall_cons_1 in Hr as [Hl Hr]. rewrite add_line_total_spec in H by done.
    destruct (decide _) as [|Hq]; [done|]. destruct (decide _) as [|Hp]; [done|].
    destruct (decide _) as [Hu|]; [|done].
    destruct (IH _ _ Hr Hu H) as (Hps & -> & Hu'). split_and!; [| |done].
    + constructor; [split; [lia|done]|done].
    + rewrite cast_total_cons. lia.
Qed.

Lemma cast_total_nonneg ls : (0 <= cast_total ls)%Z.
Proof.
  apply sumZ_nonneg, Forall_fmap, Forall_true. intros l. apply wrapU_range. lia.
Qed.

Lemma total_fold_complete ls : forall t,
  Forall line_in_range ls -> Forall line_positive ls -> is_u64 t ->
  is_u64 (t + cast_total ls) -> try_fold add_line_total t ls = Ok (t + cast_total ls)%Z.
Proof.
  induction ls as [|l ls IH]; simpl; intros t Hr Hp Ht Hu.
  - f_equal. change (cast_total []) with 0%Z; lia.
  - apply Forall_cons_1 in Hr as [Hl Hr]. apply Forall_cons_1 in Hp as [[Hq Hp] Hps].
    rewrite add_line_total_spec by done. rewrite !decide_False by (done || lia).
    pose proof (cast_total_nonneg ls). pose proof (wrapU_range 64 (line_amount l) ltac:(lia)).
    rewrite cast_total_cons, Z.add_assoc in *.
    rewrite decide_True by ilia. rewrite IH; [done..|ilia|done].
Qed.

(** When no line is worth [2^64] or more, the cast is harmless. *)
Lemma cast_total_exact ls :
  Forall (fun l => is_u64 (line_amount l)) ls -> cast_total ls = exact_total ls.
Proof.
  induction 1 as [|l ls Hl _ IH]; [done|].
  by rewrite cast_total_cons, IH, wrapU_id.
Qed.

(** ** The invariant *)

Definition inv (s : Invoice) : Prop :=
  is_u64 (inv_version s)
  /\ inv_created s = bool_decide (is_Some (inv_tenant_id s))
  /\ is_u64 (inv_total_amount s)
  /\ (0 <= inv_total_paid s <= inv_total_amount s)%Z
  /\ (inv_status s = Paid -> inv_total_paid s = inv_total_amount s)
  /\ (inv_status s = Open -> inv_total_paid s = 0 \/ inv_total_paid s < inv_total_amount s)%Z
  /\ (inv_created s = false ->
      inv_status s = Open /\ inv_total_amount s = 0%Z /\ inv_total_paid s = 0%Z).

Definition command_ok (c : InvoiceCommand) : Prop :=
  match c with
  | CmdIssueInvoice c => Forall line_in_range (ii_lines c)
  | CmdRegisterPayment c => is_u64 (rpay_amount c)
  | CmdVoidInvoice _ => True
  end.

Lemma invoice_empty_inv id : inv (empty id).
Proof. unfold inv; simpl. split_and!; try done; ilia. Qed.

Lemma invoice_ensure_tenant_Ok s t :
  inv_created s = true -> ensure_tenant s t = Ok tt <-> inv_tenant_id s = Some t.
Proof. unfold ensure_tenant. intros ->. apply ensure_eq_Ok. Qed.

Lemma ensure_invoice_id_Ok s i : ensure_invoice_id s i = Ok tt <-> inv_id s = i.
Proof. apply ensure_eq_Ok. Qed.

Definition addressed (s : Invoice) (t : TenantId) (i : InvoiceId) : Prop :=
  inv_created s = true /\ inv_tenant_id s = Some t /\ inv_id s = i.

Lemma addressed_ensure s t i :
  addressed s t i -> ensure_tenant s t = Ok tt /\ ensure_invoice_id s i = Ok tt.
Proof. intros (Hc & Ht & Hi). by rewrite invoice_ensure_tenant_Ok, ensure_invoice_id_Ok. Qed.

Definition accepts (s : Invoice) (c : InvoiceCommand) : Prop :=
  match c with
  | CmdIssueInvoice c =>
    inv_created s = false /\ ii_lines c <> [] /\ Forall line_positive (ii_lines c)
    /\ is_u64 (cast_total (ii_lines c))
  | CmdRegisterPayment c =>
    addressed s (rpay_tenant_id c) (rpay_invoice_id c) /\ inv_status s <> Void
    /\ (0 < rpay_amount c)%Z /\ (inv_total_paid s + rpay_amount c <= inv_total_amount s)%Z
  | CmdVoidInvoice c =>
    addressed s (vi_tenant_id c) (vi_invoice_id c) /\ inv_status s <> Void
  end.

Definition evolved (s : Invoice) (c : InvoiceCommand) : Invoice :=
  let version := wrapU 64 (inv_version s + 1) in
  match c with
  | CmdIssueInvoice c =>
    mkInvoice (ii_invoice_id c) (Some (ii_tenant_id c)) Open (ii_lines c)
      (Some (ii_due_date c)) (cast_total (ii_lines c)) 0 version true
  | CmdRegisterPayment c =>
    mkInvoice (inv_id s) (inv_tenant_id s)
      (if decide (inv_total_paid s + rpay_amount c = inv_total_amount s)%Z
       then Paid else inv_status s)
      (inv_lines s) (inv_due_date s) (inv_total_amount s)
      (inv_total_paid s + rpay_amount c) version (inv_created s)
  | CmdVoidInvoice _ =>
    mkInvoice (inv_id s) (inv_tenant_id s) Void (inv_lines s) (inv_due_date s)
      (inv_total_amount s) (inv_total_paid s) version (inv_created s)
  end.

Lemma ok_or_Ok {E A} (o : option A) (e : E) (a : A) : ok_or o e = Ok a <-> o = Some a.
Proof. destruct o; simpl; naive_solver. Qed.

Lemma can_accept_payment_spec s :
  can_accept_payment s = true <->
  inv_status s <> Void /\ (inv_total_paid s < inv_total_amount s)%Z.
Proof.
  unfold can_accept_payment, outstanding_amount, saturating_subU.
  rewrite andb_true_iff, !bool_decide_eq_true. intuition lia.
Qed.

Lemma handle_payment_sound s c es :
  inv s -> is_u64 (rpay_amount c) -> handle_register_payment s c = Ok es ->
  accepts s (CmdRegisterPayment c) /\ replay s es = evolved s (CmdRegisterPayment c).
Proof.
  intros Hi Ha H. unfold handle_register_payment in H. guards H. destruct a, a0.
  apply invoice_ensure_tenant_Ok in Ha0; [|done]. apply ensure_invoice_id_Ok in Ha1.
  apply can_accept_payment_spec in Heqb0 as [Hv Hlt].
  apply ok_or_Ok, checked_addU_Some in Ha2 as [_ ->].
  simpl. split; [split_and!; [by split_and!|done|ilia|lia]|].
  unfold replay; simpl. f_equal. repeat case_decide; try done; lia.
Qed.

Lemma invoice_handle_sound s c es :
  inv s -> command_ok c -> handle s c = Ok es ->
  accepts s c /\ replay s es = evolved s c.
Proof.
  intros Hi Hok H. destruct c as [c|c|c]; simpl in H.
  - unfold handle_issue in H. guards H.
    apply total_fold_Ok in Ha as (Hp & -> & Hu); [|done|ilia].
    rewrite Z.add_0_l in *. done.
  - by apply handle_payment_sound.
  - unfold handle_void in H. guards H. destruct a, a0.
    apply invoice_ensure_tenant_Ok in Ha; [|done]. apply ensure_invoice_id_Ok in Ha0. done.
Qed.

Lemma invoice_handle_complete s c :
  inv s -> command_ok c -> accepts s c -> is_ok (handle s c) = true.
Proof.
  intros (_ & _ & Hta & Htp & _) Hok. destruct c as [c|c|c]; simpl in *.
  - intros (Hc & Hne & Hp & Hu). unfold handle_issue. rewrite Hc, decide_False by done.
    by rewrite total_fold_complete by (done || ilia).
  - intros (Ha & Hv & Hpos & Hle). destruct (addressed_ensure _ _ _ Ha) as [Ht Hi].
    unfold handle_register_payment. destruct Ha as (-> & _ & _); simpl.
    rewrite Ht, Hi; simpl. rewrite (proj2 (can_accept_payment_spec s)) by (split; [done|lia]).
    simpl. rewrite decide_False by lia. unfold checked_addU.
    rewrite decide_True by ilia. simpl. by rewrite decide_False by lia.
  - intros (Ha & Hv). destruct (addressed_ensure _ _ _ Ha) as [Ht Hi].
    unfold handle_void. destruct Ha as (-> & _ & _); simpl.
    rewrite Ht, Hi; simpl. by rewrite decide_False.
Qed.

Lemma invoice_evolved_inv s c : inv s -> command_ok c -> accepts s c -> inv (evolved s c).
Proof.
  intros (Hv & Hc & Hta & Htp & Hpd & Ho & He) Hok Ha.
  assert (Hw : is_u64 (wrapU 64 (inv_version s + 1))) by (apply wrapU_range; lia).
  destruct c as [c|c|c]; (split; [exact Hw|]); simpl in *.
  - destruct Ha as (_ & _ & _ & Hu). split_and!; try done; ilia.
  - destruct Ha as ((Hcr & _ & _) & Hvd & Hpos & Hle).
    split_and!; try done; try lia; case_decide; try done; try congruence; try lia.
    intros Hst. specialize (Hpd Hst). lia.
  - destruct Ha as ((Hcr & _ & _) & Hvd). split_and!; try done; try congruence; lia.
Qed.

#[global] Instance Invoice_laws : AggregateLaws Invoice InvoiceCommand InvoiceEvent.
Proof.
  refine {| agg_inv := inv; cmd_ok := command_ok |}.
  - by intros s [].
  - intros s c es Hi Hc H. destruct (invoice_handle_sound s c es Hi Hc H) as [Ha ->].
    by apply invoice_evolved_inv.
Defined.

(** ** Properties *)

(** On every reachable state the invoice handlers accept exactly the commands
    of [accepts] and evolve the invoice as [evolved] says: an issue needs lines,
    each of positive quantity and price, whose amounts add up within [u64]; a
    payment must be positive, not on a void invoice and must not exceed what is
    left; the overflow branches of the multiplication and of the payment total
    are never taken. *)
Theorem invoice_handle_exact (s : Invoice) (c : InvoiceCommand) :
  inv s -> command_ok c ->
  (is_ok (handle s c) = true <-> accepts s c)
  /\ (forall es, handle s c = Ok es -> replay s es = evolved s c).
Proof.
  intros Hi Hok. split; [split|].
  - destruct (handle s c) as [es|] eqn:E; [|done]. by apply (invoice_handle_sound s c es Hi Hok) in E as [].
  - by apply invoice_handle_complete.
  - intros es H. by apply (invoice_handle_sound s c es Hi Hok) in H as [].
Qed.

Definition sample_id : InvoiceId := {| invoice_aggregate := {| aggregate_uuid := 6 |} |}.
Definition sample_tenant : TenantId := {| tenant_uuid := 1 |}.
Definition sample_line (q p : Z) : InvoiceLine :=
  {| il_line_no := 1; il_sales_order_id := mkSalesOrderId (mkAggregateId 5);
     il_product_id := mkProductId (mkAggregateId 9); il_quantity := q; il_unit_price := p |}.
Definition sample_issue (ls : list InvoiceLine) : InvoiceCommand :=
  CmdIssueInvoice {| ii_tenant_id := sample_tenant; ii_invoice_id := sample_id;
    ii_sales_order_id := mkSalesOrderId (mkAggregateId 5); ii_lines := ls;
    ii_due_date := 100; ii_occurred_at := 0 |}.
Definition sample_pay (a : Z) : InvoiceCommand :=
  CmdRegisterPayment {| rpay_tenant_id := sample_tenant; rpay_invoice_id := sample_id;
    rpay_amount := a; rpay_occurred_at := 1 |}.
Definition sample_void : InvoiceCommand :=
  CmdVoidInvoice {| vi_tenant_id := sample_tenant; vi_invoice_id := sample_id;
    vi_reason := None; vi_occurred_at := 2 |}.
Definition sample_invoice : Invoice :=
  run_command (empty sample_id) (sample_issue [sample_line 2 100; sample_line 3 50]).

Lemma sample_invoice_inv : inv sample_invoice.
Proof. vm_compute. repeat split; try congruence. by left. Qed.

Lemma invoice_handle_exact_witness :
  inv_total_amount sample_invoice = 350%Z
  /\ is_ok (handle sample_invoice (sample_pay 351)) = false
  /\ (is_ok (handle sample_invoice (sample_pay 350)) = true
      <-> accepts sample_invoice (sample_pay 350)).
Proof.
  split; [reflexivity|]. split; [reflexivity|].
  apply (invoice_handle_exact sample_invoice (sample_pay 350)); [apply sample_invoice_inv|].
  vm_compute; split; congruence.
Defined.

(** C32: an invoice whose lines are each worth less than [2^64] is issued for
    exactly the sum of quantity times unit price of its lines. *)
Theorem issued_total_exact (s : Invoice) (c : IssueInvoice) (es : list InvoiceEvent) :
  Forall line_in_range (ii_lines c) ->
  Forall (fun l => is_u64 (line_amount l)) (ii_lines c) ->
  handle s (CmdIssueInvoice c) = Ok es ->
  inv_total_amount (replay s es) = exact_total (ii_lines c)
  /\ inv_total_paid (replay s es) = 0%Z /\ inv_status (replay s es) = Open.
Proof.
  intros Hr Hu H. simpl in H. unfold handle_issue in H. guards H.
  apply total_fold_Ok in Ha as (_ & -> & _); [|done|ilia].
  rewrite cast_total_exact by done. done.
Qed.

Lemma issued_total_exact_witness :
  exists es, handle (empty sample_id) (sample_issue [sample_line 2 100; sample_line 3 50]) = Ok es
  /\ inv_total_amount (replay (empty sample_id) es) = 350%Z.
Proof.
  eexists. split; [reflexivity|].
  match goal with |- inv_total_amount (replay _ ?es) = _ =>
    apply (issued_total_exact (empty sample_id)
             (mkIssueInvoice sample_tenant sample_id (mkSalesOrderId (mkAggregateId 5))
                [sample_line 2 100; sample_line 3 50] 100 0) es) end.
  - repeat constructor; vm_compute; congruence.
  - repeat constructor; vm_compute; congruence.
  - reflexivity.
Defined.

(** The cast of a line's amount to [u64] loses its high bits: an invoice for
    [2^33] units at [2^33] each passes every check and is issued for a total of
    zero, so it can never be paid. *)
Theorem issue_truncates_line_amount :
  let ls := [sample_line (2 ^ 33) (2 ^ 33)] in
  let s := run_command (empty sample_id) (sample_issue ls) in
  command_ok (sample_issue ls) /\ is_ok (handle (empty sample_id) (sample_issue ls)) = true
  /\ exact_total ls = (2 ^ 66)%Z /\ inv_total_amount s = 0%Z
  /\ (forall a, is_u64 a -> is_ok (handle s (sample_pay a)) = false).
Proof.
  intros ls s. split; [repeat constructor; vm_compute; congruence|].
  split; [reflexivity|]. split; [reflexivity|]. split; [reflexivity|].
  intros a _. reflexivity.
Qed.

(** C31: whatever commands an invoice receives, its payments never exceed its
    total, both stay within [u64], and it is [Paid] only when they are equal. *)
Theorem invoice_never_overpaid (id : InvoiceId) (cs : list InvoiceCommand) :
  Forall command_ok cs ->
  let s := foldl run_command (empty id) cs in
  (0 <= inv_total_paid s <= inv_total_amount s)%Z /\ is_u64 (inv_total_amount s)
  /\ (inv_status s = Paid -> inv_total_paid s = inv_total_amount s).
Proof.
  intros Hcs s.
  destruct (run_commands_inv cs (empty id)) as (_ & _ & Ht & Hp & Hpd & _);
    [apply invoice_empty_inv | exact Hcs | done].
Qed.

Lemma invoice_never_overpaid_witness :
  let cs := [sample_issue [sample_line 2 100]; sample_pay 150; sample_pay 60; sample_pay 50] in
  let s := foldl run_command (empty sample_id) cs in
  inv_status s = Paid /\ (inv_status s = Paid -> inv_total_paid s = inv_total_amount s).
Proof.
  intros cs s. split; [reflexivity|].
  assert (Hok : Forall command_ok cs) by (repeat constructor; vm_compute; congruence).
  destruct (invoice_never_overpaid sample_id cs Hok) as (_ & _ & H). exact H.
Defined.

(** The amounts of the payments a run accepts, in order. *)
Fixpoint accepted_payments (s : Invoice) (cs : list InvoiceCommand) : list Z :=
  match cs with
  | [] => []
  | c :: cs' =>
    match c with
    | CmdRegisterPayment p =>
      if is_ok (handle s c) then [rpay_amount p] else []
    | _ => []
    end ++ accepted_payments (run_command s c) cs'
  end.

Lemma run_command_inv s c : inv s -> command_ok c -> inv (run_command s c).
Proof.
  intros Hi Hok. unfold run_command; simpl.
  destruct (handle s c) as [es|] eqn:E; [|done].
  destruct (invoice_handle_sound s c es Hi Hok E) as [Ha ->]. by apply invoice_evolved_inv.
Qed.

(** Every cent is accounted for: on an issued invoice, whatever commands
    follow (second issues, overpayments, payments after voiding), the paid total
    grows by exactly the sum of the payments that were accepted, and the invoice
    total never changes. *)
Theorem payments_accounted (s : Invoice) (cs : list InvoiceCommand) :
  inv s -> inv_created s = true -> Forall command_ok cs ->
  inv_total_paid (foldl run_command s cs)
    = (inv_total_paid s + sumZ (accepted_payments s cs))%Z
  /\ inv_total_amount (foldl run_command s cs) = inv_total_amount s.
Proof.
  revert s. induction cs as [|c cs IH]; intros s Hi Hc Hok; [simpl; split; [lia|done]|].
  apply Forall_cons_1 in Hok as [Hok Hoks].
  pose proof (run_command_inv s c Hi Hok) as Hi'.
  assert (Hstep : inv_created (run_command s c) = true
    /\ inv_total_amount (run_command s c) = inv_total_amount s
    /\ sumZ (accepted_payments s (c :: cs))
       = (inv_total_paid (run_command s c) - inv_total_paid s
          + sumZ (accepted_payments (run_command s c) cs))%Z).
  { cbn [accepted_payments]. unfold run_command at 1 2 4; simpl agg_handle.
    destruct (handle s c) as [es|] eqn:E.
    - destruct (invoice_handle_sound s c es Hi Hok E) as [Ha ->].
      destruct c as [c|c|c]; simpl in *; [destruct Ha; congruence | | ];
        (split; [done|]); (split; [done|]); lia.
    - split; [done|]. split; [done|]. destruct c; simpl; lia. }
  destruct Hstep as (Hc' & Ha' & ->). simpl foldl.
  destruct (IH _ Hi' Hc' Hoks) as [-> ->]. split; [lia|done].
Qed.

Lemma payments_accounted_witness :
  let cs := [sample_pay 200; sample_pay 200; sample_pay 100; sample_void; sample_pay 50] in
  accepted_payments sample_invoice cs = [200; 100]%Z
  /\ inv_total_paid (foldl run_command sample_invoice cs) = 300%Z.
Proof.
  intros cs. split; [reflexivity|].
  destruct (payments_accounted sample_invoice cs) as [H _];
    [apply sample_invoice_inv | reflexivity | repeat constructor; vm_compute; congruence | exact H].
Defined.
