(* ===== verification/Purchasing.v ===== *)
(** * Purchase orders: [crates/purchasing/src/order.rs]

    The [PurchaseOrder] aggregate: lines on a draft, approval, receipt of the
    goods.  The receipt carries the supplier and a copy of the lines. *)

From S2P Require Import Prelude Core Events Products Parties.

(** @src crates/purchasing/src/order.rs 9-18 [PurchaseOrderId] *)
Record PurchaseOrderId := mkPurchaseOrderId { po_aggregate : AggregateId }.

#[global] Instance PurchaseOrderId_eq_dec : EqDecision PurchaseOrderId.
Proof. solve_decision. Defined.
#[global] Instance PurchaseOrderId_countable : Countable PurchaseOrderId.
Proof. refine (inj_countable' po_aggregate mkPurchaseOrderId _); by intros []. Defined.

(** @src crates/purchasing/src/order.rs 26-34 [PurchaseOrderStatus] *)
Inductive PurchaseOrderStatus : Type := Draft | Approved | Received | Closed.

#[global] Instance PurchaseOrderStatus_eq_dec : EqDecision PurchaseOrderStatus.
Proof. solve_decision. Defined.

(** @src crates/purchasing/src/order.rs 36-42 [LineItem] *)
Record LineItem := mkLineItem {
  line_no : Z;
  product_id : ProductId;
  quantity : Z
}.

#[global] Instance LineItem_eq_dec : EqDecision LineItem.
Proof. solve_decision. Defined.

(** @src crates/purchasing/src/order.rs 44-54 [PurchaseOrder] *)
Record PurchaseOrder := mkPurchaseOrder {
  po_id : PurchaseOrderId;
  po_tenant_id : option TenantId;
  po_supplier_id : option PartyId;
  po_status : PurchaseOrderStatus;
  po_lines : list LineItem;
  po_version : Z;
  po_created : bool
}.

(** @src crates/purchasing/src/order.rs 57-68 [PurchaseOrder::empty] *)
Definition empty (id : PurchaseOrderId) : PurchaseOrder :=
  {| po_id := id; po_tenant_id := None; po_supplier_id := None; po_status := Draft;
     po_lines := []; po_version := 0; po_created := false |}.

(** @src crates/purchasing/src/order.rs 103-110 [CreatePurchaseOrder] *)
Record CreatePurchaseOrder := mkCreatePurchaseOrder {
  cpo_tenant_id : TenantId;
  cpo_order_id : PurchaseOrderId;
  cpo_supplier_id : PartyId;
  cpo_occurred_at : DateTime
}.

(** @src crates/purchasing/src/order.rs 112-118 [Approve] *)
Record Approve := mkApprove {
  ap_tenant_id : TenantId;
  ap_order_id : PurchaseOrderId;
  ap_occurred_at : DateTime
}.

(** @src crates/purchasing/src/order.rs 120-128 [AddLine] *)
Record AddLine := mkAddLine {
  al_tenant_id : TenantId;
  al_order_id : PurchaseOrderId;
  al_product_id : ProductId;
  al_quantity : Z;
  al_occurred_at : DateTime
}.

(** @src crates/purchasing/src/order.rs 130-136 [ReceiveGoods] *)
Record ReceiveGoods := mkReceiveGoods {
  rg_tenant_id : TenantId;
  rg_order_id : PurchaseOrderId;
  rg_occurred_at : DateTime
}.

(** @src crates/purchasing/src/order.rs 138-144 [PurchaseOrderCommand] *)
Inductive PurchaseOrderCommand : Type :=
| CmdCreatePurchaseOrder (cmd : CreatePurchaseOrder)
| CmdAddLine (cmd : AddLine)
| CmdApprove (cmd : Approve)
| CmdReceiveGoods (cmd : ReceiveGoods).

(** @src crates/purchasing/src/order.rs 146-153 [PurchaseOrderCreated] *)
Record PurchaseOrderCreated := mkPurchaseOrderCreated {
  poc_tenant_id : TenantId;
  poc_order_id : PurchaseOrderId;
  poc_supplier_id : PartyId;
  poc_occurred_at : DateTime
}.

(** @src crates/purchasing/src/order.rs 155-161 [PurchaseOrderApproved] *)
Record PurchaseOrderApproved := mkPurchaseOrderApproved {
  poa_tenant_id : TenantId;
  poa_order_id : PurchaseOrderId;
  poa_occurred_at : DateTime
}.

(** @src crates/purchasing/src/order.rs 163-172 [PurchaseOrderLineAdded] *)
Record PurchaseOrderLineAdded := mkPurchaseOrderLineAdded {
  pol_tenant_id : TenantId;
  pol_order_id : PurchaseOrderId;
  pol_line_no : Z;
  pol_product_id : ProductId;
  pol_quantity : Z;
  pol_occurred_at : DateTime
}.

(** @src crates/purchasing/src/order.rs 174-186 [GoodsReceived] *)
Record GoodsReceived := mkGoodsReceived {
  gr_tenant_id : TenantId;
  gr_order_id : PurchaseOrderId;
  gr_supplier_id : PartyId;
  gr_lines : list LineItem;
  gr_occurred_at : DateTime
}.

(** @src crates/purchasing/src/order.rs 188-194 [PurchaseOrderEvent] *)
Inductive PurchaseOrderEvent : Type :=
| EvPurchaseOrderCreated (e : PurchaseOrderCreated)
| EvPurchaseOrderLineAdded (e : PurchaseOrderLineAdded)
| EvPurchaseOrderApproved (e : PurchaseOrderApproved)
| EvGoodsReceived (e : GoodsReceived).

(** @src crates/purchasing/src/order.rs 196-218 [Event for PurchaseOrderEvent] *)
#[global] Instance PurchaseOrderEvent_event : Event PurchaseOrderEvent := {|
  event_type ev :=
    match ev with
    | EvPurchaseOrderCreated _ => "purchasing.order.created"
    | EvPurchaseOrderLineAdded _ => "purchasing.order.line_added"
    | EvPurchaseOrderApproved _ => "purchasing.order.approved"
    | EvGoodsReceived _ => "purchasing.order.goods_received"
    end%string;
  event_version _ := 1%Z;
  occurred_at ev :=
    match ev with
    | EvPurchaseOrderCreated e => poc_occurred_at e
    | EvPurchaseOrderLineAdded e => pol_occurred_at e
    | EvPurchaseOrderApproved e => poa_occurred_at e
    | EvGoodsReceived e => gr_occurred_at e
    end
|}.

(** @src crates/purchasing/src/order.rs 225-254 [PurchaseOrder::apply] *)
Definition apply (self : PurchaseOrder) (event : PurchaseOrderEvent) : PurchaseOrder :=
  let version := wrapU 64 (po_version self + 1) in
  match event with
  | EvPurchaseOrderCreated e =>
    {| po_id := poc_order_id e; po_tenant_id := Some (poc_tenant_id e);
       po_supplier_id := Some (poc_supplier_id e); po_status := Draft; po_lines := [];
       po_version := version; po_created := true |}
  | EvPurchaseOrderLineAdded e =>
    let line := {| line_no := pol_line_no e; product_id := pol_product_id e;
                   quantity := pol_quantity e |} in
    {| po_id := po_id self; po_tenant_id := po_tenant_id self;
       po_supplier_id := po_supplier_id self; po_status := po_status self;
       po_lines := po_lines self ++ [line]; po_version := version;
       po_created := po_created self |}
  | EvPurchaseOrderApproved _ =>
    {| po_id := po_id self; po_tenant_id := po_tenant_id self;
       po_supplier_id := po_supplier_id self; po_status := Approved;
       po_lines := po_lines self; po_version := version; po_created := po_created self |}
  | EvGoodsReceived e =>
    {| po_id := po_id self; po_tenant_id := po_tenant_id self;
       po_supplier_id := po_supplier_id self; po_status := Received;
       po_lines := gr_lines e; po_version := version; po_created := po_created self |}
  end.

(** @src crates/purchasing/src/order.rs 267-275 [PurchaseOrder::ensure_tenant] *)
Definition ensure_tenant (self : PurchaseOrder) (tenant_id : TenantId) : DomainResult unit :=
  if negb (po_created self) then Ok tt
  else if decide (po_tenant_id self <> Some tenant_id)
  then Err (InvariantViolation "tenant mismatch")
  else Ok tt.

(** @src crates/purchasing/src/order.rs 277-282 [PurchaseOrder::ensure_order_id] *)
Definition ensure_order_id (self : PurchaseOrder) (id : PurchaseOrderId) : DomainResult unit :=
  if decide (po_id self <> id)
  then Err (InvariantViolation "order_id mismatch") else Ok tt.

(** @src crates/purchasing/src/order.rs 284-300 [PurchaseOrder::handle_create] *)
Definition handle_create (self : PurchaseOrder) (cmd : CreatePurchaseOrder)
  : DomainResult (list PurchaseOrderEvent) :=
  if po_created self then Err (Conflict "purchase order already exists")
  else Ok [EvPurchaseOrderCreated
    {| poc_tenant_id := cpo_tenant_id cmd; poc_order_id := cpo_order_id cmd;
       poc_supplier_id := cpo_supplier_id cmd; poc_occurred_at := cpo_occurred_at cmd |}].

(** @src crates/purchasing/src/order.rs 302-328 [PurchaseOrder::handle_approve] *)
Definition handle_approve (self : PurchaseOrder) (cmd : Approve)
  : DomainResult (list PurchaseOrderEvent) :=
  if negb (po_created self) then Err NotFound else
  _ ← ensure_tenant self (ap_tenant_id cmd);
  _ ← ensure_order_id self (ap_order_id cmd);
  if decide (po_status self <> Draft)
  then Err (InvariantViolation "only draft purchase orders can be approved")
  else if decide (po_lines self = [])
  then Err (Validation "cannot approve purchase order without lines")
  else Ok [EvPurchaseOrderApproved
    {| poa_tenant_id := ap_tenant_id cmd; poa_order_id := ap_order_id cmd;
       poa_occurred_at := ap_occurred_at cmd |}].

(** [(self.lines.len() as u32) + 1]. *)
Definition next_line_no (lines : list LineItem) : Z :=
  wrapU 32 (wrapU 32 (Z.of_nat (length lines)) + 1).

(** @src crates/purchasing/src/order.rs 330-358 [PurchaseOrder::handle_add_line] *)
Definition handle_add_line (self : PurchaseOrder) (cmd : AddLine)
  : DomainResult (list PurchaseOrderEvent) :=
  if negb (po_created self) then Err NotFound else
  _ ← ensure_tenant self (al_tenant_id cmd);
  _ ← ensure_order_id self (al_order_id cmd);
  if decide (po_status self <> Draft)
  then Err (InvariantViolation "cannot modify purchase order once approved or received")
  else if decide (al_quantity cmd <= 0)%Z then Err (Validation "quantity must be positive")
  else Ok [EvPurchaseOrderLineAdded
    {| pol_tenant_id := al_tenant_id cmd; pol_order_id := al_order_id cmd;
       pol_line_no := next_line_no (po_lines self); pol_product_id := al_product_id cmd;
       pol_quantity := al_quantity cmd; pol_occurred_at := al_occurred_at cmd |}].

(** The [unwrap] after the [is_none] test is the [Some] branch.

    @src crates/purchasing/src/order.rs 360-394 [PurchaseOrder::handle_receive] *)
Definition handle_receive (self : PurchaseOrder) (cmd : ReceiveGoods)
  : DomainResult (list PurchaseOrderEvent) :=
  if negb (po_created self) then Err NotFound else
  _ ← ensure_tenant self (rg_tenant_id cmd);
  _ ← ensure_order_id self (rg_order_id cmd);
  if decide (po_status self <> Approved)
  then Err (InvariantViolation "cannot receive goods before purchase order is approved")
  else match po_supplier_id self with
  | None => Err (InvariantViolation "supplier must be set")
  | Some supplier =>
    if decide (po_lines self = [])
    then Err (Validation "cannot receive goods for empty purchase order")
    else Ok [EvGoodsReceived
      {| gr_tenant_id := rg_tenant_id cmd; gr_order_id := rg_order_id cmd;
         gr_supplier_id := supplier; gr_lines := po_lines self;
         gr_occurred_at := rg_occurred_at cmd |}]
  end.

(** @src crates/purchasing/src/order.rs 256-263 [PurchaseOrder::handle] *)
Definition handle (self : PurchaseOrder) (command : PurchaseOrderCommand)
  : DomainResult (list PurchaseOrderEvent) :=
  match command with
  | CmdCreatePurchaseOrder cmd => handle_create self cmd
  | CmdAddLine cmd => handle_add_line self cmd
  | CmdApprove cmd => handle_approve self cmd
  | CmdReceiveGoods cmd => handle_receive self cmd
  end.

(** @src crates/purchasing/src/order.rs 91-101 [AggregateRoot for PurchaseOrder] *)
#[global] Instance PurchaseOrder_aggregate
  : Aggregate PurchaseOrder PurchaseOrderCommand PurchaseOrderEvent :=
  {| agg_version := po_version; agg_apply := apply; agg_handle := handle |}.

(** ** The invariant *)

Definition line_ok (i : nat) (l : LineItem) : Prop :=
  line_no l = wrapU 32 (Z.of_nat i + 1) /\ (0 < quantity l < 2 ^ 63)%Z.

Definition lines_ok (ls : list LineItem) : Prop :=
  forall i l, ls !! i = Some l -> line_ok i l.

Definition inv (s : PurchaseOrder) : Prop :=
  is_u64 (po_version s)
  /\ po_created s = bool_decide (is_Some (po_tenant_id s))
  /\ po_created s = bool_decide (is_Some (po_supplier_id s))
  /\ lines_ok (po_lines s)
  /\ po_status s <> Closed
  /\ (po_created s = false -> po_status s = Draft /\ po_lines s = [])
  /\ (po_status s <> Draft -> po_lines s <> []).

Definition command_ok (c : PurchaseOrderCommand) : Prop :=
  match c with CmdAddLine c => is_i64 (al_quantity c) | _ => True end.

Lemma purchase_lines_ok_nil : lines_ok [].
Proof. intros i l. by rewrite lookup_nil. Qed.

Lemma purchase_lines_ok_snoc ls l : lines_ok ls -> line_ok (length ls) l -> lines_ok (ls ++ [l]).
Proof.
  intros Hls Hl i l' Hi. apply lookup_app_Some in Hi as [Hi|[Hlen Hi]]; [by apply Hls|].
  apply list_lookup_singleton_Some in Hi as [Hi <-].
  by replace i with (length ls) by lia.
Qed.

Lemma purchase_next_line_no_eq ls : next_line_no ls = wrapU 32 (Z.of_nat (length ls) + 1).
Proof. apply wrapU_add_l. Qed.

Lemma purchase_empty_inv id : inv (empty id).
Proof. unfold inv; simpl. split_and!; try done; ilia. Qed.

Lemma purchase_ensure_tenant_Ok s t :
  po_created s = true -> ensure_tenant s t = Ok tt <-> po_tenant_id s = Some t.
Proof. unfold ensure_tenant. intros ->. apply ensure_eq_Ok. Qed.

Lemma purchase_ensure_order_id_Ok s i : ensure_order_id s i = Ok tt <-> po_id s = i.
Proof. apply ensure_eq_Ok. Qed.

Definition addressed (s : PurchaseOrder) (t : TenantId) (i : PurchaseOrderId) : Prop :=
  po_created s = true /\ po_tenant_id s = Some t /\ po_id s = i.

Definition accepts (s : PurchaseOrder) (c : PurchaseOrderCommand) : Prop :=
  match c with
  | CmdCreatePurchaseOrder _ => po_created s = false
  | CmdAddLine c =>
    addressed s (al_tenant_id c) (al_order_id c) /\ po_status s = Draft
    /\ (0 < al_quantity c)%Z
  | CmdApprove c =>
    addressed s (ap_tenant_id c) (ap_order_id c) /\ po_status s = Draft /\ po_lines s <> []
  | CmdReceiveGoods c =>
    addressed s (rg_tenant_id c) (rg_order_id c) /\ po_status s = Approved
  end.

Definition evolved (s : PurchaseOrder) (c : PurchaseOrderCommand) : PurchaseOrder :=
  let version := wrapU 64 (po_version s + 1) in
  let keep status lines :=
    mkPurchaseOrder (po_id s) (po_tenant_id s) (po_supplier_id s) status lines version
      (po_created s) in
  match c with
  | CmdCreatePurchaseOrder c =>
    mkPurchaseOrder (cpo_order_id c) (Some (cpo_tenant_id c)) (Some (cpo_supplier_id c))
      Draft [] version true
  | CmdAddLine c =>
    keep (po_status s)
      (po_lines s ++ [mkLineItem (next_line_no (po_lines s)) (al_product_id c)
                        (al_quantity c)])
  | CmdApprove _ => keep Approved (po_lines s)
  | CmdReceiveGoods _ => keep Received (po_lines s)
  end.

Ltac addressed_guards H :=
  guards H;
  repeat match goal with
  | u : unit |- _ => destruct u
  | Ht : ensure_tenant _ _ = Ok tt |- _ => apply purchase_ensure_tenant_Ok in Ht; [|done]
  | Hi : ensure_order_id _ _ = Ok tt |- _ => apply purchase_ensure_order_id_Ok in Hi
  end.

Lemma purchase_handle_sound s c es :
  handle s c = Ok es -> accepts s c /\ replay s es = evolved s c.
Proof.
  intros H. destruct c as [c|c|c|c]; simpl in H.
  - unfold handle_create in H. guards H. done.
  - unfold handle_add_line in H. addressed_guards H.
    unfold accepts, addressed. split_and!; try done. lia.
  - unfold handle_approve in H. addressed_guards H. done.
  - unfold handle_receive in H. addressed_guards H. done.
Qed.

Lemma purchase_handle_complete s c : inv s -> accepts s c -> is_ok (handle s c) = true.
Proof.
  intros (_ & _ & Hsup & _ & _ & _ & Hln).
  assert (Hens : forall t i, addressed s t i ->
    ensure_tenant s t = Ok tt /\ ensure_order_id s i = Ok tt).
  { intros t i (Hc & Ht & Hi). by rewrite purchase_ensure_tenant_Ok, purchase_ensure_order_id_Ok. }
  destruct c as [c|c|c|c]; simpl.
  - unfold handle_create. by intros ->.
  - intros (Ha & Hs & Hq). destruct (Hens _ _ Ha) as [Ht Hi].
    unfold handle_add_line. destruct Ha as (-> & _ & _); simpl.
    rewrite Ht, Hi, Hs; simpl. by rewrite decide_False by lia.
  - intros (Ha & Hs & Hl). destruct (Hens _ _ Ha) as [Ht Hi].
    unfold handle_approve. destruct Ha as (-> & _ & _); simpl.
    rewrite Ht, Hi; simpl. by rewrite Hs, (decide_False (P := po_lines s = [])).
  - intros (Ha & Hs). destruct (Hens _ _ Ha) as [Ht Hi].
    unfold handle_receive. destruct Ha as (Hc & _ & _). rewrite Hc in *; simpl.
    rewrite Ht, Hi, Hs; simpl. destruct (po_supplier_id s); [|done].
    rewrite decide_False; [done|]. apply Hln. congruence.
Qed.

Lemma purchase_evolved_inv s c : inv s -> command_ok c -> accepts s c -> inv (evolved s c).
Proof.
  intros (Hv & Hc & Hsup & Hl & Hcl & He & Hd) Hok Ha.
  assert (Hw : is_u64 (wrapU 64 (po_version s + 1))) by (apply wrapU_range; lia).
  destruct c as [c|c|c|c]; (split; [exact Hw|]); simpl in *.
  - split_and!; done.
  - destruct Ha as ((Hcr & _ & _) & Hs & Hq).
    split_and!; try done; try congruence.
    apply purchase_lines_ok_snoc; [done|]. split; [apply purchase_next_line_no_eq|]. simpl. ilia.
  - destruct Ha as ((Hcr & _ & _) & Hs & Hln). split_and!; try done; congruence.
  - destruct Ha as ((Hcr & _ & _) & Hs). split_and!; try done; try congruence.
    intros _. apply Hd. congruence.
Qed.

#[global] Instance PurchaseOrder_laws
  : AggregateLaws PurchaseOrder PurchaseOrderCommand PurchaseOrderEvent.
Proof.
  refine {| agg_inv := inv; cmd_ok := command_ok |}.
  - by intros s [].
  - intros s c es Hi Hc H. apply purchase_handle_sound in H as [Ha ->]. by apply purchase_evolved_inv.
Defined.

Lemma reachable_inv (id : PurchaseOrderId) (cs : list PurchaseOrderCommand) :
  Forall command_ok cs -> inv (foldl run_command (empty id) cs).
Proof.
  intros Hcs.
  assert (H : agg_inv (C:=PurchaseOrderCommand) (E:=PurchaseOrderEvent)
                (foldl run_command (empty id) cs)); [|exact H].
  apply run_commands_inv; [apply purchase_empty_inv | exact Hcs].
Qed.

(** ** Properties *)

(** The approval of an order that is approved now: what stood on the order then
    stands there still. *)
Lemma approved_since (id : PurchaseOrderId) (cs : list PurchaseOrderCommand) :
  po_status (foldl run_command (empty id) cs) = Approved ->
  exists before a after, cs = before ++ CmdApprove a :: after
    /\ accepts (foldl run_command (empty id) before) (CmdApprove a)
    /\ po_supplier_id (foldl run_command (empty id) cs)
       = po_supplier_id (foldl run_command (empty id) before)
    /\ po_lines (foldl run_command (empty id) cs) = po_lines (foldl run_command (empty id) before).
Proof.
  induction cs as [|c cs IH] using rev_ind; [done|]. rewrite foldl_app; cbn [foldl].
  set (s := foldl run_command (empty id) cs) in *.
  destruct (handle s c) as [es|e] eqn:E.
  - assert (run_command s c = replay s es) as Er by (unfold run_command; simpl; by rewrite E).
    destruct (purchase_handle_sound _ _ _ E) as [Ha Hs]. rewrite Er, Hs. clear Er Hs E.
    destruct c as [c|c|c|c]; simpl; intros Hst; try done.
    + destruct Ha as (_ & Hd & _). congruence.
    + exists cs, c, []. split; [done|]. by split; [exact Ha|].
  - assert (run_command s c = s) as -> by (unfold run_command; simpl; by rewrite E).
    intros (before & a & after & -> & Ha & Hsup & Hl)%IH.
    exists before, a, (after ++ [c]). by rewrite <- app_assoc.
Qed.

(** C30: The receipt of the goods records the order as it was approved.  On every
    state reached from an empty order, receiving is accepted exactly for an
    approved order that the command addresses; then the history holds an accepted
    approval, and the event carries the supplier and the lines that the order had
    when it was approved, which are not empty, numbered and positive.  The
    supplier and empty-order errors of the handler are unreachable, and after the
    receipt another one is refused. *)
Theorem goods_receipt_faithful (id : PurchaseOrderId) (cs : list PurchaseOrderCommand)
    (r : ReceiveGoods) :
  Forall command_ok cs ->
  let s := foldl run_command (empty id) cs in
  match handle s (CmdReceiveGoods r) with
  | Ok es =>
    accepts s (CmdReceiveGoods r)
    /\ (exists before a after supplier, cs = before ++ CmdApprove a :: after
         /\ let approved := foldl run_command (empty id) before in
            accepts approved (CmdApprove a)
            /\ po_supplier_id approved = Some supplier
            /\ es = [EvGoodsReceived (mkGoodsReceived (rg_tenant_id r) (rg_order_id r)
                                        supplier (po_lines approved) (rg_occurred_at r))]
            /\ po_lines approved <> [] /\ lines_ok (po_lines approved))
    /\ forall r', is_ok (handle (replay s es) (CmdReceiveGoods r')) = false
  | Err e =>
    ~ accepts s (CmdReceiveGoods r)
    /\ e <> InvariantViolation "supplier must be set"
    /\ e <> Validation "cannot receive goods for empty purchase order"
  end.
Proof.
  intros Hcs s. pose proof (reachable_inv id cs Hcs) as Hi. fold s in Hi.
  pose proof (purchase_handle_complete s (CmdReceiveGoods r) Hi) as Hcomp.
  destruct Hi as (_ & _ & Hsup & Hl & _ & _ & Hd).
  destruct (handle s (CmdReceiveGoods r)) as [es|e] eqn:E.
  - destruct (purchase_handle_sound _ _ _ E) as [Ha Hs].
    destruct (approved_since id cs (proj2 Ha)) as (before & a & after & Hcs' & Hacc & Esup & El).
    fold s in Esup, El. split_and!; [done| |].
    + exists before, a, after. simpl in E. unfold handle_receive in E. addressed_guards E.
      rewrite El in *. eexists. cbv zeta. rewrite <- Esup. split_and!; eauto.
    + intros r'. rewrite Hs. set (received := evolved s _).
      destruct (handle received (CmdReceiveGoods r')) as [es'|] eqn:E'; [|done].
      by destruct (purchase_handle_sound _ _ _ E') as [[_ Hst] _].
  - split; [intros Ha; discriminate (Hcomp Ha)|].
    simpl in E. unfold handle_receive, ensure_tenant, ensure_order_id, mbind, DomainResult_bind,
      Result_bind in E.
    destruct (po_created s) eqn:Ec; simpl in E; [|by injection E as <-].
    do 2 (destruct (decide _) in E; simpl in E; [by injection E as <-|]).
    destruct (decide _) as [|Hs] in E; [by injection E as <-|]. apply dec_stable in Hs.
    destruct (po_supplier_id s); [|done].
    destruct (decide _) in E; [|done]. by destruct Hd; [congruence|].
Qed.

Definition sample_id : PurchaseOrderId := {| po_aggregate := {| aggregate_uuid := 8 |} |}.
Definition sample_tenant : TenantId := {| tenant_uuid := 1 |}.
Definition sample_commands : list PurchaseOrderCommand :=
  [CmdCreatePurchaseOrder {| cpo_tenant_id := sample_tenant; cpo_order_id := sample_id;
     cpo_supplier_id := mkPartyId (mkAggregateId 2); cpo_occurred_at := 0 |};
   CmdAddLine {| al_tenant_id := sample_tenant; al_order_id := sample_id;
     al_product_id := mkProductId (mkAggregateId 9); al_quantity := 4; al_occurred_at := 1 |};
   CmdApprove {| ap_tenant_id := sample_tenant; ap_order_id := sample_id;
     ap_occurred_at := 2 |}].
Definition sample_receive : ReceiveGoods :=
  {| rg_tenant_id := sample_tenant; rg_order_id := sample_id; rg_occurred_at := 3 |}.

Lemma goods_receipt_faithful_witness :
  let s := foldl run_command (empty sample_id) sample_commands in
  is_ok (handle s (CmdReceiveGoods sample_receive)) = true
  /\ exists before a after, sample_commands = before ++ CmdApprove a :: after
       /\ po_lines (foldl run_command (empty sample_id) before) <> [].
Proof.
  intros s. split; [reflexivity|].
  destruct (goods_receipt_faithful sample_id sample_commands sample_receive)
    as (_ & (before & a & after & supplier & E & _ & _ & _ & H & _) & _);
    [repeat constructor; vm_compute; congruence | exists before, a, after; split; [exact E | exact H]].
Defined.

Definition rank (st : PurchaseOrderStatus) : nat :=
  match st with Draft => 0 | Approved => 1 | Received => 2 | Closed => 3 end.

(** An approved purchase order is frozen: whatever commands follow, its
    lines, supplier, identifier and tenant stay as approved and its status only
    moves forward. *)
Theorem approved_order_is_frozen (s : PurchaseOrder) (cs : list PurchaseOrderCommand) :
  po_created s = true -> po_status s <> Draft ->
  let s' := foldl run_command s cs in
  po_lines s' = po_lines s /\ po_supplier_id s' = po_supplier_id s
  /\ po_id s' = po_id s /\ po_tenant_id s' = po_tenant_id s
  /\ (rank (po_status s) <= rank (po_status s'))%nat.
Proof.
  revert s. induction cs as [|c cs IH]; intros s Hc Hs; simpl; [done|].
  assert (Hstep : po_created (run_command s c) = true /\ po_status (run_command s c) <> Draft
    /\ po_lines (run_command s c) = po_lines s
    /\ po_supplier_id (run_command s c) = po_supplier_id s
    /\ po_id (run_command s c) = po_id s
    /\ po_tenant_id (run_command s c) = po_tenant_id s
    /\ (rank (po_status s) <= rank (po_status (run_command s c)))%nat).
  { unfold run_command. simpl. destruct (handle s c) as [es|] eqn:E; [|done].
    apply purchase_handle_sound in E as [Ha ->]. destruct c as [c|c|c|c]; simpl in *;
      [congruence | destruct Ha as (_ & ? & _); done | destruct Ha as (_ & ? & _); done |].
    destruct Ha as [_ ->]. simpl. split_and!; done || lia. }
  destruct Hstep as (H1 & H2 & <- & <- & <- & <- & Hr).
  destruct (IH _ H1 H2) as (-> & -> & -> & -> & Hr'). split_and!; done || lia.
Qed.

Lemma approved_order_is_frozen_witness :
  let s := foldl run_command (empty sample_id) sample_commands in
  po_lines (foldl run_command s (CmdReceiveGoods sample_receive :: sample_commands))
  = po_lines s.
Proof.
  intros s.
  apply (approved_order_is_frozen s (CmdReceiveGoods sample_receive :: sample_commands));
    [reflexivity | vm_compute; congruence].
Defined.
