(* ===== verification/Accounting.v ===== *)
(** * The ledger: [crates/accounting/src/ledger.rs]

    The [Ledger] aggregate validates double-entry journal entries.  The two
    totals of [handle_post] are [i128] accumulators: the development shows that
    they are exact for every entry a [Vec] can hold, so that an accepted entry
    balances as integers.  The ledger holds no balances: these are the business
    of the projection over [JournalEntryPosted]. *)

From S2P Require Import Prelude Core Events.

(** @src crates/accounting/src/ledger.rs 8-16 [AccountKind] *)
Inductive AccountKind : Type :=
| Asset | Liability | Equity | Revenue | Expense.

#[global] Instance AccountKind_eq_dec : EqDecision AccountKind.
Proof. solve_decision. Defined.

(** @src crates/accounting/src/ledger.rs 18-24 [Account] *)
Record Account := mkAccount {
  acc_code : string;
  acc_name : string;
  acc_kind : AccountKind
}.

#[global] Instance Account_eq_dec : EqDecision Account.
Proof. solve_decision. Defined.

(** @src crates/accounting/src/ledger.rs 26-34 [JournalEntryLine] *)
Record JournalEntryLine := mkJournalEntryLine {
  jl_account : Account;
  jl_amount : Z;
  jl_is_debit : bool
}.

#[global] Instance JournalEntryLine_eq_dec : EqDecision JournalEntryLine.
Proof. solve_decision. Defined.

(** @src crates/accounting/src/ledger.rs 36-45 [LedgerId] *)
Record LedgerId := mkLedgerId { ledger_aggregate : AggregateId }.

#[global] Instance LedgerId_eq_dec : EqDecision LedgerId.
Proof. solve_decision. Defined.

(** @src crates/accounting/src/ledger.rs 53-63 [Ledger] *)
Record Ledger := mkLedger {
  ledger_id : LedgerId;
  ledger_tenant_id : option TenantId;
  ledger_version : Z;
  ledger_created : bool
}.

(** @src crates/accounting/src/ledger.rs 65-74 [Ledger::empty] *)
Definition empty (id : LedgerId) : Ledger :=
  {| ledger_id := id; ledger_tenant_id := None; ledger_version := 0;
     ledger_created := false |}.

(** @src crates/accounting/src/ledger.rs 97-106 [PostJournalEntry] *)
Record PostJournalEntry := mkPostJournalEntry {
  pj_tenant_id : TenantId;
  pj_ledger_id : LedgerId;
  pj_entry_id : Uuid;
  pj_lines : list JournalEntryLine;
  pj_occurred_at : DateTime;
  pj_description : option string
}.

(** @src crates/accounting/src/ledger.rs 108-111 [JournalCommand] *)
Inductive JournalCommand : Type :=
| CmdPostJournalEntry (cmd : PostJournalEntry).

(** @src crates/accounting/src/ledger.rs 113-122 [JournalEntryPosted] *)
Record JournalEntryPosted := mkJournalEntryPosted {
  je_tenant_id : TenantId;
  je_ledger_id : LedgerId;
  je_entry_id : Uuid;
  je_lines : list JournalEntryLine;
  je_description : option string;
  je_occurred_at : DateTime
}.

(** @src crates/accounting/src/ledger.rs 124-127 [LedgerEvent] *)
Inductive LedgerEvent : Type :=
| EvJournalEntryPosted (e : JournalEntryPosted).

#[global] Instance JournalEntryPosted_eq_dec : EqDecision JournalEntryPosted.
Proof. solve_decision. Defined.
#[global] Instance LedgerEvent_eq_dec : EqDecision LedgerEvent.
Proof. solve_decision. Defined.

(** @src crates/accounting/src/ledger.rs 129-145 [LedgerEvent::event_type] *)
#[global] Instance LedgerEvent_event : Event LedgerEvent := {|
  event_type _ := "accounting.ledger.journal_entry_posted"%string;
  event_version _ := 1%Z;
  occurred_at ev := match ev with EvJournalEntryPosted e => je_occurred_at e end
|}.

(** @src crates/accounting/src/ledger.rs 152-164 [Ledger::apply] *)
Definition apply (self : Ledger) (event : LedgerEvent) : Ledger :=
  match event with
  | EvJournalEntryPosted e =>
    {| ledger_id := je_ledger_id e;
       ledger_tenant_id :=
         match ledger_tenant_id self with
         | None => Some (je_tenant_id e) | Some t => Some t end;
       ledger_version := wrapU 64 (ledger_version self + 1);
       ledger_created :=
         match ledger_tenant_id self with None => true | Some _ => ledger_created self end |}
  end.

(** @src crates/accounting/src/ledger.rs 174-182 [Ledger::ensure_tenant] *)
Definition ensure_tenant (self : Ledger) (tenant_id : TenantId) : DomainResult unit :=
  if negb (ledger_created self) then Ok tt
  else if decide (ledger_tenant_id self <> Some tenant_id)
  then Err (InvariantViolation "tenant mismatch")
  else Ok tt.

(** One turn of the loop over the lines, on the pair of running totals.

    @src crates/accounting/src/ledger.rs 194-203 [Ledger::handle_post] *)
Definition add_line (totals : Z * Z) (line : JournalEntryLine) : DomainResult (Z * Z) :=
  if decide (jl_amount line <= 0)%Z then Err (Validation "amount must be positive")
  else if jl_is_debit line
  then Ok (wrapS 128 (totals.1 + jl_amount line), totals.2)
  else Ok (totals.1, wrapS 128 (totals.2 + jl_amount line)).

(** @src crates/accounting/src/ledger.rs 184-217 [Ledger::handle_post] *)
Definition handle_post (self : Ledger) (cmd : PostJournalEntry)
  : DomainResult (list LedgerEvent) :=
  _ ← ensure_tenant self (pj_tenant_id cmd);
  if decide (pj_lines cmd = []) then Err (Validation "journal entry must have lines") else
  totals ← try_fold add_line (0, 0)%Z (pj_lines cmd);
  if decide (totals.1 <> totals.2)
  then Err (InvariantViolation "debits must equal credits")
  else Ok [EvJournalEntryPosted
    {| je_tenant_id := pj_tenant_id cmd; je_ledger_id := pj_ledger_id cmd;
       je_entry_id := pj_entry_id cmd; je_lines := pj_lines cmd;
       je_description := pj_description cmd; je_occurred_at := pj_occurred_at cmd |}].

(** @src crates/accounting/src/ledger.rs 166-170 [Ledger::handle] *)
Definition handle (self : Ledger) (command : JournalCommand) : DomainResult (list LedgerEvent) :=
  match command with CmdPostJournalEntry cmd => handle_post self cmd end.

(** @src crates/accounting/src/ledger.rs 85-95 [AggregateRoot for Ledger] *)
#[global] Instance Ledger_aggregate : Aggregate Ledger JournalCommand LedgerEvent :=
  {| agg_version := ledger_version; agg_apply := apply; agg_handle := handle |}.

(** ** The specification of an entry: exact integer totals *)

Definition debits (ls : list JournalEntryLine) : Z :=
  sumZ (map (fun l => if jl_is_debit l then jl_amount l else 0%Z) ls).
Definition credits (ls : list JournalEntryLine) : Z :=
  sumZ (map (fun l => if jl_is_debit l then 0%Z else jl_amount l) ls).

Definition positive_lines (ls : list JournalEntryLine) : Prop :=
  Forall (fun l => 0 < jl_amount l)%Z ls.

Definition balanced (ls : list JournalEntryLine) : Prop :=
  ls <> [] /\ positive_lines ls /\ debits ls = credits ls.

(** An [i64] amount in every line, and no more lines than a [Vec] holds. *)
Definition lines_fit (ls : list JournalEntryLine) : Prop :=
  Forall (fun l => is_i64 (jl_amount l)) ls /\ (Z.of_nat (length ls) < 2 ^ 63)%Z.

Definition command_ok (c : JournalCommand) : Prop :=
  match c with CmdPostJournalEntry c => lines_fit (pj_lines c) end.

(** The loop computes the exact totals, or stops at a line that is not positive. *)
Lemma add_lines_exact (ls : list JournalEntryLine) (d c : Z) :
  Forall (fun l => is_i64 (jl_amount l)) ls ->
  (0 <= d)%Z -> (0 <= c)%Z ->
  (d + Z.of_nat (length ls) * 2 ^ 63 < 2 ^ 127)%Z ->
  (c + Z.of_nat (length ls) * 2 ^ 63 < 2 ^ 127)%Z ->
  try_fold add_line (d, c) ls =
  if decide (positive_lines ls) then Ok (d + debits ls, c + credits ls)%Z
  else Err (Validation "amount must be positive").
Proof.
  intros Hls. revert d c. induction Hls as [|l ls Hl Hls IH]; intros d c Hd Hc Hdl Hcl.
  - rewrite decide_True by constructor. unfold debits, credits; simpl. do 2 f_equal; lia.
  - simpl try_fold. unfold add_line at 1. cbn [length] in *.
    destruct (decide (jl_amount l <= 0)%Z) as [Hn|Hp].
    { rewrite decide_False; [done|]. intros H. apply Forall_cons_1 in H. lia. }
    assert (Hiff : positive_lines (l :: ls) <-> positive_lines ls).
    { unfold positive_lines. rewrite Forall_cons. intuition lia. }
    destruct Hl as [_ Hl]. change (2 ^ (64 - 1))%Z with (2 ^ 63)%Z in Hl.
    unfold debits, credits; simpl. fold (debits ls) (credits ls).
    destruct (jl_is_debit l); simpl; (rewrite wrapS_id; [|done|split; ilia]);
      (rewrite IH by lia); (destruct (decide (positive_lines ls));
       [rewrite decide_True by (by apply Hiff); do 2 f_equal; lia
       |rewrite decide_False by (by rewrite Hiff); done]).
Qed.

Lemma ledger_ensure_tenant_Ok s t :
  ensure_tenant s t = Ok tt
  <-> (ledger_created s = true -> ledger_tenant_id s = Some t).
Proof.
  unfold ensure_tenant. destruct (ledger_created s); simpl; [|intuition congruence].
  destruct (decide _) as [H|H]; [intuition congruence|].
  apply dec_stable in H. intuition congruence.
Qed.

(** What acceptance of an entry says. *)
Definition accepts (s : Ledger) (c : PostJournalEntry) : Prop :=
  (ledger_created s = true -> ledger_tenant_id s = Some (pj_tenant_id c))
  /\ balanced (pj_lines c).

Definition posted (c : PostJournalEntry) : LedgerEvent :=
  EvJournalEntryPosted
    {| je_tenant_id := pj_tenant_id c; je_ledger_id := pj_ledger_id c;
       je_entry_id := pj_entry_id c; je_lines := pj_lines c;
       je_description := pj_description c; je_occurred_at := pj_occurred_at c |}.

Lemma loop_exact ls :
  lines_fit ls ->
  try_fold add_line (0, 0)%Z ls =
  if decide (positive_lines ls) then Ok (debits ls, credits ls)
  else Err (Validation "amount must be positive").
Proof. intros [Hf Hn]. apply add_lines_exact; [done|lia..|nia|nia]. Qed.

Lemma handle_post_Ok s c es :
  lines_fit (pj_lines c) ->
  handle_post s c = Ok es <-> accepts s c /\ es = [posted c].
Proof.
  intros Hf. unfold handle_post, accepts, balanced. rewrite <- ledger_ensure_tenant_Ok.
  destruct (ensure_tenant s (pj_tenant_id c)) as [[]|e]; simpl; [|intuition congruence].
  destruct (decide _) as [Hn|Hn]; [intuition congruence|].
  rewrite loop_exact by done.
  destruct (decide (positive_lines _)); simpl; [|intuition congruence].
  unfold posted. destruct (decide _) as [Hne|He]; [intuition congruence|].
  apply dec_stable in He. split; [intros [= <-]; done | by intros [_ ->]].
Qed.

(** ** The invariant: created exactly when the tenant is known *)

Definition inv (s : Ledger) : Prop :=
  is_u64 (ledger_version s)
  /\ ledger_created s = bool_decide (is_Some (ledger_tenant_id s)).

Lemma ledger_empty_inv id : inv (empty id).
Proof. split; [simpl; ilia | done]. Qed.

Lemma ledger_apply_inv s e : inv s -> inv (apply s e).
Proof.
  intros [Hv Hc]. destruct e as [e]. split; [by apply wrapU_range|]. simpl.
  by destruct (ledger_tenant_id s).
Qed.

Lemma replay_inv s (es : list LedgerEvent) : inv s -> inv (replay s es).
Proof. revert s. induction es as [|e es IH]; intros s Hi; [done|]. by apply IH, ledger_apply_inv. Qed.

#[global] Instance Ledger_laws : AggregateLaws Ledger JournalCommand LedgerEvent.
Proof.
  refine {| agg_inv := inv; cmd_ok := command_ok |}.
  - by intros s [].
  - intros s c es Hi _ _. by apply replay_inv.
Defined.

(** The tenant of the first entry stays: a created ledger keeps its tenant under
    any events. *)
Definition owned_by (t : TenantId) (s : Ledger) : Prop :=
  ledger_tenant_id s = Some t /\ ledger_created s = true.

Lemma replay_owned t s (es : list LedgerEvent) : owned_by t s -> owned_by t (replay s es).
Proof.
  revert s. induction es as [|[e] es IH]; intros s [Ht Hc]; [done|].
  apply IH. split; simpl; by rewrite Ht.
Qed.

Lemma ledger_keeps_its_tenant t (s : Ledger) (cs : list JournalCommand) :
  owned_by t s -> owned_by t (foldl run_command s cs).
Proof.
  revert s. induction cs as [|c cs IH]; intros s Hs; [done|]. simpl. apply IH.
  unfold run_command. destruct (agg_handle s c); [by apply replay_owned | done].
Qed.

(** ** Properties *)

(** C33: double entry: for lines with [i64] amounts and any length a [Vec] can
    have, the ledger accepts an entry exactly when the tenant is the ledger's,
    the entry has lines, every amount is positive and the debits equal the
    credits as integers (the [i128] totals never overflow); the one event
    decided carries the lines unchanged. *)
Theorem ledger_accepts_exactly_balanced_entries (s : Ledger) (c : PostJournalEntry)
    (es : list LedgerEvent) :
  lines_fit (pj_lines c) ->
  handle s (CmdPostJournalEntry c) = Ok es
  <-> (ledger_created s = true -> ledger_tenant_id s = Some (pj_tenant_id c))
      /\ balanced (pj_lines c) /\ es = [posted c].
Proof. intros Hf. simpl. rewrite handle_post_Ok by done. unfold accepts. tauto. Qed.

Definition cash : Account := {| acc_code := "1000"; acc_name := "Cash"; acc_kind := Asset |}.
Definition sales : Account := {| acc_code := "4000"; acc_name := "Sales"; acc_kind := Revenue |}.
Definition sample_entry : PostJournalEntry :=
  {| pj_tenant_id := mkTenantId 1; pj_ledger_id := mkLedgerId (mkAggregateId 2);
     pj_entry_id := 3%N;
     pj_lines := [mkJournalEntryLine cash 500 true; mkJournalEntryLine sales 500 false];
     pj_occurred_at := 7; pj_description := None |}.

Lemma ledger_accepts_exactly_balanced_entries_witness :
  handle (empty (mkLedgerId (mkAggregateId 2))) (CmdPostJournalEntry sample_entry)
  = Ok [posted sample_entry].
Proof.
  apply (ledger_accepts_exactly_balanced_entries _ sample_entry [posted sample_entry]).
  - split; [repeat constructor; vm_compute; congruence | vm_compute; congruence].
  - split; [done|]. split; [|done]. split; [done|]. split; [|reflexivity].
    repeat constructor.
Defined.
