(* ===== verification/Bus.v ===== *)
(** * The event bus: [crates/events/src/bus.rs] and [in_memory_bus.rs]

    The [EventBus] trait as a type class, and the in-memory bus: a list of
    [mpsc] senders behind a mutex.  The standard library's channels are modelled
    as a heap of queues named by numbers, because a sender in the bus and the
    receiver of a subscription share the queue; [poisoned] is the state of the
    mutex, which no operation of the bus changes. *)

From S2P Require Import Prelude Core Events.

(** The operations of a bus of type [B] carrying messages [M]; [bus_debug] is the
    [Debug] text of its error type.

    @src crates/events/src/bus.rs 131-137 [EventBus] *)
Class EventBus (B M : Type) := {
  BusError : Type;
  bus_debug : BusError -> string;
  bus_publish : B -> M -> B * Result BusError unit
}.

(** ** [std::sync::mpsc] channels *)

Section InMemory.
Context {M : Type}.

Record Channel := mkChannel {
  ch_queue : list M;
  ch_receiver_alive : bool;
  ch_sender_alive : bool
}.

(** @src crates/events/src/bus.rs 60-68 [Subscription] *)
Record Subscription := mkSubscription { receiver : nat }.

(** @src crates/events/src/in_memory_bus.rs 7-11 [InMemoryBusError] *)
Inductive InMemoryBusError : Type := Poisoned.

(** The senders of the bus, and the channels they share with the subscribers.

    @src crates/events/src/in_memory_bus.rs 13-21 [InMemoryEventBus] *)
Record InMemoryEventBus := mkInMemoryEventBus {
  subscribers : list nat;
  poisoned : bool;
  channels : gmap nat Channel;
  next_channel : nat
}.

(** @src crates/events/src/in_memory_bus.rs 23-35 [InMemoryEventBus::default] *)
Definition bus_new : InMemoryEventBus :=
  {| subscribers := []; poisoned := false; channels := ∅; next_channel := 0 |}.

(** [Sender::send]: an error when the receiver was dropped. *)
Definition send (chs : gmap nat Channel) (tx : nat) (m : M) : gmap nat Channel * bool :=
  match chs !! tx with
  | Some c =>
    if ch_receiver_alive c
    then (<[tx := {| ch_queue := ch_queue c ++ [m]; ch_receiver_alive := true;
                     ch_sender_alive := ch_sender_alive c |}]> chs, true)
    else (chs, false)
  | None => (chs, false)
  end.

(** [subs.retain(|tx| tx.send(message.clone()).is_ok())]: in order, and a sender
    whose receiver is gone is dropped.

    @src crates/events/src/in_memory_bus.rs 46-47 [InMemoryEventBus::publish] *)
Fixpoint retain_send (m : M) (chs : gmap nat Channel) (subs : list nat)
  : gmap nat Channel * list nat :=
  match subs with
  | [] => (chs, [])
  | tx :: rest =>
    let '(chs', ok) := send chs tx m in
    let '(chs'', kept) := retain_send m chs' rest in
    (chs'', if ok : bool then tx :: kept else kept)
  end.

(** @src crates/events/src/in_memory_bus.rs 43-50 [InMemoryEventBus::publish] *)
Definition publish (self : InMemoryEventBus) (message : M)
  : InMemoryEventBus * Result InMemoryBusError unit :=
  if poisoned self then (self, Err Poisoned) else
  let '(chs, subs) := retain_send message (channels self) (subscribers self) in
  ({| subscribers := subs; poisoned := false; channels := chs;
      next_channel := next_channel self |}, Ok tt).

(** A new channel; with the lock poisoned its sender is dropped on return.

    @src crates/events/src/in_memory_bus.rs 52-62 [InMemoryEventBus::subscribe] *)
Definition subscribe (self : InMemoryEventBus) : InMemoryEventBus * Subscription :=
  let rx := next_channel self in
  let alive := negb (poisoned self) in
  ({| subscribers := if alive then subscribers self ++ [rx] else subscribers self;
      poisoned := poisoned self;
      channels := <[rx := {| ch_queue := []; ch_receiver_alive := true;
                             ch_sender_alive := alive |}]> (channels self);
      next_channel := S rx |}, {| receiver := rx |}).

Inductive TryRecvError : Type := Empty | Disconnected.

(** @src crates/events/src/bus.rs 75-78 [Subscription::try_recv] *)
Definition try_recv (self : InMemoryEventBus) (sub : Subscription)
  : InMemoryEventBus * Result TryRecvError M :=
  match channels self !! receiver sub with
  | Some c =>
    match ch_queue c with
    | m :: q =>
      ({| subscribers := subscribers self; poisoned := poisoned self;
          channels := <[receiver sub := {| ch_queue := q;
              ch_receiver_alive := ch_receiver_alive c;
              ch_sender_alive := ch_sender_alive c |}]> (channels self);
          next_channel := next_channel self |}, Ok m)
    | [] => (self, Err (if ch_sender_alive c then Empty else Disconnected))
    end
  | None => (self, Err Disconnected)
  end.

Inductive RecvTimeoutError : Type := Timeout | TimeoutDisconnected.

(** The end of a wait: an empty queue is a timeout when its sender lives.

    @src crates/events/src/bus.rs 80-83 [Subscription::recv_timeout] *)
Definition recv_timeout (self : InMemoryEventBus) (sub : Subscription)
  : InMemoryEventBus * Result RecvTimeoutError M :=
  let '(self', r) := try_recv self sub in
  (self', map_err (fun e => match e with Empty => Timeout | Disconnected => TimeoutDisconnected end) r).

(** Dropping a subscription closes its receiver. *)
Definition drop_subscription (self : InMemoryEventBus) (sub : Subscription)
  : InMemoryEventBus :=
  {| subscribers := subscribers self; poisoned := poisoned self;
     channels := alter (fun c => {| ch_queue := []; ch_receiver_alive := false;
                                    ch_sender_alive := ch_sender_alive c |})
                       (receiver sub) (channels self);
     next_channel := next_channel self |}.

(** @src crates/events/src/in_memory_bus.rs 37-41 [EventBus for InMemoryEventBus] *)
#[global] Instance InMemoryEventBus_bus : EventBus InMemoryEventBus M :=
  {| BusError := InMemoryBusError; bus_debug _ := "Poisoned"%string;
     bus_publish := publish |}.

(** ** Interleavings of the users of one bus *)

Inductive BusOp : Type :=
| OpPublish (m : M)
| OpSubscribe
| OpRecv (n : nat)
| OpDrop (n : nat).

(** One operation, and what it delivered to whom. *)
Definition bus_step (w : InMemoryEventBus) (op : BusOp) : InMemoryEventBus * list (nat * M) :=
  match op with
  | OpPublish m => ((publish w m).1, [])
  | OpSubscribe => ((subscribe w).1, [])
  | OpRecv n => let '(w', r) := try_recv w {| receiver := n |} in
                (w', match r with Ok m => [(n, m)] | Err _ => [] end)
  | OpDrop n => (drop_subscription w {| receiver := n |}, [])
  end.

Fixpoint bus_run (w : InMemoryEventBus) (ops : list BusOp)
  : InMemoryEventBus * list (nat * M) :=
  match ops with
  | [] => (w, [])
  | op :: ops' =>
    let '(w1, d1) := bus_step w op in
    let '(w2, d2) := bus_run w1 ops' in (w2, d1 ++ d2)
  end.

Definition published (ops : list BusOp) : list M :=
  omap (fun op => match op with OpPublish m => Some m | _ => None end) ops.

Definition delivered (n : nat) (d : list (nat * M)) : list M :=
  omap (fun p => if decide (p.1 = n) then Some p.2 else None) d.

(** ** Invariants *)

Definition bus_inv (w : InMemoryEventBus) : Prop :=
  NoDup (subscribers w) /\ Forall (fun n => n < next_channel w)%nat (subscribers w)
  /\ poisoned w = false.

(** Subscription [n] is registered, open, and has [q] waiting. *)
Definition listening (n : nat) (q : list M) (w : InMemoryEventBus) : Prop :=
  n ∈ subscribers w /\ exists c, channels w !! n = Some c
  /\ ch_receiver_alive c = true /\ ch_sender_alive c = true /\ ch_queue c = q.

Lemma send_other chs tx m n : tx <> n -> (send chs tx m).1 !! n = chs !! n.
Proof.
  intros Hn. unfold send. destruct (chs !! tx) as [c|]; [|done].
  destruct (ch_receiver_alive c); [|done]. by apply lookup_insert_ne.
Qed.

Lemma retain_send_other m subs : forall chs n,
  n ∉ subs -> (retain_send m chs subs).1 !! n = chs !! n.
Proof.
  induction subs as [|tx rest IH]; intros chs n Hn; simpl; [done|].
  apply not_elem_of_cons in Hn as [Hne Hn].
  pose proof (send_other chs tx m n (not_eq_sym Hne)) as Hs.
  destruct (send chs tx m) as [chs' ok]. specialize (IH chs' n Hn).
  destruct (retain_send m chs' rest) as [chs'' kept]. simpl in *. congruence.
Qed.

Lemma retain_send_sublist m subs : forall chs,
  (retain_send m chs subs).2 `sublist_of` subs.
Proof.
  induction subs as [|tx rest IH]; intros chs; simpl; [done|].
  destruct (send chs tx m) as [chs' ok]. specialize (IH chs').
  destruct (retain_send m chs' rest) as [chs'' kept].
  destruct ok; simpl in *; by constructor.
Qed.

(** A live subscriber gets the message once, at the end of its queue, and stays. *)
Lemma retain_send_listening m subs : forall chs n c,
  NoDup subs -> n ∈ subs -> chs !! n = Some c -> ch_receiver_alive c = true ->
  n ∈ (retain_send m chs subs).2
  /\ exists c', (retain_send m chs subs).1 !! n = Some c'
     /\ ch_receiver_alive c' = true /\ ch_sender_alive c' = ch_sender_alive c
     /\ ch_queue c' = ch_queue c ++ [m].
Proof.
  induction subs as [|tx rest IH]; intros chs n c Hnd Hin Hc Ha; [by apply not_elem_of_nil in Hin|].
  apply NoDup_cons in Hnd as [Hnin Hnd]. simpl. destruct (decide (tx = n)) as [->|Hne].
  - unfold send. rewrite Hc, Ha.
    pose proof (retain_send_other m rest
      (<[n := {| ch_queue := ch_queue c ++ [m]; ch_receiver_alive := true;
                 ch_sender_alive := ch_sender_alive c |}]> chs) n Hnin) as Ho.
    destruct (retain_send m _ rest) as [chs'' kept]. simpl in *.
    rewrite lookup_insert_eq in Ho. split; [left|]. by eexists.
  - apply elem_of_cons in Hin as [->|Hin]; [done|].
    pose proof (send_other chs tx m n Hne) as Hs.
    destruct (send chs tx m) as [chs' ok]. simpl in Hs.
    destruct (IH chs' n c Hnd Hin (eq_trans Hs Hc) Ha) as [Hk Hq].
    destruct (retain_send m chs' rest) as [chs'' kept]. simpl in *.
    split; [|done]. destruct ok; [by right | done].
Qed.

Lemma bus_step_inv w op : bus_inv w -> bus_inv (bus_step w op).1.
Proof.
  intros (Hnd & Hlt & Hp). destruct op as [m| |n|n]; simpl.
  - unfold publish. rewrite Hp.
    pose proof (retain_send_sublist m (subscribers w) (channels w)) as Hs.
    destruct (retain_send _ _ _) as [chs subs]. simpl in *.
    split; [by eapply sublist_NoDup|]. split; [|done]. rewrite Forall_forall in *.
    intros n Hn. by eapply Hlt, elem_of_sublist.
  - rewrite Hp. simpl. split; [|split; [|done]].
    + apply NoDup_app. split; [done|]. split; [|apply NoDup_singleton].
      intros x Hx ->%list_elem_of_singleton.
      rewrite Forall_forall in Hlt. specialize (Hlt _ Hx). lia.
    + apply Forall_app. split; [|repeat constructor].
      eapply Forall_impl; [done|]. simpl. lia.
  - unfold try_recv. destruct (channels w !! _) as [c|]; [|done].
    by destruct (ch_queue c).
  - done.
Qed.

(** What one step does to a listening subscription: its queue loses what was
    delivered and gains what was published. *)
Lemma bus_step_listening w op n q :
  bus_inv w -> op <> OpDrop n -> listening n q w ->
  exists q', listening n q' (bus_step w op).1
    /\ delivered n (bus_step w op).2 ++ q' = q ++ published [op].
Proof.
  intros (Hnd & Hlt & Hp) Hop (Hin & c & Hc & Ha & Hs & Hq). destruct op as [m| |k|k]; simpl.
  - exists (q ++ [m]). split; [|done]. unfold publish. rewrite Hp.
    destruct (retain_send_listening m _ (channels w) n c Hnd Hin Hc Ha) as (Hk & c' & Hc' & ? & Hs' & Hq').
    destruct (retain_send _ _ _) as [chs subs]. subst q. simpl in *. split; [done|].
    exists c'. split_and!; simpl; congruence.
  - exists q. split; [|by rewrite app_nil_r]. rewrite Hp. simpl. split; [set_solver|].
    exists c. simpl. rewrite lookup_insert_ne; [done|].
    rewrite Forall_forall in Hlt. specialize (Hlt _ Hin). lia.
  - rewrite app_nil_r. unfold try_recv. simpl. destruct (decide (k = n)) as [->|Hne].
    + rewrite Hc. destruct (ch_queue c) as [|m q1] eqn:Eq; subst q; simpl.
      * exists []. split; [|done]. split; [done|]. eauto 8.
      * exists q1. rewrite decide_True by done. split; [|done]. split; [done|]. simpl.
        rewrite lookup_insert_eq. by eexists.
    + exists q. destruct (channels w !! k) as [ck|]; [|split; [split; [done|eauto 8]|done]].
      destruct (ch_queue ck); simpl; [split; [split; [done|eauto 8]|done]|].
      rewrite decide_False by done. split; [|done]. split; [done|]. simpl.
      rewrite lookup_insert_ne by done. eauto 8.
  - assert (Hne : k <> n) by congruence.
    exists q. split; [|by rewrite app_nil_r]. split; [done|]. simpl.
    rewrite lookup_alter_ne by done. eauto 8.
Qed.

Lemma bus_run_inv w ops : bus_inv w -> bus_inv (bus_run w ops).1.
Proof.
  revert w. induction ops as [|op ops IH]; intros w Hw; simpl; [done|].
  apply (bus_step_inv w op) in Hw. destruct (bus_step w op) as [w1 d1].
  specialize (IH w1 Hw). by destruct (bus_run w1 ops).
Qed.

Lemma bus_run_listening ops : forall w n q,
  bus_inv w -> OpDrop n ∉ ops -> listening n q w ->
  exists q', listening n q' (bus_run w ops).1
    /\ delivered n (bus_run w ops).2 ++ q' = q ++ published ops.
Proof.
  induction ops as [|op ops IH]; intros w n q Hw Hd Hl; simpl.
  { exists q. by rewrite app_nil_r. }
  apply not_elem_of_cons in Hd as [Hne Hd].
  destruct (bus_step_listening w op n q Hw (not_eq_sym Hne) Hl) as (q1 & Hl1 & Hq1).
  pose proof (bus_step_inv w op Hw) as Hw1.
  destruct (bus_step w op) as [w1 d1]. simpl in *.
  destruct (IH w1 n q1 Hw1 Hd Hl1) as (q2 & Hl2 & Hq2).
  destruct (bus_run w1 ops) as [w2 d2]. simpl in *. exists q2. split; [done|].
  unfold delivered, published in *.
  rewrite omap_app, <- app_assoc, Hq2, app_assoc, Hq1, <- app_assoc. f_equal.
  by destruct op.
Qed.

(** ** Property *)

(** C36: reliable broadcast: a subscription made on a running bus and not
    dropped sees, whatever the other users do in between, exactly the messages
    published after it was made, each once and in the order of publication: what
    it has received followed by what waits in its queue is that sequence. *)
Theorem in_memory_bus_broadcasts_in_order (before after : list BusOp) :
  let w := (bus_run bus_new before).1 in
  let '(w1, sub) := subscribe w in
  OpDrop (receiver sub) ∉ after ->
  let '(w2, d) := bus_run w1 after in
  exists c, channels w2 !! receiver sub = Some c
    /\ delivered (receiver sub) d ++ ch_queue c = published after.
Proof.
  assert (Hnew : bus_inv bus_new) by (split; [constructor | done]).
  pose proof (bus_run_inv bus_new before Hnew) as Hw. simpl.
  generalize dependent (bus_run bus_new before).1. intros w Hw Hd.
  assert (Hl : listening (next_channel w) [] (subscribe w).1).
  { destruct Hw as (_ & _ & Hp). unfold subscribe, listening. rewrite Hp. simpl.
    split; [set_solver|]. rewrite lookup_insert_eq. by eexists. }
  apply (bus_step_inv w OpSubscribe) in Hw.
  destruct (bus_run_listening after _ _ [] Hw Hd Hl) as (q & (_ & c & Hc & _ & _ & Hq) & Heq).
  unfold subscribe in *; simpl in *. destruct (bus_run _ after) as [w2 d].
  exists c. subst q. done.
Qed.
End InMemory.
Arguments Channel : clear implicits.
Arguments InMemoryEventBus : clear implicits.
Arguments BusOp : clear implicits.

Lemma in_memory_bus_broadcasts_in_order_witness :
  let '(w, d) := bus_run (subscribe (bus_run bus_new [OpSubscribe; OpPublish 1]).1).1
                   [OpPublish 2; OpRecv 1; OpDrop 0; OpPublish 3] in
  exists c, channels w !! 1 = Some c /\ delivered 1 d ++ ch_queue c = [2; 3].
Proof.
  apply (in_memory_bus_broadcasts_in_order [OpSubscribe; OpPublish 1]
           [OpPublish 2; OpRecv 1; OpDrop 0; OpPublish 3]).
  change (OpDrop 1 ∉ [OpPublish 2; OpRecv 1; OpDrop 0; OpPublish 3]).
  rewrite !not_elem_of_cons. split_and!; try congruence. apply not_elem_of_nil.
Defined.
