(* ===== verification/EventStore.v ===== *)
(** * The event store: [crates/infra/src/event_store]

    The records and the [EventStore] trait of [trait.rs] with the contract its
    documentation asks of an implementation (a class of laws, used by the
    dispatcher), the in-memory store of [in_memory.rs] that discharges it, its
    queries ([query.rs]), and the publishing adapter of [mod.rs].

    The payload type [J] is [serde_json::Value], an argument everywhere.  An
    operation takes the store and returns it with its result, errors included:
    what an error leaves behind is part of the result. *)

From S2P Require Import Prelude Core Events Bus.

Section Records.
Context (J : Type).

(** @src crates/infra/src/event_store/trait.rs 33-46 [UncommittedEvent] *)
Record UncommittedEvent := mkUncommitted {
  ue_event_id : Uuid;
  ue_tenant_id : TenantId;
  ue_aggregate_id : AggregateId;
  ue_aggregate_type : string;
  ue_event_type : string;
  ue_event_version : Z;
  ue_occurred_at : DateTime;
  ue_payload : J
}.

(** @src crates/infra/src/event_store/trait.rs 68-84 [StoredEvent] *)
Record StoredEvent := mkStored {
  se_event_id : Uuid;
  se_tenant_id : TenantId;
  se_aggregate_id : AggregateId;
  se_aggregate_type : string;
  se_sequence_number : Z;
  se_event_type : string;
  se_event_version : Z;
  se_occurred_at : DateTime;
  se_payload : J
}.
End Records.

Arguments mkUncommitted {J}.
Arguments ue_event_id {J}.
Arguments ue_tenant_id {J}.
Arguments ue_aggregate_id {J}.
Arguments ue_aggregate_type {J}.
Arguments ue_event_type {J}.
Arguments ue_event_version {J}.
Arguments ue_occurred_at {J}.
Arguments ue_payload {J}.
Arguments mkStored {J}.
Arguments se_event_id {J}.
Arguments se_tenant_id {J}.
Arguments se_aggregate_id {J}.
Arguments se_aggregate_type {J}.
Arguments se_sequence_number {J}.
Arguments se_event_type {J}.
Arguments se_event_version {J}.
Arguments se_occurred_at {J}.
Arguments se_payload {J}.

(** @src crates/infra/src/event_store/trait.rs 104-133 [EventStoreError] *)
Inductive EventStoreError : Type :=
| Concurrency (msg : string)
| TenantIsolation (msg : string)
| AggregateTypeMismatch (msg : string)
| InvalidAppend (msg : string)
| Publish (msg : string).

#[global] Instance EventStoreError_eq_dec : EqDecision EventStoreError.
Proof. solve_decision. Defined.

(** @src crates/infra/src/event_store/trait.rs 91-101 [StoredEvent::to_envelope] *)
Definition to_envelope {J} (self : StoredEvent J) : EventEnvelope J :=
  {| env_event_id := se_event_id self; env_tenant_id := se_tenant_id self;
     env_aggregate_id := se_aggregate_id self;
     env_aggregate_type := se_aggregate_type self;
     env_sequence_number := se_sequence_number self;
     env_payload := se_payload self |}.

(** ** Serialization

    [serde_json::to_value] and [from_value] at one event type: library code, so
    an interface; [SerdeLaws] is the round trip the derived implementations
    document. *)
Class Serde (E J : Type) := {
  to_value : E -> Result string J;
  from_value : J -> Result string E
}.

Class SerdeLaws (E J : Type) `{Serde E J} := {
  to_value_total e : exists j, to_value e = Ok j /\ from_value j = Ok e
}.

(** @src crates/infra/src/event_store/trait.rs 226-249 [UncommittedEvent::from_typed] *)
Definition from_typed {E J} `{Event E} `{Serde E J} (tenant_id : TenantId)
    (aggregate_id : AggregateId) (aggregate_type : string) (event_id : Uuid) (event : E)
  : Result EventStoreError (UncommittedEvent J) :=
  match to_value event with
  | Err e => Err (InvalidAppend ("payload serialization failed: " +:+ e))
  | Ok payload =>
    Ok {| ue_event_id := event_id; ue_tenant_id := tenant_id;
          ue_aggregate_id := aggregate_id; ue_aggregate_type := aggregate_type;
          ue_event_type := event_type event; ue_event_version := event_version event;
          ue_occurred_at := occurred_at event; ue_payload := payload |}
  end.

(** ** The [EventStore] trait *)

(** @src crates/infra/src/event_store/trait.rs 179-198 [EventStore] *)
Class EventStore (S J : Type) := {
  es_append : S -> list (UncommittedEvent J) -> ExpectedVersion ->
    S * Result EventStoreError (list (StoredEvent J));
  es_load : S -> TenantId -> AggregateId -> Result EventStoreError (list (StoredEvent J))
}.

Section Contract.
Context {J : Type}.
Implicit Types (st : list (StoredEvent J)) (evs : list (UncommittedEvent J)).

(** The sequence number of the last event, 0 for an empty stream.

    @src crates/infra/src/event_store/in_memory.rs 28-30 [InMemoryEventStore::current_version] *)
Definition current_version (stream : list (StoredEvent J)) : Z :=
  match last stream with Some e => se_sequence_number e | None => 0%Z end.

(** @src crates/infra/src/event_store/in_memory.rs 98-108 [InMemoryEventStore::append] *)
Definition store_event (next : Z) (e : UncommittedEvent J) : StoredEvent J :=
  {| se_event_id := ue_event_id e; se_tenant_id := ue_tenant_id e;
     se_aggregate_id := ue_aggregate_id e; se_aggregate_type := ue_aggregate_type e;
     se_sequence_number := next; se_event_type := ue_event_type e;
     se_event_version := ue_event_version e; se_occurred_at := ue_occurred_at e;
     se_payload := ue_payload e |}.

(** The loop that numbers a batch; the returned list is both what is pushed on
    the stream and what is committed.

    @src crates/infra/src/event_store/in_memory.rs 94-115 [InMemoryEventStore::append] *)
Fixpoint number_batch (next : Z) (events : list (UncommittedEvent J))
  : list (StoredEvent J) :=
  match events with
  | [] => []
  | e :: rest => store_event next e :: number_batch (wrapU 64 (next + 1)) rest
  end.

(** A batch for one stream. *)
Definition batch_for (t : TenantId) (a : AggregateId) (ty : string) evs : Prop :=
  evs <> []
  /\ Forall (fun e => ue_tenant_id e = t /\ ue_aggregate_id e = a
                      /\ ue_aggregate_type e = ty) evs.

(** A stream accepts the aggregate type of its first event. *)
Definition type_stable st (ty : string) : Prop :=
  match st with [] => True | e :: _ => se_aggregate_type e = ty end.

(** A stream of [t] and [a]: owned, of one type, numbered 1, 2, 3, ... (modulo
    the width of the counter). *)
Definition stream_ok (t : TenantId) (a : AggregateId) st : Prop :=
  (exists ty, Forall (fun e => se_tenant_id e = t /\ se_aggregate_id e = a
                               /\ se_aggregate_type e = ty) st)
  /\ forall i e, st !! i = Some e -> se_sequence_number e = wrapU 64 (Z.of_nat i + 1).

(** What the documentation of the trait promises (atomicity, isolation,
    optimistic concurrency, monotonic numbering), over the streams an
    implementation holds. *)
Class EventStoreLaws (S : Type) `{EventStore S J} := {
  stream : S -> TenantId -> AggregateId -> list (StoredEvent J);
  available : S -> Prop;
  store_ok : S -> Prop;
  stream_wf s t a : store_ok s -> stream_ok t a (stream s t a);
  load_exact s t a st : es_load s t a = Ok st <-> available s /\ st = stream s t a;
  append_empty s v : es_append s [] v = (s, Ok []);
  append_keeps s evs v :
    store_ok s -> store_ok (es_append s evs v).1
    /\ (available (es_append s evs v).1 <-> available s);
  append_committed s evs v s' c t a ty :
    batch_for t a ty evs -> es_append s evs v = (s', Ok c) ->
    available s /\ matches v (current_version (stream s t a)) = true
    /\ type_stable (stream s t a) ty
    /\ c = number_batch (wrapU 64 (current_version (stream s t a) + 1)) evs
    /\ stream s' t a = stream s t a ++ c
    /\ forall t' a', (t', a') <> (t, a) -> stream s' t' a' = stream s t' a';
  append_one_stream s evs v s' c :
    es_append s evs v = (s', Ok c) -> evs <> [] -> exists t a ty, batch_for t a ty evs;
  append_failed s evs v s' e :
    es_append s evs v = (s', Err e) -> forall t a, stream s' t a = stream s t a;
  append_stale s evs v t a ty :
    batch_for t a ty evs -> available s ->
    matches v (current_version (stream s t a)) = false ->
    exists msg, (es_append s evs v).2 = Err (Concurrency msg);
  append_succeeds s evs v t a ty :
    batch_for t a ty evs -> available s ->
    matches v (current_version (stream s t a)) = true -> type_stable (stream s t a) ty ->
    is_ok (es_append s evs v).2 = true
}.

Lemma number_batch_length n evs : length (number_batch n evs) = length evs.
Proof. revert n; induction evs; intros n; simpl; auto. Qed.

Lemma number_batch_lookup n evs i e :
  number_batch n evs !! i = Some e -> is_u64 n ->
  se_sequence_number e = wrapU 64 (n + Z.of_nat i).
Proof.
  revert n i; induction evs as [|u evs IH]; intros n [|i]; simpl; intros H Hn; try done.
  - injection H as <-. simpl. by rewrite Z.add_0_r, wrapU_id.
  - apply IH in H; [|by apply wrapU_range]. rewrite H, wrapU_add_l. f_equal; lia.
Qed.

Lemma stream_version st t a :
  stream_ok t a st -> (Z.of_nat (length st) < 2 ^ 64)%Z ->
  current_version st = Z.of_nat (length st).
Proof.
  intros [_ Hseq] Hlt. unfold current_version.
  destruct st as [|e st _] using rev_ind; [done|]. rewrite last_snoc.
  rewrite length_app in *; simpl in *.
  rewrite (Hseq (length st)); [|by rewrite list_lookup_middle].
  rewrite wrapU_id; ilia.
Qed.

Lemma current_version_wrap st t a :
  stream_ok t a st -> current_version st = wrapU 64 (Z.of_nat (length st)).
Proof.
  intros [_ Hseq]. unfold current_version.
  destruct st as [|e st _] using rev_ind; [done|]. rewrite last_snoc, length_app. simpl.
  rewrite (Hseq (length st)); [|by rewrite list_lookup_middle]. f_equal; lia.
Qed.

(** A numbered batch of the right stream extends a well-formed stream. *)
Lemma stream_ok_app t a ty st evs :
  stream_ok t a st -> type_stable st ty ->
  Forall (fun e => ue_tenant_id e = t /\ ue_aggregate_id e = a
                   /\ ue_aggregate_type e = ty) evs ->
  stream_ok t a (st ++ number_batch (wrapU 64 (current_version st + 1)) evs).
Proof.
  intros Hst Hty Hevs. rewrite (current_version_wrap st t a Hst), wrapU_add_l.
  destruct Hst as [[ty' Hst] Hseq]. split.
  - exists ty. apply Forall_app. split.
    + destruct st as [|e0 st]; [done|]. simpl in Hty. eapply Forall_impl; [exact Hst|].
      apply Forall_cons_1 in Hst as [(_ & _ & He0) _]. intros e (? & ? & ?). split_and!; congruence.
    + clear -Hevs. generalize (wrapU 64 (Z.of_nat (length st) + 1)).
      induction Hevs; intros n; simpl; constructor; auto.
  - intros i e Hi. apply lookup_app_Some in Hi as [Hi|[Hlen Hi]]; [by apply Hseq|].
    apply number_batch_lookup in Hi as ->; [|by apply wrapU_range].
    rewrite wrapU_add_l. f_equal; lia.
Qed.
End Contract.

#[global] Hint Resolve stream_wf : forge.

(** ** The in-memory store *)

(** @src crates/infra/src/event_store/in_memory.rs 9-13 [StreamKey] *)
Record StreamKey := mkStreamKey {
  key_tenant_id : TenantId;
  key_aggregate_id : AggregateId
}.

#[global] Instance StreamKey_eq_dec : EqDecision StreamKey.
Proof. solve_decision. Defined.
#[global] Instance StreamKey_countable : Countable StreamKey.
Proof.
  refine (inj_countable' (fun k => (key_tenant_id k, key_aggregate_id k))
            (fun p => mkStreamKey p.1 p.2) _); by intros [].
Defined.

(** [lock_poisoned] is the state of the [RwLock] around the map.

    @src crates/infra/src/event_store/in_memory.rs 15-21 [InMemoryEventStore] *)
Record InMemoryEventStore (J : Type) := mkInMemoryEventStore {
  streams : gmap StreamKey (list (StoredEvent J));
  lock_poisoned : bool
}.
Arguments mkInMemoryEventStore {J}.
Arguments streams {J}.
Arguments lock_poisoned {J}.

Section InMemory.
Context {J : Type}.
Implicit Types (s : InMemoryEventStore J) (evs : list (UncommittedEvent J)).

(** @src crates/infra/src/event_store/in_memory.rs 23-26 [InMemoryEventStore::new] *)
Definition store_new : InMemoryEventStore J := {| streams := ∅; lock_poisoned := false |}.

Definition idx_msg (what : string) (idx : nat) : string :=
  what +:+ " (index " +:+ pretty (Z.of_nat idx) +:+ ")".

(** @src crates/infra/src/event_store/in_memory.rs 44-65 [InMemoryEventStore::append] *)
Fixpoint check_batch (t : TenantId) (a : AggregateId) (ty : string) (idx : nat)
    (events : list (UncommittedEvent J)) : Result EventStoreError unit :=
  match events with
  | [] => Ok tt
  | e :: rest =>
    if decide (ue_tenant_id e <> t)
    then Err (TenantIsolation (idx_msg "batch contains multiple tenant_ids" idx))
    else if decide (ue_aggregate_id e <> a)
    then Err (InvalidAppend (idx_msg "batch contains multiple aggregate_ids" idx))
    else if decide (ue_aggregate_type e <> ty)
    then Err (AggregateTypeMismatch (idx_msg "batch contains multiple aggregate_types" idx))
    else check_batch t a ty (S idx) rest
  end.

(** [entry(key).or_default()] creates the stream before the two checks that can
    still fail.

    @src crates/infra/src/event_store/in_memory.rs 34-116 [InMemoryEventStore::append] *)
Definition append (self : InMemoryEventStore J) (events : list (UncommittedEvent J))
    (expected_version : ExpectedVersion)
  : InMemoryEventStore J * Result EventStoreError (list (StoredEvent J)) :=
  match events with
  | [] => (self, Ok [])
  | first :: _ =>
    let tenant_id := ue_tenant_id first in
    let aggregate_id := ue_aggregate_id first in
    let aggregate_type := ue_aggregate_type first in
    match check_batch tenant_id aggregate_id aggregate_type 0 events with
    | Err e => (self, Err e)
    | Ok _ =>
      if lock_poisoned self then (self, Err (InvalidAppend "lock poisoned")) else
      let key := {| key_tenant_id := tenant_id; key_aggregate_id := aggregate_id |} in
      let stream := default [] (streams self !! key) in
      let with_stream st := {| streams := <[key := st]> (streams self);
                               lock_poisoned := false |} in
      let current := current_version stream in
      if negb (matches expected_version current)
      then (with_stream stream, Err (Concurrency ("expected " +:+ show_expected expected_version
                                        +:+ ", found " +:+ pretty current)))
      else
        let do_append :=
          let committed := number_batch (wrapU 64 (current + 1)) events in
          (with_stream (stream ++ committed), Ok committed) in
        match stream with
        | existing :: _ =>
          if decide (se_aggregate_type existing <> aggregate_type)
          then (with_stream stream,
                Err (AggregateTypeMismatch ("stream aggregate_type is '"
                  +:+ se_aggregate_type existing +:+ "', attempted append with '"
                  +:+ aggregate_type +:+ "'")))
          else do_append
        | [] => do_append
        end
    end
  end.

(** @src crates/infra/src/event_store/in_memory.rs 118-134 [InMemoryEventStore::load_stream] *)
Definition load_stream (self : InMemoryEventStore J) (tenant_id : TenantId)
    (aggregate_id : AggregateId) : Result EventStoreError (list (StoredEvent J)) :=
  if lock_poisoned self then Err (InvalidAppend "lock poisoned") else
  Ok (default [] (streams self !! {| key_tenant_id := tenant_id;
                                     key_aggregate_id := aggregate_id |})).

(** @src crates/infra/src/event_store/in_memory.rs 33-33 [EventStore for InMemoryEventStore] *)
#[global] Instance InMemoryEventStore_store : EventStore (InMemoryEventStore J) J :=
  {| es_append := append; es_load := load_stream |}.

(** ** The in-memory store keeps the contract *)

Definition mem_stream s (t : TenantId) (a : AggregateId) : list (StoredEvent J) :=
  default [] (streams s !! {| key_tenant_id := t; key_aggregate_id := a |}).

Definition mem_ok s : Prop := forall t a, stream_ok t a (mem_stream s t a).

Lemma store_new_ok : mem_ok store_new.
Proof.
  intros t a. unfold mem_stream. simpl. rewrite lookup_empty. simpl.
  split; [exists ""%string; constructor|]. intros i e. by rewrite lookup_nil.
Qed.

Lemma check_batch_Ok t a ty idx evs :
  check_batch t a ty idx evs = Ok tt
  <-> Forall (fun e => ue_tenant_id e = t /\ ue_aggregate_id e = a
                       /\ ue_aggregate_type e = ty) evs.
Proof.
  revert idx; induction evs as [|e evs IH]; intros idx; simpl; [by split; [constructor|]|].
  rewrite Forall_cons.
  destruct (decide _) as [Ht|Ht%dec_stable]; [intuition congruence|].
  destruct (decide _) as [Ha|Ha%dec_stable]; [intuition congruence|].
  destruct (decide _) as [Hy|Hy%dec_stable]; [intuition congruence|].
  rewrite IH. intuition.
Qed.

Lemma mem_stream_insert s t a st b t' a' :
  mem_stream {| streams := <[{| key_tenant_id := t; key_aggregate_id := a |} := st]>
                             (streams s); lock_poisoned := b |} t' a'
  = if decide ((t', a') = (t, a)) then st else mem_stream s t' a'.
Proof.
  unfold mem_stream. simpl. destruct (decide _) as [[= -> ->]|Hne].
  - by rewrite lookup_insert_eq.
  - by rewrite lookup_insert_ne by congruence.
Qed.

(** What an append does, branch by branch, seen through the streams. *)
Inductive append_outcome s (t : TenantId) (a : AggregateId) (ty : string) evs
    (v : ExpectedVersion) : InMemoryEventStore J * Result EventStoreError (list (StoredEvent J)) -> Prop :=
| Append_committed st' :
    matches v (current_version (mem_stream s t a)) = true ->
    type_stable (mem_stream s t a) ty ->
    let c := number_batch (wrapU 64 (current_version (mem_stream s t a) + 1)) evs in
    st' = mem_stream s t a ++ c ->
    append_outcome s t a ty evs v
      ({| streams := <[{| key_tenant_id := t; key_aggregate_id := a |} := st']> (streams s);
          lock_poisoned := false |}, Ok c)
| Append_stale msg :
    matches v (current_version (mem_stream s t a)) = false ->
    append_outcome s t a ty evs v
      ({| streams := <[{| key_tenant_id := t; key_aggregate_id := a |} := mem_stream s t a]>
                       (streams s); lock_poisoned := false |}, Err (Concurrency msg))
| Append_type_mismatch existing rest :
    matches v (current_version (mem_stream s t a)) = true ->
    mem_stream s t a = existing :: rest -> se_aggregate_type existing <> ty ->
    append_outcome s t a ty evs v
      ({| streams := <[{| key_tenant_id := t; key_aggregate_id := a |} := mem_stream s t a]>
                       (streams s); lock_poisoned := false |},
       Err (AggregateTypeMismatch ("stream aggregate_type is '" +:+ se_aggregate_type existing
              +:+ "', attempted append with '" +:+ ty +:+ "'"))).

Lemma append_cases s t a ty evs v :
  batch_for t a ty evs -> lock_poisoned s = false ->
  append_outcome s t a ty evs v (append s evs v).
Proof.
  intros [Hne Hb] Hp. destruct evs as [|e0 evs]; [done|].
  assert (He0 := Hb). apply Forall_cons_1 in He0 as [(Et & Ea & Ey) _].
  unfold append. rewrite Et, Ea, Ey, (proj2 (check_batch_Ok t a ty 0 _) Hb), Hp.
  fold (mem_stream s t a).
  destruct (matches v _) eqn:Em; simpl negb; cbv iota; [|by constructor].
  destruct (mem_stream s t a) as [|e1 st] eqn:Est.
  - rewrite <- Est. constructor; rewrite ?Est; done.
  - destruct (decide _) as [Hy|Hy%dec_stable].
    + rewrite <- Est. econstructor; rewrite ?Est; done.
    + rewrite <- Est. constructor; rewrite ?Est; done.
Qed.

(** A batch that is not for one stream, or a poisoned lock, changes nothing. *)
Lemma append_rejected s evs v :
  evs <> [] ->
  (lock_poisoned s = true \/ forall t a ty, ~ batch_for t a ty evs) ->
  exists e, append s evs v = (s, Err e).
Proof.
  intros Hne Hr. destruct evs as [|e0 evs]; [done|]. unfold append.
  destruct (check_batch _ _ _ _ _) as [[]|e] eqn:Ec; [|eauto].
  apply check_batch_Ok in Ec. destruct Hr as [->|Hr]; [eauto|].
  exfalso. eapply Hr. split; [done | exact Ec].
Qed.

Lemma batch_dec evs : evs <> [] ->
  (exists t a ty, batch_for t a ty evs) \/ forall t a ty, ~ batch_for t a ty evs.
Proof.
  destruct evs as [|e evs]; [done|]. intros _.
  destruct (check_batch (ue_tenant_id e) (ue_aggregate_id e) (ue_aggregate_type e) 0 (e :: evs))
    as [[]|err] eqn:Ec.
  - apply check_batch_Ok in Ec. left. do 3 eexists. by split.
  - right. intros t a ty [_ Hb]. assert (He := Hb).
    apply Forall_cons_1 in He as [(<- & <- & <-) _].
    apply (check_batch_Ok _ _ _ 0) in Hb. congruence.
Qed.

(** Every append is the empty one, a rejected one, or one of the outcomes. *)
Lemma append_inv s evs v :
  (evs = [] /\ append s evs v = (s, Ok []))
  \/ (evs <> [] /\ exists e, append s evs v = (s, Err e))
  \/ exists t a ty, batch_for t a ty evs /\ lock_poisoned s = false
       /\ append_outcome s t a ty evs v (append s evs v).
Proof.
  destruct (decide (length evs = 0)) as [Hz|Hz].
  { left. by apply nil_length_inv in Hz as ->. }
  right. assert (Hne : evs <> []) by (by intros ->).
  destruct (lock_poisoned s) eqn:Hp; [left; split; [done|]; apply append_rejected; auto|].
  destruct (batch_dec evs Hne) as [(t & a & ty & Hb)|Hb].
  - right. exists t, a, ty. split_and!; try done. by apply append_cases.
  - left. split; [done|]. apply append_rejected; auto.
Qed.

Lemma batch_for_inj t a ty t' a' ty' evs :
  batch_for t a ty evs -> batch_for t' a' ty' evs -> t = t' /\ a = a' /\ ty = ty'.
Proof.
  intros [Hne Hb] [_ Hb']. destruct evs as [|e evs]; [done|].
  apply Forall_cons_1 in Hb as [(? & ? & ?) _].
  apply Forall_cons_1 in Hb' as [(? & ? & ?) _]. split_and!; congruence.
Qed.

(** @src crates/infra/src/event_store/trait.rs 135-178 [EventStore] *)
#[global] Instance InMemoryEventStore_laws : EventStoreLaws (InMemoryEventStore J).
Proof.
  refine {| stream := mem_stream; available s := lock_poisoned s = false;
            store_ok := mem_ok |}; simpl.
  - intros s t a Hok. apply Hok.
  - intros s t a st. unfold load_stream. fold (mem_stream s t a).
    destruct (lock_poisoned s); intuition congruence.
  - done.
  - intros s evs v Hok.
    destruct (append_inv s evs v) as [[_ ->]|[(_ & e & ->)|(t & a & ty & Hb & Hp & Ho)]];
      [done..|]. destruct Ho as [st' Hm Hy c ->|msg Hm|e1 st1 Hm He Hy]; simpl;
      (split; [|by rewrite Hp]); intros t' a'; rewrite mem_stream_insert;
      destruct (decide _) as [[= -> ->]|]; auto.
    destruct Hb. by apply (stream_ok_app _ _ ty).
  - intros s evs v s' c t a ty Hb H.
    destruct (append_inv s evs v) as [[-> _]|[(_ & e & E)|(t' & a' & ty' & Hb' & Hp & Ho)]];
      [by destruct Hb | congruence |].
    destruct (batch_for_inj _ _ _ _ _ _ _ Hb Hb') as (<- & <- & <-). rewrite H in Ho.
    inversion Ho; subst. split_and!; try done.
    + rewrite mem_stream_insert. by rewrite decide_True.
    + intros t' a' Hne. rewrite mem_stream_insert. by rewrite decide_False.
  - intros s evs v s' c H Hne.
    destruct (append_inv s evs v) as [[-> _]|[(_ & e & E)|(t & a & ty & Hb & _)]];
      [done | congruence | eauto].
  - intros s evs v s' e H t a.
    destruct (append_inv s evs v) as [[_ E]|[(_ & e' & E)|(t' & a' & ty & _ & _ & Ho)]];
      [congruence | congruence |].
    rewrite H in Ho. inversion Ho; subst; rewrite mem_stream_insert;
      by destruct (decide _) as [[= -> ->]|].
  - intros s evs v t a ty Hb Hp Hm. pose proof (append_cases s t a ty evs v Hb Hp) as Ho.
    destruct Ho; simpl; [congruence | eauto | congruence].
  - intros s evs v t a ty Hb Hp Hm Hy. pose proof (append_cases s t a ty evs v Hb Hp) as Ho.
    destruct Ho as [| |e1 st1 _ He Hne]; simpl; [done | congruence |]. by rewrite He in Hy.
Defined.
End InMemory.

(** ** Consequences of the contract, for every implementation *)
Section Laws.
Context {J S : Type} `{HL : EventStoreLaws J S}.

(** Every stream only grows at its end. *)
Definition extends (s s' : S) : Prop := forall t a, stream s t a `prefix_of` stream s' t a.

#[global] Instance extends_preorder : PreOrder extends.
Proof.
  split; [by intros s t a|]. intros s1 s2 s3 H12 H23 t a.
  exact (transitivity (H12 t a) (H23 t a)).
Qed.

Lemma append_extends s evs v : extends s (es_append s evs v).1.
Proof.
  destruct (es_append s evs v) as [s' [c|e]] eqn:E; intros t a; simpl.
  - destruct (decide (length evs = 0)) as [Hz|Hz].
    { apply nil_length_inv in Hz as ->. rewrite append_empty in E. by injection E as <- <-. }
    destruct (append_one_stream _ _ _ _ _ E) as (t0 & a0 & ty & Hb); [by intros ->|].
    destruct (append_committed _ _ _ _ _ _ _ _ Hb E) as (_ & _ & _ & _ & Hst & Ho).
    destruct (decide ((t, a) = (t0, a0))) as [[= -> ->]|Hne].
    + rewrite Hst. by apply prefix_app_r.
    + by rewrite Ho.
  - by rewrite (append_failed _ _ _ _ _ E).
Qed.

(** Two histories of a stream with the same version are the same history, below
    the width of the counter. *)
Lemma same_version_same_stream s s' t a :
  store_ok s -> store_ok s' -> extends s s' ->
  (Z.of_nat (length (stream s' t a)) < 2 ^ 64)%Z ->
  current_version (stream s t a) = current_version (stream s' t a) ->
  stream s t a = stream s' t a.
Proof.
  intros Hs Hs' He Hlt Hv. pose proof (He t a) as Hp. pose proof (prefix_length _ _ Hp).
  rewrite (stream_version _ t a), (stream_version _ t a) in Hv by (auto with forge; lia).
  apply prefix_length_eq; [done | lia].
Qed.
End Laws.

(** ** Publishing after a successful append *)
Section Publishing.
Context {B J : Type} `{HB : EventBus B (EventEnvelope J)}.

(** The loop over the committed events; it stops at the first failure.

    @src crates/infra/src/event_store/mod.rs 87-92 [PublishingEventStore::append] *)
Fixpoint publish_all (bus : B) (committed : list (StoredEvent J))
  : B * Result BusError unit :=
  match committed with
  | [] => (bus, Ok tt)
  | e :: rest =>
    match bus_publish bus (to_envelope e) with
    | (bus', Ok _) => publish_all bus' rest
    | (bus', Err err) => (bus', Err err)
    end
  end.

(** @src crates/infra/src/event_store/mod.rs 58-70 [PublishingEventStore] *)
Record PublishingEventStore (S : Type) := mkPublishing { pub_store : S; pub_bus : B }.
Arguments mkPublishing {S}.
Arguments pub_store {S}.
Arguments pub_bus {S}.

(** @src crates/infra/src/event_store/mod.rs 72-103 [EventStore for PublishingEventStore] *)
#[global] Instance PublishingEventStore_store {S} `{EventStore S J}
  : EventStore (PublishingEventStore S) J :=
  {| es_append self events expected_version :=
       let '(s', r) := es_append (pub_store self) events expected_version in
       match r with
       | Err e => (mkPublishing s' (pub_bus self), Err e)
       | Ok committed =>
         let '(b', rb) := publish_all (pub_bus self) committed in
         (mkPublishing s' b',
          match rb with Err err => Err (Publish (bus_debug err)) | Ok _ => Ok committed end)
       end;
     es_load self := es_load (pub_store self) |}.

(** The bus after the loop is the bus with a prefix of the batch published, all
    of it when the loop succeeds. *)
Definition publish_list (bus : B) (l : list (StoredEvent J)) : B :=
  foldl (fun b e => (bus_publish b (to_envelope e)).1) bus l.

Lemma publish_all_prefix bus l :
  exists k, (publish_all bus l).1 = publish_list bus (take k l)
    /\ ((publish_all bus l).2 = Ok tt -> k = length l).
Proof.
  revert bus; induction l as [|e l IH]; intros bus; [by exists 0|]. simpl.
  destruct (bus_publish bus (to_envelope e)) as [bus' [[]|err]] eqn:E.
  - destruct (IH bus') as (k & Hk & Hl). exists (Datatypes.S k). simpl. rewrite E, Hk. simpl.
    split; [done|]. intros. f_equal. auto.
  - exists 1. split; [|done]. unfold publish_list. simpl. by rewrite E.
Qed.
End Publishing.

(** ** Property *)

(** The store after a sequence of appends. *)
Definition append_run {J} (s : InMemoryEventStore J)
    (ops : list (list (UncommittedEvent J) * ExpectedVersion)) : InMemoryEventStore J :=
  foldl (fun s op => (append s op.1 op.2).1) s ops.

Lemma mem_append_keeps {J} (s : InMemoryEventStore J) evs v :
  mem_ok s -> mem_ok (append s evs v).1
              /\ (lock_poisoned (append s evs v).1 = false <-> lock_poisoned s = false).
Proof. exact (@append_keeps J _ _ InMemoryEventStore_laws s evs v). Qed.

Lemma append_run_ok {J} (ops : list (list (UncommittedEvent J) * ExpectedVersion)) :
  mem_ok (append_run store_new ops) /\ lock_poisoned (append_run store_new ops) = false.
Proof.
  assert (H : mem_ok (J:=J) store_new /\ lock_poisoned (J:=J) store_new = false)
    by (split; [apply store_new_ok | done]).
  revert H. generalize (store_new (J:=J)). induction ops as [|[evs v] ops IH]; intros s [Hok Hp]; [done|].
  apply IH. destruct (mem_append_keeps s evs v Hok). simpl. tauto.
Qed.

(** C7: the in-memory store: on every store a sequence of appends reaches, an
    append of a batch for one stream commits exactly when the expected version
    is the stream's and the stream has the batch's aggregate type; a commit adds
    the whole batch at the end of that stream, numbered on from its version, and
    a failure adds nothing; no other stream of any tenant changes; and every
    stream is owned by its key and numbered 1, 2, 3, ... (modulo 2^64). *)
Theorem in_memory_append_exact {J} (ops : list (list (UncommittedEvent J) * ExpectedVersion))
    (evs : list (UncommittedEvent J)) (v : ExpectedVersion) t a ty :
  batch_for t a ty evs ->
  let s := append_run store_new ops in
  let '(s', r) := append s evs v in
  let st := mem_stream s t a in
  (is_ok r = true <-> matches v (current_version st) = true /\ type_stable st ty)
  /\ mem_stream s' t a
     = st ++ match r with
             | Ok _ => number_batch (wrapU 64 (Z.of_nat (length st) + 1)) evs
             | Err _ => [] end
  /\ (forall t' a', (t', a') <> (t, a) -> mem_stream s' t' a' = mem_stream s t' a')
  /\ forall t' a', stream_ok t' a' (mem_stream s' t' a').
Proof.
  intros Hb s. destruct (append_run_ok ops) as [Hok Hp]. fold s in Hok, Hp.
  destruct (append s evs v) as [s' r] eqn:E. cbv zeta.
  assert (Hok' : mem_ok s') by
    (replace s' with (append s evs v).1 by (by rewrite E); by apply mem_append_keeps).
  destruct r as [c|e].
  - destruct (@append_committed J _ _ InMemoryEventStore_laws s evs v s' c t a ty Hb E) as (_ & Hm & Hy & Hc & Hst & Ho).
    simpl in *. rewrite Hst, Hc, (current_version_wrap _ t a (Hok t a)), wrapU_add_l.
    split_and!; try done. rewrite (current_version_wrap _ t a (Hok t a)) in Hm. done.
  - pose proof (@append_failed J _ _ InMemoryEventStore_laws s evs v s' e E) as Hst. simpl in Hst.
    split; [|split; [by rewrite app_nil_r, Hst|split; [auto | auto]]].
    split; [done|]. intros [Hm Hy].
    pose proof (@append_succeeds J _ _ InMemoryEventStore_laws s evs v t a ty Hb Hp Hm Hy) as Hr. simpl in Hr.
    by rewrite E in Hr.
Qed.

Definition sample_uncommitted : UncommittedEvent unit :=
  {| ue_event_id := 7%N; ue_tenant_id := mkTenantId 1; ue_aggregate_id := mkAggregateId 2;
     ue_aggregate_type := "inventory.item"; ue_event_type := "inventory.item.created";
     ue_event_version := 1; ue_occurred_at := 0; ue_payload := tt |}.

Lemma in_memory_append_exact_witness :
  let s := append_run store_new [([sample_uncommitted], Exact 0)] in
  mem_stream (append s [sample_uncommitted; sample_uncommitted] (Exact 1)).1
    (mkTenantId 1) (mkAggregateId 2)
  = map (fun n => store_event n sample_uncommitted) [1; 2; 3]%Z.
Proof.
  intros s.
  pose proof (in_memory_append_exact [([sample_uncommitted], Exact 0)]
    [sample_uncommitted; sample_uncommitted] (Exact 1) (mkTenantId 1) (mkAggregateId 2)
    "inventory.item" ltac:(split; [done | by repeat constructor])) as (_ & H & _).
  exact H.
Defined.
