(* ===== verification/EventQuery.v ===== *)
(** * Event queries: [crates/infra/src/event_store/query.rs] and the query half
    of [in_memory.rs]

    Filters, pagination and the three queries.  A query walks a [HashMap], in an
    order the language leaves open: [order] is that order, an argument, with the
    permutation it is of the map's entries as a hypothesis.  [offset + limit] is
    a [u32] addition and wraps. *)

From S2P Require Import Prelude Core Events Bus EventStore.

(** @src crates/infra/src/event_store/query.rs 12-19 [Pagination] *)
Record Pagination := mkPagination { limit : Z; offset : Z }.

(** @src crates/infra/src/event_store/query.rs 21-28 [Pagination::default] *)
Definition pagination_default : Pagination := {| limit := 50; offset := 0 |}.

(** @src crates/infra/src/event_store/query.rs 30-37 [Pagination::new] *)
Definition pagination_new (l o : option Z) : Pagination :=
  {| limit := Z.min (unwrap_or l 50%Z) 1000; offset := unwrap_or o 0%Z |}.

(** @src crates/infra/src/event_store/query.rs 39-52 [EventFilter] *)
Record EventFilter := mkEventFilter {
  flt_aggregate_id : option AggregateId;
  flt_aggregate_type : option string;
  flt_event_type : option string;
  flt_occurred_after : option DateTime;
  flt_occurred_before : option DateTime
}.

(** @src crates/infra/src/event_store/query.rs 54-64 [EventFilter::default] *)
Definition filter_default : EventFilter :=
  {| flt_aggregate_id := None; flt_aggregate_type := None; flt_event_type := None;
     flt_occurred_after := None; flt_occurred_before := None |}.

(** @src crates/infra/src/event_store/query.rs 66-77 [EventQueryResult] *)
Record EventQueryResult (J : Type) := mkEventQueryResult {
  qr_events : list (StoredEvent J);
  qr_total : Z;
  qr_pagination : Pagination;
  qr_has_more : bool
}.
Arguments mkEventQueryResult {J}.
Arguments qr_events {J}.
Arguments qr_total {J}.
Arguments qr_pagination {J}.
Arguments qr_has_more {J}.

Section Query.
Context {J : Type}.

(** @src crates/infra/src/event_store/in_memory.rs 164-191 [InMemoryEventStore::query_events] *)
Definition event_matches (filter : EventFilter) (e : StoredEvent J) : bool :=
  match flt_aggregate_id filter with
  | Some agg_id => bool_decide (se_aggregate_id e = agg_id) | None => true end
  && match flt_aggregate_type filter with
     | Some agg_type => bool_decide (se_aggregate_type e = agg_type) | None => true end
  && match flt_event_type filter with
     | Some evt_type => bool_decide (se_event_type e = evt_type) | None => true end
  && match flt_occurred_after filter with
     | Some after => negb (bool_decide (se_occurred_at e < after)%Z) | None => true end
  && match flt_occurred_before filter with
     | Some before => negb (bool_decide (se_occurred_at e > before)%Z) | None => true end.

(** Descending time, then ascending sequence number.

    @src crates/infra/src/event_store/in_memory.rs 193-199 [InMemoryEventStore::query_events] *)
Definition newest_first (a b : StoredEvent J) : bool :=
  match (se_occurred_at b ?= se_occurred_at a)%Z with
  | Eq => (se_sequence_number a <=? se_sequence_number b)%Z
  | Lt => true
  | Gt => false
  end.

(** [skip(offset).take(limit)] and the [has_more] test over a full result.

    @src crates/infra/src/event_store/in_memory.rs 201-216 [InMemoryEventStore::query_events] *)
Definition page_of (all : list (StoredEvent J)) (pagination : Pagination)
  : EventQueryResult J :=
  let total := Z.of_nat (length all) in
  {| qr_events := take (Z.to_nat (limit pagination)) (drop (Z.to_nat (offset pagination)) all);
     qr_total := total;
     qr_pagination := pagination;
     qr_has_more := bool_decide (total > wrapU 32 (offset pagination + limit pagination))%Z |}.

(** @src crates/infra/src/event_store/in_memory.rs 155-161 [InMemoryEventStore::query_events] *)
Definition tenant_events (tenant_id : TenantId)
    (entries : list (StreamKey * list (StoredEvent J))) : list (StoredEvent J) :=
  concat (map snd (List.filter (fun p => bool_decide (key_tenant_id p.1 = tenant_id)) entries)).

(** [order] lists the entries of the cloned map in its iteration order.

    @src crates/infra/src/event_store/in_memory.rs 139-217 [InMemoryEventStore::query_events] *)
Definition query_events
    (order : gmap StreamKey (list (StoredEvent J)) -> list (StreamKey * list (StoredEvent J)))
    (self : InMemoryEventStore J) (tenant_id : TenantId) (filter : EventFilter)
    (pagination : Pagination) : Result EventStoreError (EventQueryResult J) :=
  if lock_poisoned self then Err (InvalidAppend "lock poisoned") else
  let all_events := tenant_events tenant_id (order (streams self)) in
  let filtered := List.filter (event_matches filter) all_events in
  Ok (page_of (sort_by newest_first filtered) pagination).

(** The stream in sequence order.

    @src crates/infra/src/event_store/in_memory.rs 219-246 [InMemoryEventStore::get_aggregate_events] *)
Definition get_aggregate_events (self : InMemoryEventStore J) (tenant_id : TenantId)
    (aggregate_id : AggregateId) (pagination : option Pagination)
  : Result EventStoreError (EventQueryResult J) :=
  match load_stream self tenant_id aggregate_id with
  | Err e => Err e
  | Ok all_events => Ok (page_of all_events (unwrap_or pagination pagination_default))
  end.

(** @src crates/infra/src/event_store/in_memory.rs 248-270 [InMemoryEventStore::get_event_by_id] *)
Definition get_event_by_id
    (order : gmap StreamKey (list (StoredEvent J)) -> list (StreamKey * list (StoredEvent J)))
    (self : InMemoryEventStore J) (tenant_id : TenantId) (event_id : Uuid)
  : Result EventStoreError (option (StoredEvent J)) :=
  if lock_poisoned self then Err (InvalidAppend "lock poisoned") else
  Ok (List.find (fun e => bool_decide (se_event_id e = event_id))
        (tenant_events tenant_id (order (streams self)))).

(** ** Order and membership *)

Lemma newest_first_total a b : newest_first a b = true \/ newest_first b a = true.
Proof.
  unfold newest_first. rewrite (Z.compare_antisym (se_occurred_at b)).
  destruct (Z.compare_spec (se_occurred_at b) (se_occurred_at a)); simpl; auto.
  rewrite !Z.leb_le. lia.
Qed.

Lemma newest_first_le a b :
  newest_first a b = true
  <-> (se_occurred_at b < se_occurred_at a)%Z
      \/ (se_occurred_at b = se_occurred_at a
          /\ (se_sequence_number a <= se_sequence_number b)%Z).
Proof.
  unfold newest_first.
  destruct (Z.compare_spec (se_occurred_at b) (se_occurred_at a));
    rewrite ?Z.leb_le; intuition (congruence || lia).
Qed.

Lemma newest_first_trans a b c :
  newest_first a b = true -> newest_first b c = true -> newest_first a c = true.
Proof. rewrite !newest_first_le. lia. Qed.

Lemma tenant_events_elem t entries e :
  e ∈ tenant_events t entries
  <-> exists k st, (k, st) ∈ entries /\ key_tenant_id k = t /\ e ∈ st.
Proof.
  unfold tenant_events. rewrite list_elem_of_In, in_concat. split.
  - intros (st & Hst & He). apply in_map_iff in Hst as ([k st'] & <- & Hf).
    apply filter_In in Hf as [Hin Ht]. exists k, st'. simpl in Ht.
    apply bool_decide_eq_true_1 in Ht. by rewrite !list_elem_of_In.
  - intros (k & st & Hin & Ht & He). exists st. apply list_elem_of_In in Hin, He.
    split; [|done]. apply in_map_iff. exists (k, st). split; [done|].
    apply filter_In. split; [done|]. by apply bool_decide_eq_true_2.
Qed.
End Query.

Section QueryTheory.
Context {J : Type}.
Implicit Types (all : list (StoredEvent J)).

(** Reading pages of size [l] one after the other is reading the list. *)
Lemma pages_concat all l n :
  (0 <= l)%Z ->
  concat (map (fun i => qr_events (page_of all {| limit := l; offset := Z.of_nat i * l |}))
              (seq 0 n))
  = take (n * Z.to_nat l) all.
Proof.
  intros Hl. induction n as [|n IH]; [done|].
  rewrite seq_S, map_app, concat_app, IH. simpl. rewrite app_nil_r.
  replace (Z.to_nat (Z.of_nat n * l)) with (n * Z.to_nat l) by nia.
  rewrite take_take_drop. f_equal. lia.
Qed.

(** C37: queries: the pages a tenant reads with a filter, one after the other,
    are the tenant's events that satisfy the filter, each as often as it is
    stored, sorted from the newest to the oldest and, at equal times, by
    sequence number.  Each page is the cut its pagination asks for and repeats
    that pagination, its [total] counts all the events, and its [has_more] tells
    exactly whether it ends before the last of them, as long as the [u32] sum
    [offset + limit] does not overflow. *)
Theorem query_pages_exact
    (order : gmap StreamKey (list (StoredEvent J)) -> list (StreamKey * list (StoredEvent J)))
    (self : InMemoryEventStore J) (t : TenantId) (f : EventFilter) :
  (forall m, order m ≡ₚ map_to_list m) -> lock_poisoned self = false ->
  exists all,
    StronglySorted (fun a b => newest_first a b = true) all
    /\ all ≡ₚ List.filter (event_matches f) (tenant_events t (map_to_list (streams self)))
    /\ (forall p, exists page, query_events order self t f p = Ok page
        /\ page = page_of all p
        /\ qr_events page = take (Z.to_nat (limit p)) (drop (Z.to_nat (offset p)) all)
        /\ qr_total page = Z.of_nat (length all) /\ qr_pagination page = p)
    /\ (forall l n, (0 <= l)%Z -> length all <= n * Z.to_nat l ->
        concat (map (fun i => qr_events (page_of all {| limit := l; offset := Z.of_nat i * l |}))
                    (seq 0 n)) = all)
    /\ (forall p, is_u32 (offset p + limit p) ->
        qr_has_more (page_of all p) = true
        <-> (offset p + limit p < Z.of_nat (length all))%Z).
Proof.
  intros Hord Hp.
  exists (sort_by newest_first
       (List.filter (event_matches f) (tenant_events t (order (streams self))))).
  split_and!.
  - apply sort_by_sorted; [apply newest_first_total | apply newest_first_trans].
  - rewrite sort_by_perm. unfold tenant_events. by rewrite Hord.
  - intros p. eexists. split; [unfold query_events; by rewrite Hp | by split_and!].
  - intros l n Hl Hn. rewrite pages_concat by done. by apply take_ge.
  - intros p Hu. unfold page_of; simpl. rewrite wrapU_id, bool_decide_eq_true by done. lia.
Qed.
End QueryTheory.

(** ** The interface *)

(** What a store answers to the inspection routes.

    @src crates/infra/src/event_store/query.rs 84-123 [EventQuery] *)
Class EventQueries (S J : Type) := {
  q_events : S -> TenantId -> EventFilter -> Pagination
             -> Result EventStoreError (EventQueryResult J);
  q_aggregate : S -> TenantId -> AggregateId -> option Pagination
                -> Result EventStoreError (EventQueryResult J);
  q_event : S -> TenantId -> Uuid -> Result EventStoreError (option (StoredEvent J))
}.

(** "All queries are tenant-scoped": what is returned is the tenant's. *)
Class EventQueriesLaws (S J : Type) `{HS : EventStore S J} `{!EventStoreLaws S} `{!EventQueries S J} : Prop := {
  q_events_scoped s t f p r :
    store_ok s -> q_events s t f p = Ok r -> Forall (fun e => se_tenant_id e = t) (qr_events r);
  q_aggregate_scoped s t a p r :
    store_ok s -> q_aggregate s t a p = Ok r ->
    Forall (fun e => se_tenant_id e = t) (qr_events r);
  q_event_scoped s t i e :
    store_ok s -> q_event s t i = Ok (Some e) -> se_tenant_id e = t
}.

(** The in-memory store's queries; [order] enumerates its map. *)
Class StreamOrder (J : Type) := {
  stream_order : gmap StreamKey (list (StoredEvent J)) -> list (StreamKey * list (StoredEvent J));
  stream_order_perm m : stream_order m ≡ₚ map_to_list m
}.

#[global] Instance in_memory_queries {J} `{StreamOrder J} : EventQueries (InMemoryEventStore J) J := {|
  q_events := query_events stream_order;
  q_aggregate := get_aggregate_events;
  q_event := get_event_by_id stream_order
|}.

Lemma page_scoped {J} (P : StoredEvent J -> Prop) all p :
  Forall P all -> Forall P (qr_events (page_of all p)).
Proof. intros H. by apply Forall_take, Forall_drop. Qed.

Lemma tenant_events_scoped {J} `{StreamOrder J} (s : InMemoryEventStore J) t :
  mem_ok s -> Forall (fun e => se_tenant_id e = t) (tenant_events t (stream_order (streams s))).
Proof.
  intros Hok. apply Forall_forall. intros e. rewrite tenant_events_elem.
  intros ([t' a] & st & Hk & <- & He). rewrite stream_order_perm, elem_of_map_to_list in Hk.
  simpl. specialize (Hok t' a). unfold mem_stream in Hok. rewrite Hk in Hok. simpl in Hok.
  destruct Hok as [[ty Hown] _]. rewrite Forall_forall in Hown. by apply Hown in He as (? & _).
Qed.

#[global] Instance in_memory_queries_laws {J} `{StreamOrder J} :
  EventQueriesLaws (InMemoryEventStore J) J.
Proof.
  constructor.
  - intros s t f p r Hok. simpl. unfold query_events. destruct (lock_poisoned s); [done|].
    intros [= <-]. apply page_scoped. rewrite sort_by_perm.
    apply Forall_forall. intros e. rewrite list_elem_of_In, filter_In, <- list_elem_of_In.
    intros [He _]. by apply (proj1 (Forall_forall _ _) (tenant_events_scoped s t Hok)).
  - intros s t a p r Hok. simpl. unfold get_aggregate_events.
    unfold load_stream. fold (mem_stream s t a). destruct (lock_poisoned s); [done|].
    intros [= <-]. apply page_scoped. destruct (Hok t a) as [[ty Hown] _].
    eapply Forall_impl; [exact Hown|]. by intros e (? & _).
  - intros s t i e Hok. simpl. unfold get_event_by_id. destruct (lock_poisoned s); [done|].
    intros [= Hf]. apply List.find_some in Hf as [Hin _]. apply list_elem_of_In in Hin.
    by apply (proj1 (Forall_forall _ _) (tenant_events_scoped s t Hok)).
Qed.

Definition sample_store : InMemoryEventStore unit :=
  append_run store_new [([sample_uncommitted; sample_uncommitted], Exact 0)].

Lemma query_pages_exact_witness :
  exists all : list (StoredEvent unit), length all = 2
    /\ query_events map_to_list sample_store (mkTenantId 1) filter_default pagination_default
       = Ok (page_of all pagination_default).
Proof.
  destruct (query_pages_exact map_to_list sample_store (mkTenantId 1) filter_default)
    as (all & _ & Hp & Hq & _); [done | reflexivity |].
  exists all. split; [|by destruct (Hq pagination_default) as (page & -> & -> & _)]. apply Permutation_length in Hp. rewrite Hp. reflexivity.
Defined.
