(* ===== verification/Dispatcher.v ===== *)
(** * Command execution: [crates/infra/src/command_dispatcher.rs]

    [dispatch]: load the stream, check it, rehydrate the aggregate, decide,
    append with the loaded version as expectation, publish what was committed.
    The dispatcher is generic in the aggregate, the store and the bus; so are the
    theorems, which use the store's contract ([EventStoreLaws]) and the
    aggregate's laws ([AggregateLaws]).

    [Uuid::now_v7()] is the argument [new_id], the identifier drawn for the i-th
    decided event. *)

From S2P Require Import Prelude Core Events Bus EventStore.
From S2P Require Inventory.
From stdpp Require Import relations.

(** @src crates/infra/src/command_dispatcher.rs 59-80 [DispatchError] *)
Inductive DispatchError : Type :=
| DConcurrency (msg : string)
| DTenantIsolation (msg : string)
| DValidation (msg : string)
| DInvariantViolation (msg : string)
| DUnauthorized
| DNotFound
| DDeserialize (msg : string)
| DStore (e : EventStoreError)
| DPublish (msg : string).

(** @src crates/infra/src/command_dispatcher.rs 82-90 [From<EventStoreError> for DispatchError] *)
Definition from_store_error (value : EventStoreError) : DispatchError :=
  match value with
  | Concurrency msg => DConcurrency msg
  | TenantIsolation msg => DTenantIsolation msg
  | _ => DStore value
  end.

(** @src crates/infra/src/command_dispatcher.rs 92-103 [From<DomainError> for DispatchError] *)
Definition from_domain_error (value : DomainError) : DispatchError :=
  match value with
  | Validation msg => DValidation msg
  | InvariantViolation msg => DInvariantViolation msg
  | Conflict msg => DConcurrency msg
  | Unauthorized => DUnauthorized
  | NotFound => DNotFound
  | InvalidId msg => DValidation msg
  end.

Section Dispatch.
Context {A C E J S B : Type}.
Context `{HA : Aggregate A C E} `{HE : Event E} `{HJ : Serde E J}.
Context `{HS : EventStore S J} `{HB : EventBus B (EventEnvelope J)}.

(** @src crates/infra/src/command_dispatcher.rs 152-156 [CommandDispatcher] *)
Record CommandDispatcher := mkDispatcher { d_store : S; d_bus : B }.

(** The loop over the loaded events; [last] is the previous sequence number.

    @src crates/infra/src/command_dispatcher.rs 284-317 [validate_loaded_stream] *)
Fixpoint validate_loaded_stream (tenant_id : TenantId) (aggregate_id : AggregateId)
    (idx : nat) (last : Z) (stream : list (StoredEvent J)) : Result DispatchError unit :=
  match stream with
  | [] => Ok tt
  | e :: rest =>
    if decide (se_tenant_id e <> tenant_id)
    then Err (DTenantIsolation ("loaded stream contains wrong tenant_id at index "
                                +:+ pretty (Z.of_nat idx)))
    else if decide (se_aggregate_id e <> aggregate_id)
    then Err (DTenantIsolation ("loaded stream contains wrong aggregate_id at index "
                                +:+ pretty (Z.of_nat idx)))
    else if decide (se_sequence_number e = 0%Z)
    then Err (DStore (InvalidAppend "stored event has sequence_number=0"))
    else if decide (se_sequence_number e <= last)%Z
    then Err (DStore (InvalidAppend ("non-monotonic sequence_number in loaded stream (last="
                +:+ pretty last +:+ ", found=" +:+ pretty (se_sequence_number e) +:+ ")")))
    else validate_loaded_stream tenant_id aggregate_id (Datatypes.S idx)
           (se_sequence_number e) rest
  end.

Definition by_sequence (a b : StoredEvent J) : bool :=
  (se_sequence_number a <=? se_sequence_number b)%Z.

(** @src crates/infra/src/command_dispatcher.rs 328-332 [apply_history] *)
Definition apply_stored (aggregate : A) (stored : StoredEvent J) : Result DispatchError A :=
  match from_value (se_payload stored) with
  | Ok ev => Ok (agg_apply aggregate ev)
  | Err e => Err (DDeserialize e)
  end.

(** @src crates/infra/src/command_dispatcher.rs 319-335 [apply_history] *)
Definition apply_history (aggregate : A) (history : list (StoredEvent J))
  : Result DispatchError A :=
  try_fold apply_stored aggregate (sort_by by_sequence history).

(** [decided.iter().map(..).collect::<Result<Vec<_>, _>>()].

    @src crates/infra/src/command_dispatcher.rs 251-264 [CommandDispatcher::dispatch] *)
Fixpoint to_uncommitted (t : TenantId) (a : AggregateId) (ty : string)
    (new_id : nat -> Uuid) (i : nat) (decided : list E)
  : Result EventStoreError (list (UncommittedEvent J)) :=
  match decided with
  | [] => Ok []
  | ev :: rest =>
    match from_typed t a ty (new_id i) ev with
    | Err e => Err e
    | Ok u =>
      match to_uncommitted t a ty new_id (Datatypes.S i) rest with
      | Err e => Err e
      | Ok us => Ok (u :: us)
      end
    end
  end.

(** The first four steps, which do not change the store: what is to be appended
    and the version it is appended to; [None] when nothing was decided.

    @src crates/infra/src/command_dispatcher.rs 237-264 [CommandDispatcher::dispatch] *)
Definition decide_events (store : S) (tenant_id : TenantId) (aggregate_id : AggregateId)
    (aggregate_type : string) (command : C) (make_aggregate : TenantId -> AggregateId -> A)
    (new_id : nat -> Uuid)
  : Result DispatchError (option (list (UncommittedEvent J) * ExpectedVersion)) :=
  history ← map_err from_store_error (es_load store tenant_id aggregate_id);
  _ ← validate_loaded_stream tenant_id aggregate_id 0 0 history;
  let expected := Exact (current_version history) in
  aggregate ← apply_history (make_aggregate tenant_id aggregate_id) history;
  decided ← map_err from_domain_error (agg_handle aggregate command);
  match decided with
  | [] => Ok None
  | _ =>
    uncommitted ← map_err from_store_error
      (to_uncommitted tenant_id aggregate_id aggregate_type new_id 0 decided);
    Ok (Some (uncommitted, expected))
  end.

(** The last two steps.

    @src crates/infra/src/command_dispatcher.rs 266-275 [CommandDispatcher::dispatch] *)
Definition commit_events (self : CommandDispatcher) (uncommitted : list (UncommittedEvent J))
    (expected : ExpectedVersion)
  : CommandDispatcher * Result DispatchError (list (StoredEvent J)) :=
  match es_append (d_store self) uncommitted expected with
  | (s', Err e) => (mkDispatcher s' (d_bus self), Err (from_store_error e))
  | (s', Ok committed) =>
    let '(b', rb) := publish_all (d_bus self) committed in
    (mkDispatcher s' b',
     match rb with Err err => Err (DPublish (bus_debug err)) | Ok _ => Ok committed end)
  end.

(** @src crates/infra/src/command_dispatcher.rs 225-277 [CommandDispatcher::dispatch] *)
Definition dispatch (self : CommandDispatcher) (tenant_id : TenantId)
    (aggregate_id : AggregateId) (aggregate_type : string) (command : C)
    (make_aggregate : TenantId -> AggregateId -> A) (new_id : nat -> Uuid)
  : CommandDispatcher * Result DispatchError (list (StoredEvent J)) :=
  match decide_events (d_store self) tenant_id aggregate_id aggregate_type command
          make_aggregate new_id with
  | Err e => (self, Err e)
  | Ok None => (self, Ok [])
  | Ok (Some (uncommitted, expected)) => commit_events self uncommitted expected
  end.

(** ** Steps of the pipeline *)

(** The typed history a stream holds. *)
Definition decodes (st : list (StoredEvent J)) (es : list E) : Prop :=
  Forall2 (fun se e => from_value (se_payload se) = Ok e) st es.

Lemma validate_owned t a (st : list (StoredEvent J)) : forall idx,
  (forall i e, st !! i = Some e -> se_tenant_id e = t /\ se_aggregate_id e = a
     /\ se_sequence_number e = (Z.of_nat (idx + i) + 1)%Z) ->
  validate_loaded_stream t a idx (Z.of_nat idx) st = Ok tt.
Proof.
  induction st as [|e st IH]; intros idx Hst; simpl; [done|].
  destruct (Hst 0 e eq_refl) as (Ht & Ha & Hs).
  rewrite Nat.add_0_r in Hs.
  rewrite decide_False by (by intros []). rewrite decide_False by (by intros []).
  rewrite decide_False by lia. rewrite decide_False by lia.
  replace (se_sequence_number e) with (Z.of_nat (Datatypes.S idx)) by lia.
  apply IH. intros i e' Hi. destruct (Hst (Datatypes.S i) e' Hi) as (? & ? & Hs').
  split_and!; try done. lia.
Qed.

Lemma stream_ok_lookup t a (st : list (StoredEvent J)) i e :
  stream_ok t a st -> (Z.of_nat (length st) < 2 ^ 64)%Z -> st !! i = Some e ->
  se_tenant_id e = t /\ se_aggregate_id e = a /\ se_sequence_number e = (Z.of_nat i + 1)%Z.
Proof.
  intros [[ty Hown] Hseq] Hlt Hi. pose proof (lookup_lt_Some _ _ _ Hi).
  rewrite Forall_lookup in Hown. destruct (Hown i e Hi) as (? & ? & _). split_and!; try done.
  rewrite (Hseq i e Hi). apply wrapU_id. ilia.
Qed.

Lemma validate_ok t a (st : list (StoredEvent J)) :
  stream_ok t a st -> (Z.of_nat (length st) < 2 ^ 64)%Z ->
  validate_loaded_stream t a 0 0 st = Ok tt.
Proof.
  intros Hok Hlt. apply (validate_owned t a st 0). intros i e Hi. simpl.
  by apply (stream_ok_lookup t a st).
Qed.

Lemma sort_ok t a (st : list (StoredEvent J)) :
  stream_ok t a st -> (Z.of_nat (length st) < 2 ^ 64)%Z -> sort_by by_sequence st = st.
Proof.
  intros Hok Hlt. apply sort_by_sorted_id, sorted_by_lookup. intros i j e e' Hij Hi Hj.
  apply (stream_ok_lookup t a) in Hi as (_ & _ & Hi); [|done..].
  apply (stream_ok_lookup t a) in Hj as (_ & _ & Hj); [|done..].
  apply Z.leb_le. lia.
Qed.

Lemma apply_stored_all st es aggregate :
  decodes st es -> try_fold apply_stored aggregate st = Ok (replay aggregate es).
Proof.
  intros H. revert aggregate. induction H as [|se e st es Hd _ IH]; intros g; simpl; [done|].
  unfold apply_stored at 1. rewrite Hd. apply IH.
Qed.

(** Rehydration from a well-formed stream is the replay of its typed history. *)
Lemma apply_history_exact t a st es aggregate :
  stream_ok t a st -> (Z.of_nat (length st) < 2 ^ 64)%Z -> decodes st es ->
  apply_history aggregate st = Ok (replay aggregate es).
Proof. intros Hok Hlt Hd. unfold apply_history. rewrite (sort_ok t a) by done. by apply apply_stored_all. Qed.

Lemma to_uncommitted_keys t a ty new_id decided : forall i us,
  to_uncommitted t a ty new_id i decided = Ok us ->
  length us = length decided
  /\ Forall (fun u => ue_tenant_id u = t /\ ue_aggregate_id u = a
                      /\ ue_aggregate_type u = ty) us.
Proof.
  induction decided as [|ev rest IH]; intros i us; simpl.
  { intros [= <-]. by split. }
  unfold from_typed. destruct (to_value ev) as [j|]; [|done].
  destruct (to_uncommitted _ _ _ _ _ rest) as [us'|] eqn:E1; [|done]. intros [= <-].
  apply IH in E1 as [Hl Hf]. simpl. split; [lia|]. by constructor.
Qed.

Lemma to_uncommitted_batch t a ty new_id i decided us :
  decided <> [] -> to_uncommitted t a ty new_id i decided = Ok us -> batch_for t a ty us.
Proof.
  intros Hne H. apply to_uncommitted_keys in H as [Hl Hf]. split; [|done].
  intros ->. by destruct decided.
Qed.

Lemma to_uncommitted_total `{!SerdeLaws E J} t a ty new_id decided : forall i,
  exists us, to_uncommitted t a ty new_id i decided = Ok us
    /\ forall n, decodes (number_batch n us) decided.
Proof.
  induction decided as [|ev rest IH]; intros i; simpl.
  { exists []. split; [done|]. intros n. constructor. }
  unfold from_typed. destruct (to_value_total ev) as (j & -> & Hj).
  destruct (IH (Datatypes.S i)) as (us & -> & Hd). eexists. split; [done|].
  intros n. unfold decodes. simpl. constructor; [exact Hj | apply Hd].
Qed.
End Dispatch.
Arguments CommandDispatcher : clear implicits.
Arguments mkDispatcher {S B}.
Arguments d_store {S B}.
Arguments d_bus {S B}.

(** ** What the pipeline guarantees *)
Lemma list_cons_neq_nil {X} (x : X) l : x :: l <> [].
Proof. done. Qed.

Section Guarantees.
Context {A C E J S B : Type}.
Context `{HA : Aggregate A C E} `{HE : Event E} `{HJ : Serde E J}.
Context `{HS : EventStore S J} `{HSL : !EventStoreLaws S} `{HB : EventBus B (EventEnvelope J)}.
Implicit Types (d : CommandDispatcher S B) (s : S).

(** The decision on a well-formed store is the aggregate's own decision on its
    replayed history. *)
Lemma decide_exact s t a ty (cmd : C) (make : TenantId -> AggregateId -> A) new_id
    (es : list E) :
  store_ok s -> available s -> (Z.of_nat (length (stream s t a)) < 2 ^ 64)%Z ->
  decodes (stream s t a) es ->
  decide_events s t a ty cmd make new_id =
  match agg_handle (replay (make t a) es) cmd with
  | Err e => Err (from_domain_error e)
  | Ok [] => Ok None
  | Ok decided =>
    us ← map_err from_store_error (to_uncommitted t a ty new_id 0 decided);
    Ok (Some (us, Exact (current_version (stream s t a))))
  end.
Proof.
  intros Hok Hav Hlt Hd. unfold decide_events.
  rewrite (proj2 (load_exact s t a _) (conj Hav eq_refl)). simpl.
  rewrite validate_ok by auto with forge. simpl.
  rewrite (apply_history_exact t a _ es) by auto with forge. simpl.
  destruct (agg_handle _ cmd) as [[|ev decided]|e]; done.
Qed.

(** What is decided addresses the stream it was loaded from, at its version. *)
Lemma decide_Some s t a ty (cmd : C) (make : TenantId -> AggregateId -> A) new_id us v :
  decide_events s t a ty cmd make new_id = Ok (Some (us, v)) ->
  available s /\ v = Exact (current_version (stream s t a)) /\ batch_for t a ty us.
Proof.
  unfold decide_events. intros H.
  apply bind_Ok_inv in H as (st & Hst & H). apply map_err_Ok in Hst.
  apply load_exact in Hst as [Hav ->].
  apply bind_Ok_inv in H as (? & _ & H). apply bind_Ok_inv in H as (g & _ & H).
  apply bind_Ok_inv in H as (decided & _ & H). destruct decided as [|ev decided]; [done|].
  apply bind_Ok_inv in H as (us' & Hus & H). apply map_err_Ok in Hus.
  injection H as <- <-. split_and!; [done..|]. by eapply to_uncommitted_batch, Hus.
Qed.

(** The two outcomes of a commit that appended, and the ones that did not. *)
Lemma commit_cases d us v t a ty d' r :
  batch_for t a ty us -> commit_events d us v = (d', r) ->
  (exists c k, es_append (d_store d) us v = (d_store d', Ok c)
     /\ stream (d_store d') t a = stream (d_store d) t a ++ c
     /\ d_bus d' = publish_list (d_bus d) (take k c)
     /\ ((r = Ok c /\ k = length c) \/ exists msg, r = Err (DPublish msg)))
  \/ (exists e, es_append (d_store d) us v = (d_store d', Err e)
       /\ d_bus d' = d_bus d /\ r = Err (from_store_error e)).
Proof.
  intros Hb. unfold commit_events.
  destruct (es_append (d_store d) us v) as [s' [c|e]] eqn:Ea.
  - destruct (append_committed _ _ _ _ _ _ _ _ Hb Ea) as (_ & _ & _ & _ & Hst & _).
    destruct (publish_all_prefix (d_bus d) c) as (k & Hk & Hall).
    destruct (publish_all (d_bus d) c) as [b' [[]|err]]; intros [= <- <-]; simpl in *;
      left; exists c, k; split_and!; try done; [left; auto | right; eauto].
  - intros [= <- <-]. right. eauto.
Qed.

Lemma from_store_error_not_publish e msg : from_store_error e <> DPublish msg.
Proof. by destruct e. Qed.

Lemma commit_others d us v t a ty d' r t' a' :
  batch_for t a ty us -> commit_events d us v = (d', r) -> (t', a') <> (t, a) ->
  stream (d_store d') t' a' = stream (d_store d) t' a'.
Proof.
  intros Hb Hc Hne. replace d' with (commit_events d us v).1 by (by rewrite Hc).
  clear Hc. unfold commit_events.
  destruct (es_append (d_store d) us v) as [s' [c|e]] eqn:Ea.
  - destruct (append_committed _ _ _ _ _ _ _ _ Hb Ea) as (_ & _ & _ & _ & _ & Ho).
    destruct (publish_all (d_bus d) c). simpl. auto.
  - simpl. by apply (append_failed _ _ _ _ _ Ea).
Qed.

(** A commit touches no more of the store than the append does. *)
Lemma commit_store d us v : d_store (commit_events d us v).1 = (es_append (d_store d) us v).1.
Proof.
  unfold commit_events. destruct (es_append (d_store d) us v) as [s' [c|e]]; [|done].
  by destruct (publish_all (d_bus d) c).
Qed.

Lemma commit_keeps d us v :
  store_ok (d_store d) -> available (d_store d) ->
  let s' := d_store (commit_events d us v).1 in
  store_ok s' /\ available s' /\ extends (d_store d) s'.
Proof.
  intros Hok Hav. simpl. rewrite commit_store.
  destruct (append_keeps (d_store d) us v Hok) as [Hok' Hav'].
  split_and!; [done | tauto | apply append_extends].
Qed.

Lemma dispatch_keeps d t a ty (cmd : C) (make : TenantId -> AggregateId -> A) new_id :
  store_ok (d_store d) -> available (d_store d) ->
  let s' := d_store (dispatch d t a ty cmd make new_id).1 in
  store_ok s' /\ available s' /\ extends (d_store d) s'.
Proof.
  intros Hok Hav. unfold dispatch.
  destruct (decide_events _ _ _ _ _ _ _) as [[[us v]|]|]; [by apply commit_keeps|done..].
Qed.

Lemma decide_no_publish s t a ty (cmd : C) (make : TenantId -> AggregateId -> A) new_id msg :
  decide_events s t a ty cmd make new_id <> Err (DPublish msg).
Proof.
  unfold decide_events. intros H.
  repeat (apply bind_Err_inv in H as [H|(? & _ & H)]).
  - destruct (es_load s t a) as [|[]]; done.
  - revert H. generalize 0 at 1. generalize 0%Z. generalize x.
    intros st. induction st as [|e st IH]; intros last idx; simpl; [done|].
    repeat (destruct (decide _); [done|]). apply IH.
  - revert H. unfold apply_history. generalize (make t a).
    induction (sort_by _ _) as [|e st IH]; intros g; simpl; [done|].
    unfold apply_stored at 1. destruct (from_value _); [apply IH | done].
  - by destruct (agg_handle _ _) as [|[]].
  - destruct x2 as [|ev evs]; [done|]. apply bind_Err_inv in H as [H|(? & _ & H)]; [|done].
    by destruct (to_uncommitted _ _ _ _ _ _) as [|[]].
Qed.

(** The step of the aggregate, through the store. *)
Lemma dispatch_step `{!SerdeLaws E J} d t a ty (cmd : C)
    (make : TenantId -> AggregateId -> A) new_id (es : list E) :
  store_ok (d_store d) -> available (d_store d) ->
  type_stable (stream (d_store d) t a) ty ->
  (Z.of_nat (length (stream (d_store d) t a)) < 2 ^ 64)%Z ->
  decodes (stream (d_store d) t a) es ->
  let '(d', r) := dispatch d t a ty cmd make new_id in
  match agg_handle (replay (make t a) es) cmd with
  | Err e => d' = d /\ r = Err (from_domain_error e)
  | Ok decided =>
    exists c,
      stream (d_store d') t a = stream (d_store d) t a ++ c
      /\ length c = length decided
      /\ decodes (stream (d_store d') t a) (es ++ decided)
      /\ (forall t' a', (t', a') <> (t, a) ->
            stream (d_store d') t' a' = stream (d_store d) t' a')
      /\ (r = Ok c \/ exists msg, r = Err (DPublish msg))
  end.
Proof.
  intros Hok Hav Hty Hlt Hd. unfold dispatch. rewrite (decide_exact _ _ _ _ _ _ _ es) by done.
  destruct (agg_handle _ cmd) as [[|ev decided]|e] eqn:Eh; [| |done].
  { exists []. rewrite !app_nil_r. eauto 6. }
  destruct (to_uncommitted_total t a ty new_id (ev :: decided) 0) as (us & Hus & Hdec).
  rewrite Hus. simpl map_err. unfold mbind, Result_bind; cbv iota.
  pose proof (to_uncommitted_batch _ _ _ _ _ _ us (list_cons_neq_nil ev decided) Hus) as Hb.
  destruct (commit_events d us _) as [d' r] eqn:Ec.
  assert (Ho : forall t' a', (t', a') <> (t, a) ->
            stream (d_store d') t' a' = stream (d_store d) t' a').
  { intros t' a'. by apply (commit_others _ _ _ _ _ _ _ _ _ _ Hb Ec). }
  destruct (commit_cases _ _ _ _ _ _ _ _ Hb Ec)
    as [(c & k & Ea & Hst & _ & Hr)|(e & Ea & _ & _)].
  - exists c. destruct (append_committed _ _ _ _ _ _ _ _ Hb Ea) as (_ & _ & _ & Hc & _).
    split_and!; try done; [|rewrite Hst; apply Forall2_app; [done|rewrite Hc; apply Hdec]|
      destruct Hr as [[? _]|]; auto].
    rewrite Hc, number_batch_length. by apply to_uncommitted_keys in Hus as [-> _].
  - pose proof (append_succeeds (d_store d) us (Exact (current_version (stream (d_store d) t a)))
      t a ty Hb Hav ltac:(by apply bool_decide_eq_true_2) Hty) as Hs. by rewrite Ea in Hs.
Qed.

(** A late commit is an atomic dispatch or a concurrency error. *)
Lemma late_commit s0 d t a ty (cmd : C)
    (make : TenantId -> AggregateId -> A) new_id us v :
  store_ok s0 -> store_ok (d_store d) -> available (d_store d) ->
  extends s0 (d_store d) ->
  (Z.of_nat (length (stream (d_store d) t a)) < 2 ^ 64)%Z ->
  decide_events s0 t a ty cmd make new_id = Ok (Some (us, v)) ->
  (stream (d_store d) t a = stream s0 t a
   /\ commit_events d us v = dispatch d t a ty cmd make new_id)
  \/ (stream (d_store d) t a <> stream s0 t a
      /\ exists msg, (commit_events d us v).2 = Err (DConcurrency msg)
      /\ d_bus (commit_events d us v).1 = d_bus d
      /\ forall t' a', stream (d_store (commit_events d us v).1) t' a'
                       = stream (d_store d) t' a').
Proof.
  intros Hok0 Hok Hav He Hlt Hd.
  destruct (decide_Some _ _ _ _ _ _ _ _ _ Hd) as (Hav0 & -> & Hb).
  destruct (decide (current_version (stream s0 t a) = current_version (stream (d_store d) t a)))
    as [Hv|Hv].
  - left. apply same_version_same_stream in Hv; [|done..]. split; [done|].
    unfold dispatch, decide_events in *.
    rewrite (proj2 (load_exact s0 t a _) (conj Hav0 eq_refl)) in Hd.
    rewrite (proj2 (load_exact (d_store d) t a _) (conj Hav eq_refl)), <- Hv.
    by rewrite Hd.
  - right. split; [congruence|].
    destruct (append_stale (d_store d) us (Exact (current_version (stream s0 t a))) t a ty Hb Hav)
      as [msg Hmsg]; [by apply bool_decide_eq_false_2|].
    unfold commit_events. destruct (es_append _ us _) as [s' r] eqn:Ea. simpl in Hmsg. subst r.
    simpl. exists msg. split_and!; [done..|]. by apply (append_failed _ _ _ _ _ Ea).
Qed.

(** ** Properties *)

(** C8: persist first, publish second: whatever the store and the bus do within
    their contracts, a dispatch that returns the committed events has appended
    them to the stream and published each of them in order; a publication error
    leaves the appended batch in the store and a prefix of it on the bus; any
    other error leaves every stream and the bus as they were. *)
Theorem dispatch_publishes_after_append d t a ty (cmd : C)
    (make : TenantId -> AggregateId -> A) new_id :
  let '(d', r) := dispatch d t a ty cmd make new_id in
  match r with
  | Ok c =>
    stream (d_store d') t a = stream (d_store d) t a ++ c
    /\ d_bus d' = publish_list (d_bus d) c
  | Err (DPublish _) =>
    exists c k, stream (d_store d') t a = stream (d_store d) t a ++ c
      /\ d_bus d' = publish_list (d_bus d) (take k c)
  | Err _ =>
    d_bus d' = d_bus d
    /\ forall t' a', stream (d_store d') t' a' = stream (d_store d) t' a'
  end.
Proof.
  unfold dispatch.
  destruct (decide_events _ t a ty cmd make new_id) as [[[us v]|]|e] eqn:Ed.
  - destruct (decide_Some _ _ _ _ _ _ _ _ _ Ed) as (_ & _ & Hb).
    destruct (commit_events d us v) as [d' r] eqn:Ec.
    destruct (commit_cases _ _ _ _ _ _ _ _ Hb Ec)
      as [(c & k & _ & Hst & Hbus & [[-> ->]|[msg ->]])|(e & Ea & Hbus & ->)].
    + by rewrite firstn_all in Hbus.
    + eauto.
    + pose proof (append_failed _ _ _ _ _ Ea). by destruct e.
  - by rewrite app_nil_r.
  - pose proof (decide_no_publish (d_store d) t a ty cmd make new_id) as Hnp.
    destruct e; try done. by destruct (Hnp msg).
Qed.

(** C5: refinement: on a stream that holds the typed history [es], a dispatch is
    the aggregate's own step.  What the aggregate refuses is refused with the
    corresponding error and changes nothing; what it decides is appended, so the
    stream holds [es ++ decided] (unless the store holds a stream of another
    aggregate type there), and the dispatch returns the appended events, or a
    publication error.  No other stream changes. *)
Theorem dispatch_refines_aggregate `{!SerdeLaws E J} d t a ty (cmd : C)
    (make : TenantId -> AggregateId -> A) new_id (es : list E) :
  store_ok (d_store d) -> available (d_store d) ->
  type_stable (stream (d_store d) t a) ty ->
  (Z.of_nat (length (stream (d_store d) t a)) < 2 ^ 64)%Z ->
  decodes (stream (d_store d) t a) es ->
  let '(d', r) := dispatch d t a ty cmd make new_id in
  match agg_handle (replay (make t a) es) cmd with
  | Err e => d' = d /\ r = Err (from_domain_error e)
  | Ok decided =>
    exists c,
      stream (d_store d') t a = stream (d_store d) t a ++ c
      /\ length c = length decided
      /\ decodes (stream (d_store d') t a) (es ++ decided)
      /\ (forall t' a', (t', a') <> (t, a) ->
            stream (d_store d') t' a' = stream (d_store d) t' a')
      /\ (r = Ok c \/ exists msg, r = Err (DPublish msg))
  end.
Proof. apply dispatch_step. Qed.

(** C6: optimistic concurrency serializes: take a command decided on an older
    store and committed on a later one, other writers having appended whatever
    they liked in between.  If nobody appended to this stream the result is that
    of running the whole dispatch at the moment of the commit; otherwise the
    commit is a concurrency error that changes no stream and publishes nothing.
    So no update is lost and no decision is applied to a state it was not made
    for. *)
Theorem concurrent_dispatch_serializes s0 d t a ty (cmd : C)
    (make : TenantId -> AggregateId -> A) new_id us v :
  store_ok s0 -> store_ok (d_store d) -> available (d_store d) ->
  extends s0 (d_store d) ->
  (Z.of_nat (length (stream (d_store d) t a)) < 2 ^ 64)%Z ->
  decide_events s0 t a ty cmd make new_id = Ok (Some (us, v)) ->
  (stream (d_store d) t a = stream s0 t a
   /\ commit_events d us v = dispatch d t a ty cmd make new_id)
  \/ (stream (d_store d) t a <> stream s0 t a
      /\ exists msg, (commit_events d us v).2 = Err (DConcurrency msg)
      /\ d_bus (commit_events d us v).1 = d_bus d
      /\ forall t' a', stream (d_store (commit_events d us v).1) t' a'
                       = stream (d_store d) t' a').
Proof. apply late_commit. Qed.
End Guarantees.

(** ** A sample: inventory items in memory

    A concrete JSON: the events themselves, with the identity as (de)serializer. *)
Module Sample.
Import Inventory.

#[local] Instance inventory_serde : Serde InventoryEvent InventoryEvent :=
  {| to_value e := Ok e; from_value j := Ok j |}.
#[local] Instance inventory_serde_laws : SerdeLaws InventoryEvent InventoryEvent.
Proof. constructor. intros e. by exists e. Defined.

Definition dispatcher : Type :=
  CommandDispatcher (InMemoryEventStore InventoryEvent)
    (InMemoryEventBus (EventEnvelope InventoryEvent)).

Definition start : dispatcher := mkDispatcher store_new bus_new.
Definition make (_ : TenantId) (a : AggregateId) : InventoryItem :=
  empty (mkInventoryItemId a).
Definition run (d : dispatcher) (c : InventoryCommand) : dispatcher :=
  (dispatch d (mkTenantId 1) (mkAggregateId 2) "inventory.item" c make N.of_nat).1.

Definition the_item : InventoryItemId := mkInventoryItemId (mkAggregateId 2).
Definition create_cmd : InventoryCommand :=
  CmdCreateItem {| ci_tenant_id := mkTenantId 1; ci_item_id := the_item;
                   ci_name := "bolt"; ci_occurred_at := 0 |}.
Definition adjust_cmd (n : Z) : InventoryCommand :=
  CmdAdjustStock {| as_tenant_id := mkTenantId 1; as_item_id := the_item;
                    as_delta := n; as_occurred_at := 1 |}.

(** Create, add five, try to take seven: the refused command stores nothing. *)
Definition final : dispatcher :=
  foldl run start [create_cmd; adjust_cmd 5; adjust_cmd (-7)].

Lemma dispatch_refines_aggregate_witness :
  exists c, mem_stream (d_store (run start create_cmd)) (mkTenantId 1) (mkAggregateId 2) = c
    /\ decodes c [EvItemCreated {| ic_tenant_id := mkTenantId 1; ic_item_id := the_item;
                                   ic_name := "bolt"; ic_occurred_at := 0 |}].
Proof.
  pose proof (dispatch_refines_aggregate start (mkTenantId 1) (mkAggregateId 2)
    "inventory.item" create_cmd make N.of_nat [] store_new_ok eq_refl I eq_refl
    (List.Forall2_nil _)) as H.
  destruct (agg_handle (replay (make (mkTenantId 1) (mkAggregateId 2)) []) create_cmd) eqn:Eh;
    [|discriminate Eh].
  injection Eh as <-. unfold run.
  destruct (dispatch start _ _ _ _ _ _) as [d' r]. destruct H as (c & _ & _ & Hd & _).
  eexists. split; [reflexivity | exact Hd].
Defined.

Lemma run_keeps d c :
  mem_ok (d_store d) /\ lock_poisoned (d_store d) = false ->
  (mem_ok (d_store (run d c)) /\ lock_poisoned (d_store (run d c)) = false)
  /\ extends (d_store d) (d_store (run d c)).
Proof.
  intros [Hok Hav].
  destruct (dispatch_keeps (HSL:=InMemoryEventStore_laws) d (mkTenantId 1) (mkAggregateId 2) "inventory.item" c make N.of_nat
              Hok Hav) as (? & ? & ?). done.
Qed.

Lemma stocked_ok : mem_ok (d_store (foldl run start [create_cmd; adjust_cmd 5]))
  /\ lock_poisoned (d_store (foldl run start [create_cmd; adjust_cmd 5])) = false.
Proof. do 2 apply run_keeps. split; [apply store_new_ok | reflexivity]. Qed.

(** A withdrawal decided before a competing one and committed after it. *)
Definition stocked : dispatcher := foldl run start [create_cmd; adjust_cmd 5].
Definition competing : dispatcher := run stocked (adjust_cmd (-5)).
Definition late_batch : list (UncommittedEvent InventoryEvent) :=
  match decide_events (d_store stocked) (mkTenantId 1) (mkAggregateId 2) "inventory.item"
          (adjust_cmd (-4)) make N.of_nat with
  | Ok (Some (us, _)) => us | _ => [] end.

Lemma concurrent_dispatch_serializes_witness :
  exists msg, (commit_events competing late_batch (Exact 2)).2 = Err (DConcurrency msg).
Proof.
  destruct (concurrent_dispatch_serializes (d_store stocked) competing (mkTenantId 1)
    (mkAggregateId 2) "inventory.item" (adjust_cmd (-4)) make N.of_nat late_batch (Exact 2))
    as [[H _]|(_ & msg & H & _)].
  - apply stocked_ok.
  - apply run_keeps, stocked_ok.
  - reflexivity.
  - apply (run_keeps stocked (adjust_cmd (-5))), stocked_ok.
  - vm_compute. reflexivity.
  - vm_compute. reflexivity.
  - discriminate H.
  - by exists msg.
Defined.
End Sample.
