(* ===== verification/System.v ===== *)
(** * The running system: dispatchers, other writers and the bus over one store

    The step relation of a store shared by any number of dispatchers of one
    aggregate type, whose loads and commits interleave, by writers of other
    aggregate types, and by a bus that changes as it likes; the invariants of the
    aggregate are invariants of the system.  Then the instance at the inventory
    item, the in-memory store and the in-memory bus. *)

From S2P Require Import Prelude Core Events Bus EventStore Dispatcher.
From S2P Require Inventory.
From stdpp Require Import relations.

Section System.
Context {A C E J S B : Type}.
Context `{HL : AggregateLaws A C E} `{HE : Event E} `{HJ : SerdeLaws E J}.
Context `{HSL : EventStoreLaws J S} `{HB : EventBus B (EventEnvelope J)}.
Context (ty : string) (make : TenantId -> AggregateId -> A).

Inductive sys_step : CommandDispatcher S B -> CommandDispatcher S B -> Prop :=
| sys_dispatch d t a (cmd : C) new_id :
    cmd_ok cmd -> sys_step d (dispatch d t a ty cmd make new_id).1
| sys_late_commit s0 d t a (cmd : C) new_id us v :
    cmd_ok cmd -> store_ok s0 -> extends s0 (d_store d) ->
    decide_events s0 t a ty cmd make new_id = Ok (Some (us, v)) ->
    sys_step d (commit_events d us v).1
| sys_foreign d evs v :
    Forall (fun e => ue_aggregate_type e <> ty) evs ->
    sys_step d (mkDispatcher (es_append (d_store d) evs v).1 (d_bus d))
| sys_bus d b : sys_step d (mkDispatcher (d_store d) b).

(** The streams of this aggregate type hold good histories. *)
Definition stream_good s t a : Prop :=
  (Z.of_nat (length (stream s t a)) < 2 ^ 64)%Z -> type_stable (stream s t a) ty ->
  exists es : list E, decodes (stream s t a) es /\ agg_inv (replay (make t a) es).

Definition sys_inv (d : CommandDispatcher S B) : Prop :=
  store_ok (d_store d) /\ available (d_store d) /\ forall t a, stream_good (d_store d) t a.

Lemma type_stable_prefix (st st' : list (StoredEvent J)) ty' :
  st `prefix_of` st' -> type_stable st' ty' -> type_stable st ty'.
Proof. intros [l ->] Hty. by destruct st. Qed.

Lemma stream_good_eq s s' t a : stream s' t a = stream s t a -> stream_good s t a -> stream_good s' t a.
Proof. unfold stream_good. by intros ->. Qed.

Lemma dispatch_others d t a (cmd : C) new_id t' a' :
  (t', a') <> (t, a) ->
  stream (d_store (dispatch d t a ty cmd make new_id).1) t' a' = stream (d_store d) t' a'.
Proof.
  intros Hne. unfold dispatch.
  destruct (decide_events _ _ _ _ _ _ _) as [[[us v]|]|] eqn:Ed; [|done..].
  apply decide_Some in Ed as (_ & _ & Hb).
  destruct (commit_events d us v) as [d' r] eqn:Ec.
  by apply (commit_others _ _ _ _ _ _ _ _ _ _ Hb Ec).
Qed.

Lemma dispatch_inv d t a (cmd : C) new_id :
  cmd_ok cmd -> sys_inv d -> sys_inv (dispatch d t a ty cmd make new_id).1.
Proof.
  intros Hc (Hok & Hav & Hgood).
  destruct (dispatch_keeps d t a ty cmd make new_id Hok Hav) as (Hok' & Hav' & Hext).
  split_and!; [done..|]. intros t' a'.
  destruct (decide ((t', a') = (t, a))) as [[= -> ->]|Hne];
    [|by apply (stream_good_eq (d_store d)), Hgood; apply dispatch_others].
  intros Hlt Hty. specialize (Hext t a). pose proof (prefix_length _ _ Hext).
  apply (type_stable_prefix _ _ _ Hext) in Hty.
  destruct (Hgood t a) as (es & Hd & Hi); [lia | done |].
  pose proof (dispatch_step d t a ty cmd make new_id es Hok Hav Hty ltac:(lia) Hd) as Hs.
  destruct (dispatch d t a ty cmd make new_id) as [d' r].
  destruct (agg_handle _ cmd) as [decided|e] eqn:Eh.
  - destruct Hs as (c & _ & _ & Hd' & _). exists (es ++ decided). split; [done|].
    rewrite replay_app. by eapply handle_inv.
  - destruct Hs as [-> _]. eauto.
Qed.

Lemma foreign_good s evs v t a :
  Forall (fun e => ue_aggregate_type e <> ty) evs -> stream_good s t a ->
  stream_good (es_append s evs v).1 t a.
Proof.
  intros Hf Hgood. destruct (es_append s evs v) as [s' [c|e]] eqn:Ea; simpl.
  - destruct (decide (length evs = 0)) as [Hz|Hz].
    { apply nil_length_inv in Hz as ->. rewrite append_empty in Ea. by injection Ea as <- <-. }
    destruct (append_one_stream _ _ _ _ _ Ea) as (t0 & a0 & ty0 & Hb); [by intros ->|].
    destruct (append_committed _ _ _ _ _ _ _ _ Hb Ea) as (_ & _ & Hty0 & Hc & Hst & Ho).
    destruct (decide ((t, a) = (t0, a0))) as [[= -> ->]|Hne];
      [|by apply (stream_good_eq s), Hgood; apply Ho].
    intros _ Hty. exfalso. destruct Hb as [Hne Hb]. destruct evs as [|e evs]; [done|].
    apply Forall_cons_1 in Hf as [Hf _]. apply Forall_cons_1 in Hb as [(_ & _ & He) _].
    rewrite Hst, Hc in Hty. destruct (stream s t0 a0); simpl in *; congruence.
  - by eapply stream_good_eq, Hgood; apply (append_failed _ _ _ _ _ Ea).
Qed.

Lemma late_commit_inv s0 d t a (cmd : C) new_id us v :
  cmd_ok cmd -> store_ok s0 -> extends s0 (d_store d) ->
  decide_events s0 t a ty cmd make new_id = Ok (Some (us, v)) ->
  sys_inv d -> sys_inv (commit_events d us v).1.
Proof.
  intros Hc Hok0 Hext0 Hd Hinv. assert (Hinv' := Hinv). destruct Hinv' as (Hok & Hav & Hgood).
  destruct (commit_keeps d us v Hok Hav) as (Hok' & Hav' & Hext).
  split_and!; [done..|]. intros t' a'.
  destruct (decide ((t', a') = (t, a))) as [[= -> ->]|Hne].
  - intros Hlt. pose proof (prefix_length _ _ (Hext t a)).
    destruct (late_commit s0 d t a ty cmd make new_id us v) as [[_ Heq]|(_ & _ & _ & _ & Hsame)];
      [done..|lia|done| |].
    + revert Hlt. rewrite Heq. by apply (dispatch_inv d t a cmd new_id Hc Hinv).
    + revert Hlt. apply (stream_good_eq (d_store d)); auto.
  - apply (stream_good_eq (d_store d)); [|apply Hgood].
    apply decide_Some in Hd as (_ & _ & Hb). destruct (commit_events d us v) as [d' r] eqn:Ec.
    by apply (commit_others _ _ _ _ _ _ _ _ _ _ Hb Ec).
Qed.

Lemma sys_step_inv d d' : sys_step d d' -> sys_inv d -> sys_inv d'.
Proof.
  intros [d0 t a cmd new_id Hc|s0 d0 t a cmd new_id us v Hc Hok0 Hext Hd|d0 evs v Hf|d0 b] Hi.
  - by apply dispatch_inv.
  - by eapply late_commit_inv.
  - destruct Hi as (Hok & Hav & Hgood). destruct (append_keeps (d_store d0) evs v Hok) as [? Hav'].
    split_and!; [done | simpl; tauto |]. intros t a. by apply foreign_good.
  - exact Hi.
Qed.

Lemma sys_run_inv d d' : rtc sys_step d d' -> sys_inv d -> sys_inv d'.
Proof. induction 1; eauto using sys_step_inv. Qed.

(** C1: the system keeps the invariant of its aggregates: start with empty
    streams and let dispatchers run commands of one aggregate type with their
    loads and commits interleaved in any order, other components append events
    of other types, and the bus do as it likes.  Then every stream of the
    aggregate's type (shorter than the sequence counter) decodes, rehydration
    from it succeeds, and the rehydrated aggregate satisfies the invariant the
    aggregate's commands preserve. *)
Theorem system_keeps_aggregate_invariant (d d' : CommandDispatcher S B) t a :
  (forall t a, agg_inv (make t a)) ->
  store_ok (d_store d) -> available (d_store d) ->
  (forall t a, stream (d_store d) t a = []) ->
  rtc sys_step d d' ->
  let st := stream (d_store d') t a in
  (Z.of_nat (length st) < 2 ^ 64)%Z -> type_stable st ty ->
  exists (es : list E) (g : A),
    decodes st es /\ apply_history (make t a) st = Ok g
    /\ g = replay (make t a) es /\ agg_inv g.
Proof.
  intros Hmake Hok Hav Hempty Hrun st Hlt Hty.
  assert (Hinv : sys_inv d).
  { split_and!; [done..|]. intros t' a' _ _. rewrite Hempty. exists [].
    split; [constructor | apply Hmake]. }
  destruct (sys_run_inv _ _ Hrun Hinv) as (Hok' & _ & Hgood).
  destruct (Hgood t a Hlt Hty) as (es & Hd & Hi).
  exists es, (replay (make t a) es). split_and!; try done.
  apply (apply_history_exact t a); [by apply stream_wf | done | done].
Qed.
End System.

(** ** The instance: inventory items in memory *)
Section SampleRun.
Import Inventory Dispatcher.Sample.
#[local] Existing Instance inventory_serde.
#[local] Existing Instance inventory_serde_laws.

Lemma runs_reached cs : forall d,
  Forall command_ok cs -> rtc (sys_step (C:=InventoryCommand) "inventory.item" make) d (foldl run d cs).
Proof.
  induction cs as [|c cs IH]; intros d Hcs; [apply rtc_refl|].
  apply Forall_cons_1 in Hcs as [Hc Hcs].
  apply rtc_l with (run d c); [by apply sys_dispatch | by apply IH].
Qed.

Lemma system_keeps_aggregate_invariant_witness :
  exists g : InventoryItem,
    apply_history (make (mkTenantId 1) (mkAggregateId 2))
      (mem_stream (d_store final) (mkTenantId 1) (mkAggregateId 2)) = Ok g
    /\ Inventory.inv g.
Proof.
  destruct (system_keeps_aggregate_invariant (C:=InventoryCommand) "inventory.item" make
              start final (mkTenantId 1) (mkAggregateId 2)) as (es & g & _ & Hg & _ & Hi).
  - intros t a. apply item_empty_inv.
  - apply store_new_ok.
  - reflexivity.
  - intros t a. reflexivity.
  - apply runs_reached. repeat constructor; vm_compute; intuition congruence.
  - vm_compute. reflexivity.
  - vm_compute. reflexivity.
  - exists g. split; [exact Hg | exact Hi].
Defined.
End SampleRun.
