(* ===== verification/Saga.v ===== *)
(** * The sales-to-receivables saga: [infra/src/saga] and its runner

    The process manager that should turn a confirmed sales order into an invoice
    and a ledger entry: its states and events ([sales_ar.rs]), the repository that
    persists its events ([saga/mod.rs]), and the loop body that runs it
    ([api/src/app/services.rs]).

    [serde_json::Value] is an argument [J] with the operations the code uses
    (class [Json]); texts of identifiers and times are arguments too.  What the
    surroundings supply during one turn of the loop (clock readings, fresh
    identifiers) is the record [Reads]. *)

From S2P Require Import Prelude Core Events Bus EventStore Dispatcher.
From S2P Require Inventory Products Sales Invoicing Accounting.
Import Products (ProductId).
Import Sales (SalesOrderId, mkSalesOrderId, so_aggregate, SalesOrderStatus, SalesOrderEvent,
  EvSalesOrderCreated, EvLineAdded, EvOrderConfirmed, EvOrderInvoiced).
Import Invoicing (InvoiceEvent, EvInvoiceIssued, EvPaymentRegistered, EvInvoiceVoided,
  InvoiceId, mkInvoiceId, invoice_aggregate, InvoiceLine, IssueInvoice, VoidInvoice,
  InvoiceCommand, CmdIssueInvoice, CmdVoidInvoice, ii_tenant_id, ii_invoice_id,
  vi_tenant_id, vi_invoice_id, Invoice_aggregate, InvoiceEvent_event).
Import Accounting (LedgerEvent, EvJournalEntryPosted, LedgerId, mkLedgerId, PostJournalEntry,
  JournalCommand, CmdPostJournalEntry, pj_tenant_id, Ledger_aggregate, LedgerEvent_event).

(** ** JSON values

    [as_object] gives the entries in the map's own iteration order. *)
Class Json (J : Type) := {
  j_object : list (string * J) -> J;
  j_array : list J -> J;
  j_str : string -> J;
  j_num : Z -> J;
  j_bool : bool -> J;
  as_object : J -> option (list (string * J));
  as_str : J -> option string
}.

(** [Map::get]. *)
Definition obj_get {J} (k : string) (obj : list (string * J)) : option J :=
  snd <$> find (fun kv => String.eqb kv.1 k) obj.

(** [Value::get]. *)
Definition value_get {J} `{Json J} (k : string) (v : J) : option J :=
  as_object v ≫= obj_get k.

(** [obj.entry(k).or_insert(v)]. *)
Definition or_insert {J} (k : string) (v : J) (obj : list (string * J)) : list (string * J) :=
  match obj_get k obj with Some _ => obj | None => obj ++ [(k, v)] end.

(** An object built from entries has exactly their keys. *)
Class JsonLaws (J : Type) `{Json J} := {
  object_keys obj : exists obj', as_object (j_object obj) = Some obj'
    /\ forall k, obj_get k obj' = None <-> obj_get k obj = None
}.

(** ** The saga *)

(** @src crates/infra/src/saga/sales_ar.rs 16-25 [SalesArSagaState] *)
Inductive SalesArSagaState : Type :=
| WaitingForOrderConfirmed
| WaitingForInvoiceIssued
| WaitingForLedgerPosted (invoice_id : string)
| Completed
| Failed.

(** @src crates/infra/src/saga/sales_ar.rs 27-37 [SalesArSagaEvent] *)
Inductive SalesArSagaEvent : Type :=
| OrderConfirmedReceived
| InvoiceIssueRequested
| InvoiceIssuedReceived (invoice_id : string)
| LedgerPostRequested
| LedgerPostedReceived
| SagaCompleted
| SagaFailed (reason : string).

(** @src crates/events/src/saga.rs 25-46 [SagaAction] *)
Inductive SagaAction (J : Type) : Type :=
| Emit (event_type : string) (payload : J)
| Command (aggregate_type command_type : string) (payload : J)
| Compensate (aggregate_type command_type : string) (payload : J)
| Complete.
Arguments Emit {J}.
Arguments Command {J}.
Arguments Compensate {J}.
Arguments Complete {J}.

(** @src crates/infra/src/projections/sales_orders.rs 14-20 [SalesOrderLineReadModel] *)
Record SalesOrderLineReadModel := mkSalesOrderLineReadModel {
  sol_line_no : Z;
  sol_product_id : ProductId;
  sol_quantity : Z;
  sol_unit_price : Z
}.

(** @src crates/infra/src/projections/sales_orders.rs 22-28 [SalesOrderReadModel] *)
Record SalesOrderReadModel := mkSalesOrderReadModel {
  sorm_order_id : SalesOrderId;
  sorm_status : SalesOrderStatus;
  sorm_lines : list SalesOrderLineReadModel
}.

Record Reads := mkReads {
  r_entry_id : Uuid;
  r_posted_at : DateTime;
  r_invoice_id : Uuid;
  r_due_now : DateTime;
  r_occurred_now : DateTime;
  r_event_id : nat -> Uuid;
  r_event_time : nat -> DateTime;
  r_command_ids : nat -> nat -> Uuid
}.

(** @src crates/infra/src/saga/sales_ar.rs 46-48 [SalesArSaga::saga_type] *)
Definition saga_type : string := "saga.sales_ar".

(** @src crates/infra/src/saga/sales_ar.rs 87-91 [SalesArSaga::saga_id] *)
Definition saga_id (_ : TenantId) (correlation : SalesOrderId) : AggregateId :=
  so_aggregate correlation.

(** @src crates/events/src/saga.rs 74-77 [Saga::initial_state] *)
Definition initial_state : SalesArSagaState := WaitingForOrderConfirmed.

(** @src crates/infra/src/saga/sales_ar.rs 93-119 [SalesArSaga::apply] *)
Definition apply (state : SalesArSagaState) (event : SalesArSagaEvent) : SalesArSagaState :=
  match event with
  | OrderConfirmedReceived => WaitingForInvoiceIssued
  | InvoiceIssueRequested => state
  | InvoiceIssuedReceived invoice_id => WaitingForLedgerPosted invoice_id
  | LedgerPostRequested => state
  | LedgerPostedReceived => Completed
  | SagaCompleted => Completed
  | SagaFailed _ => Failed
  end.

Section Saga.
Context {J S B : Type} `{HJson : Json J}.
Context `{HS : EventStore S J} `{HB : EventBus B (EventEnvelope J)}.
Context `{HSaga : Serde SalesArSagaEvent J}.
Context `{HInv : Serde InvoiceEvent J} `{HLed : Serde LedgerEvent J}.
Context `{HIssue : Serde IssueInvoice J} `{HVoid : Serde VoidInvoice J}.
Context `{HPost : Serde PostJournalEntry J}.
(** [Uuid::parse_str] and the JSON texts of identifiers, times and lines. *)
Context (parse_uuid : string -> option Uuid) (json_uuid : Uuid -> J) (json_time : DateTime -> J)
        (json_lines : list InvoiceLine -> J).

(** The two arms read the order's identifier under their own key.

    @src crates/infra/src/saga/sales_ar.rs 52-65 [SalesArSaga::correlate] *)
Definition order_under (key : string) (payload : J) : option SalesOrderId :=
  obj ← as_object payload;
  order_id ← obj_get key obj;
  id_str ← as_str order_id;
  uuid ← parse_uuid id_str;
  Some (mkSalesOrderId (mkAggregateId uuid)).

(** @src crates/infra/src/saga/sales_ar.rs 50-85 [SalesArSaga::correlate] *)
Definition correlate (envelope : EventEnvelope J) : option SalesOrderId :=
  if String.eqb (env_aggregate_type envelope) "sales.order"
  then order_under "order_id" (env_payload envelope)
  else if String.eqb (env_aggregate_type envelope) "invoicing.invoice"
  then order_under "sales_order_id" (env_payload envelope)
  else None.

(** @src crates/infra/src/saga/sales_ar.rs 164-194 [SalesArSaga::react] *)
Definition post_entry_payload (tenant_id : TenantId) (invoice_id : string) (r : Reads) : J :=
  j_object
    [("tenant_id", json_uuid (tenant_uuid tenant_id));
     ("entry_id", json_uuid (r_entry_id r));
     ("lines", j_array
       [j_object [("account_code", j_str "1200"); ("account_name", j_str "Accounts Receivable");
                  ("kind", j_str "Asset"); ("amount", j_num 0); ("is_debit", j_bool true)];
        j_object [("account_code", j_str "4000"); ("account_name", j_str "Sales Revenue");
                  ("kind", j_str "Revenue"); ("amount", j_num 0); ("is_debit", j_bool false)]]);
     ("description", j_str ("AR for invoice " +:+ invoice_id));
     ("occurred_at", json_time (r_posted_at r))]%string.

(** @src crates/infra/src/saga/sales_ar.rs 123-223 [SalesArSaga::react] *)
Definition react (state : SalesArSagaState) (tenant_id : TenantId) (correlation : SalesOrderId)
    (incoming : EventEnvelope J) (r : Reads) : list (SagaAction J) :=
  let event_type := env_aggregate_type incoming in
  match state with
  | WaitingForOrderConfirmed =>
    if String.eqb event_type "sales.order" then
      match as_object (env_payload incoming) with
      | Some ((evt_variant, _) :: _) =>
        if String.eqb evt_variant "OrderConfirmed" then
          [Emit "order_confirmed_received" (j_object []);
           Emit "invoice_issue_requested" (j_object []);
           Command "Invoice" "IssueInvoice" (j_object
             [("tenant_id", json_uuid (tenant_uuid tenant_id));
              ("sales_order_id", json_uuid (aggregate_uuid (so_aggregate correlation)))]%string)]
        else []
      | _ => []
      end
    else []
  | WaitingForInvoiceIssued =>
    if String.eqb event_type "invoicing.invoice" then
      match ((as_object (env_payload incoming) ≫= obj_get "InvoiceIssued")
              ≫= value_get "invoice_id") ≫= as_str with
      | Some invoice_id =>
        [Emit "invoice_issued_received" (j_object [("invoice_id", j_str invoice_id)]%string);
         Emit "ledger_post_requested" (j_object []);
         Command "Ledger" "PostJournalEntry" (post_entry_payload tenant_id invoice_id r)]
      | None => []
      end
    else []
  | WaitingForLedgerPosted _ =>
    if String.eqb event_type "accounting.ledger" then
      match as_object (env_payload incoming) ≫= obj_get "JournalEntryPosted" with
      | Some _ => [Emit "ledger_posted_received" (j_object []); Complete]
      | None => []
      end
    else []
  | Completed | Failed => []
  end.

(** ** The repository *)

(** @src crates/infra/src/saga/mod.rs 25-28 [SagaRepository::load] *)
Definition load (event_store : S) (tenant_id : TenantId) (saga_id : AggregateId)
  : Result EventStoreError (list (StoredEvent J)) := es_load event_store tenant_id saga_id.

(** @src crates/infra/src/saga/mod.rs 30-49 [SagaRepository::append_emit] *)
Definition append_emit (event_store : S) (tenant_id : TenantId) (saga_id : AggregateId)
    (event_type : string) (payload : J) (event_id : Uuid) (now : DateTime)
  : S * Result EventStoreError (list (StoredEvent J)) :=
  es_append event_store
    [{| ue_event_id := event_id; ue_tenant_id := tenant_id; ue_aggregate_id := saga_id;
        ue_aggregate_type := saga_type; ue_event_type := event_type; ue_event_version := 1;
        ue_occurred_at := now; ue_payload := payload |}] AnyVersion.

(** ** The command executor *)

(** @src crates/api/src/app/services.rs 103-154 [InMemorySagaExecutor::execute] *)
Definition execute (default_ledger_id : AggregateId) (self : CommandDispatcher S B)
    (tenant_id : TenantId) (aggregate_type command_type : string) (payload : J)
    (new_id : nat -> Uuid)
  : CommandDispatcher S B * Result DispatchError unit :=
  let finish {A} (out : CommandDispatcher S B * Result DispatchError A) :=
    (out.1, match out.2 with Ok _ => Ok tt | Err e => Err e end) in
  if (String.eqb aggregate_type "Invoice" && String.eqb command_type "IssueInvoice")%bool then
    match from_value payload with
    | Err e => (self, Err (DValidation e))
    | Ok cmd => finish (dispatch self (ii_tenant_id cmd) (invoice_aggregate (ii_invoice_id cmd))
        "invoicing.invoice" (CmdIssueInvoice cmd)
        (fun _ id => Invoicing.empty (mkInvoiceId id)) new_id)
    end
  else if (String.eqb aggregate_type "Ledger" && String.eqb command_type "PostJournalEntry")%bool
  then
    match from_value payload with
    | Err e => (self, Err (DValidation e))
    | Ok cmd => finish (dispatch self (pj_tenant_id cmd) default_ledger_id
        "accounting.ledger" (CmdPostJournalEntry cmd)
        (fun _ id => Accounting.empty (mkLedgerId id)) new_id)
    end
  else if (String.eqb aggregate_type "Invoice" && String.eqb command_type "VoidInvoice")%bool then
    match from_value payload with
    | Err e => (self, Err (DValidation e))
    | Ok cmd => finish (dispatch self (vi_tenant_id cmd) (invoice_aggregate (vi_invoice_id cmd))
        "invoicing.invoice" (CmdVoidInvoice cmd)
        (fun _ id => Invoicing.empty (mkInvoiceId id)) new_id)
    end
  else (self, Err (DValidation ("Unsupported saga command: " +:+ aggregate_type +:+ "."
                                +:+ command_type))).

(** ** The loop body *)

(** The saga's state from its stream: payloads that do not decode are skipped.

    @src crates/api/src/app/services.rs 403-411 [build_in_memory_services (saga subscriber)] *)
Definition rehydrate (history : list (StoredEvent J)) : SalesArSagaState :=
  foldl (fun state se =>
    match from_value (se_payload se) with Ok saga_evt => apply state saga_evt | Err _ => state end)
    initial_state history.

(** [None] is the panic of [unwrap] on a payload that is no object.

    @src crates/api/src/app/services.rs 421-441 [build_in_memory_services (saga subscriber)] *)
Definition fill_payload (orders : TenantId -> SalesOrderId -> option SalesOrderReadModel)
    (tenant_id : TenantId) (correlation : SalesOrderId) (r : Reads)
    (aggregate_type command_type : string) (payload : J) : option J :=
  if (String.eqb aggregate_type "Invoice" && String.eqb command_type "IssueInvoice")%bool then
    match orders tenant_id correlation with
    | Some order =>
      let lines := map (fun l =>
        {| Invoicing.il_line_no := sol_line_no l;
           Invoicing.il_sales_order_id := sorm_order_id order;
           Invoicing.il_product_id := sol_product_id l;
           Invoicing.il_quantity := sol_quantity l;
           Invoicing.il_unit_price := sol_unit_price l |}) (sorm_lines order) in
      let due := (r_due_now r + 30 * 86400 * 1000000000)%Z in
      obj ← as_object payload;
      Some (j_object
        (or_insert "occurred_at" (json_time (r_occurred_now r))
        (or_insert "due_date" (json_time due)
        (or_insert "lines" (json_lines lines)
        (or_insert "invoice_id" (json_uuid (r_invoice_id r))
        (or_insert "tenant_id" (json_uuid (tenant_uuid tenant_id)) obj))))))
    | None => Some payload
    end
  else Some payload.

(** @src crates/api/src/app/services.rs 414-452 [build_in_memory_services (saga subscriber)] *)
Definition perform (orders : TenantId -> SalesOrderId -> option SalesOrderReadModel)
    (default_ledger_id : AggregateId) (tenant_id : TenantId) (correlation : SalesOrderId)
    (r : Reads) (d : CommandDispatcher S B) (i : nat) (action : SagaAction J)
  : option (CommandDispatcher S B) :=
  let saga := saga_id tenant_id correlation in
  match action with
  | Emit event_type payload =>
    Some (mkDispatcher (append_emit (d_store d) tenant_id saga event_type payload
                          (r_event_id r i) (r_event_time r i)).1 (d_bus d))
  | Command aggregate_type command_type payload =>
    payload ← fill_payload orders tenant_id correlation r aggregate_type command_type payload;
    Some (execute default_ledger_id d tenant_id aggregate_type command_type payload
            (r_command_ids r i)).1
  | Compensate aggregate_type command_type payload =>
    Some (execute default_ledger_id d tenant_id aggregate_type command_type payload
            (r_command_ids r i)).1
  | Complete =>
    Some (mkDispatcher (append_emit (d_store d) tenant_id saga "saga.completed" (j_object [])
                          (r_event_id r i) (r_event_time r i)).1 (d_bus d))
  end.

Fixpoint perform_all orders default_ledger_id tenant_id correlation r d (i : nat)
    (actions : list (SagaAction J)) : option (CommandDispatcher S B) :=
  match actions with
  | [] => Some d
  | action :: rest =>
    d' ← perform orders default_ledger_id tenant_id correlation r d i action;
    perform_all orders default_ledger_id tenant_id correlation r d' (Datatypes.S i) rest
  end.

(** @src crates/api/src/app/services.rs 398-455 [build_in_memory_services (saga subscriber)] *)
Definition saga_turn (orders : TenantId -> SalesOrderId -> option SalesOrderReadModel)
    (default_ledger_id : AggregateId) (r : Reads) (d : CommandDispatcher S B)
    (env : EventEnvelope J) : option (CommandDispatcher S B) :=
  match correlate env with
  | None => Some d
  | Some correlation =>
    let tenant_id := env_tenant_id env in
    let state :=
      match load (d_store d) tenant_id (saga_id tenant_id correlation) with
      | Ok history => rehydrate history
      | Err _ => initial_state
      end in
    perform_all orders default_ledger_id tenant_id correlation r d 0
      (react state tenant_id correlation env r)
  end.

(** ** What derived serialization does

    An enum without a [serde] attribute is an object whose one key names the
    variant; an enum with [tag = "type"] decodes only from an object that has the
    key [type]. *)
Definition sales_variant (e : SalesOrderEvent) : string :=
  match e with
  | EvSalesOrderCreated _ => "SalesOrderCreated"
  | EvLineAdded _ => "LineAdded"
  | EvOrderConfirmed _ => "OrderConfirmed"
  | EvOrderInvoiced _ => "OrderInvoiced"
  end.

Definition invoice_variant (e : InvoiceEvent) : string :=
  match e with
  | EvInvoiceIssued _ => "InvoiceIssued"
  | EvPaymentRegistered _ => "PaymentRegistered"
  | EvInvoiceVoided _ => "InvoiceVoided"
  end.

Definition externally_tagged {E} `{Serde E J} (variant : E -> string) : Prop :=
  forall e j, to_value e = Ok j -> exists v, as_object j = Some [(variant e, v)].

Definition internally_tagged : Prop :=
  forall j (e : SalesArSagaEvent), from_value j = Ok e -> is_Some (value_get "type" j).

Context `{HSales : Serde SalesOrderEvent J}.

(** The envelopes the dispatcher publishes: the payload is the JSON of an event of
    the module the aggregate type names. *)
Definition domain_envelope (env : EventEnvelope J) : Prop :=
  (env_aggregate_type env = "sales.order" ->
     exists e : SalesOrderEvent, to_value e = Ok (env_payload env))
  /\ (env_aggregate_type env = "invoicing.invoice" ->
     exists e : InvoiceEvent, to_value e = Ok (env_payload env)).

(** The payloads the saga writes into its own stream. *)
Definition self_emitted (j : J) : Prop :=
  j = j_object []
  \/ exists state t c env r ty, Emit ty j ∈ react state t c env r.

Lemma order_under_tagged {E} `{Serde E J} (variant : E -> string) key (e : E) j :
  externally_tagged variant -> to_value e = Ok j -> variant e <> key ->
  order_under key j = None.
Proof.
  intros Ht He Hk. destruct (Ht e j He) as [v Hv]. unfold order_under. rewrite Hv. simpl.
  unfold obj_get. simpl. destruct (String.eqb_spec (variant e) key); [done|]. done.
Qed.

Lemma domain_uncorrelated env :
  externally_tagged sales_variant -> externally_tagged invoice_variant ->
  domain_envelope env -> correlate env = None.
Proof.
  intros Hs Hi [Ds Di]. unfold correlate.
  destruct (String.eqb_spec (env_aggregate_type env) "sales.order") as [E1|_].
  { destruct (Ds E1) as [e He]. apply (order_under_tagged sales_variant _ e); [done..|].
    by destruct e. }
  destruct (String.eqb_spec (env_aggregate_type env) "invoicing.invoice") as [E2|_]; [|done].
  destruct (Di E2) as [e He]. apply (order_under_tagged invoice_variant _ e); [done..|].
  by destruct e.
Qed.

(** What the saga emits has no key [type]. *)
Lemma self_emitted_untyped `{!JsonLaws J} j : self_emitted j -> value_get "type" j = None.
Proof.
  assert (Hobj : forall obj, obj_get "type" obj = None ->
    value_get "type" (j_object (J:=J) obj) = None).
  { intros obj Ho. destruct (object_keys obj) as (obj' & E & Hk). unfold value_get. rewrite E.
    simpl. by apply Hk. }
  intros [->|(state & t & c & env & r & ty & He)]; [by apply Hobj|].
  unfold react in He. repeat case_match; try (by apply not_elem_of_nil in He);
    repeat (apply elem_of_cons in He as [He|He];
      [try discriminate He; injection He as _ ->; by apply Hobj|]);
    by apply not_elem_of_nil in He.
Qed.

(** The receivables saga never runs.  No event the domain publishes is
    correlated, since [correlate] looks for the order's identifier at the top of
    the payload and events are objects keyed by their variant: a turn of the
    subscriber's loop leaves the store, the streams and the bus alone.  And it
    could not run if events were correlated: no payload the saga emits decodes as
    one of its events, so its state is always the initial one after rehydration,
    and, its stream being the sales order's own, every event it tries to append
    there is refused with no change of any stream. *)
Theorem sales_ar_saga_never_runs `{!JsonLaws J} `{!EventStoreLaws (J:=J) S} orders ledger
    (r : Reads) (d : CommandDispatcher S B) (env : EventEnvelope J) :
  externally_tagged sales_variant -> externally_tagged invoice_variant -> internally_tagged ->
  domain_envelope env ->
  saga_turn orders ledger r d env = Some d
  /\ (forall history, Forall (fun se => self_emitted (se_payload se)) history ->
        rehydrate history = WaitingForOrderConfirmed)
  /\ (forall t c order rest ty j id now,
        stream (d_store d) t (so_aggregate c) = order :: rest ->
        se_aggregate_type order = "sales.order"%string ->
        let '(s', result) := append_emit (d_store d) t (saga_id t c) ty j id now in
        is_ok result = false /\ forall t' a', stream s' t' a' = stream (d_store d) t' a').
Proof.
  intros Hs Hi Ht Hd. split; [|split].
  - unfold saga_turn. by rewrite domain_uncorrelated.
  - intros history. unfold rehydrate, initial_state.
    induction 1 as [|se history Hse _ IH]; simpl; [done|].
    destruct (from_value (se_payload se)) as [e|] eqn:Ee; [|exact IH].
    apply Ht in Ee. rewrite self_emitted_untyped in Ee by done. by destruct Ee.
  - intros t c order rest ty j id now Hst Hty.
    unfold append_emit. destruct (es_append _ _ _) as [s' [committed|e]] eqn:Ea.
    + exfalso. eapply (append_committed _ _ _ _ _ t (so_aggregate c) saga_type) in Ea.
      * destruct Ea as (_ & _ & Hstable & _). rewrite Hst in Hstable. simpl in Hstable.
        by rewrite Hty in Hstable.
      * split; [done|]. by repeat constructor.
    + split; [done|]. by eapply append_failed.
Qed.
End Saga.

(** ** A sample: a confirmed order in memory *)
Module Sample.
Inductive JV : Type :=
| JObj (entries : list (string * JV))
| JArr (items : list JV)
| JStr (s : string)
| JNum (n : Z)
| JBool (b : bool).

#[local] Instance sample_json : Json JV :=
  {| j_object := JObj; j_array := JArr; j_str := JStr; j_num := JNum; j_bool := JBool;
     as_object j := match j with JObj l => Some l | _ => None end;
     as_str j := match j with JStr s => Some s | _ => None end |}.
#[local] Instance sample_json_laws : JsonLaws JV.
Proof. constructor. intros obj. by exists obj. Defined.

(** Encoders in the derived form; the fields shown are those the saga looks at. *)
Definition the_order : SalesOrderId := mkSalesOrderId (mkAggregateId 7).
#[local] Instance sales_serde : Serde SalesOrderEvent JV :=
  {| to_value e := Ok (JObj [(sales_variant e, JObj [("order_id", JStr "7")])]%string);
     from_value _ := Err "decoder not needed here"%string |}.
#[local] Instance invoice_serde : Serde InvoiceEvent JV :=
  {| to_value e := Ok (JObj [(invoice_variant e, JObj [("sales_order_id", JStr "7")])]%string);
     from_value _ := Err "decoder not needed here"%string |}.
#[local] Instance saga_serde : Serde SalesArSagaEvent JV :=
  {| to_value _ := Err "encoder not needed here"%string;
     from_value j :=
       match value_get "type" j with
       | Some (JStr "order_confirmed_received") => Ok OrderConfirmedReceived
       | Some (JStr "saga_completed") => Ok SagaCompleted
       | _ => Err "unknown variant"%string
       end |}.
#[local] Instance no_serde {E} : Serde E JV | 100 :=
  {| to_value _ := Err "not needed here"%string; from_value _ := Err "not needed here"%string |}.

Definition parse (s : string) : option Uuid := if String.eqb s "7" then Some 7%N else None.
Definition tenant : TenantId := mkTenantId 1.
Definition confirmed : EventEnvelope JV :=
  mkEnvelope 0%N tenant (so_aggregate the_order) "sales.order" 3
    (JObj [("OrderConfirmed", JObj [("order_id", JStr "7")])]%string).
Definition start : CommandDispatcher (InMemoryEventStore JV) (InMemoryEventBus (EventEnvelope JV)) :=
  mkDispatcher store_new bus_new.
Definition reads : Reads := mkReads 0 0 0 0 0 N.of_nat (fun _ => 0%Z) (fun _ => N.of_nat).

(** The state machine itself moves when its events are properly tagged, and the
    identifier is found when it is at the top. *)
Example tagged_history_advances :
  rehydrate [mkStored 0%N tenant (so_aggregate the_order) saga_type 1 "order_confirmed_received"
               1 0 (JObj [("type", JStr "order_confirmed_received")]%string)]
  = WaitingForInvoiceIssued.
Proof. reflexivity. Qed.
Example flat_payload_correlates :
  correlate parse (mkEnvelope 0%N tenant (so_aggregate the_order) "sales.order" 3
    (JObj [("order_id", JStr "7")]%string)) = Some the_order.
Proof. reflexivity. Qed.

Lemma sales_ar_saga_never_runs_witness :
  saga_turn parse (fun _ => JStr "id") (fun _ => JStr "time") (fun _ => JArr [])
    (fun _ _ => None) (mkAggregateId 9) reads start confirmed = Some start.
Proof.
  apply (sales_ar_saga_never_runs parse (fun _ => JStr "id") (fun _ => JStr "time")
    (fun _ => JArr []) (fun _ _ => None) (mkAggregateId 9) reads start confirmed).
  - intros e j He. injection He as <-. by eexists.
  - intros e j He. injection He as <-. by eexists.
  - intros j e He. simpl in He. destruct (value_get "type" j) as [v|]; [by eexists | discriminate He].
  - split.
    + intros _. exists (EvOrderConfirmed (Sales.mkOrderConfirmed tenant the_order 0)). reflexivity.
    + intros Hty. discriminate Hty.
Defined.
End Sample.
