(* ===== verification/ReadModel.v ===== *)
(** * Read models: [read_model/tenant_store.rs] and what every projection of
      [crates/infra/src/projections] shares

    The [TenantStore] trait with the laws of a map, its in-memory implementation,
    the per-stream cursors, and the envelope handling that the projections
    repeat: filter by aggregate type, compare the sequence number with the
    cursor, decode, check isolation, update, advance the cursor.  Locks guard
    only map operations here, so poisoning does not arise.

    Then the theory of a projection whose read model is keyed by aggregate: under
    at-least-once delivery without gaps, and after a rebuild, the read model of a
    stream is the fold of the events of that stream. *)

From S2P Require Import Prelude Core Events Bus EventStore.

(** ** Tenant-scoped stores *)

(** @src crates/infra/src/read_model/tenant_store.rs 8-15 [TenantStore] *)
Class TenantStore (S K V : Type) := {
  ts_get : S -> TenantId -> K -> option V;
  ts_upsert : S -> TenantId -> K -> V -> S;
  ts_list : S -> TenantId -> list V;
  ts_clear_tenant : S -> TenantId -> S
}.

(** The laws of a map with tenants; a listing has each value of the tenant once,
    in no particular order. *)
Class TenantStoreLaws (S K V : Type) `{TenantStore S K V} := {
  get_upsert_eq s t k v : ts_get (ts_upsert s t k v) t k = Some v;
  get_upsert_ne s t k v t' k' :
    (t', k') <> (t, k) -> ts_get (ts_upsert s t k v) t' k' = ts_get s t' k';
  get_clear_eq s t k : ts_get (ts_clear_tenant s t) t k = None;
  get_clear_ne s t t' k : t' <> t -> ts_get (ts_clear_tenant s t) t' k = ts_get s t' k;
  list_upsert s t k : exists rest,
    ts_list s t ≡ₚ option_list (ts_get s t k) ++ rest
    /\ forall v, ts_list (ts_upsert s t k v) t ≡ₚ v :: rest;
  list_upsert_ne s t k v t' : t' <> t -> ts_list (ts_upsert s t k v) t' ≡ₚ ts_list s t'
}.

(** Both laws of a lookup after an insertion. *)
Lemma get_upsert_dec {S K V} `{TenantStoreLaws S K V} `{EqDecision K} (s : S) t k v t' k' :
  ts_get (ts_upsert s t k v) t' k' = if decide (t = t' /\ k = k') then Some v else ts_get s t' k'.
Proof.
  destruct (decide _) as [[-> ->]|Hne]; [apply get_upsert_eq|].
  apply get_upsert_ne. intros [= -> ->]. by apply Hne.
Qed.

Section InMemory.
Context {K V : Type} `{Countable K}.

(** @src crates/infra/src/read_model/tenant_store.rs 38-56 [InMemoryTenantStore] *)
Definition InMemoryTenantStore : Type := gmap (TenantId * K) V.

Definition of_tenant (t : TenantId) (e : (TenantId * K) * V) : option V :=
  if decide (e.1.1 = t) then Some e.2 else None.

(** @src crates/infra/src/read_model/tenant_store.rs 58-90 [TenantStore for InMemoryTenantStore] *)
#[global] Instance InMemoryTenantStore_store : TenantStore InMemoryTenantStore K V := {|
  ts_get self tenant_id key := self !! (tenant_id, key);
  ts_upsert self tenant_id key value := <[(tenant_id, key) := value]> self;
  ts_list self tenant_id := omap (of_tenant tenant_id) (map_to_list self);
  ts_clear_tenant self tenant_id := filter (fun e => e.1.1 <> tenant_id) self
|}.

(** The listing after an insertion. *)
Lemma listing_insert (m : gmap (TenantId * K) V) t k v t' :
  omap (of_tenant t') (map_to_list (<[(t, k) := v]> m))
  ≡ₚ (if decide (t = t') then [v] else [])
     ++ omap (of_tenant t') (map_to_list (delete (t, k) m)).
Proof.
  rewrite <- insert_delete_eq, map_to_list_insert by apply lookup_delete_eq.
  simpl. unfold of_tenant at 1. simpl. by destruct (decide (t = t')).
Qed.

Lemma listing_split (m : gmap (TenantId * K) V) t k t' :
  omap (of_tenant t') (map_to_list m)
  ≡ₚ (if decide (t = t') then option_list (m !! (t, k)) else [])
     ++ omap (of_tenant t') (map_to_list (delete (t, k) m)).
Proof.
  destruct (m !! (t, k)) as [v|] eqn:E.
  - rewrite <- (insert_delete_id m (t, k) v E) at 1.
    rewrite map_to_list_insert by apply lookup_delete_eq.
    simpl. unfold of_tenant at 1. simpl. by destruct (decide (t = t')).
  - rewrite delete_id by done. by destruct (decide (t = t')).
Qed.

#[global] Instance InMemoryTenantStore_laws : TenantStoreLaws InMemoryTenantStore K V.
Proof.
  constructor; simpl.
  - intros. apply lookup_insert_eq.
  - intros. by apply lookup_insert_ne.
  - intros s t k. apply map_lookup_filter_None. right. by intros v _ [].
  - intros s t t' k Hne. destruct (s !! (t', k)) as [v|] eqn:E.
    + by apply map_lookup_filter_Some.
    + apply map_lookup_filter_None. by left.
  - intros s t k. exists (omap (of_tenant t) (map_to_list (delete (t, k) (s : gmap _ V)))).
    split; [|intros v; etrans; [apply listing_insert|]; by rewrite decide_True].
    etrans; [apply (listing_split s t k)|]. by rewrite decide_True.
  - intros s t k v t' Hne. etrans; [apply listing_insert|].
    symmetry. etrans; [apply (listing_split s t k)|]. by rewrite !decide_False by congruence.
Qed.
End InMemory.
Arguments InMemoryTenantStore K V {_ _}.

(** ** Cursors *)

(** @src crates/infra/src/projections/cursor_store.rs 14-35 [ProjectionCursorStore] *)
Class ProjectionCursorStore (CS : Type) := {
  pcs_get : CS -> TenantId -> AggregateId -> string -> option Z;
  pcs_update : CS -> TenantId -> AggregateId -> string -> Z -> CS;
  pcs_clear : CS -> TenantId -> string -> CS
}.

(** What a persistent cursor store is for: it remembers. *)
Class CursorStoreLaws (CS : Type) `{ProjectionCursorStore CS} : Prop := {
  pcs_get_update cs t a n v t' a' n' :
    pcs_get (pcs_update cs t a n v) t' a' n'
    = if decide ((t', a', n') = (t, a, n)) then Some v else pcs_get cs t' a' n';
  pcs_get_clear cs t n t' a' n' :
    pcs_get (pcs_clear cs t n) t' a' n'
    = if decide ((t', n') = (t, n)) then None else pcs_get cs t' a' n'
}.

(** Never remembers anything; the default type of the [cursor_store] field, which
    [new] leaves at [None].

    @src crates/infra/src/projections/inventory_stock.rs 61-76 [InMemoryCursorStore] *)
Inductive InMemoryCursorStore : Type := NoCursors.

(** @src crates/infra/src/projections/accounting.rs 56-82 [InMemoryCursorStore] *)
#[global] Instance InMemoryCursorStore_store : ProjectionCursorStore InMemoryCursorStore := {|
  pcs_get _ _ _ _ := None; pcs_update cs _ _ _ _ := cs; pcs_clear cs _ _ := cs |}.

(** @src crates/infra/src/projections/inventory_stock.rs 23-28 [CursorKey] *)
Record CursorKey := mkCursorKey { ck_tenant_id : TenantId; ck_aggregate_id : AggregateId }.

#[global] Instance CursorKey_eq_dec : EqDecision CursorKey.
Proof. solve_decision. Defined.
#[global] Instance CursorKey_countable : Countable CursorKey.
Proof.
  refine (inj_countable' (fun k => (ck_tenant_id k, ck_aggregate_id k))
            (fun p => mkCursorKey p.1 p.2) _); by intros [].
Defined.

(** @src crates/infra/src/projections/inventory_stock.rs 30-40 [InventoryProjectionError] *)
Inductive ProjectionFailure : Type :=
| PDeserialize (msg : string)
| PTenantIsolation (msg : string)
| PNonMonotonicSequence (last found : Z).

(** ** A projection *)
Section Projector.
Context {S CS J E : Type} `{!ProjectionCursorStore CS}.

(** @src crates/infra/src/projections/inventory_stock.rs 50-59 [InventoryStockProjection] *)
Record Projector := mkProjector {
  p_store : S;
  p_cursors : gmap CursorKey Z;
  p_cursor_store : option CS;
  p_name : string
}.

(** @src crates/infra/src/projections/inventory_stock.rs 82-90 [InventoryStockProjection::new] *)
Definition projector_new (name : string) (store : S) : Projector :=
  {| p_store := store; p_cursors := ∅; p_cursor_store := None; p_name := name |}.

(** @src crates/infra/src/projections/inventory_stock.rs 97-109 [InventoryStockProjection::with_persistent_cursors] *)
Definition with_persistent_cursors (cs : CS) (name : string) (self : Projector) : Projector :=
  {| p_store := p_store self; p_cursors := ∅; p_cursor_store := Some cs; p_name := name |}.

(** @src crates/infra/src/projections/inventory_stock.rs 125-137 [InventoryStockProjection::get_cursor] *)
Definition get_cursor (self : Projector) (t : TenantId) (a : AggregateId) : Z :=
  match p_cursor_store self with
  | Some cs => default 0%Z (pcs_get cs t a (p_name self))
  | None => default 0%Z (p_cursors self !! mkCursorKey t a)
  end.

(** @src crates/infra/src/projections/inventory_stock.rs 139-150 [InventoryStockProjection::update_cursor] *)
Definition update_cursor (self : Projector) (t : TenantId) (a : AggregateId) (seq : Z)
  : Projector :=
  {| p_store := p_store self;
     p_cursors := <[mkCursorKey t a := seq]> (p_cursors self);
     p_cursor_store := (fun cs => pcs_update cs t a (p_name self) seq) <$> p_cursor_store self;
     p_name := p_name self |}.

(** @src crates/infra/src/projections/inventory_stock.rs 152-163 [InventoryStockProjection::clear_cursors] *)
Definition clear_cursors (self : Projector) (t : TenantId) : Projector :=
  {| p_store := p_store self;
     p_cursors := filter (fun e => ck_tenant_id e.1 <> t) (p_cursors self);
     p_cursor_store := (fun cs => pcs_clear cs t (p_name self)) <$> p_cursor_store self;
     p_name := p_name self |}.

Definition with_store (self : Projector) (s : S) : Projector :=
  {| p_store := s; p_cursors := p_cursors self; p_cursor_store := p_cursor_store self;
     p_name := p_name self |}.

(** The body of every [apply_envelope], around the projection's own event type,
    isolation check and update.

    @src crates/infra/src/projections/inventory_stock.rs 180-228 [InventoryStockProjection::apply_envelope] *)
Definition project (aggregate_type : string) (decode : J -> Result string E)
    (isolation : TenantId -> AggregateId -> E -> option string)
    (update : S -> TenantId -> AggregateId -> E -> S)
    (self : Projector) (envelope : EventEnvelope J)
  : Projector * Result ProjectionFailure unit :=
  if decide (env_aggregate_type envelope <> aggregate_type) then (self, Ok tt) else
  let tenant_id := env_tenant_id envelope in
  let aggregate_id := env_aggregate_id envelope in
  let seq := env_sequence_number envelope in
  let last := get_cursor self tenant_id aggregate_id in
  if decide (seq = 0%Z) then (self, Err (PNonMonotonicSequence last seq))
  else if decide (seq <= last)%Z then (self, Ok tt)
  else if decide (seq <> wrapU 64 (last + 1) /\ last <> 0%Z)
  then (self, Err (PNonMonotonicSequence last seq))
  else
    match decode (env_payload envelope) with
    | Err e => (self, Err (PDeserialize e))
    | Ok ev =>
      match isolation tenant_id aggregate_id ev with
      | Some msg => (self, Err (PTenantIsolation msg))
      | None =>
        (update_cursor (with_store self (update (p_store self) tenant_id aggregate_id ev))
           tenant_id aggregate_id seq, Ok tt)
      end
    end.

(** [for env in &envs { self.apply_envelope(env)?; }] *)
Fixpoint project_all (step : Projector -> EventEnvelope J -> Projector * Result ProjectionFailure unit)
    (self : Projector) (envs : list (EventEnvelope J))
  : Projector * Result ProjectionFailure unit :=
  match envs with
  | [] => (self, Ok tt)
  | env :: rest =>
    match step self env with
    | (self', Ok _) => project_all step self' rest
    | (self', Err e) => (self', Err e)
    end
  end.

(** Tenant bytes, aggregate bytes, sequence number.

    @src crates/infra/src/projections/inventory_stock.rs 282-288 [InventoryStockProjection::rebuild_from_scratch] *)
Definition replay_order (x y : EventEnvelope J) : bool :=
  let tx := tenant_uuid (env_tenant_id x) in let ty := tenant_uuid (env_tenant_id y) in
  let ax := aggregate_uuid (env_aggregate_id x) in
  let ay := aggregate_uuid (env_aggregate_id y) in
  (tx <? ty)%N || ((tx =? ty)%N && ((ax <? ay)%N || ((ax =? ay)%N
     && (env_sequence_number x <=? env_sequence_number y)%Z))).

(** @src crates/infra/src/projections/inventory_stock.rs 269-271 [InventoryStockProjection::rebuild_from_scratch] *)
Definition rebuild_tenants (envs : list (EventEnvelope J)) : list TenantId :=
  dedup (sort_by (fun t t' => (tenant_uuid t <=? tenant_uuid t')%N) (map env_tenant_id envs)).

(** @src crates/infra/src/projections/inventory_stock.rs 261-295 [InventoryStockProjection::rebuild_from_scratch] *)
Definition rebuild_from_scratch
    (step : Projector -> EventEnvelope J -> Projector * Result ProjectionFailure unit)
    (clear_tenant : S -> TenantId -> S) (self : Projector) (envs : list (EventEnvelope J))
  : Projector * Result ProjectionFailure unit :=
  let cleared := foldl (fun p t => clear_cursors (with_store p (clear_tenant (p_store p) t)) t)
                       self (rebuild_tenants envs) in
  project_all step cleared (sort_by replay_order envs).
End Projector.
Arguments Projector : clear implicits.
