(* ===== verification/Projection.v ===== *)
(** * The theory of keyed projections

    A projection whose read model has one entry per aggregate.  [Keyed] is what
    such a projection promises: its update touches the entry of the event's
    aggregate only, by a step that depends on that entry only.  The theorems about
    delivery and rebuilding are proved against it, and the projection files
    discharge it. *)

From S2P Require Import Prelude Core Events Bus EventStore ReadModel.

Class Keyed (S K V J E : Type) `{TenantStore S K V} := {
  kp_type : string;
  kp_decode : J -> Result string E;
  kp_isolation : TenantId -> AggregateId -> E -> option string;
  kp_update : S -> TenantId -> AggregateId -> E -> S;
  kp_key : AggregateId -> K;
  kp_step : AggregateId -> option V -> E -> option V;
  kp_key_inj a a' : kp_key a = kp_key a' -> a = a';
  kp_update_eq s t a e : kp_isolation t a e = None ->
    ts_get (kp_update s t a e) t (kp_key a) = kp_step a (ts_get s t (kp_key a)) e;
  kp_update_ne s t a e t' k : kp_isolation t a e = None -> (t', k) <> (t, kp_key a) ->
    ts_get (kp_update s t a e) t' k = ts_get s t' k
}.

(** ** Delivery of envelopes of one aggregate type *)
Section Delivery.
Context {J : Type} (ty : string).
Implicit Types (env : EventEnvelope J) (envs : list (EventEnvelope J)).

(** The envelopes the projection looks at. *)
Definition mine env : Prop := env_aggregate_type env = ty.
#[global] Instance mine_dec env : Decision (mine env).
Proof. unfold mine. apply _. Defined.

Definition about t a env : bool :=
  bool_decide (mine env /\ env_tenant_id env = t /\ env_aggregate_id env = a).

(** How far a list of envelopes reaches into a stream. *)
Definition reach (t : TenantId) (a : AggregateId) (envs : list (EventEnvelope J)) : nat :=
  foldr (fun env n => if about t a env then max (Z.to_nat (env_sequence_number env)) n else n)
    0 envs.

Lemma reach_app t a xs ys : reach t a (xs ++ ys) = max (reach t a xs) (reach t a ys).
Proof. induction xs as [|x xs IH]; simpl; [done|]. rewrite IH. destruct (about t a x); lia. Qed.

Lemma reach_snoc t a xs env :
  reach t a (xs ++ [env])
  = if about t a env then max (Z.to_nat (env_sequence_number env)) (reach t a xs)
    else reach t a xs.
Proof. rewrite reach_app. simpl. destruct (about t a env); lia. Qed.

Lemma about_spec t a env :
  about t a env = true <-> mine env /\ env_tenant_id env = t /\ env_aggregate_id env = a.
Proof. apply bool_decide_eq_true. Qed.

(** At-least-once delivery without gaps: an envelope is at most one position
    beyond what was delivered of its stream before. *)
Definition gap_free (t : TenantId) (a : AggregateId) (envs : list (EventEnvelope J)) : Prop :=
  forall pre env post, envs = pre ++ env :: post -> about t a env = true ->
    Z.to_nat (env_sequence_number env) <= Datatypes.S (reach t a pre).

Lemma gap_free_prefix t a xs ys : gap_free t a (xs ++ ys) -> gap_free t a xs.
Proof. intros Hg pre env post ->. apply (Hg pre env (post ++ ys)). by rewrite <- app_assoc. Qed.

Lemma reach_elem t a env envs :
  env ∈ envs -> about t a env = true -> Z.to_nat (env_sequence_number env) <= reach t a envs.
Proof.
  induction 1 as [env envs|env x envs _ IH]; intros Ha; simpl; [rewrite Ha; lia|].
  specialize (IH Ha). destruct (about t a x); lia.
Qed.

Lemma reach_bound t a envs n :
  (forall env, env ∈ envs -> about t a env = true -> Z.to_nat (env_sequence_number env) <= n) ->
  reach t a envs <= n.
Proof.
  induction envs as [|x envs IH]; intros Hb; simpl; [lia|].
  assert (reach t a envs <= n) by (apply IH; intros; apply Hb; set_solver).
  destruct (about t a x) eqn:Ha; [|done]. specialize (Hb x). set_solver by lia.
Qed.

(** The same, decided by one pass over the list; [n] is how far the stream was
    delivered before. *)
Fixpoint gap_free_b (t : TenantId) (a : AggregateId) (n : nat) envs : bool :=
  match envs with
  | [] => true
  | x :: rest =>
    if about t a x
    then (Z.to_nat (env_sequence_number x) <=? Datatypes.S n)
         && gap_free_b t a (max (Z.to_nat (env_sequence_number x)) n) rest
    else gap_free_b t a n rest
  end.

Lemma gap_free_snoc t a pre x :
  gap_free t a pre ->
  (about t a x = true -> Z.to_nat (env_sequence_number x) <= Datatypes.S (reach t a pre)) ->
  gap_free t a (pre ++ [x]).
Proof.
  intros Hg Hx p e q Heq Ha. destruct q as [|y q _] using rev_ind.
  - apply app_inj_tail in Heq as [-> ->]. auto.
  - rewrite app_comm_cons, app_assoc in Heq. apply app_inj_tail in Heq as [-> ->].
    by apply (Hg p e q).
Qed.

Lemma gap_free_b_sound t a envs : forall pre,
  gap_free t a pre -> gap_free_b t a (reach t a pre) envs = true -> gap_free t a (pre ++ envs).
Proof.
  induction envs as [|x envs IH]; intros pre Hg Hb; [by rewrite app_nil_r|].
  rewrite cons_middle, app_assoc. simpl in Hb.
  destruct (about t a x) eqn:Ha.
  - apply andb_true_iff in Hb as [Hle Hb]. apply Nat.leb_le in Hle.
    apply IH; [by apply gap_free_snoc|]. by rewrite reach_snoc, Ha.
  - apply IH; [apply gap_free_snoc; [done | congruence]|]. by rewrite reach_snoc, Ha.
Qed.

Lemma gap_free_check t a envs : gap_free_b t a 0 envs = true -> gap_free t a envs.
Proof. apply (gap_free_b_sound t a envs []). intros [] ? ?; done. Qed.
End Delivery.

Section Theory.
Context {S K V J E CS : Type}.
Context `{HTS : TenantStoreLaws S K V} `{HK : !Keyed S K V J E} `{!ProjectionCursorStore CS}.
Implicit Types (p : Projector S CS) (env : EventEnvelope J) (envs : list (EventEnvelope J)).

Definition deliver p env : Projector S CS * Result ProjectionFailure unit :=
  project kp_type kp_decode kp_isolation kp_update p env.

Definition rebuild p (envs : list (EventEnvelope J)) :=
  rebuild_from_scratch deliver ts_clear_tenant p envs.

(** The cursors work: either they live in memory or the store behind them
    remembers. *)
Definition cursors_work p : Prop := p_cursor_store p = None \/ CursorStoreLaws CS.

Lemma get_update_cursor p t a v t' a' :
  cursors_work p ->
  get_cursor (update_cursor p t a v) t' a'
  = if decide ((t', a') = (t, a)) then v else get_cursor p t' a'.
Proof.
  unfold get_cursor, update_cursor. intros [Hn|Hl]; simpl.
  - rewrite Hn. simpl. destruct (decide _) as [[= -> ->]|Hne].
    + by rewrite lookup_insert_eq.
    + by rewrite lookup_insert_ne by congruence.
  - destruct (p_cursor_store p) as [cs|]; simpl.
    + rewrite pcs_get_update. destruct (decide ((t', a') = (t, a))) as [[= -> ->]|Hne].
      * by rewrite decide_True.
      * by rewrite decide_False by congruence.
    + destruct (decide _) as [[= -> ->]|Hne].
      * by rewrite lookup_insert_eq.
      * by rewrite lookup_insert_ne by congruence.
Qed.

Lemma get_clear_cursors p t t' a' :
  cursors_work p ->
  get_cursor (clear_cursors p t) t' a' = if decide (t' = t) then 0%Z else get_cursor p t' a'.
Proof.
  assert (Hmem : filter (fun e => ck_tenant_id e.1 <> t) (p_cursors p) !! mkCursorKey t' a'
    = if decide (t' = t) then None else p_cursors p !! mkCursorKey t' a').
  { destruct (decide (t' = t)) as [->|Hne].
    - apply map_lookup_filter_None. right. by intros v _ [].
    - destruct (p_cursors p !! mkCursorKey t' a') as [v|] eqn:Ev.
      + by apply map_lookup_filter_Some.
      + apply map_lookup_filter_None. by left. }
  unfold get_cursor, clear_cursors. intros Hw. simpl. rewrite Hmem.
  destruct (p_cursor_store p) as [cs|] eqn:Hn; simpl; [|by destruct (decide _)].
  destruct Hw as [Hw|Hl]; [congruence|]. rewrite pcs_get_clear. destruct (decide (t' = t)) as [->|Hne].
  - by rewrite decide_True.
  - by rewrite decide_False by congruence.
Qed.

(** ** The history behind the envelopes

    [hist t a] is the typed history of the stream [a] of tenant [t]. *)
Context (hist : TenantId -> AggregateId -> list E).
Context (hist_owned : forall t a e, e ∈ hist t a -> kp_isolation t a e = None).
Context (hist_short : forall t a, (Z.of_nat (length (hist t a)) < 2 ^ 64)%Z).

(** An envelope of another aggregate type, or one that carries an event of the
    history under its position. *)
Definition from_history env : Prop :=
  mine kp_type env -> exists i e, hist (env_tenant_id env) (env_aggregate_id env) !! i = Some e
    /\ env_sequence_number env = (Z.of_nat i + 1)%Z /\ kp_decode (env_payload env) = Ok e.

(** The projection has processed the first [n] events of the stream. *)
Definition tracks p (t : TenantId) (a : AggregateId) (n : nat) : Prop :=
  get_cursor p t a = Z.of_nat n /\ n <= length (hist t a)
  /\ ts_get (p_store p) t (kp_key a) = foldl (kp_step a) None (take n (hist t a)).

Lemma deliver_other p env : ~ mine kp_type env -> deliver p env = (p, Ok tt).
Proof. intros Hm. unfold deliver, project. by rewrite decide_True. Qed.

Lemma deliver_not_about p env t a n :
  cursors_work p -> about kp_type t a env = false -> from_history env ->
  tracks p t a n -> tracks (deliver p env).1 t a n.
Proof.
  intros Hw Ha Hf Ht. apply bool_decide_eq_false_1 in Ha.
  destruct (decide (mine kp_type env)) as [Hm|Hm]; [|by rewrite deliver_other].
  destruct (Hf Hm) as (i & e & Hi & Hs & Hd). unfold deliver, project.
  rewrite decide_False by (intros Hn; by apply Hn).
  destruct (decide _); [done|]. destruct (decide _); [done|]. destruct (decide _); [done|].
  rewrite Hd, (hist_owned _ _ e) by by eapply list_elem_of_lookup_2.
  destruct Ht as (Hc & Hl & Hg). split; [|split; [done|]]; simpl.
  - rewrite get_update_cursor by done. rewrite decide_False; [done|].
    intros [= -> ->]. by apply Ha.
  - rewrite kp_update_ne; [done| |].
    + eapply hist_owned, list_elem_of_lookup_2; done.
    + intros [= -> Hk%kp_key_inj]. subst. by apply Ha.
Qed.

(** Delivering an event the projection knows changes nothing; the next event
    advances it by one step. *)
Lemma deliver_about p env t a n :
  cursors_work p -> about kp_type t a env = true -> from_history env -> tracks p t a n ->
  Z.to_nat (env_sequence_number env) <= Datatypes.S n ->
  (deliver p env).2 = Ok tt
  /\ tracks (deliver p env).1 t a (max (Z.to_nat (env_sequence_number env)) n).
Proof.
  intros Hw Ha Hf Ht Hle. apply about_spec in Ha as (Hm & <- & <-).
  destruct (Hf Hm) as (i & e & Hi & Hs & Hd). destruct Ht as (Hc & Hl & Hg).
  pose proof (lookup_lt_Some _ _ _ Hi) as Hlt. pose proof (hist_short (env_tenant_id env) (env_aggregate_id env)).
  assert (Hiso := hist_owned _ _ e (list_elem_of_lookup_2 _ _ _ Hi)).
  unfold deliver, project. rewrite decide_False by (intros Hn; by apply Hn).
  rewrite Hc, Hs in *. rewrite decide_False by lia.
  destruct (decide _) as [Hdup|Hnew].
  { split; [done|]. replace (max _ n) with n by lia. done. }
  assert (i = n) as -> by lia.
  rewrite decide_False; [|rewrite wrapU_id by ilia; lia]. rewrite Hd, Hiso.
  split; [done|]. replace (max _ n) with (Datatypes.S n) by lia.
  split; [|split]; simpl.
  - rewrite get_update_cursor, decide_True by done. lia.
  - lia.
  - rewrite kp_update_eq, Hg by done. rewrite (take_S_r _ _ e Hi), foldl_app. done.
Qed.

Lemma deliver_cursors_work p env : cursors_work p -> cursors_work (deliver p env).1.
Proof.
  intros Hw. unfold deliver, project. repeat (destruct (decide _); [done|]).
  destruct (kp_decode _) as [e|]; [|done]. destruct (kp_isolation _ _ _); [done|].
  destruct Hw as [Hw|Hw]; [left; simpl; by rewrite Hw | by right].
Qed.

Lemma deliver_frame p env t k :
  (mine kp_type env -> env_tenant_id env <> t) ->
  ts_get (p_store (deliver p env).1) t k = ts_get (p_store p) t k.
Proof.
  intros Hne. destruct (decide (mine kp_type env)) as [Hm|Hm]; [|by rewrite deliver_other].
  specialize (Hne Hm). unfold deliver, project. repeat (destruct (decide _); [done|]).
  destruct (kp_decode _) as [e|]; [|done]. destruct (kp_isolation _ _ _) eqn:Hi; [done|].
  simpl. apply kp_update_ne; [done | congruence].
Qed.

Lemma project_all_app (step : Projector S CS -> EventEnvelope J -> _) p xs ys :
  project_all step p (xs ++ ys) =
  match project_all step p xs with
  | (p', Ok _) => project_all step p' ys
  | (p', Err e) => (p', Err e)
  end.
Proof.
  revert p; induction xs as [|x xs IH]; intros p; simpl; [done|].
  destruct (step p x) as [p1 [[]|]]; [apply IH | done].
Qed.

(** A stream the projection has not seen may start anywhere; what comes at or before
    its cursor is dropped in silence. *)
Lemma deliver_first p env e :
  mine kp_type env -> get_cursor p (env_tenant_id env) (env_aggregate_id env) = 0%Z ->
  (0 < env_sequence_number env)%Z -> kp_decode (env_payload env) = Ok e ->
  kp_isolation (env_tenant_id env) (env_aggregate_id env) e = None ->
  deliver p env
  = (update_cursor (with_store p (kp_update (p_store p) (env_tenant_id env) (env_aggregate_id env) e))
       (env_tenant_id env) (env_aggregate_id env) (env_sequence_number env), Ok tt).
Proof.
  intros Hm Hc Hs Hd Hi. unfold deliver, project. rewrite decide_False by (intros Hn; by apply Hn).
  rewrite Hc, decide_False by lia. rewrite decide_False by lia.
  rewrite decide_False by (intros [_ Hn]; by apply Hn). by rewrite Hd, Hi.
Qed.

Lemma deliver_stale p env :
  mine kp_type env -> (0 < env_sequence_number env)%Z ->
  (env_sequence_number env <= get_cursor p (env_tenant_id env) (env_aggregate_id env))%Z ->
  deliver p env = (p, Ok tt).
Proof.
  intros Hm Hs Hc. unfold deliver, project. rewrite decide_False by (intros Hn; by apply Hn).
  rewrite decide_False by lia. by rewrite decide_True.
Qed.

Lemma project_all_stale p envs :
  (forall env, env ∈ envs -> mine kp_type env /\ (0 < env_sequence_number env)%Z
     /\ (env_sequence_number env <= get_cursor p (env_tenant_id env) (env_aggregate_id env))%Z) ->
  project_all deliver p envs = (p, Ok tt).
Proof.
  induction envs as [|env envs IH]; intros Hall; [done|]. simpl.
  destruct (Hall env) as (Hm & Hs & Hc); [left|]. rewrite deliver_stale by done.
  apply IH. intros x Hx. apply Hall. by right.
Qed.

(** When no delivery fails, stopping at the first failure makes no difference. *)
Lemma project_all_foldl p envs :
  (project_all deliver p envs).2 = Ok tt ->
  foldl (fun p env => (deliver p env).1) p envs = (project_all deliver p envs).1.
Proof.
  revert p; induction envs as [|env envs IH]; intros p; simpl; [done|].
  destruct (deliver p env) as [p1 [[]|e]]; [apply IH | done].
Qed.

Lemma run_tracks (T : TenantId -> Prop) p envs :
  cursors_work p ->
  (forall env, env ∈ envs -> from_history env /\ (mine kp_type env -> T (env_tenant_id env))) ->
  (forall t a, T t -> gap_free kp_type t a envs) ->
  (forall t a, T t -> tracks p t a 0) ->
  (project_all deliver p envs).2 = Ok tt
  /\ cursors_work (project_all deliver p envs).1
  /\ (forall t a, T t -> tracks (project_all deliver p envs).1 t a (reach kp_type t a envs))
  /\ (forall t k, ~ T t ->
       ts_get (p_store (project_all deliver p envs).1) t k = ts_get (p_store p) t k).
Proof.
  intros Hw Hin Hgap Htr.
  induction envs as [|env envs IH] using rev_ind; [by split_and!; auto|].
  destruct IH as (Hok & Hw' & Htr' & Hfr).
  { intros x Hx. apply Hin. set_solver. }
  { intros t a Ht. eapply gap_free_prefix, Hgap, Ht. }
  destruct (Hin env) as [Hf HT]; [set_solver|].
  rewrite project_all_app. destruct (project_all deliver p envs) as [p1 r]. simpl in Hok. subst r.
  cbn [fst] in *.
  assert (Hstep : (deliver p1 env).2 = Ok tt).
  { destruct (decide (mine kp_type env)) as [Hm|Hm]; [|by rewrite deliver_other].
    assert (Ha : about kp_type (env_tenant_id env) (env_aggregate_id env) env = true) by by apply about_spec.
    eapply (deliver_about p1 env); [done..| |]; [by apply Htr', HT|].
    by apply (Hgap _ _ (HT Hm) envs env []). }
  assert (Htr2 : forall t a, T t -> tracks (deliver p1 env).1 t a (reach kp_type t a (envs ++ [env]))).
  { intros t a Ht. rewrite reach_snoc. destruct (about kp_type t a env) eqn:Ha.
    - apply deliver_about; [done..|by apply Htr'|]. by apply (Hgap _ _ Ht envs env []).
    - apply deliver_not_about; auto. }
  assert (Hw2 := deliver_cursors_work p1 env Hw').
  assert (Hfr2 : forall t k, ~ T t -> ts_get (p_store (deliver p1 env).1) t k = ts_get (p_store p) t k).
  { intros t k Ht. rewrite deliver_frame; [by apply Hfr|]. intros Hm <-. by apply Ht, HT. }
  simpl. destruct (deliver p1 env) as [p2 [[]|]]; [|done]. done.
Qed.

(** ** Rebuilding *)

Lemma replay_order_le (x y : EventEnvelope J) :
  replay_order x y = true <->
  (tenant_uuid (env_tenant_id x) < tenant_uuid (env_tenant_id y))%N
  \/ (tenant_uuid (env_tenant_id x) = tenant_uuid (env_tenant_id y)
      /\ ((aggregate_uuid (env_aggregate_id x) < aggregate_uuid (env_aggregate_id y))%N
          \/ (aggregate_uuid (env_aggregate_id x) = aggregate_uuid (env_aggregate_id y)
              /\ (env_sequence_number x <= env_sequence_number y)%Z))).
Proof.
  unfold replay_order. rewrite !orb_true_iff, !andb_true_iff, !orb_true_iff, !andb_true_iff.
  rewrite !N.ltb_lt, !N.eqb_eq, Z.leb_le. done.
Qed.

Lemma replay_order_total (x y : EventEnvelope J) :
  replay_order x y = true \/ replay_order y x = true.
Proof. rewrite !replay_order_le. lia. Qed.

Lemma replay_order_trans (x y z : EventEnvelope J) :
  replay_order x y = true -> replay_order y z = true -> replay_order x z = true.
Proof. rewrite !replay_order_le. lia. Qed.

(** Sorted complete histories have no gaps. *)
Lemma sorted_gap_free t a envs :
  StronglySorted (fun x y => replay_order x y = true) envs ->
  (forall env, env ∈ envs -> from_history env) ->
  (forall i, i < length (hist t a) ->
     exists env, env ∈ envs /\ about kp_type t a env = true
                 /\ env_sequence_number env = (Z.of_nat i + 1)%Z) ->
  gap_free kp_type t a envs.
Proof.
  intros Hs Hf Hall pre env post -> Ha.
  assert (Ha' := Ha). apply about_spec in Ha' as (Hm & <- & <-).
  destruct (Hf env ltac:(set_solver) Hm) as (i & e & Hi & Hseq & _).
  destruct i as [|i]; [lia|]. apply lookup_lt_Some in Hi.
  destruct (Hall i) as (env' & Hin & Ha' & Hseq'); [lia|].
  apply elem_of_app in Hin as [Hin|[->|Hin]%elem_of_cons]; [|lia|].
  - pose proof (reach_elem _ _ _ _ _ Hin Ha'). lia.
  - exfalso. rewrite cons_middle, app_assoc in Hs.
    pose proof (StronglySorted_app_1_elem_of _ _ _ env env' Hs ltac:(set_solver) Hin) as Hle.
    simpl in Hle.
    apply about_spec in Ha' as (_ & Ht & Hg). apply replay_order_le in Hle.
    rewrite Ht, Hg in Hle. lia.
Qed.

Lemma reach_all t a envs :
  (forall env, env ∈ envs -> from_history env) ->
  (forall i, i < length (hist t a) ->
     exists env, env ∈ envs /\ about kp_type t a env = true
                 /\ env_sequence_number env = (Z.of_nat i + 1)%Z) ->
  reach kp_type t a envs = length (hist t a).
Proof.
  intros Hf Hall. apply Nat.le_antisymm.
  - apply reach_bound. intros env Hin Ha. apply about_spec in Ha as (Hm & <- & <-).
    destruct (Hf env Hin Hm) as (i & e & Hi & Hseq & _). apply lookup_lt_Some in Hi. lia.
  - destruct (length (hist t a)) as [|n] eqn:El; [lia|].
    destruct (Hall n) as (env & Hin & Ha & Hseq); [lia|].
    pose proof (reach_elem _ _ _ _ _ Hin Ha). lia.
Qed.

Definition clear_all p (ts : list TenantId) : Projector S CS :=
  foldl (fun p t => clear_cursors (with_store p (ts_clear_tenant (p_store p) t)) t) p ts.

Lemma clear_all_spec ts p :
  cursors_work p ->
  cursors_work (clear_all p ts)
  /\ (forall t, t ∈ ts -> (forall a, get_cursor (clear_all p ts) t a = 0%Z)
                          /\ forall k, ts_get (p_store (clear_all p ts)) t k = None)
  /\ (forall t k, t ∉ ts -> ts_get (p_store (clear_all p ts)) t k = ts_get (p_store p) t k).
Proof.
  intros Hw. induction ts as [|t0 ts IH] using rev_ind.
  { split_and!; [done | intros t Ht; by apply not_elem_of_nil in Ht | done]. }
  destruct IH as (Hw' & Hin & Hout). unfold clear_all in *. rewrite foldl_snoc.
  set (q := foldl _ p ts) in *. 
  assert (Hcw : cursors_work (with_store q (ts_clear_tenant (p_store q) t0))) by exact Hw'.
  split_and!.
  - destruct Hw' as [Hw'|Hw']; [left; simpl; by rewrite Hw' | by right].
  - intros t Ht. split; [intros a; rewrite get_clear_cursors by done|intros k; simpl];
      (destruct (decide (t = t0)) as [->|Hne]; [try apply get_clear_eq; done|]);
      (assert (t ∈ ts) as [Hc Hk]%Hin by set_solver); [apply Hc|].
    by rewrite get_clear_ne.
  - intros t k Ht. simpl. rewrite get_clear_ne by set_solver. apply Hout. set_solver.
Qed.

Lemma rebuild_tenants_elem t (envs : list (EventEnvelope J)) :
  t ∈ rebuild_tenants envs <-> exists env, env ∈ envs /\ env_tenant_id env = t.
Proof.
  unfold rebuild_tenants. rewrite dedup_elem_of, sort_by_perm, list_elem_of_fmap.
  naive_solver.
Qed.

(** A rebuild from all the events of the tenants it names ends with every one of
    their streams processed, and leaves the other tenants alone. *)
Lemma rebuild_processes p envs :
  cursors_work p ->
  (forall env, env ∈ envs -> from_history env) ->
  (forall t a i, (exists env, env ∈ envs /\ env_tenant_id env = t) -> i < length (hist t a) ->
     exists env, env ∈ envs /\ about kp_type t a env = true
                 /\ env_sequence_number env = (Z.of_nat i + 1)%Z) ->
  (rebuild p envs).2 = Ok tt /\ cursors_work (rebuild p envs).1
  /\ (forall t a, (exists env, env ∈ envs /\ env_tenant_id env = t) ->
       tracks (rebuild p envs).1 t a (length (hist t a)))
  /\ (forall t k, (forall env, env ∈ envs -> env_tenant_id env <> t) ->
       ts_get (p_store (rebuild p envs).1) t k = ts_get (p_store p) t k).
Proof.
  intros Hw Hf Hall. unfold rebuild, rebuild_from_scratch.
  fold (clear_all p (rebuild_tenants envs)).
  destruct (clear_all_spec (rebuild_tenants envs) p Hw) as (Hw' & Hin & Hout).
  set (sorted := sort_by replay_order envs).
  assert (Hperm : forall env, env ∈ sorted <-> env ∈ envs)
    by (intros; unfold sorted; by rewrite sort_by_perm).
  assert (Hf' : forall env, env ∈ sorted -> from_history env) by (intros; by apply Hf, Hperm).
  assert (Hall' : forall t a i, t ∈ rebuild_tenants envs -> i < length (hist t a) ->
     exists env, env ∈ sorted /\ about kp_type t a env = true
                 /\ env_sequence_number env = (Z.of_nat i + 1)%Z).
  { intros t a i Ht%rebuild_tenants_elem Hi. setoid_rewrite Hperm. by apply Hall. }
  destruct (run_tracks (fun t => t ∈ rebuild_tenants envs) (clear_all p (rebuild_tenants envs))
              sorted Hw') as (Hok & Hcw & Htr & Hfr).
  - intros env He. split; [by apply Hf'|]. intros _. apply rebuild_tenants_elem.
    exists env. by rewrite <- Hperm.
  - intros t a Ht. apply sorted_gap_free; [|done|intros i; by apply Hall'].
    apply sort_by_sorted; [apply replay_order_total | apply replay_order_trans].
  - intros t a Ht. destruct (Hin t Ht) as [Hc Hk]. split_and!; [apply Hc | lia | by rewrite Hk].
  - split_and!; [done..| |].
    + intros t a Ht%rebuild_tenants_elem.
      rewrite <- (reach_all t a sorted) by (auto || by apply Hall'). by apply Htr.
    + intros t k Hne. assert (Hnt : t ∉ rebuild_tenants envs).
      { intros (env & He & Heq)%rebuild_tenants_elem. by apply (Hne env He). }
      rewrite Hfr by done. by apply Hout.
Qed.

(** A rebuild from all the events of the tenants it names ends with every read
    model of those tenants equal to the fold of its whole history, and leaves the
    other tenants alone. *)
Lemma rebuild_tracks p envs :
  cursors_work p ->
  (forall env, env ∈ envs -> from_history env) ->
  (forall t a i, (exists env, env ∈ envs /\ env_tenant_id env = t) -> i < length (hist t a) ->
     exists env, env ∈ envs /\ about kp_type t a env = true
                 /\ env_sequence_number env = (Z.of_nat i + 1)%Z) ->
  (rebuild p envs).2 = Ok tt
  /\ (forall t a, (exists env, env ∈ envs /\ env_tenant_id env = t) ->
       ts_get (p_store (rebuild p envs).1) t (kp_key a) = foldl (kp_step a) None (hist t a))
  /\ (forall t k, (forall env, env ∈ envs -> env_tenant_id env <> t) ->
       ts_get (p_store (rebuild p envs).1) t k = ts_get (p_store p) t k).
Proof.
  intros Hw Hf Hall. destruct (rebuild_processes p envs Hw Hf Hall) as (Hok & _ & Htr & Hout).
  split_and!; [done| |done]. intros t a Ht. destruct (Htr t a Ht) as (_ & _ & ->).
  by rewrite firstn_all.
Qed.
End Theory.

(** What a projection is fed: histories of its own streams, each without gaps, amid
    envelopes of other types. *)
Definition served {S K V J E} `{TenantStoreLaws S K V} (HK : Keyed S K V J E)
    (hist : TenantId -> AggregateId -> list E) (envs : list (EventEnvelope J)) : Prop :=
  (forall t a e, e ∈ hist t a -> kp_isolation t a e = None)
  /\ (forall t a, (Z.of_nat (length (hist t a)) < 2 ^ 64)%Z)
  /\ (forall env, env ∈ envs -> from_history (HK:=HK) hist env)
  /\ (forall t a, gap_free kp_type t a envs).

Lemma served_ext {S K V J E} `{TenantStoreLaws S K V} (HK : Keyed S K V J E)
    hist hist' (envs : list (EventEnvelope J)) :
  (forall t a, hist' t a = hist t a) -> served HK hist envs -> served HK hist' envs.
Proof.
  intros Heq (Hown & Hshort & Hf & Hgap). split_and!; [..|done].
  - intros t a e. rewrite Heq. apply Hown.
  - intros t a. rewrite Heq. apply Hshort.
  - intros env He Hm. rewrite Heq. by apply Hf.
Qed.

(** One stream only. *)
Definition only {E} (t0 : TenantId) (a0 : AggregateId) (es : list E)
    (t : TenantId) (a : AggregateId) : list E :=
  if decide (t = t0 /\ a = a0) then es else [].

Lemma served_only {S K V J E} `{TenantStoreLaws S K V} (HK : Keyed S K V J E)
    t0 a0 (es : list E) (envs : list (EventEnvelope J)) :
  Forall (fun e => kp_isolation t0 a0 e = None) es ->
  (Z.of_nat (length es) < 2 ^ 64)%Z ->
  Forall (fun env => mine kp_type env -> env_tenant_id env = t0 /\ env_aggregate_id env = a0
    /\ exists i e, es !! i = Some e /\ env_sequence_number env = (Z.of_nat i + 1)%Z
                   /\ kp_decode (env_payload env) = Ok e) envs ->
  gap_free_b kp_type t0 a0 0 envs = true ->
  served HK (only t0 a0 es) envs.
Proof.
  intros Hown Hshort Hin Hgap. rewrite Forall_forall in Hown. rewrite Forall_forall in Hin.
  unfold only. split_and!.
  - intros t a e. destruct (decide _) as [[-> ->]|]; [apply Hown|].
    intros He. by apply not_elem_of_nil in He.
  - intros t a. by destruct (decide _).
  - intros env He Hm. destruct (Hin env He Hm) as (Ht & Ha & Hex).
    rewrite decide_True by done. exact Hex.
  - intros t a. destruct (decide (t = t0 /\ a = a0)) as [[-> ->]|Hne].
    + by apply gap_free_check.
    + intros pre env post -> Ha. exfalso. apply Hne.
      apply about_spec in Ha as (Hm & <- & <-).
      destruct (Hin env ltac:(set_solver) Hm) as (-> & -> & _). done.
Qed.

(** A new projection that is served follows the histories as far as they were
    delivered. *)
Lemma served_tracks {S K V J E CS} `{TenantStoreLaws S K V} (HK : Keyed S K V J E)
    `{ProjectionCursorStore CS} hist (envs : list (EventEnvelope J)) name (s0 : S) :
  served HK hist envs -> (forall t k, ts_get s0 t k = None) ->
  let p := projector_new (CS:=CS) name s0 in
  (project_all deliver p envs).2 = Ok tt
  /\ forall t a, ts_get (p_store (project_all deliver p envs).1) t (kp_key a)
                 = foldl (kp_step a) None (take (reach kp_type t a envs) (hist t a)).
Proof.
  intros (Hown & Hshort & Hf & Hgap) Hempty p.
  destruct (run_tracks hist Hown Hshort (fun _ => True) p envs)
    as (Hok & _ & Htr & _); [by left | by auto | by auto | |].
  - intros t a _. split; [by unfold get_cursor; simpl; rewrite lookup_empty|].
    split; [lia|]. apply Hempty.
  - split; [done|]. intros t a. by destruct (Htr t a I) as (_ & _ & Hg).
Qed.

(** ** Entry projections

    The match arms of the projections read the entry the event names, compute a
    new one and write it back: [entry e o] is the entry after event [e] when it
    was [o] before, [None] where the arm writes nothing. *)
Section Entry.
Context {S K V J E : Type} `{HTS : TenantStoreLaws S K V} `{HJ : Serde E J}.
Context (ty what : string) (key : AggregateId -> K) (agg : K -> AggregateId).
Context (key_agg : forall a k, agg k = a <-> k = key a).
Context (key_inj : forall a a', key a = key a' -> a = a').
Context (owner : E -> TenantId * K) (entry : option V -> E -> option V).

(** @src crates/infra/src/projections/open_invoices.rs 284-294 [OpenInvoicesProjection::apply_envelope] *)
Definition entry_isolation (tenant_id : TenantId) (aggregate_id : AggregateId) (ev : E)
  : option string :=
  let '(event_tenant, id) := owner ev in
  if decide (event_tenant <> tenant_id)
  then Some "event tenant_id does not match envelope tenant_id"%string
  else if decide (agg id <> aggregate_id)
  then Some ("event " +:+ what +:+ " does not match envelope aggregate_id")
  else None.

Definition entry_update (store : S) (tenant_id : TenantId) (_ : AggregateId) (ev : E) : S :=
  match entry (ts_get store tenant_id (owner ev).2) ev with
  | Some v => ts_upsert store tenant_id (owner ev).2 v
  | None => store
  end.

Lemma entry_isolation_None t a ev : entry_isolation t a ev = None <-> owner ev = (t, key a).
Proof.
  unfold entry_isolation. destruct (owner ev) as [t' k].
  destruct (decide _) as [|Ht%dec_stable]; [split; [done | congruence]|].
  destruct (decide _) as [Hk|Hk%dec_stable].
  - split; [done|]. intros [= -> Hk']. by apply key_agg in Hk'.
  - apply key_agg in Hk. split; [by subst | done].
Qed.

(** An arm that writes nothing found nothing to change. *)
Context (entry_keeps : forall o e, entry o e = None -> o = None).

Definition entry_keyed : Keyed S K V J E.
Proof.
  refine {| kp_type := ty; kp_decode := from_value; kp_isolation := entry_isolation;
            kp_update := entry_update; kp_key := key; kp_step _ o e := entry o e |}.
  - exact key_inj.
  - intros s t a e Ho%entry_isolation_None. unfold entry_update. rewrite Ho. simpl.
    destruct (entry (ts_get s t (key a)) e) as [v|] eqn:Ee; [apply get_upsert_eq|].
    by apply entry_keeps in Ee.
  - intros s t a e t' k Ho%entry_isolation_None Hne. unfold entry_update. rewrite Ho. simpl.
    destruct (entry _ e); [by apply get_upsert_ne | done].
Defined.
End Entry.

