(* ===== verification/Stock.v ===== *)
(** * The stock read model: [projections/inventory_stock.rs]

    The projection of inventory events into a queryable stock level, that it is
    a keyed projection, and that its entries are the rehydrated items. *)

From S2P Require Import Prelude Core Events Bus EventStore ReadModel Projection.
From S2P Require Inventory.
Import Inventory (InventoryItemId, mkInventoryItemId, item_aggregate, InventoryEvent,
  EvItemCreated, EvStockAdjusted, ic_tenant_id, ic_item_id, ic_name, sa_tenant_id,
  sa_item_id, sa_delta, InventoryItem, item_id, item_name, item_stock).

(** @src crates/infra/src/projections/inventory_stock.rs 15-21 [InventoryReadModel] *)
Record InventoryReadModel := mkInventoryReadModel {
  rm_item_id : InventoryItemId;
  rm_name : string;
  rm_quantity : Z
}.

Section Stock.
Context {S J CS : Type}.
Context `{HT : TenantStore S InventoryItemId InventoryReadModel} `{HJ : Serde InventoryEvent J}.
Context `{!ProjectionCursorStore CS}.

(** The tenant and item the event names.

    @src crates/infra/src/projections/inventory_stock.rs 213-216 [InventoryStockProjection::apply_envelope] *)
Definition event_owner (inv : InventoryEvent) : TenantId * InventoryItemId :=
  match inv with
  | EvItemCreated e => (ic_tenant_id e, ic_item_id e)
  | EvStockAdjusted e => (sa_tenant_id e, sa_item_id e)
  end.

(** @src crates/infra/src/projections/inventory_stock.rs 218-228 [InventoryStockProjection::apply_envelope] *)
Definition isolation (tenant_id : TenantId) (aggregate_id : AggregateId) (inv : InventoryEvent)
  : option string :=
  let '(event_tenant, item_id) := event_owner inv in
  if decide (event_tenant <> tenant_id)
  then Some "event tenant_id does not match envelope tenant_id"%string
  else if decide (item_aggregate item_id <> aggregate_id)
  then Some "event item_id does not match envelope aggregate_id"%string
  else None.

(** @src crates/infra/src/projections/inventory_stock.rs 230-252 [InventoryStockProjection::apply_envelope] *)
Definition update (store : S) (tenant_id : TenantId) (_ : AggregateId) (inv : InventoryEvent) : S :=
  match inv with
  | EvItemCreated e =>
    ts_upsert store tenant_id (ic_item_id e)
      {| rm_item_id := ic_item_id e; rm_name := ic_name e; rm_quantity := 0 |}
  | EvStockAdjusted e =>
    let rm := unwrap_or (ts_get store tenant_id (sa_item_id e))
                {| rm_item_id := sa_item_id e; rm_name := ""; rm_quantity := 0 |} in
    ts_upsert store tenant_id (sa_item_id e)
      {| rm_item_id := rm_item_id rm; rm_name := rm_name rm;
         rm_quantity := wrapS 64 (rm_quantity rm + sa_delta e) |}
  end.

(** @src crates/infra/src/projections/inventory_stock.rs 180-258 [InventoryStockProjection::apply_envelope] *)
Definition apply_envelope (self : Projector S CS) (envelope : EventEnvelope J)
  : Projector S CS * Result ProjectionFailure unit :=
  project "inventory.item" from_value isolation update self envelope.

(** @src crates/infra/src/projections/inventory_stock.rs 260-295 [InventoryStockProjection::rebuild_from_scratch] *)
Definition stock_rebuild (self : Projector S CS) (envelopes : list (EventEnvelope J))
  : Projector S CS * Result ProjectionFailure unit :=
  rebuild_from_scratch apply_envelope ts_clear_tenant self envelopes.

(** The update of one entry. *)
Definition stock_step (a : AggregateId) (o : option InventoryReadModel) (inv : InventoryEvent)
  : option InventoryReadModel :=
  match inv with
  | EvItemCreated e =>
    Some {| rm_item_id := mkInventoryItemId a; rm_name := ic_name e; rm_quantity := 0 |}
  | EvStockAdjusted e =>
    let rm := unwrap_or o
      {| rm_item_id := mkInventoryItemId a; rm_name := ""; rm_quantity := 0 |} in
    Some {| rm_item_id := rm_item_id rm; rm_name := rm_name rm;
            rm_quantity := wrapS 64 (rm_quantity rm + sa_delta e) |}
  end.

Lemma isolation_None t a inv :
  isolation t a inv = None <-> event_owner inv = (t, mkInventoryItemId a).
Proof.
  unfold isolation. destruct (event_owner inv) as [t' [a']]. simpl.
  destruct (decide _) as [|Ht%dec_stable]; [split; [done | congruence]|].
  destruct (decide _) as [|Ha%dec_stable]; [split; [done | congruence]|].
  by subst.
Qed.
End Stock.

#[global] Instance stock_keyed {S J} `{TenantStoreLaws S InventoryItemId InventoryReadModel}
  `{Serde InventoryEvent J} : Keyed S InventoryItemId InventoryReadModel J InventoryEvent.
Proof.
  refine {| kp_type := "inventory.item"; kp_decode := from_value; kp_isolation := isolation;
            kp_update := update; kp_key := mkInventoryItemId; kp_step := stock_step |}.
  - by intros a a' [= ->].
  - intros s t a [e|e] Ho%isolation_None; simpl in Ho; injection Ho as _ Hi; simpl;
      by rewrite Hi, get_upsert_eq.
  - intros s t a [e|e] t' k Ho%isolation_None Hne; simpl in Ho; injection Ho as _ Hi; simpl;
      rewrite Hi; by rewrite get_upsert_ne.
Defined.

(** ** The entry is the item *)

Definition stock_view (s : InventoryItem) : InventoryReadModel :=
  {| rm_item_id := item_id s; rm_name := item_name s; rm_quantity := item_stock s |}.

Definition item_at (a : AggregateId) : InventoryItem := Inventory.empty (mkInventoryItemId a).

(** The entry after some events, with the default the projection starts from. *)
Lemma stock_fold_view t a (es : list InventoryEvent) :
  (forall e, e ∈ es -> isolation t a e = None) ->
  unwrap_or (foldl (stock_step a) None es)
    {| rm_item_id := mkInventoryItemId a; rm_name := ""; rm_quantity := 0 |}
  = stock_view (replay (item_at a) es)
  /\ (es <> [] -> is_Some (foldl (stock_step a) None es)).
Proof.
  induction es as [|e es IH] using rev_ind; intros Hes; [done|].
  destruct IH as [IH _]; [intros; apply Hes; set_solver|].
  assert (He : isolation t a e = None) by (apply Hes; set_solver).
  apply isolation_None in He. rewrite replay_snoc, foldl_snoc.
  destruct e as [e|e]; simpl in *; injection He as _ Hi; (split; [|by eexists]).
  - unfold stock_view. simpl. by rewrite Hi.
  - by rewrite IH.
Qed.

Lemma stock_entry_view t a (es : list InventoryEvent) :
  (forall e, e ∈ es -> isolation t a e = None) ->
  foldl (stock_step a) None es
  = if decide (es = []) then None else Some (stock_view (replay (item_at a) es)).
Proof.
  intros Hes. destruct (stock_fold_view t a es Hes) as [Hv Hs].
  destruct (decide (es = [])) as [->|Hne]; [done|].
  destruct (Hs Hne) as [v Ev]. by rewrite Ev, <- Hv, Ev.
Qed.

(** ** Properties *)
Section Properties.
Context {S J CS : Type}.
Context `{HTS : TenantStoreLaws S InventoryItemId InventoryReadModel}.
Context `{HJ : Serde InventoryEvent J} `{!ProjectionCursorStore CS}.

(** C13: the stock read model is the rehydrated item: deliver the events of any
    number of item streams to a new projection, each stream from its first event
    without gaps, but with any interleaving of the streams, any repetitions and
    any envelopes of other modules in between.  Every delivery succeeds, and the
    entry of each item is the name and stock of the aggregate replayed over the
    events delivered so far (there is none before the first). *)
Theorem stock_read_model_is_rehydrated_item (name : string) (s0 : S)
    (hist : TenantId -> AggregateId -> list InventoryEvent) (envs : list (EventEnvelope J)) :
  (forall t a e, e ∈ hist t a -> isolation t a e = None) ->
  (forall t a, (Z.of_nat (length (hist t a)) < 2 ^ 64)%Z) ->
  (forall t k, ts_get s0 t k = None) ->
  (forall env, env ∈ envs -> from_history (HK:=stock_keyed) hist env) ->
  (forall t a, gap_free "inventory.item" t a envs) ->
  let '(p', r) := project_all apply_envelope (projector_new (CS:=CS) name s0) envs in
  r = Ok tt
  /\ forall t a,
       ts_get (p_store p') t (mkInventoryItemId a)
       = (let delivered := take (reach "inventory.item" t a envs) (hist t a) in
          if decide (delivered = []) then None
          else Some (stock_view (replay (item_at a) delivered))).
Proof.
  intros Hown Hshort Hempty Hf Hgap.
  destruct (run_tracks (HK:=stock_keyed) hist Hown Hshort (fun _ => True) (projector_new (CS:=CS) name s0) envs)
    as (Hok & _ & Htr & _); [by left | by auto | by auto | |].
  { intros t a _. split; [by unfold get_cursor; simpl; rewrite lookup_empty|].
    split; [lia|]. apply Hempty. }
  change (project_all deliver) with (project_all (S:=S) (CS:=CS) (J:=J) apply_envelope) in *.
  destruct (project_all _ _ envs) as [p' r]. split; [done|]. intros t a.
  destruct (Htr t a I) as (_ & _ & Hg). etrans; [exact Hg|].
  apply (stock_entry_view t a).
  intros e (i & Hi & _)%elem_of_take. by eapply Hown, list_elem_of_lookup_2.
Qed.

(** C14: a rebuild repairs the stock read model: from any state of the projection,
    however stale or wrong, and from the tenants' whole histories in any order and
    with any repetitions, it succeeds and leaves at each item of those tenants
    exactly the name and stock of the aggregate rehydrated from its history (and no
    entry for an item without one), and every other tenant's entries as they
    were. *)
Theorem stock_rebuild_restores (self : Projector S CS)
    (hist : TenantId -> AggregateId -> list InventoryEvent) (envs : list (EventEnvelope J)) :
  (forall t a e, e ∈ hist t a -> isolation t a e = None) ->
  (forall t a, (Z.of_nat (length (hist t a)) < 2 ^ 64)%Z) ->
  cursors_work self ->
  (forall env, env ∈ envs -> from_history (HK:=stock_keyed) hist env) ->
  (forall t a i, (exists env, env ∈ envs /\ env_tenant_id env = t) -> i < length (hist t a) ->
     exists env, env ∈ envs /\ about "inventory.item" t a env = true
                 /\ env_sequence_number env = (Z.of_nat i + 1)%Z) ->
  let '(self', r) := stock_rebuild self envs in
  r = Ok tt
  /\ (forall t a, (exists env, env ∈ envs /\ env_tenant_id env = t) ->
        ts_get (p_store self') t (mkInventoryItemId a)
        = if decide (hist t a = []) then None
          else Some (stock_view (replay (item_at a) (hist t a))))
  /\ (forall t k, (forall env, env ∈ envs -> env_tenant_id env <> t) ->
        ts_get (p_store self') t k = ts_get (p_store self) t k).
Proof.
  intros Hown Hshort Hw Hf Hall.
  destruct (rebuild_tracks (HK:=stock_keyed) hist Hown Hshort self envs Hw Hf Hall)
    as (Hok & Hin & Hout).
  change (rebuild self envs) with (stock_rebuild (S:=S) (J:=J) self envs) in *.
  destruct (stock_rebuild self envs) as [self' r].
  split; [done|]. split; [|done]. intros t a Ht. etrans; [by apply Hin|].
  apply (stock_entry_view t a). intros e He. by eapply Hown.
Qed.
End Properties.

(** A sample: two items of one tenant, their events interleaved and one repeated. *)
Module Sample.
#[local] Instance sample_serde : Serde InventoryEvent InventoryEvent :=
  {| to_value e := Ok e; from_value j := Ok j |}.

Definition tenant : TenantId := mkTenantId 1.
Definition created (a : N) : InventoryEvent :=
  EvItemCreated (Inventory.mkItemCreated tenant (mkInventoryItemId (mkAggregateId a)) "bolt" 0).
Definition adjusted (a : N) (d : Z) : InventoryEvent :=
  EvStockAdjusted (Inventory.mkStockAdjusted tenant (mkInventoryItemId (mkAggregateId a)) d 0).

Definition hist (t : TenantId) (a : AggregateId) : list InventoryEvent :=
  if decide (t = tenant) then
    if decide (a = mkAggregateId 1) then [created 1; adjusted 1 5; adjusted 1 (-2)] else
    if decide (a = mkAggregateId 2) then [created 2] else []
  else [].

Definition env (a : N) (n : Z) (e : InventoryEvent) : EventEnvelope InventoryEvent :=
  mkEnvelope 0%N tenant (mkAggregateId a) "inventory.item" n e.
Definition envs : list (EventEnvelope InventoryEvent) :=
  [env 1 1 (created 1); env 2 1 (created 2); env 1 2 (adjusted 1 5);
   env 1 1 (created 1); env 1 3 (adjusted 1 (-2))].

Lemma hist_owned t a e : e ∈ hist t a -> isolation t a e = None.
Proof.
  unfold hist. repeat case_decide; subst; intros He;
    repeat (apply elem_of_cons in He as [->|He]; [reflexivity|]);
    by apply not_elem_of_nil in He.
Qed.

Lemma hist_short t a : (Z.of_nat (length (hist t a)) < 2 ^ 64)%Z.
Proof. unfold hist. by repeat case_decide. Qed.

Lemma envs_from_history e : e ∈ envs ->
  from_history (S:=InMemoryTenantStore InventoryItemId InventoryReadModel)
    (HK:=stock_keyed) hist e.
Proof.
  intros He _. repeat (apply elem_of_cons in He as [->|He]);
    [exists 0|exists 0|exists 1|exists 0|exists 2|by apply not_elem_of_nil in He];
    by eexists.
Qed.

Lemma envs_gap_free t a : gap_free "inventory.item" t a envs.
Proof.
  apply gap_free_check. unfold envs. simpl. unfold about. simpl.
  repeat case_bool_decide; simpl; intuition congruence.
Qed.

Lemma stock_read_model_is_rehydrated_item_witness :
  let '(p, r) := project_all apply_envelope
    (projector_new (S:=InMemoryTenantStore InventoryItemId InventoryReadModel)
       (CS:=InMemoryCursorStore) "inventory.stock" ∅) envs in
  r = Ok tt
  /\ ts_get (p_store p) tenant (mkInventoryItemId (mkAggregateId 1))
     = Some {| rm_item_id := mkInventoryItemId (mkAggregateId 1); rm_name := "bolt";
               rm_quantity := 3 |}.
Proof.
  pose proof (stock_read_model_is_rehydrated_item (CS:=InMemoryCursorStore)
    "inventory.stock" (∅ : InMemoryTenantStore InventoryItemId InventoryReadModel) hist envs
    hist_owned hist_short (fun t k => lookup_empty _) envs_from_history envs_gap_free) as H.
  destruct (project_all _ _ envs) as [p r]. destruct H as [Hr H]. split; [exact Hr|].
  etrans; [exact (H tenant (mkAggregateId 1))|]. reflexivity.
Defined.

(** A projection that holds a wrong stock level and has lost its cursors. *)
Definition stale : Projector (InMemoryTenantStore InventoryItemId InventoryReadModel)
    InMemoryCursorStore :=
  projector_new "inventory.stock"
    (ts_upsert ∅ tenant (mkInventoryItemId (mkAggregateId 1))
       (mkInventoryReadModel (mkInventoryItemId (mkAggregateId 1)) "nut" 99)).

Lemma envs_complete t a i : (exists e, e ∈ envs /\ env_tenant_id e = t) -> i < length (hist t a) ->
  exists e, e ∈ rev envs /\ about "inventory.item" t a e = true
            /\ env_sequence_number e = (Z.of_nat i + 1)%Z.
Proof.
  intros _. unfold hist. repeat case_decide; subst; simpl; intros Hi; [|..|lia|lia].
  - destruct i as [|[|[|i]]]; [|..|lia];
      [exists (env 1 1 (created 1))|exists (env 1 2 (adjusted 1 5))|exists (env 1 3 (adjusted 1 (-2)))];
      (split; [apply list_elem_of_In; simpl; tauto | done]).
  - destruct i as [|i]; [|lia]. exists (env 2 1 (created 2)).
    split; [apply list_elem_of_In; simpl; tauto | done].
Qed.

Lemma stock_rebuild_restores_witness :
  let '(p, r) := stock_rebuild stale (rev envs) in
  r = Ok tt
  /\ ts_get (p_store p) tenant (mkInventoryItemId (mkAggregateId 1))
     = Some {| rm_item_id := mkInventoryItemId (mkAggregateId 1); rm_name := "bolt";
               rm_quantity := 3 |}.
Proof.
  pose proof (stock_rebuild_restores stale hist (rev envs) hist_owned hist_short) as H.
  specialize (H (or_introl eq_refl)).
  assert (Hin : forall e, e ∈ rev envs <-> e ∈ envs)
    by (intros e; rewrite !list_elem_of_In; symmetry; apply in_rev).
  specialize (H (fun e He => envs_from_history e (proj1 (Hin e) He))).
  assert (Hex : exists e, e ∈ rev envs /\ env_tenant_id e = tenant)
    by (exists (env 1 3 (adjusted 1 (-2))); split; [left | reflexivity]).
  specialize (H ltac:(intros t a i (e & He & Ht) Hi; apply envs_complete;
    [exists e; split; [by apply Hin | done] | done])).
  destruct (stock_rebuild stale (rev envs)) as [p r]. destruct H as (Hr & H & _).
  split; [exact Hr|]. etrans; [exact (H tenant (mkAggregateId 1) Hex)|]. reflexivity.
Defined.
End Sample.
