(* ===== verification/Receivables.v ===== *)
(** * Accounts receivable read models: [projections/invoices.rs],
      [projections/invoicing.rs] and [projections/open_invoices.rs]

    Three read models of the same invoice events: the invoice document, the
    ageing report and the open invoices.  Each is an entry projection; together
    they mirror the [Invoice] aggregate, with the exceptions the theorem states.

    [now] is the clock [Utc::now()] reads while an event is applied, and
    [fresh_order] the identifier [AggregateId::new()] draws for a payment or a
    voiding that arrives without an invoice; neither is constrained. *)

From S2P Require Import Prelude Core Events Bus EventStore ReadModel Projection.
From S2P Require Import Products Sales Invoicing.

Section Receivables.
Context (now : InvoiceEvent -> DateTime) (fresh_order : InvoiceEvent -> SalesOrderId).

(** @src crates/infra/src/projections/invoices.rs 180-184 [InvoicesProjection::apply_envelope] *)
Definition invoice_owner (ev : InvoiceEvent) : TenantId * InvoiceId :=
  match ev with
  | EvInvoiceIssued e => (iss_tenant_id e, iss_invoice_id e)
  | EvPaymentRegistered e => (pay_tenant_id e, pay_invoice_id e)
  | EvInvoiceVoided e => (voi_tenant_id e, voi_invoice_id e)
  end.

(** ** The invoice document *)

(** @src crates/infra/src/projections/invoices.rs 15-25 [InvoiceReadModel] *)
Record InvoiceReadModel := mkInvoiceReadModel {
  irm_invoice_id : InvoiceId;
  irm_sales_order_id : SalesOrderId;
  irm_due_date : option DateTime;
  irm_status : InvoiceStatus;
  irm_total_amount : Z;
  irm_total_paid : Z;
  irm_lines : list InvoiceLine
}.

(** @src crates/infra/src/projections/invoices.rs 197-242 [InvoicesProjection::apply_envelope] *)
Definition invoice_entry (o : option InvoiceReadModel) (ev : InvoiceEvent)
  : option InvoiceReadModel :=
  let default id :=
    {| irm_invoice_id := id; irm_sales_order_id := fresh_order ev; irm_due_date := None;
       irm_status := Open; irm_total_amount := 0; irm_total_paid := 0; irm_lines := [] |} in
  match ev with
  | EvInvoiceIssued e => Some
    {| irm_invoice_id := iss_invoice_id e; irm_sales_order_id := iss_sales_order_id e;
       irm_due_date := Some (iss_due_date e); irm_status := Open;
       irm_total_amount := iss_total_amount e; irm_total_paid := 0;
       irm_lines := iss_lines e |}
  | EvPaymentRegistered e =>
    let rm := unwrap_or o (default (pay_invoice_id e)) in
    Some {| irm_invoice_id := irm_invoice_id rm; irm_sales_order_id := irm_sales_order_id rm;
            irm_due_date := irm_due_date rm;
            irm_status := if decide (irm_total_amount rm <= pay_new_total_paid e)%Z
                          then Paid else irm_status rm;
            irm_total_amount := irm_total_amount rm; irm_total_paid := pay_new_total_paid e;
            irm_lines := irm_lines rm |}
  | EvInvoiceVoided e =>
    let rm := unwrap_or o (default (voi_invoice_id e)) in
    Some {| irm_invoice_id := irm_invoice_id rm; irm_sales_order_id := irm_sales_order_id rm;
            irm_due_date := irm_due_date rm; irm_status := Void;
            irm_total_amount := irm_total_amount rm; irm_total_paid := irm_total_paid rm;
            irm_lines := irm_lines rm |}
  end.

(** ** The ageing report *)

(** @src crates/infra/src/projections/invoicing.rs 14-28 [InvoiceAgingReadModel] *)
Record InvoiceAgingReadModel := mkInvoiceAgingReadModel {
  age_invoice_id : InvoiceId;
  age_total_amount : Z;
  age_outstanding_amount : Z;
  age_due_date : option DateTime;
  age_status : InvoiceStatus
}.

(** @src crates/infra/src/projections/invoicing.rs 233-280 [InvoiceAgingProjection::apply_envelope] *)
Definition aging_entry (o : option InvoiceAgingReadModel) (ev : InvoiceEvent)
  : option InvoiceAgingReadModel :=
  let default id :=
    {| age_invoice_id := id; age_total_amount := 0; age_outstanding_amount := 0;
       age_due_date := None; age_status := Open |} in
  match ev with
  | EvInvoiceIssued e => Some
    {| age_invoice_id := iss_invoice_id e; age_total_amount := iss_total_amount e;
       age_outstanding_amount := iss_total_amount e; age_due_date := Some (iss_due_date e);
       age_status := Open |}
  | EvPaymentRegistered e =>
    let rm := unwrap_or o (default (pay_invoice_id e)) in
    let new_outstanding := saturating_subU (age_outstanding_amount rm)
                             (Z.min (pay_amount e) (age_outstanding_amount rm)) in
    Some {| age_invoice_id := age_invoice_id rm; age_total_amount := age_total_amount rm;
            age_outstanding_amount := new_outstanding; age_due_date := age_due_date rm;
            age_status := if decide (new_outstanding = 0%Z) then Paid else age_status rm |}
  | EvInvoiceVoided e =>
    let rm := unwrap_or o (default (voi_invoice_id e)) in
    Some {| age_invoice_id := age_invoice_id rm; age_total_amount := age_total_amount rm;
            age_outstanding_amount := age_outstanding_amount rm;
            age_due_date := age_due_date rm; age_status := Void |}
  end.

(** ** The open invoices *)

(** @src crates/infra/src/projections/open_invoices.rs 20-32 [OpenInvoice] *)
Record OpenInvoice := mkOpenInvoice {
  oi_invoice_id : InvoiceId;
  oi_sales_order_id : SalesOrderId;
  oi_due_date : DateTime;
  oi_total_amount : Z;
  oi_amount_paid : Z;
  oi_outstanding_amount : Z;
  oi_lines : list InvoiceLine;
  oi_days_outstanding : Z;
  oi_is_overdue : bool
}.

(** [TimeDelta::num_days]: whole days, towards zero. *)
Definition num_days (ns : Z) : Z := Z.quot ns (86400 * 1000000000).

(** @src crates/infra/src/projections/open_invoices.rs 35-41 [OpenInvoice::refresh_calculated_fields] *)
Definition refresh_calculated_fields (self : OpenInvoice) (now : DateTime) : OpenInvoice :=
  let days := num_days (now - oi_due_date self) in
  {| oi_invoice_id := oi_invoice_id self; oi_sales_order_id := oi_sales_order_id self;
     oi_due_date := oi_due_date self; oi_total_amount := oi_total_amount self;
     oi_amount_paid := oi_amount_paid self;
     oi_outstanding_amount := saturating_subU (oi_total_amount self) (oi_amount_paid self);
     oi_lines := oi_lines self; oi_days_outstanding := days;
     oi_is_overdue := bool_decide (0 < days)%Z |}.

(** A payment or a voiding without an entry writes nothing.

    @src crates/infra/src/projections/open_invoices.rs 296-340 [OpenInvoicesProjection::apply_envelope] *)
Definition open_entry (o : option OpenInvoice) (ev : InvoiceEvent) : option OpenInvoice :=
  match ev with
  | EvInvoiceIssued e =>
    let days_outstanding := num_days (now ev - iss_due_date e) in
    Some {| oi_invoice_id := iss_invoice_id e; oi_sales_order_id := iss_sales_order_id e;
            oi_due_date := iss_due_date e; oi_total_amount := iss_total_amount e;
            oi_amount_paid := 0; oi_outstanding_amount := iss_total_amount e;
            oi_lines := iss_lines e; oi_days_outstanding := days_outstanding;
            oi_is_overdue := bool_decide (0 < days_outstanding)%Z |}
  | EvPaymentRegistered e =>
    inv ← o;
    let outstanding := saturating_subU (oi_total_amount inv) (pay_new_total_paid e) in
    Some (refresh_calculated_fields
      {| oi_invoice_id := oi_invoice_id inv; oi_sales_order_id := oi_sales_order_id inv;
         oi_due_date := oi_due_date inv; oi_total_amount := oi_total_amount inv;
         oi_amount_paid := pay_new_total_paid e;
         oi_outstanding_amount := if decide (oi_total_amount inv <= pay_new_total_paid e)%Z
                                  then 0 else outstanding;
         oi_lines := oi_lines inv; oi_days_outstanding := oi_days_outstanding inv;
         oi_is_overdue := oi_is_overdue inv |} (now ev))
  | EvInvoiceVoided _ =>
    inv ← o;
    Some {| oi_invoice_id := oi_invoice_id inv; oi_sales_order_id := oi_sales_order_id inv;
            oi_due_date := oi_due_date inv; oi_total_amount := oi_total_amount inv;
            oi_amount_paid := oi_amount_paid inv; oi_outstanding_amount := 0;
            oi_lines := oi_lines inv; oi_days_outstanding := oi_days_outstanding inv;
            oi_is_overdue := oi_is_overdue inv |}
  end.

(** ** Each is a keyed projection *)

Lemma invoice_key_agg a k : invoice_aggregate k = a <-> k = mkInvoiceId a.
Proof. destruct k. simpl. split; congruence. Qed.

Lemma invoice_key_inj a a' : mkInvoiceId a = mkInvoiceId a' -> a = a'.
Proof. congruence. Qed.

(** @src crates/infra/src/projections/invoices.rs 154-246 [InvoicesProjection::apply_envelope] *)
Definition invoices_projection {S J} `{TenantStoreLaws S InvoiceId InvoiceReadModel}
    `{Serde InvoiceEvent J} : Keyed S InvoiceId InvoiceReadModel J InvoiceEvent.
Proof.
  refine (entry_keyed "invoicing.invoice" "invoice_id" mkInvoiceId invoice_aggregate
            invoice_key_agg invoice_key_inj invoice_owner invoice_entry _).
  by intros o [].
Defined.

(** @src crates/infra/src/projections/invoicing.rs 186-284 [InvoiceAgingProjection::apply_envelope] *)
Definition aging_projection {S J} `{TenantStoreLaws S InvoiceId InvoiceAgingReadModel}
    `{Serde InvoiceEvent J} : Keyed S InvoiceId InvoiceAgingReadModel J InvoiceEvent.
Proof.
  refine (entry_keyed "invoicing.invoice" "invoice_id" mkInvoiceId invoice_aggregate
            invoice_key_agg invoice_key_inj invoice_owner aging_entry _).
  by intros o [].
Defined.

(** @src crates/infra/src/projections/open_invoices.rs 246-344 [OpenInvoicesProjection::apply_envelope] *)
Definition open_invoices_projection {S J} `{TenantStoreLaws S InvoiceId OpenInvoice}
    `{Serde InvoiceEvent J} : Keyed S InvoiceId OpenInvoice J InvoiceEvent.
Proof.
  refine (entry_keyed "invoicing.invoice" "invoice_id" mkInvoiceId invoice_aggregate
            invoice_key_agg invoice_key_inj invoice_owner open_entry _).
  by intros [o|] [].
Defined.

(** @src crates/infra/src/projections/open_invoices.rs 44-51 [OpenInvoicesSummary] *)
Record OpenInvoicesSummary := mkOpenInvoicesSummary {
  ois_count : Z;
  ois_total_outstanding : Z;
  ois_overdue_count : Z;
  ois_overdue_amount : Z
}.

(** [sum()] wraps in a release build.

    @src crates/infra/src/projections/open_invoices.rs 226-244 [OpenInvoicesProjection::get_summary] *)
Definition get_summary (invoices : list OpenInvoice) (now : DateTime) : OpenInvoicesSummary :=
  let overdue := List.filter (fun i => bool_decide (oi_due_date i < now)%Z) invoices in
  {| ois_count := Z.of_nat (length invoices);
     ois_total_outstanding := wrapU 64 (sumZ (map oi_outstanding_amount invoices));
     ois_overdue_count := Z.of_nat (length overdue);
     ois_overdue_amount := wrapU 64 (sumZ (map oi_outstanding_amount overdue)) |}.
End Receivables.

(** ** The read models follow the aggregate *)

(** The one event an accepted command decides. *)
Definition decided (s : Invoice) (c : InvoiceCommand) : InvoiceEvent :=
  match c with
  | CmdIssueInvoice c => EvInvoiceIssued
    {| iss_tenant_id := ii_tenant_id c; iss_invoice_id := ii_invoice_id c;
       iss_sales_order_id := ii_sales_order_id c; iss_lines := ii_lines c;
       iss_due_date := ii_due_date c; iss_total_amount := cast_total (ii_lines c);
       iss_occurred_at := ii_occurred_at c |}
  | CmdRegisterPayment c => EvPaymentRegistered
    {| pay_tenant_id := rpay_tenant_id c; pay_invoice_id := rpay_invoice_id c;
       pay_amount := rpay_amount c; pay_new_total_paid := inv_total_paid s + rpay_amount c;
       pay_occurred_at := rpay_occurred_at c |}
  | CmdVoidInvoice c => EvInvoiceVoided
    {| voi_tenant_id := vi_tenant_id c; voi_invoice_id := vi_invoice_id c;
       voi_reason := vi_reason c; voi_occurred_at := vi_occurred_at c |}
  end.

Lemma handle_decides s c es :
  Invoicing.inv s -> command_ok c -> handle s c = Ok es -> es = [decided s c].
Proof.
  intros Hi Hok H. destruct c as [c|c|c]; simpl in H.
  - unfold handle_issue in H. guards H. apply total_fold_Ok in Ha as (_ & -> & _); [|done|ilia].
    by rewrite Z.add_0_l.
  - unfold handle_register_payment in H. guards H.
    by apply ok_or_Ok, checked_addU_Some in Ha1 as [_ ->].
  - unfold handle_void in H. by guards H.
Qed.

Definition addressed_to (t : TenantId) (id : InvoiceId) (c : InvoiceCommand) : Prop :=
  match c with
  | CmdIssueInvoice c => ii_tenant_id c = t /\ ii_invoice_id c = id
  | CmdRegisterPayment c => rpay_tenant_id c = t /\ rpay_invoice_id c = id
  | CmdVoidInvoice c => vi_tenant_id c = t /\ vi_invoice_id c = id
  end.

Section Mirror.
Context (now : InvoiceEvent -> DateTime) (fresh_order : InvoiceEvent -> SalesOrderId).

(** What the three entries say of an invoice. *)
Definition mirrored (s : Invoice) (d : InvoiceReadModel) (g : InvoiceAgingReadModel)
    (o : OpenInvoice) : Prop :=
  (irm_invoice_id d = inv_id s /\ irm_due_date d = inv_due_date s
   /\ irm_status d = inv_status s /\ irm_total_amount d = inv_total_amount s
   /\ irm_total_paid d = inv_total_paid s /\ irm_lines d = inv_lines s)
  /\ (age_invoice_id g = inv_id s /\ age_due_date g = inv_due_date s
      /\ age_status g = inv_status s /\ age_total_amount g = inv_total_amount s
      /\ age_outstanding_amount g = outstanding_amount s)
  /\ (oi_invoice_id o = inv_id s /\ Some (oi_due_date o) = inv_due_date s
      /\ oi_total_amount o = inv_total_amount s /\ oi_amount_paid o = inv_total_paid s
      /\ oi_lines o = inv_lines s
      /\ oi_outstanding_amount o
         = if decide (inv_status s = Void) then 0%Z else outstanding_amount s).

Definition entries : Type :=
  option InvoiceReadModel * option InvoiceAgingReadModel * option OpenInvoice.

Definition entries_step (v : entries) (e : InvoiceEvent) : entries :=
  (invoice_entry fresh_order v.1.1 e, aging_entry v.1.2 e, open_entry now v.2 e).

Lemma entries_fold es : forall d g o,
  foldl entries_step (d, g, o) es
  = (foldl (invoice_entry fresh_order) d es, foldl aging_entry g es, foldl (open_entry now) o es).
Proof. induction es as [|e es IH]; intros d g o; simpl; [done | apply IH]. Qed.

Definition follows (v : entries) (s : Invoice) : Prop :=
  if inv_created s
  then exists d g o, v = (Some d, Some g, Some o) /\ mirrored s d g o
  else v = (None, None, None).

Lemma entries_follow v s c es :
  follows v s -> Invoicing.inv s -> command_ok c -> handle s c = Ok es ->
  follows (foldl entries_step v es) (replay s es).
Proof.
  intros Hv Hi Hok H. pose proof (handle_decides s c es Hi Hok H) as ->.
  destruct (invoice_handle_sound s c _ Hi Hok H) as [Ha ->]. clear H.
  destruct Hi as (_ & _ & Htot & Hpaid & _). unfold follows in *. simpl.
  destruct c as [c|c|c]; simpl in Ha.
  - destruct Ha as (Hcr & _ & _ & Hu). simpl. rewrite Hcr in Hv. subst v. simpl.
    do 3 eexists. split; [done|]. unfold mirrored, outstanding_amount, saturating_subU; simpl.
    split_and!; try done; ilia.
  - destruct Ha as ((Hcr & _ & _) & Hvd & Hpos & Hle). simpl. rewrite Hcr in *.
    destruct Hv as (d & g & o & -> & Hd & Hg & Ho). simpl.
    do 3 eexists. split; [done|].
    destruct Hd as (D1 & D2 & D3 & D4 & D5 & D6), Hg as (G1 & G2 & G3 & G4 & G5),
      Ho as (O1 & O2 & O3 & O4 & O5 & O6).
    unfold mirrored, outstanding_amount, saturating_subU in *; simpl.
    rewrite D4, D3, G3, G5, O3. split_and!; try done; repeat case_decide; try done; try lia.
    all: congruence.
  - destruct Ha as ((Hcr & _ & _) & Hvd). simpl. rewrite Hcr in *.
    destruct Hv as (d & g & o & -> & Hd & Hg & Ho). simpl.
    do 3 eexists. split; [done|].
    destruct Hd as (D1 & D2 & D3 & D4 & D5 & D6), Hg as (G1 & G2 & G3 & G4 & G5),
      Ho as (O1 & O2 & O3 & O4 & O5 & O6).
    unfold mirrored, outstanding_amount in *; simpl. split_and!; (congruence || done).
Qed.

Lemma decided_owner t id s c :
  addressed_to t id c -> invoice_owner (decided s c) = (t, id).
Proof. destruct c; simpl; by intros [-> ->]. Qed.

Lemma emitted_owner t id cs : forall s e,
  Invoicing.inv s -> Forall command_ok cs -> Forall (addressed_to t id) cs ->
  e ∈ emitted s cs -> invoice_owner e = (t, id).
Proof.
  induction cs as [|c cs IH]; intros s e Hi Hok Hto He; simpl in He;
    [by apply not_elem_of_nil in He|].
  apply Forall_cons_1 in Hok as [Hc Hok]. apply Forall_cons_1 in Hto as [Ht Hto].
  apply elem_of_app in He as [He|He].
  - destruct (handle s c) as [es|] eqn:Eh; [|by apply not_elem_of_nil in He].
    rewrite (handle_decides s c es Hi Hc Eh) in He.
    apply list_elem_of_singleton in He as ->. by apply decided_owner.
  - eapply IH; [|done..|exact He]. by apply run_command_inv.
Qed.

(** C20: the receivables read models mirror the invoice: take any commands sent
    to an invoice and let the three projections process the events they emitted.
    The events pass the projections' isolation checks; an invoice that was not
    issued has no entries; an issued one has three, whose totals, payments,
    lines, due date and status are the aggregate's, the ageing report showing
    what is left to pay and the open-invoices entry showing that or, once the
    invoice is void, zero. *)
Theorem receivables_mirror_invoice (t : TenantId) (a : AggregateId) (cs : list InvoiceCommand) :
  Forall command_ok cs -> Forall (addressed_to t (mkInvoiceId a)) cs ->
  let s := foldl run_command (empty (mkInvoiceId a)) cs in
  let es := emitted (empty (mkInvoiceId a)) cs in
  (forall e, e ∈ es ->
     entry_isolation "invoice_id" invoice_aggregate invoice_owner t a e = None)
  /\ if inv_created s
     then exists d g o,
       foldl (invoice_entry fresh_order) None es = Some d
       /\ foldl aging_entry None es = Some g
       /\ foldl (open_entry now) None es = Some o
       /\ mirrored s d g o
     else foldl (invoice_entry fresh_order) None es = None
          /\ foldl aging_entry None es = None /\ foldl (open_entry now) None es = None.
Proof.
  intros Hok Hto s es. split.
  - intros e He. apply (entry_isolation_None _ _ _ invoice_key_agg).
    eapply emitted_owner; [apply invoice_empty_inv | done..].
  - pose proof (emitted_follows entries_step follows (fun _ => True) cs) as Hf.
    specialize (Hf (fun v s c es Hv Hi Hc _ Hh => entries_follow v s c es Hv Hi Hc Hh)
                  (None, None, None) (empty (mkInvoiceId a)) eq_refl
                  (invoice_empty_inv _) Hok ltac:(by apply Forall_true)).
    rewrite entries_fold in Hf. unfold follows in Hf. fold s es in Hf.
    destruct (inv_created s); [|by injection Hf].
    destruct Hf as (d & g & o & [= -> -> ->] & Hm). by exists d, g, o.
Qed.
End Mirror.

Lemma receivables_mirror_invoice_witness :
  let cs := [sample_issue [sample_line 2 100]; sample_pay 150; sample_void] in
  let s := foldl run_command (empty sample_id) cs in
  inv_created s = true
  /\ exists o, foldl (open_entry (fun _ => 0%Z)) None (emitted (empty sample_id) cs) = Some o
       /\ oi_outstanding_amount o = 0%Z /\ inv_total_paid s = 150%Z.
Proof.
  intros cs s. split; [reflexivity|].
  assert (Hok : Forall command_ok cs) by (repeat constructor; vm_compute; congruence).
  destruct (receivables_mirror_invoice (fun _ => 0%Z) (fun _ => mkSalesOrderId (mkAggregateId 0))
    sample_tenant (mkAggregateId 6) cs Hok ltac:(repeat constructor)) as [_ H].
  destruct H as (d & g & o & _ & _ & Ho & _ & _ & (_ & _ & _ & Hp & _ & Hout)).
  exists o. split; [exact Ho|]. split; [exact Hout | reflexivity].
Defined.
