(* ===== verification/TrialBalance.v ===== *)
(** * Account balances: [projections/accounting.rs]

    The projection of journal entries into one balance per account code, debits
    counted positive and credits negative, in wrapping [i128] arithmetic.  An
    account collects lines of every ledger of its tenant, so this projection is
    not keyed by aggregate; the theorem follows the lines themselves. *)

From S2P Require Import Prelude Core Events Bus EventStore ReadModel Accounting.

(** @src crates/infra/src/projections/accounting.rs 16-23 [AccountBalance] *)
Record AccountBalance := mkAccountBalance {
  ab_account_code : string;
  ab_account_name : string;
  ab_kind : AccountKind;
  ab_balance : Z
}.

Section TrialBalance.
Context {S J CS : Type} `{HTS : TenantStoreLaws S string AccountBalance}.
Context `{HJ : Serde LedgerEvent J} `{!ProjectionCursorStore CS}.

(** @src crates/infra/src/projections/accounting.rs 207-215 [AccountBalancesProjection::apply_envelope] *)
Definition isolation (tenant_id : TenantId) (_ : AggregateId) (ev : LedgerEvent)
  : option string :=
  let event_tenant := match ev with EvJournalEntryPosted e => je_tenant_id e end in
  if decide (event_tenant <> tenant_id)
  then Some "event tenant_id does not match envelope tenant_id"%string
  else None.

(** @src crates/infra/src/projections/accounting.rs 230-235 [AccountBalancesProjection::apply_envelope] *)
Definition delta (line : JournalEntryLine) : Z :=
  if jl_is_debit line then jl_amount line else - jl_amount line.

(** The body of the loop over the lines of an entry.

    @src crates/infra/src/projections/accounting.rs 218-238 [AccountBalancesProjection::apply_envelope] *)
Definition post_line (tenant_id : TenantId) (store : S) (line : JournalEntryLine) : S :=
  let code := acc_code (jl_account line) in
  let rm := unwrap_or (ts_get store tenant_id code)
    {| ab_account_code := code; ab_account_name := acc_name (jl_account line);
       ab_kind := acc_kind (jl_account line); ab_balance := 0 |} in
  ts_upsert store tenant_id code
    {| ab_account_code := ab_account_code rm; ab_account_name := ab_account_name rm;
       ab_kind := ab_kind rm; ab_balance := wrapS 128 (ab_balance rm + delta line) |}.

(** @src crates/infra/src/projections/accounting.rs 217-238 [AccountBalancesProjection::apply_envelope] *)
Definition update (store : S) (tenant_id : TenantId) (_ : AggregateId) (ev : LedgerEvent) : S :=
  match ev with EvJournalEntryPosted e => foldl (post_line tenant_id) store (je_lines e) end.

(** @src crates/infra/src/projections/accounting.rs 178-242 [AccountBalancesProjection::apply_envelope] *)
Definition apply_envelope (self : Projector S CS) (envelope : EventEnvelope J)
  : Projector S CS * Result ProjectionFailure unit :=
  project "accounting.ledger" from_value isolation update self envelope.

(** @src crates/infra/src/projections/accounting.rs 244-273 [AccountBalancesProjection::rebuild_from_scratch] *)
Definition balances_rebuild (self : Projector S CS) (envelopes : list (EventEnvelope J))
  : Projector S CS * Result ProjectionFailure unit :=
  rebuild_from_scratch apply_envelope ts_clear_tenant self envelopes.

(** ** What was posted *)

(** The lines an envelope posts: those of its entry, when the projection takes it
    (it is then what moves the cursor). *)
Definition posted_by (self : Projector S CS) (env : EventEnvelope J)
  : list (TenantId * JournalEntryLine) :=
  match from_value (env_payload env) with
  | Ok (EvJournalEntryPosted e) =>
    if decide (env_aggregate_type env = "accounting.ledger"%string
               /\ je_tenant_id e = env_tenant_id env
               /\ env_sequence_number env <> 0%Z
               /\ (get_cursor self (env_tenant_id env) (env_aggregate_id env)
                   < env_sequence_number env)%Z
               /\ (env_sequence_number env
                     = wrapU 64 (get_cursor self (env_tenant_id env) (env_aggregate_id env) + 1)
                   \/ get_cursor self (env_tenant_id env) (env_aggregate_id env) = 0%Z))
    then map (pair (env_tenant_id env)) (je_lines e) else []
  | Err _ => []
  end.

(** Deliveries one after the other, whatever each returns. *)
Definition deliver_all (self : Projector S CS) (envs : list (EventEnvelope J)) : Projector S CS :=
  foldl (fun p env => (apply_envelope p env).1) self envs.

Fixpoint posted_lines (self : Projector S CS) (envs : list (EventEnvelope J))
  : list (TenantId * JournalEntryLine) :=
  match envs with
  | [] => []
  | env :: rest => posted_by self env ++ posted_lines (apply_envelope self env).1 rest
  end.

Definition lines_of (t : TenantId) (code : string) (ls : list (TenantId * JournalEntryLine))
  : list JournalEntryLine :=
  omap (fun p => if decide (p.1 = t /\ acc_code (jl_account p.2) = code) then Some p.2 else None)
    ls.

Definition post_pair (s : S) (p : TenantId * JournalEntryLine) : S := post_line p.1 s p.2.

Lemma foldl_post_map t ls (s : S) :
  foldl (post_line t) s ls = foldl post_pair s (map (pair t) ls).
Proof. revert s; induction ls as [|l ls IH]; intros s; simpl; [done | apply IH]. Qed.

Lemma apply_envelope_other self env :
  env_aggregate_type env <> "accounting.ledger"%string -> apply_envelope self env = (self, Ok tt).
Proof. intros Hty. unfold apply_envelope, project. by rewrite decide_True. Qed.

Lemma apply_envelope_store self env :
  p_store (apply_envelope self env).1 = foldl post_pair (p_store self) (posted_by self env).
Proof.
  unfold apply_envelope, project, posted_by, isolation.
  destruct (from_value (env_payload env)) as [[e]|err];
    [|by repeat (destruct (decide _); [done|])].
  destruct (decide (env_aggregate_type env <> _)) as [Hty|Hty%dec_stable];
    [by rewrite decide_False by naive_solver|].
  destruct (decide (env_sequence_number env = 0%Z)) as [Hz|Hz];
    [by rewrite decide_False by naive_solver|].
  destruct (decide (env_sequence_number env <= _)%Z) as [Hle|Hle];
    [by rewrite decide_False by (intros (_ & _ & _ & ? & _); lia)|].
  destruct (decide (_ /\ _ <> 0%Z)) as [Hgap|Hgap].
  { rewrite decide_False; [done|]. intros (_ & _ & _ & _ & [?|?]); destruct Hgap; done. }
  destruct (decide (je_tenant_id e <> _)) as [Ht|Ht%dec_stable];
    [by rewrite decide_False by naive_solver|].
  rewrite decide_True; [simpl; apply foldl_post_map|].
  split_and!; [done|done|done|lia|].
  destruct (decide (get_cursor self (env_tenant_id env) (env_aggregate_id env) = 0%Z)) as [|Hc];
    [by right|]. left. apply dec_stable. intros Hne. by apply Hgap.
Qed.

Lemma deliver_all_store envs : forall self,
  p_store (deliver_all self envs) = foldl post_pair (p_store self) (posted_lines self envs).
Proof.
  induction envs as [|env envs IH]; intros self; simpl; [done|].
  rewrite foldl_app, <- apply_envelope_store. apply IH.
Qed.

(** ** Balances *)

(** Name, kind and balance an account has after the lines posted to it. *)
Definition account_after (o : option AccountBalance) (line : JournalEntryLine)
  : option AccountBalance :=
  let rm := unwrap_or o
    {| ab_account_code := acc_code (jl_account line);
       ab_account_name := acc_name (jl_account line);
       ab_kind := acc_kind (jl_account line); ab_balance := 0 |} in
  Some {| ab_account_code := ab_account_code rm; ab_account_name := ab_account_name rm;
          ab_kind := ab_kind rm; ab_balance := wrapS 128 (ab_balance rm + delta line) |}.

Lemma get_posted t code ls : forall s : S,
  ts_get (foldl post_pair s ls) t code
  = foldl account_after (ts_get s t code) (lines_of t code ls).
Proof.
  induction ls as [|[t' l] ls IH]; intros s; simpl; [done|]. rewrite IH.
  unfold post_pair, post_line at 1. simpl. destruct (decide _) as [[-> <-]|Hne]; simpl.
  - by rewrite get_upsert_eq.
  - rewrite get_upsert_ne; [done|]. intros [= -> ->]. by apply Hne.
Qed.

Definition signed_total (ls : list JournalEntryLine) : Z := sumZ (map delta ls).

Lemma signed_total_balance ls : signed_total ls = (debits ls - credits ls)%Z.
Proof.
  unfold signed_total, debits, credits. induction ls as [|l ls IH]; simpl; [done|].
  rewrite IH. unfold delta. destruct (jl_is_debit l); lia.
Qed.

Lemma account_after_balance ls : forall o b,
  (match o with Some rm => ab_balance rm | None => 0%Z end) = wrapS 128 b ->
  match foldl account_after o ls with
  | Some rm => ab_balance rm = wrapS 128 (b + signed_total ls)
  | None => ls = [] /\ o = None
  end.
Proof.
  induction ls as [|l ls IH]; intros o b Hb; simpl.
  - destruct o; [|done]. rewrite Hb. f_equal. unfold signed_total. simpl. lia.
  - specialize (IH (account_after o l) (b + delta l)%Z). simpl in IH.
    destruct (foldl account_after _ ls).
    + rewrite IH; [f_equal; unfold signed_total; simpl; lia|].
      rewrite <- (wrapS_add_l 128 b), <- Hb. by destruct o.
    + by destruct IH as [_ ?]; [rewrite <- (wrapS_add_l 128 b), <- Hb; by destruct o|].
Qed.

Definition trial_balance (s : S) (t : TenantId) : Z :=
  wrapS 128 (sumZ (map ab_balance (ts_list s t))).

Lemma post_trial_balance s t l t' :
  trial_balance (post_line t s l) t'
  = if decide (t' = t) then wrapS 128 (trial_balance s t' + delta l) else trial_balance s t'.
Proof.
  unfold trial_balance, post_line. destruct (decide (t' = t)) as [->|Hne].
  - destruct (list_upsert s t (acc_code (jl_account l))) as (rest & Hold & Hnew).
    rewrite Hnew, Hold. simpl. rewrite wrapS_add_l, map_app, sumZ_app.
    rewrite wrapS_add_l.
    destruct (ts_get s t (acc_code (jl_account l))) as [rm|]; simpl; f_equal; lia.
  - by rewrite list_upsert_ne.
Qed.

Definition tenant_lines (t : TenantId) (ls : list (TenantId * JournalEntryLine))
  : list JournalEntryLine := omap (fun p => if decide (p.1 = t) then Some p.2 else None) ls.

Lemma trial_balance_posted t ls : forall s,
  trial_balance (foldl post_pair s ls) t
  = wrapS 128 (trial_balance s t + signed_total (tenant_lines t ls)).
Proof.
  induction ls as [|[t' l] ls IH]; intros s; simpl.
  - unfold signed_total, trial_balance. simpl. symmetry. etrans; [apply wrapS_add_l|]. f_equal. lia.
  - rewrite IH. unfold post_pair at 1. simpl. rewrite post_trial_balance.
    destruct (decide (t = t')) as [->|Hne]; destruct (decide (_ = _)); try congruence.
    rewrite wrapS_add_l. f_equal. unfold signed_total. simpl. lia.
Qed.

Lemma tenant_lines_pair t t' (ls : list JournalEntryLine) :
  tenant_lines t (map (pair t') ls) = if decide (t' = t) then ls else [].
Proof.
  induction ls as [|l ls IH]; simpl; [by destruct (decide _)|].
  unfold tenant_lines in *. simpl in *. destruct (decide (t' = t)); [by f_equal | done].
Qed.

Lemma tenant_lines_app t (xs ys : list (TenantId * JournalEntryLine)) :
  tenant_lines t (xs ++ ys) = tenant_lines t xs ++ tenant_lines t ys.
Proof. apply omap_app. Qed.

Lemma signed_total_app xs ys : signed_total (xs ++ ys) = (signed_total xs + signed_total ys)%Z.
Proof. unfold signed_total. by rewrite map_app, sumZ_app. Qed.

(** Every journal entry that an envelope of the ledger carries balances. *)
Definition entries_balance (envs : list (EventEnvelope J)) : Prop :=
  forall env e, env ∈ envs -> env_aggregate_type env = "accounting.ledger"%string ->
    from_value (env_payload env) = Ok (EvJournalEntryPosted e) ->
    debits (je_lines e) = credits (je_lines e).

Lemma posted_lines_balance t envs : forall self,
  entries_balance envs -> signed_total (tenant_lines t (posted_lines self envs)) = 0%Z.
Proof.
  induction envs as [|env envs IH]; intros self Hb; simpl; [done|].
  rewrite tenant_lines_app, signed_total_app, IH;
    [|intros x e Hx; apply Hb; by right]. rewrite Z.add_0_r.
  unfold posted_by. destruct (from_value (env_payload env)) as [[e]|] eqn:Ee; [|done].
  destruct (decide _) as [[Hty _]|]; [|done]. rewrite tenant_lines_pair.
  destruct (decide _); [|done].
  rewrite signed_total_balance, (Hb env e); [lia | left | done..].
Qed.

(** Delivering balanced entries leaves the trial balance. *)
Lemma deliver_all_balance t envs self :
  entries_balance envs ->
  trial_balance (p_store (deliver_all self envs)) t = trial_balance (p_store self) t.
Proof.
  intros Hb. rewrite deliver_all_store, trial_balance_posted, posted_lines_balance by done.
  unfold trial_balance. rewrite wrapS_add_l. f_equal. lia.
Qed.

(** C26: the books balance: deliver any envelopes to a new projection, in any
    order, with repetitions, gaps and failures.  The balance of an account is the
    debits minus the credits of the lines that were posted to it, as an [i128];
    and when the entries delivered are balanced, as the ledger guarantees, the
    balances of all accounts of a tenant add up to zero. *)
Theorem books_balance (name : string) (s0 : S) (envs : list (EventEnvelope J)) :
  (forall t, ts_list s0 t = []) -> (forall t code, ts_get s0 t code = None) ->
  let p0 := projector_new (CS:=CS) name s0 in
  let s := p_store (deliver_all p0 envs) in
  let posted := posted_lines p0 envs in
  (forall t code,
     match ts_get s t code with
     | Some rm => ab_balance rm = wrapS 128 (debits (lines_of t code posted)
                                             - credits (lines_of t code posted))
     | None => lines_of t code posted = []
     end)
  /\ (entries_balance envs -> forall t, trial_balance s t = 0%Z).
Proof.
  intros Hl Hg p0 s posted. subst s. split.
  - rewrite deliver_all_store. fold posted. intros t code. rewrite get_posted, <- signed_total_balance. simpl p_store. rewrite Hg.
    pose proof (account_after_balance (lines_of t code posted) None 0 eq_refl) as Hb.
    destruct (foldl account_after None _); [exact Hb | apply Hb].
  - intros Hb t. rewrite deliver_all_balance by done. unfold trial_balance. simpl. by rewrite Hl.
Qed.
End TrialBalance.

#[local] Instance sample_serde : Serde LedgerEvent LedgerEvent :=
  {| to_value e := Ok e; from_value j := Ok j |}.

Definition sample_env (n : Z) : EventEnvelope LedgerEvent :=
  mkEnvelope 0%N (mkTenantId 1) (mkAggregateId 2) "accounting.ledger" n
    (posted sample_entry).

Lemma books_balance_witness :
  let envs := [sample_env 1; sample_env 1; sample_env 2] in
  let s := p_store (deliver_all
    (projector_new (S:=InMemoryTenantStore string AccountBalance) (CS:=InMemoryCursorStore)
       "accounting.balances" ∅) envs) in
  ab_balance <$> ts_get s (mkTenantId 1) "1000"%string = Some 1000%Z
  /\ trial_balance s (mkTenantId 1) = 0%Z.
Proof.
  intros envs s. split; [vm_compute; reflexivity|].
  apply (books_balance (CS:=InMemoryCursorStore) "accounting.balances"
           (∅ : InMemoryTenantStore string AccountBalance) envs).
  - reflexivity.
  - reflexivity.
  - intros env e He _ Hd.
    repeat (apply elem_of_cons in He as [->|He]; [injection Hd as <-; reflexivity|]).
    by apply not_elem_of_nil in He.
Defined.
