(* ===== verification/Directories.v ===== *)
(** * Directory read models: [projections/products.rs], [parties.rs],
      [sales_orders.rs] and [purchasing.rs]

    Four entry projections, each a copy of one kind of aggregate per tenant, and
    the theorem that they show the rehydrated aggregates.  What a read model
    leaves out (a party's address, the tenant, the version) is in its view.

    [fresh_supplier] is the identifier [AggregateId::new()] draws for a purchase
    order event that arrives without an order; [to_lowercase] is Unicode's. *)

From S2P Require Import Prelude Core Events Bus EventStore ReadModel Projection.
From S2P Require Import Auth Products Parties Users Sales Purchasing Saga.

(** ** The product catalogue *)

(** @src crates/infra/src/projections/products.rs 15-23 [ProductReadModel] *)
Record ProductReadModel := mkProductReadModel {
  prm_product_id : ProductId;
  prm_sku : string;
  prm_name : string;
  prm_status : ProductStatus;
  prm_pricing : PricingMetadata
}.

(** @src crates/infra/src/projections/products.rs 182-186 [ProductCatalogProjection::apply_envelope] *)
Definition product_owner (ev : ProductEvent) : TenantId * ProductId :=
  match ev with
  | EvProductCreated e => (pc_tenant_id e, pc_product_id e)
  | EvProductActivated e => (pa_tenant_id e, pa_product_id e)
  | EvProductArchived e => (par_tenant_id e, par_product_id e)
  end.

(** @src crates/infra/src/projections/products.rs 199-235 [ProductCatalogProjection::apply_envelope] *)
Definition product_entry (o : option ProductReadModel) (ev : ProductEvent)
  : option ProductReadModel :=
  let or_default product_id := unwrap_or o
    {| prm_product_id := product_id; prm_sku := ""; prm_name := "";
       prm_status := Products.Draft; prm_pricing := pricing_default |} in
  let with_status rm status :=
    {| prm_product_id := prm_product_id rm; prm_sku := prm_sku rm; prm_name := prm_name rm;
       prm_status := status; prm_pricing := prm_pricing rm |} in
  match ev with
  | EvProductCreated e => Some
    {| prm_product_id := pc_product_id e; prm_sku := pc_sku e; prm_name := pc_name e;
       prm_status := Products.Draft; prm_pricing := pc_pricing e |}
  | EvProductActivated e => Some (with_status (or_default (pa_product_id e)) Products.Active)
  | EvProductArchived e => Some (with_status (or_default (par_product_id e)) Products.Archived)
  end.

Lemma product_key_agg a k : product_aggregate k = a <-> k = mkProductId a.
Proof. destruct k. simpl. split; congruence. Qed.

Lemma product_key_inj a a' : mkProductId a = mkProductId a' -> a = a'.
Proof. congruence. Qed.

(** @src crates/infra/src/projections/products.rs 156-239 [ProductCatalogProjection::apply_envelope] *)
Definition products_projection {S J} `{TenantStoreLaws S ProductId ProductReadModel}
    `{Serde ProductEvent J} : Keyed S ProductId ProductReadModel J ProductEvent.
Proof.
  refine (entry_keyed "products.product" "product_id" mkProductId product_aggregate
            product_key_agg product_key_inj product_owner product_entry _).
  by intros o [].
Defined.

(** ** The party directory *)

(** @src crates/infra/src/projections/parties.rs 14-23 [PartyReadModel] *)
Record PartyReadModel := mkPartyReadModel {
  tyrm_party_id : PartyId;
  tyrm_kind : PartyKind;
  tyrm_name : string;
  tyrm_email : option string;
  tyrm_phone : option string;
  tyrm_status : PartyStatus
}.

(** @src crates/infra/src/projections/parties.rs 241-245 [PartyDirectoryProjection::apply_envelope] *)
Definition party_owner (ev : PartyEvent) : TenantId * PartyId :=
  match ev with
  | EvPartyRegistered e => (pr_tenant_id e, pr_party_id e)
  | EvPartyUpdated e => (pu_tenant_id e, pu_party_id e)
  | EvPartySuspended e => (ps_tenant_id e, ps_party_id e)
  end.

(** @src crates/infra/src/projections/parties.rs 259-301 [PartyDirectoryProjection::apply_envelope] *)
Definition party_entry (o : option PartyReadModel) (ev : PartyEvent) : option PartyReadModel :=
  let or_default party_id := unwrap_or o
    {| tyrm_party_id := party_id; tyrm_kind := Customer; tyrm_name := "";
       tyrm_email := None; tyrm_phone := None; tyrm_status := Parties.Active |} in
  match ev with
  | EvPartyRegistered e => Some
    {| tyrm_party_id := pr_party_id e; tyrm_kind := pr_kind e; tyrm_name := pr_name e;
       tyrm_email := Parties.email (pr_contact e); tyrm_phone := phone (pr_contact e);
       tyrm_status := Parties.Active |}
  | EvPartyUpdated e =>
    let rm := or_default (pu_party_id e) in
    Some {| tyrm_party_id := tyrm_party_id rm; tyrm_kind := tyrm_kind rm;
            tyrm_name := pu_name e; tyrm_email := Parties.email (pu_contact e);
            tyrm_phone := phone (pu_contact e); tyrm_status := tyrm_status rm |}
  | EvPartySuspended e =>
    let rm := or_default (ps_party_id e) in
    Some {| tyrm_party_id := tyrm_party_id rm; tyrm_kind := tyrm_kind rm;
            tyrm_name := tyrm_name rm; tyrm_email := tyrm_email rm;
            tyrm_phone := tyrm_phone rm; tyrm_status := Parties.Suspended |}
  end.

Lemma party_key_agg a k : party_aggregate k = a <-> k = mkPartyId a.
Proof. destruct k. simpl. split; congruence. Qed.

Lemma party_key_inj a a' : mkPartyId a = mkPartyId a' -> a = a'.
Proof. congruence. Qed.

(** @src crates/infra/src/projections/parties.rs 205-307 [PartyDirectoryProjection::apply_envelope] *)
Definition parties_projection {S J} `{TenantStoreLaws S PartyId PartyReadModel}
    `{Serde PartyEvent J} : Keyed S PartyId PartyReadModel J PartyEvent.
Proof.
  refine (entry_keyed "parties.party" "party_id" mkPartyId party_aggregate
            party_key_agg party_key_inj party_owner party_entry _).
  by intros o [].
Defined.

(** [str::contains] with a string. *)
Fixpoint contains_str (s pat : string) : bool :=
  String.prefix pat s || match s with String _ s' => contains_str s' pat | "" => false end.

(** @src crates/infra/src/projections/parties.rs 190-197 [PartyDirectoryProjection::search_by_name] *)
Definition search_by_name {S} `{TenantStore S PartyId PartyReadModel} `{Lowercase}
    (self : S) (tenant_id : TenantId) (query : string) : list PartyReadModel :=
  let q := to_lowercase query in
  List.filter (fun rm => contains_str (to_lowercase (tyrm_name rm)) q) (ts_list self tenant_id).

(** ** Sales orders *)

(** @src crates/infra/src/projections/sales_orders.rs 183-188 [SalesOrdersProjection::apply_envelope] *)
Definition sales_order_owner (ev : SalesOrderEvent) : TenantId * SalesOrderId :=
  match ev with
  | EvSalesOrderCreated e => (soc_tenant_id e, soc_order_id e)
  | EvLineAdded e => (la_tenant_id e, la_order_id e)
  | EvOrderConfirmed e => (oc_tenant_id e, oc_order_id e)
  | EvOrderInvoiced e => (oi_tenant_id e, oi_order_id e)
  end.

(** @src crates/infra/src/projections/sales_orders.rs 201-245 [SalesOrdersProjection::apply_envelope] *)
Definition sales_order_entry (o : option SalesOrderReadModel) (ev : SalesOrderEvent)
  : option SalesOrderReadModel :=
  let or_default order_id := unwrap_or o
    {| sorm_order_id := order_id; sorm_status := Sales.Draft; sorm_lines := [] |} in
  let with_status rm status :=
    {| sorm_order_id := sorm_order_id rm; sorm_status := status; sorm_lines := sorm_lines rm |} in
  match ev with
  | EvSalesOrderCreated e => Some
    {| sorm_order_id := soc_order_id e; sorm_status := Sales.Draft; sorm_lines := [] |}
  | EvLineAdded e =>
    let rm := or_default (la_order_id e) in
    let line := {| sol_line_no := la_line_no e; sol_product_id := la_product_id e;
                   sol_quantity := la_quantity e; sol_unit_price := la_unit_price e |} in
    Some {| sorm_order_id := sorm_order_id rm; sorm_status := sorm_status rm;
            sorm_lines := sorm_lines rm ++ [line] |}
  | EvOrderConfirmed e => Some (with_status (or_default (oc_order_id e)) Sales.Confirmed)
  | EvOrderInvoiced e => Some (with_status (or_default (oi_order_id e)) Sales.Invoiced)
  end.

Lemma sales_key_agg a k : so_aggregate k = a <-> k = mkSalesOrderId a.
Proof. destruct k. simpl. split; congruence. Qed.

Lemma sales_key_inj a a' : mkSalesOrderId a = mkSalesOrderId a' -> a = a'.
Proof. congruence. Qed.

(** @src crates/infra/src/projections/sales_orders.rs 157-249 [SalesOrdersProjection::apply_envelope] *)
Definition sales_orders_projection {S J} `{TenantStoreLaws S SalesOrderId SalesOrderReadModel}
    `{Serde SalesOrderEvent J} : Keyed S SalesOrderId SalesOrderReadModel J SalesOrderEvent.
Proof.
  refine (entry_keyed "sales.order" "order_id" mkSalesOrderId so_aggregate
            sales_key_agg sales_key_inj sales_order_owner sales_order_entry _).
  by intros o [].
Defined.

(** ** Purchase orders *)

(** @src crates/infra/src/projections/purchasing.rs 18-23 [PurchaseOrderReadModel] *)
Record PurchaseOrderReadModel := mkPurchaseOrderReadModel {
  porm_order_id : PurchaseOrderId;
  porm_supplier_id : PartyId;
  porm_status : PurchaseOrderStatus;
  porm_lines : list LineItem
}.

(** @src crates/infra/src/projections/purchasing.rs 178-183 [PurchaseOrdersProjection::apply_envelope] *)
Definition purchase_order_owner (ev : PurchaseOrderEvent) : TenantId * PurchaseOrderId :=
  match ev with
  | EvPurchaseOrderCreated e => (poc_tenant_id e, poc_order_id e)
  | EvPurchaseOrderLineAdded e => (pol_tenant_id e, pol_order_id e)
  | EvPurchaseOrderApproved e => (poa_tenant_id e, poa_order_id e)
  | EvGoodsReceived e => (gr_tenant_id e, gr_order_id e)
  end.

(** @src crates/infra/src/projections/purchasing.rs 196-253 [PurchaseOrdersProjection::apply_envelope] *)
Definition purchase_order_entry (fresh_supplier : PurchaseOrderEvent -> PartyId)
    (o : option PurchaseOrderReadModel) (ev : PurchaseOrderEvent)
  : option PurchaseOrderReadModel :=
  let or_default order_id supplier_id := unwrap_or o
    {| porm_order_id := order_id; porm_supplier_id := supplier_id;
       porm_status := Purchasing.Draft; porm_lines := [] |} in
  match ev with
  | EvPurchaseOrderCreated e => Some
    {| porm_order_id := poc_order_id e; porm_supplier_id := poc_supplier_id e;
       porm_status := Purchasing.Draft; porm_lines := [] |}
  | EvPurchaseOrderLineAdded e =>
    let rm := or_default (pol_order_id e) (fresh_supplier ev) in
    let line := {| Purchasing.line_no := pol_line_no e;
                   Purchasing.product_id := pol_product_id e;
                   Purchasing.quantity := pol_quantity e |} in
    Some {| porm_order_id := porm_order_id rm; porm_supplier_id := porm_supplier_id rm;
            porm_status := porm_status rm; porm_lines := porm_lines rm ++ [line] |}
  | EvPurchaseOrderApproved e =>
    let rm := or_default (poa_order_id e) (fresh_supplier ev) in
    Some {| porm_order_id := porm_order_id rm; porm_supplier_id := porm_supplier_id rm;
            porm_status := Purchasing.Approved; porm_lines := porm_lines rm |}
  | EvGoodsReceived e =>
    let rm := or_default (gr_order_id e) (gr_supplier_id e) in
    Some {| porm_order_id := porm_order_id rm; porm_supplier_id := porm_supplier_id rm;
            porm_status := Purchasing.Received; porm_lines := gr_lines e |}
  end.

Lemma purchase_key_agg a k : po_aggregate k = a <-> k = mkPurchaseOrderId a.
Proof. destruct k. simpl. split; congruence. Qed.

Lemma purchase_key_inj a a' : mkPurchaseOrderId a = mkPurchaseOrderId a' -> a = a'.
Proof. congruence. Qed.

(** @src crates/infra/src/projections/purchasing.rs 152-257 [PurchaseOrdersProjection::apply_envelope] *)
Definition purchase_orders_projection (fresh_supplier : PurchaseOrderEvent -> PartyId) {S J}
    `{TenantStoreLaws S PurchaseOrderId PurchaseOrderReadModel}
    `{Serde PurchaseOrderEvent J}
  : Keyed S PurchaseOrderId PurchaseOrderReadModel J PurchaseOrderEvent.
Proof.
  refine (entry_keyed "purchasing.order" "order_id" mkPurchaseOrderId po_aggregate
            purchase_key_agg purchase_key_inj purchase_order_owner
            (purchase_order_entry fresh_supplier) _).
  by intros o [].
Defined.

(** ** The read models show the aggregates

    If every event takes the view of a state to the view of the evolved state,
    and the first one an absent entry to the view of its outcome, then the entry
    after a history shows the rehydrated aggregate. *)
Definition starts {E} (first : E -> Prop) (es : list E) : Prop :=
  match es with [] => True | e :: _ => first e end.

Definition shown {E V} (es : list E) (v : V) : option V :=
  if decide (es = []) then None else Some v.

Lemma starts_take {E} (first : E -> Prop) es n : starts first es -> starts first (take n es).
Proof. by destruct es, n. Qed.

Lemma fold_shows {A E V} (entry : option V -> E -> option V) (step : A -> E -> A)
    (view : A -> V) (s0 : A) (owned first : E -> Prop) :
  (forall s e, owned e -> entry (Some (view s)) e = Some (view (step s e))) ->
  (forall e, owned e -> first e -> entry None e = Some (view (step s0 e))) ->
  forall es, (forall e, e ∈ es -> owned e) -> starts first es ->
    foldl entry None es = shown es (view (foldl step s0 es)).
Proof.
  intros Hstep Hfirst [|e es] Hown Hst; [done|]. simpl in *.
  rewrite Hfirst by (done || apply Hown; left).
  assert (Hin : forall x, x ∈ es -> owned x) by (intros; apply Hown; by right).
  clear Hst Hown. revert Hin. generalize (step s0 e) as s.
  induction es as [|x es IH]; intros s Hin; simpl; [done|].
  rewrite Hstep by (apply Hin; left). apply IH. intros; apply Hin; by right.
Qed.

Definition product_view (s : Product) : ProductReadModel :=
  {| prm_product_id := prod_id s; prm_sku := prod_sku s; prm_name := prod_name s;
     prm_status := prod_status s; prm_pricing := prod_pricing s |}.

(** Everything but the address. *)
Definition party_view (s : Party) : PartyReadModel :=
  {| tyrm_party_id := party_id s; tyrm_kind := party_kind s; tyrm_name := party_name s;
     tyrm_email := Parties.email (party_contact s); tyrm_phone := phone (party_contact s);
     tyrm_status := party_status s |}.

Definition order_line_view (l : OrderLine) : SalesOrderLineReadModel :=
  {| sol_line_no := Sales.line_no l; sol_product_id := Sales.product_id l;
     sol_quantity := Sales.quantity l; sol_unit_price := Sales.unit_price l |}.

Definition sales_order_view (s : SalesOrder) : SalesOrderReadModel :=
  {| sorm_order_id := so_id s; sorm_status := so_status s;
     sorm_lines := map order_line_view (so_lines s) |}.

(** [unset] stands for the supplier of an order that has none. *)
Definition purchase_order_view (unset : PartyId) (s : PurchaseOrder) : PurchaseOrderReadModel :=
  {| porm_order_id := po_id s; porm_supplier_id := unwrap_or (po_supplier_id s) unset;
     porm_status := po_status s; porm_lines := po_lines s |}.

Definition is_purchase_order_created (e : PurchaseOrderEvent) : Prop :=
  match e with EvPurchaseOrderCreated _ => True | _ => False end.

Section Shows.
Context (t : TenantId) (a : AggregateId).

Lemma product_shows es :
  (forall e, e ∈ es -> product_owner e = (t, mkProductId a)) ->
  foldl product_entry None es
  = shown es (product_view (replay (Products.empty (mkProductId a)) es)).
Proof.
  intros Hes. refine (fold_shows _ Products.apply product_view _ _ (fun _ => True) _ _ es Hes _);
    [by intros s [] _ | intros [e|e|e] [= _ Hi] _; simpl; by rewrite ?Hi | by destruct es].
Qed.

Lemma party_shows es :
  (forall e, e ∈ es -> party_owner e = (t, mkPartyId a)) ->
  foldl party_entry None es
  = shown es (party_view (replay (Parties.empty (mkPartyId a)) es)).
Proof.
  intros Hes. refine (fold_shows _ Parties.apply party_view _ _ (fun _ => True) _ _ es Hes _);
    [by intros s [] _ | intros [e|e|e] [= _ Hi] _; simpl; by rewrite ?Hi | by destruct es].
Qed.

Lemma sales_order_shows es :
  (forall e, e ∈ es -> sales_order_owner e = (t, mkSalesOrderId a)) ->
  foldl sales_order_entry None es
  = shown es (sales_order_view (replay (Sales.empty (mkSalesOrderId a)) es)).
Proof.
  intros Hes.
  refine (fold_shows _ Sales.apply sales_order_view _ _ (fun _ => True) _ _ es Hes _);
    [|intros [e|e|e|e] [= _ Hi] _; simpl; by rewrite ?Hi | by destruct es].
  intros s [e|e|e|e] _; [done| |done|done].
  unfold sales_order_view. simpl. by rewrite map_app.
Qed.

Lemma purchase_order_shows fresh unset es :
  (forall e, e ∈ es -> purchase_order_owner e = (t, mkPurchaseOrderId a)) ->
  starts is_purchase_order_created es ->
  foldl (purchase_order_entry fresh) None es
  = shown es (purchase_order_view unset (replay (Purchasing.empty (mkPurchaseOrderId a)) es)).
Proof.
  intros Hes Hst.
  refine (fold_shows _ Purchasing.apply (purchase_order_view unset) _ _
            is_purchase_order_created _ _ es Hes Hst);
    [by intros s [] _ | by intros []].
Qed.
End Shows.
