(* ===== verification/UserDirectory.v ===== *)
(** * The user directory: [projections/users.rs]

    Unlike the other projections, this one keeps no cursors and checks no
    isolation: it applies every envelope whose aggregate type starts with
    ["auth.user"].  Fed with the events of a user once and in order, it shows the
    [User] aggregate and answers its effective permissions; fed with an event
    twice, it need not.

    [set_order] (class [SetOrder]) is the iteration order of a [HashSet]. *)

From S2P Require Import Prelude Core Events Bus EventStore ReadModel.
From S2P Require Import Auth Users.

#[global] Instance UserId_countable : Countable UserId.
Proof. refine (inj_countable' user_id_uuid mkUserId _); by intros []. Defined.

(** @src crates/infra/src/projections/users.rs 23-34 [UserReadModel] *)
Record UserReadModel := mkUserReadModel {
  urm_user_id : UserId;
  urm_tenant_id : TenantId;
  urm_email : string;
  urm_display_name : string;
  urm_roles : list string;
  urm_status : string;
  urm_created_at : DateTime;
  urm_updated_at : DateTime
}.

(** @src crates/infra/src/projections/users.rs 36-43 [EffectivePermissions] *)
Record EffectivePermissions := mkEffectivePermissions {
  ep_user_id : UserId;
  ep_tenant_id : TenantId;
  ep_roles : list string;
  ep_permissions : list string
}.

(** @src crates/auth/src/user.rs 88-95 [Display for UserStatus] *)
Definition show_user_status (s : UserStatus) : string :=
  match s with Active => "Active" | Suspended => "Suspended" end.

Section Projection.
Context {S J : Type} `{TenantStore S UserId UserReadModel} `{Serde UserEvent J}.
Context `{Lowercase} `{SetOrder}.
Implicit Types (self : S).

(** @src crates/infra/src/projections/users.rs 83-96 [UsersProjection::apply_created] *)
Definition apply_created self (tenant_id : TenantId) (e : UserCreated) : S :=
  let model :=
    {| urm_user_id := uc_user_id e; urm_tenant_id := uc_tenant_id e; urm_email := uc_email e;
       urm_display_name := uc_display_name e; urm_roles := map role_str (uc_initial_roles e);
       urm_status := show_user_status Active; urm_created_at := uc_occurred_at e;
       urm_updated_at := uc_occurred_at e |} in
  ts_upsert self tenant_id (uc_user_id e) model.

(** [model.roles = rs; model.status = st; model.updated_at = now]. *)
Definition touch (model : UserReadModel) (rs : list string) (st : string) (now : DateTime)
  : UserReadModel :=
  {| urm_user_id := urm_user_id model; urm_tenant_id := urm_tenant_id model;
     urm_email := urm_email model; urm_display_name := urm_display_name model;
     urm_roles := rs; urm_status := st; urm_created_at := urm_created_at model;
     urm_updated_at := now |}.

(** @src crates/infra/src/projections/users.rs 98-108 [UsersProjection::apply_role_assigned] *)
Definition apply_role_assigned self (tenant_id : TenantId) (e : RoleAssigned) : S :=
  match ts_get self tenant_id (ra_user_id e) with
  | Some model =>
    let role := role_str (ra_role e) in
    let roles := if decide (role ∈ urm_roles model) then urm_roles model
                 else urm_roles model ++ [role] in
    ts_upsert self tenant_id (ra_user_id e)
      (touch model roles (urm_status model) (ra_occurred_at e))
  | None => self
  end.

(** @src crates/infra/src/projections/users.rs 110-118 [UsersProjection::apply_role_revoked] *)
Definition apply_role_revoked self (tenant_id : TenantId) (e : RoleRevoked) : S :=
  match ts_get self tenant_id (rv_user_id e) with
  | Some model =>
    let roles := List.filter (fun r => negb (String.eqb r (role_str (rv_role e))))
                   (urm_roles model) in
    ts_upsert self tenant_id (rv_user_id e)
      (touch model roles (urm_status model) (rv_occurred_at e))
  | None => self
  end.

(** @src crates/infra/src/projections/users.rs 120-127 [UsersProjection::apply_suspended] *)
Definition apply_suspended self (tenant_id : TenantId) (e : UserSuspended) : S :=
  match ts_get self tenant_id (us_user_id e) with
  | Some model =>
    ts_upsert self tenant_id (us_user_id e)
      (touch model (urm_roles model) (show_user_status Suspended) (us_occurred_at e))
  | None => self
  end.

(** @src crates/infra/src/projections/users.rs 129-136 [UsersProjection::apply_activated] *)
Definition apply_activated self (tenant_id : TenantId) (e : UserActivated) : S :=
  match ts_get self tenant_id (ua_user_id e) with
  | Some model =>
    ts_upsert self tenant_id (ua_user_id e)
      (touch model (urm_roles model) (show_user_status Active) (ua_occurred_at e))
  | None => self
  end.

(** @src crates/infra/src/projections/users.rs 62-81 [UsersProjection::apply_envelope] *)
Definition users_apply_envelope self (envelope : EventEnvelope J) : S * Result string unit :=
  if negb (String.prefix "auth.user" (env_aggregate_type envelope)) then (self, Ok tt) else
  match from_value (env_payload envelope) with
  | Err e => (self, Err e)
  | Ok event =>
    let tenant_id := env_tenant_id envelope in
    (match event with
     | EvCreated e => apply_created self tenant_id e
     | EvRoleAssigned e => apply_role_assigned self tenant_id e
     | EvRoleRevoked e => apply_role_revoked self tenant_id e
     | EvSuspended e => apply_suspended self tenant_id e
     | EvActivated e => apply_activated self tenant_id e
     end, Ok tt)
  end.

(** @src crates/infra/src/projections/users.rs 148-154 [UsersProjection::get_by_email] *)
Definition get_by_email self (tenant_id : TenantId) (email : string) : option UserReadModel :=
  let normalized := to_lowercase (str_trim email) in
  List.find (fun u => String.eqb (urm_email u) normalized) (ts_list self tenant_id).

(** @src crates/infra/src/projections/users.rs 156-183 [UsersProjection::effective_permissions] *)
Definition effective_permissions self (tenant_id : TenantId) (user_id : UserId) (role_permissions : string -> list string)
  : option EffectivePermissions :=
  model ← ts_get self tenant_id user_id;
  let all_permissions :=
    foldl (fun s role => insert_all s (role_permissions role)) (∅ : gset string)
      (urm_roles model) in
  Some {| ep_user_id := urm_user_id model; ep_tenant_id := urm_tenant_id model;
          ep_roles := urm_roles model; ep_permissions := set_order all_permissions |}.
End Projection.

(** ** One entry *)

Definition user_event_owner (e : UserEvent) : TenantId * UserId :=
  match e with
  | EvCreated e => (uc_tenant_id e, uc_user_id e)
  | EvRoleAssigned e => (ra_tenant_id e, ra_user_id e)
  | EvRoleRevoked e => (rv_tenant_id e, rv_user_id e)
  | EvSuspended e => (us_tenant_id e, us_user_id e)
  | EvActivated e => (ua_tenant_id e, ua_user_id e)
  end.

Definition user_entry (o : option UserReadModel) (e : UserEvent) : option UserReadModel :=
  match e with
  | EvCreated e => Some
    {| urm_user_id := uc_user_id e; urm_tenant_id := uc_tenant_id e; urm_email := uc_email e;
       urm_display_name := uc_display_name e; urm_roles := map role_str (uc_initial_roles e);
       urm_status := "Active"; urm_created_at := uc_occurred_at e;
       urm_updated_at := uc_occurred_at e |}
  | EvRoleAssigned e =>
    (fun m => touch m (if decide (role_str (ra_role e) ∈ urm_roles m) then urm_roles m
                       else urm_roles m ++ [role_str (ra_role e)])
                (urm_status m) (ra_occurred_at e)) <$> o
  | EvRoleRevoked e =>
    (fun m => touch m (List.filter (fun r => negb (String.eqb r (role_str (rv_role e))))
                         (urm_roles m)) (urm_status m) (rv_occurred_at e)) <$> o
  | EvSuspended e =>
    (fun m => touch m (urm_roles m) "Suspended" (us_occurred_at e)) <$> o
  | EvActivated e =>
    (fun m => touch m (urm_roles m) "Active" (ua_occurred_at e)) <$> o
  end.

(** What an entry says of a user. *)
Definition shows_user (t : TenantId) (rm : UserReadModel) (s : User) : Prop :=
  urm_user_id rm = id s /\ urm_tenant_id rm = t /\ user_tenant_id s = Some t
  /\ urm_email rm = email s /\ urm_display_name rm = display_name s
  /\ urm_roles rm = map role_str (roles s) /\ urm_status rm = show_user_status (status s).

Definition follows_user (t : TenantId) (o : option UserReadModel) (s : User) : Prop :=
  if created s then exists rm, o = Some rm /\ shows_user t rm s else o = None.

Definition for_user (t : TenantId) (i : UserId) (c : UserCommand) : Prop :=
  match c with
  | CmdCreate c => cu_tenant_id c = t /\ cu_user_id c = i
  | CmdAssignRole c => ar_tenant_id c = t /\ ar_user_id c = i
  | CmdRevokeRole c => rr_tenant_id c = t /\ rr_user_id c = i
  | CmdSuspend c => su_tenant_id c = t /\ su_user_id c = i
  | CmdActivate c => au_tenant_id c = t /\ au_user_id c = i
  end.

Lemma role_str_elem (rs : list Role) r : role_str r ∈ map role_str rs <-> r ∈ rs.
Proof.
  rewrite list_elem_of_fmap. split; [|by eauto].
  intros ([q] & Hq & Hin). destruct r; simpl in *. by subst.
Qed.

Lemma retain_map (rs : list Role) q :
  List.filter (fun r => negb (String.eqb r (role_str q))) (map role_str rs)
  = map role_str (List.filter (fun r => negb (String.eqb (role_str r) (role_str q))) rs).
Proof. induction rs as [|r rs IH]; simpl; [done|]. case_match; simpl; by rewrite IH. Qed.

Section Mirror.
Context `{Lowercase}.

(** An accepted command emits one event, addressed as the command. *)
Lemma user_handle_one s c es t i :
  handle s c = Ok es -> for_user t i c -> exists e, es = [e] /\ user_event_owner e = (t, i).
Proof.
  intros Hh Ht. destruct c as [c|c|c|c|c]; simpl in Hh, Ht; destruct Ht as [<- <-];
    [unfold handle_create in Hh|unfold handle_assign_role in Hh|unfold handle_revoke_role in Hh
    |unfold handle_suspend in Hh|unfold handle_activate in Hh];
    guards Hh; eexists; (split; [reflexivity|done]).
Qed.

Lemma user_entry_follows t i o s c es :
  follows_user t o s -> handle s c = Ok es -> for_user t i c ->
  follows_user t (foldl user_entry o es) (replay s es).
Proof.
  intros Hf Hh Ht. pose proof (user_handle_sound s c es Hh) as [Ha _].
  unfold follows_user in *.
  destruct c as [c|c|c|c|c]; simpl in Hh, Ha, Ht; destruct Ha as [Hc Ha]; rewrite Hc in Hf;
    [unfold handle_create in Hh|unfold handle_assign_role in Hh|unfold handle_revoke_role in Hh
    |unfold handle_suspend in Hh|unfold handle_activate in Hh];
    guards Hh; simpl; rewrite ?Hc;
    [|destruct Hf as (rm & -> & Hi & Htn & Ht' & He & Hd & Hr & Hs)..];
    (eexists; split; [reflexivity|]); unfold shows_user; simpl; [naive_solver|..];
    split_and!; try done.
  - rewrite Hr. rewrite decide_False, map_app; [done|]. rewrite role_str_elem. naive_solver.
  - by rewrite Hr, retain_map.
Qed.
End Mirror.

(** ** The store *)
Section Store.
Context {S J : Type} `{TenantStoreLaws S UserId UserReadModel} `{Serde UserEvent J}.
Implicit Types (self : S) (envs : list (EventEnvelope J)).

Definition users_apply_all self envs : S :=
  foldl (fun s env => (users_apply_envelope s env).1) self envs.

(** The events of user [i] among the envelopes of tenant [t]. *)
Definition user_event_of (t : TenantId) (i : UserId) (env : EventEnvelope J)
  : option UserEvent :=
  if negb (String.prefix "auth.user" (env_aggregate_type env)) then None else
  match from_value (env_payload env) with
  | Ok e => if decide (env_tenant_id env = t /\ (user_event_owner e).2 = i) then Some e else None
  | Err _ => None
  end.

Lemma get_touched self t k (f : UserReadModel -> UserReadModel) t' k' :
  ts_get (match ts_get self t k with Some m => ts_upsert self t k (f m) | None => self end) t' k'
  = if decide (t = t' /\ k = k') then f <$> ts_get self t' k' else ts_get self t' k'.
Proof.
  destruct (decide _) as [[-> ->]|Hne].
  - destruct (ts_get self t' k') eqn:E; [by rewrite get_upsert_eq | done].
  - destruct (ts_get self t k); [|done]. apply get_upsert_ne. intros [= -> ->]. by apply Hne.
Qed.

Lemma users_apply_get self env t i :
  ts_get (users_apply_envelope self env).1 t i
  = match user_event_of t i env with
    | Some e => user_entry (ts_get self t i) e
    | None => ts_get self t i
    end.
Proof.
  unfold users_apply_envelope, user_event_of. destruct (negb _); [done|].
  destruct (from_value _) as [e|]; [|done]. simpl.
  destruct e as [e|e|e|e|e]; simpl; unfold apply_created, apply_role_assigned,
    apply_role_revoked, apply_suspended, apply_activated;
    first [rewrite get_upsert_dec | rewrite get_touched]; by destruct (decide _).
Qed.

Lemma users_apply_all_get envs t i : forall self,
  ts_get (users_apply_all self envs) t i
  = foldl user_entry (ts_get self t i) (omap (user_event_of t i) envs).
Proof.
  induction envs as [|env envs IH]; intros self; simpl; [done|].
  unfold users_apply_all in *. simpl. rewrite IH, users_apply_get.
  by destruct (user_event_of t i env).
Qed.
End Store.

Section Directory.
Context {S J : Type} `{TenantStoreLaws S UserId UserReadModel} `{Serde UserEvent J}.
Context `{Lowercase} `{SetOrder}.

(** The user directory: take any commands addressed to a user, and let the
    projection apply the events they emitted, once each and in order, amid any
    envelopes of other users, tenants and modules.  The directory has an entry
    for the user exactly when the user was created, with the aggregate's email,
    name, status and roles, and the effective permissions it reports are exactly
    those the API grants to a token with the user's roles. *)
Theorem user_directory_shows_user (self : S) (t : TenantId) (i : UserId)
    (cs : list UserCommand) (envs : list (EventEnvelope J)) :
  Forall (for_user t i) cs -> ts_get self t i = None ->
  omap (user_event_of t i) envs = emitted (new t i) cs ->
  let self' := users_apply_all self envs in
  let s := foldl run_command (new t i) cs in
  if created s
  then exists rm ep,
    ts_get self' t i = Some rm /\ shows_user t rm s
    /\ effective_permissions self' t i default_role_permissions = Some ep
    /\ ep_roles ep = map role_str (roles s)
    /\ forall p, p ∈ ep_permissions ep
                 <-> mkPermission p ∈ permissions_from_roles (roles s)
  else ts_get self' t i = None.
Proof.
  intros Hto Hnone Hev self' s.
  assert (Hf : follows_user t (ts_get self' t i) s).
  { unfold self'. rewrite users_apply_all_get, Hnone, Hev.
    refine (emitted_follows user_entry (follows_user t) (for_user t i) cs _ None (new t i)
              eq_refl (user_new_inv t i) _ Hto).
    - intros v a c es Hv _ _ Hc Hh. exact (user_entry_follows t i v a c es Hv Hh Hc).
    - by apply Forall_true. }
  unfold follows_user in Hf. destruct (created s); [|done].
  destruct Hf as (rm & Hrm & Hs). unfold effective_permissions. rewrite Hrm.
  exists rm. eexists. split; [done|]. split; [done|]. split; [reflexivity|]. simpl.
  destruct Hs as (_ & _ & _ & _ & _ & Hr & _). rewrite Hr. split; [done|]. intros p.
  rewrite elem_of_permissions_from_roles, set_order_perm, elem_of_elements.
  rewrite elem_of_collected, elem_of_empty. setoid_rewrite list_elem_of_fmap. naive_solver.
Qed.
End Directory.

(** ** An event delivered twice

    The module documentation of the projections promises that all of them are
    safe for at-least-once delivery.  This one is not: a repeated assignment of a
    role that was revoked since gives the role back. *)
Theorem redelivered_assignment_regrants {S J : Type}
    `{TenantStoreLaws S UserId UserReadModel} `{Serde UserEvent J}
    (self : S) (env : EventEnvelope J) (e : RoleAssigned) (rm : UserReadModel) :
  user_event_of (env_tenant_id env) (ra_user_id e) env = Some (EvRoleAssigned e) ->
  ts_get self (env_tenant_id env) (ra_user_id e) = Some rm ->
  exists rm', ts_get (users_apply_envelope self env).1 (env_tenant_id env) (ra_user_id e)
              = Some rm' /\ role_str (ra_role e) ∈ urm_roles rm'.
Proof.
  intros Hev Hget. rewrite users_apply_get, Hev, Hget. simpl. eexists. split; [done|]. simpl.
  destruct (decide _); [done|]. rewrite elem_of_app. right. by left.
Qed.

Module Sample.
#[local] Instance sample_lowercase : Lowercase := fun s => s.
#[local] Instance sample_serde : Serde UserEvent UserEvent :=
  {| to_value e := Ok e; from_value j := Ok j |}.
#[local] Instance sample_order : SetOrder := {| set_order := elements; set_order_perm s := reflexivity _ |}.

Definition tenant : TenantId := mkTenantId 1.
Definition alice : UserId := mkUserId 2.
Definition create : UserCommand :=
  CmdCreate (mkCreateUser tenant alice "alice@example.com" "Alice" [mkRole "user"] 0).
Definition assign : UserCommand :=
  CmdAssignRole (mkAssignRole tenant alice (mkRole "warehouse") [mkRole "admin"] 1).
Definition revoke : UserCommand :=
  CmdRevokeRole (mkRevokeRole tenant alice (mkRole "user") 2).

Definition envelope (e : UserEvent) : EventEnvelope UserEvent :=
  mkEnvelope 0%N tenant (mkAggregateId 2) "auth.user" 1 e.

Lemma user_directory_shows_user_witness :
  exists (rm : UserReadModel) (ep : EffectivePermissions),
    ts_get (users_apply_all (∅ : InMemoryTenantStore UserId UserReadModel)
              (map envelope (emitted (new tenant alice) [create; assign; revoke]))) tenant alice
    = Some rm
    /\ ep_roles ep = ["warehouse"]
    /\ ("inventory.write"%string ∈ ep_permissions ep
        <-> mkPermission "inventory.write" ∈ permissions_from_roles [mkRole "warehouse"]).
Proof.
  pose proof (user_directory_shows_user (∅ : InMemoryTenantStore UserId UserReadModel)
    tenant alice [create; assign; revoke]
    (map envelope (emitted (new tenant alice) [create; assign; revoke]))
    ltac:(repeat constructor) (lookup_empty _) eq_refl) as H.
  assert (Hc : created (foldl run_command (new tenant alice) [create; assign; revoke]) = true)
    by reflexivity.
  assert (Hrs : map role_str (roles (foldl run_command (new tenant alice) [create; assign; revoke]))
                = ["warehouse"%string]) by reflexivity.
  assert (Hr' : roles (foldl run_command (new tenant alice) [create; assign; revoke])
                = [mkRole "warehouse"]) by reflexivity.
  cbv zeta in H. rewrite Hc, Hrs, Hr' in H.
  destruct H as (rm & ep & Hrm & _ & _ & Hr & Hp). exists rm, ep.
  split; [exact Hrm|]. split; [exact Hr | exact (Hp "inventory.write"%string)].
Defined.

(** The stream is created, granted a role, stripped of it; the second delivery of
    the grant restores it in the read model. *)
Example regranted :
  let events := emitted (new tenant alice)
    [create; assign; CmdRevokeRole (mkRevokeRole tenant alice (mkRole "warehouse") 2)] in
  let envs := map envelope events in
  option_map urm_roles
    (ts_get (users_apply_all (∅ : InMemoryTenantStore UserId UserReadModel)
       (envs ++ take 1 (drop 1 envs))) tenant alice)
  = Some ["user"; "warehouse"]%string
  /\ roles (replay (new tenant alice) events) = [mkRole "user"].
Proof. split; reflexivity. Qed.
End Sample.
