(* ===== verification/Services.v ===== *)
(** * The read side of the running system: [api/src/app/services.rs]

    [AppServices] wires one instance of every read model to the event bus: a
    background subscriber hands each envelope it receives to the projections of
    the envelope's aggregate type, and the API reads the projections.  This file
    models the in-memory wiring, the subscriber's turn and the accessors, and
    proves that the read models show the aggregates.

    The payload type [J] and its decoders are parameters; a poisoned lock and the
    start of an anomaly runner are not modelled (a trigger is recorded, per
    tenant, where the code wakes the runner). *)

From S2P Require Import Prelude Core Events Bus EventStore ReadModel Projection.
From S2P Require Import Auth Products Parties Users Sales Purchasing Invoicing Accounting.
From S2P Require Import Saga Stock Receivables TrialBalance Directories UserDirectory.
From S2P Require Inventory.
Import Inventory (InventoryItemId, mkInventoryItemId, InventoryEvent, InventoryItem).

#[local] Abbreviation Proj K V := (Projector (InMemoryTenantStore K V) InMemoryCursorStore).

(** The fields of the JSON object the subscriber broadcasts. *)
Record ProjectionUpdate := mkProjectionUpdate {
  pup_aggregate_type : string;
  pup_aggregate_id : AggregateId;
  pup_sequence_number : Z
}.

(** @src crates/api/src/app/services.rs 45-49 [RealtimeMessage] *)
Record RealtimeMessage := mkRealtimeMessage {
  rt_tenant_id : TenantId;
  rt_topic : string;
  rt_payload : ProjectionUpdate
}.

(** The projections of the in-memory variant, what was sent on the realtime
    channel, and the tenants whose anomaly runner was triggered.

    @src crates/api/src/app/services.rs 161-193 [AppServices::InMemory] *)
Record AppServices := mkAppServices {
  as_inventory : Proj InventoryItemId InventoryReadModel;
  as_parties : Proj PartyId PartyReadModel;
  as_products : Proj ProductId ProductReadModel;
  as_sales : Proj SalesOrderId SalesOrderReadModel;
  as_invoices : Proj InvoiceId InvoiceReadModel;
  as_ar_aging : Proj InvoiceId InvoiceAgingReadModel;
  as_purchases : Proj PurchaseOrderId PurchaseOrderReadModel;
  as_ledger : Proj string AccountBalance;
  as_users : InMemoryTenantStore UserId UserReadModel;
  as_realtime : list RealtimeMessage;
  as_triggered : list TenantId
}.

(** Assignment to one field. *)
Definition set_inventory (s : AppServices) x : AppServices :=
  mkAppServices x (as_parties s) (as_products s) (as_sales s) (as_invoices s) (as_ar_aging
    s) (as_purchases s) (as_ledger s) (as_users s) (as_realtime s) (as_triggered s).
Definition set_parties (s : AppServices) x : AppServices :=
  mkAppServices (as_inventory s) x (as_products s) (as_sales s) (as_invoices s) (as_ar_aging
    s) (as_purchases s) (as_ledger s) (as_users s) (as_realtime s) (as_triggered s).
Definition set_products (s : AppServices) x : AppServices :=
  mkAppServices (as_inventory s) (as_parties s) x (as_sales s) (as_invoices s) (as_ar_aging
    s) (as_purchases s) (as_ledger s) (as_users s) (as_realtime s) (as_triggered s).
Definition set_sales (s : AppServices) x : AppServices :=
  mkAppServices (as_inventory s) (as_parties s) (as_products s) x (as_invoices s)
    (as_ar_aging s) (as_purchases s) (as_ledger s) (as_users s) (as_realtime s)
    (as_triggered s).
Definition set_invoices (s : AppServices) x : AppServices :=
  mkAppServices (as_inventory s) (as_parties s) (as_products s) (as_sales s) x (as_ar_aging
    s) (as_purchases s) (as_ledger s) (as_users s) (as_realtime s) (as_triggered s).
Definition set_ar_aging (s : AppServices) x : AppServices :=
  mkAppServices (as_inventory s) (as_parties s) (as_products s) (as_sales s) (as_invoices s)
    x (as_purchases s) (as_ledger s) (as_users s) (as_realtime s) (as_triggered s).
Definition set_purchases (s : AppServices) x : AppServices :=
  mkAppServices (as_inventory s) (as_parties s) (as_products s) (as_sales s) (as_invoices s)
    (as_ar_aging s) x (as_ledger s) (as_users s) (as_realtime s) (as_triggered s).
Definition set_ledger (s : AppServices) x : AppServices :=
  mkAppServices (as_inventory s) (as_parties s) (as_products s) (as_sales s) (as_invoices s)
    (as_ar_aging s) (as_purchases s) x (as_users s) (as_realtime s) (as_triggered s).
Definition set_users (s : AppServices) x : AppServices :=
  mkAppServices (as_inventory s) (as_parties s) (as_products s) (as_sales s) (as_invoices s)
    (as_ar_aging s) (as_purchases s) (as_ledger s) x (as_realtime s) (as_triggered s).
Definition set_realtime (s : AppServices) x : AppServices :=
  mkAppServices (as_inventory s) (as_parties s) (as_products s) (as_sales s) (as_invoices s)
    (as_ar_aging s) (as_purchases s) (as_ledger s) (as_users s) x (as_triggered s).
Definition set_triggered (s : AppServices) x : AppServices :=
  mkAppServices (as_inventory s) (as_parties s) (as_products s) (as_sales s) (as_invoices s)
    (as_ar_aging s) (as_purchases s) (as_ledger s) (as_users s) (as_realtime s) x.

(** @src crates/api/src/app/services.rs 249-295 [build_in_memory_services] *)
Definition services_new : AppServices :=
  {| as_inventory := projector_new "inventory.stock" ∅;
     as_parties := projector_new "parties.directory" ∅;
     as_products := projector_new "products.catalog" ∅;
     as_sales := projector_new "sales.orders" ∅;
     as_invoices := projector_new "invoicing.invoices" ∅;
     as_ar_aging := projector_new "invoicing.aging" ∅;
     as_purchases := projector_new "purchasing.orders" ∅;
     as_ledger := projector_new "accounting.balances" ∅;
     as_users := ∅; as_realtime := []; as_triggered := [] |}.


Section Services.
Context {J : Type}.
Context `{Serde InventoryEvent J} `{Serde PartyEvent J} `{Serde ProductEvent J}
  `{Serde SalesOrderEvent J} `{Serde InvoiceEvent J} `{Serde PurchaseOrderEvent J}
  `{Serde LedgerEvent J} `{Serde UserEvent J}.
Context (fresh_order : InvoiceEvent -> SalesOrderId).
Context (fresh_supplier : PurchaseOrderEvent -> PartyId).
Implicit Types (self : AppServices) (env : EventEnvelope J) (envs : list (EventEnvelope J)).

(** The projections of the wiring, as keyed projections. *)
#[local] Abbreviation stock_k := (stock_keyed (J:=J)
  (S:=InMemoryTenantStore InventoryItemId InventoryReadModel)).
#[local] Abbreviation parties_k := (parties_projection (J:=J)
  (S:=InMemoryTenantStore PartyId PartyReadModel)).
#[local] Abbreviation products_k := (products_projection (J:=J)
  (S:=InMemoryTenantStore ProductId ProductReadModel)).
#[local] Abbreviation sales_k := (sales_orders_projection (J:=J)
  (S:=InMemoryTenantStore SalesOrderId SalesOrderReadModel)).
#[local] Abbreviation invoices_k := (invoices_projection fresh_order (J:=J)
  (S:=InMemoryTenantStore InvoiceId InvoiceReadModel)).
#[local] Abbreviation aging_k := (aging_projection (J:=J)
  (S:=InMemoryTenantStore InvoiceId InvoiceAgingReadModel)).
#[local] Abbreviation purchases_k := (purchase_orders_projection fresh_supplier (J:=J)
  (S:=InMemoryTenantStore PurchaseOrderId PurchaseOrderReadModel)).

(** The [match at] of the subscriber; the flag is [apply_ok.is_ok()].  A failure
    of the invoice document keeps the envelope from the ageing report.

    @src crates/api/src/app/services.rs 326-347 [build_in_memory_services (subscriber)] *)
Definition apply_to_projections self env : AppServices * bool :=
  let at_ := env_aggregate_type env in
  if String.eqb at_ "inventory.item" then
    let '(p, r) := deliver (HK:=stock_k) (as_inventory self) env in
    (set_inventory self p, is_ok r)
  else if String.eqb at_ "parties.party" then
    let '(p, r) := deliver (HK:=parties_k) (as_parties self) env in
    (set_parties self p, is_ok r)
  else if String.eqb at_ "products.product" then
    let '(p, r) := deliver (HK:=products_k) (as_products self) env in
    (set_products self p, is_ok r)
  else if String.eqb at_ "sales.order" then
    let '(p, r) := deliver (HK:=sales_k) (as_sales self) env in
    (set_sales self p, is_ok r)
  else if String.eqb at_ "invoicing.invoice" then
    let '(p, r) := deliver (HK:=invoices_k) (as_invoices self) env in
    let self := set_invoices self p in
    if is_ok r then
      let '(p, r) := deliver (HK:=aging_k) (as_ar_aging self) env in
      (set_ar_aging self p, is_ok r)
    else (self, false)
  else if String.eqb at_ "purchasing.order" then
    let '(p, r) := deliver (HK:=purchases_k) (as_purchases self) env in
    (set_purchases self p, is_ok r)
  else if String.eqb at_ "accounting.ledger" then
    let '(p, r) := TrialBalance.apply_envelope (as_ledger self) env in
    (set_ledger self p, is_ok r)
  else if String.eqb at_ "auth.user" then
    let '(p, r) := users_apply_envelope (as_users self) env in
    (set_users self p, is_ok r)
  else (self, true).

(** One envelope.

    @src crates/api/src/app/services.rs 323-383 [build_in_memory_services (subscriber)] *)
Definition subscriber_turn self env : AppServices :=
  let '(self, apply_ok) := apply_to_projections self env in
  if negb apply_ok then self else
  let message :=
    {| rt_tenant_id := env_tenant_id env;
       rt_topic := env_aggregate_type env +:+ ".projection_updated";
       rt_payload := {| pup_aggregate_type := env_aggregate_type env;
                        pup_aggregate_id := env_aggregate_id env;
                        pup_sequence_number := env_sequence_number env |} |} in
  let self := set_realtime self (as_realtime self ++ [message]) in
  if String.eqb (env_aggregate_type env) "inventory.item"
  then set_triggered self (as_triggered self ++ [env_tenant_id env])
  else self.

Definition subscriber_run self envs : AppServices := foldl subscriber_turn self envs.
End Services.

(** ** What the API reads *)
Section Accessors.
Context `{SetOrder}.
Implicit Types (self : AppServices) (tenant_id : TenantId).

(** @src crates/api/src/app/services.rs 705-715 [AppServices::inventory_get] *)
Definition inventory_get self tenant_id (item_id : InventoryItemId) : option InventoryReadModel :=
  ts_get (p_store (as_inventory self)) tenant_id item_id.

(** @src crates/api/src/app/services.rs 717-727 [AppServices::products_get] *)
Definition products_get self tenant_id (product_id : ProductId) : option ProductReadModel :=
  ts_get (p_store (as_products self)) tenant_id product_id.

(** @src crates/api/src/app/services.rs 729-735 [AppServices::products_list] *)
Definition products_list self tenant_id : list ProductReadModel :=
  ts_list (p_store (as_products self)) tenant_id.

(** @src crates/api/src/app/services.rs 737-747 [AppServices::parties_get] *)
Definition parties_get self tenant_id (party_id : PartyId) : option PartyReadModel :=
  ts_get (p_store (as_parties self)) tenant_id party_id.

(** @src crates/api/src/app/services.rs 749-755 [AppServices::parties_list] *)
Definition parties_list self tenant_id : list PartyReadModel :=
  ts_list (p_store (as_parties self)) tenant_id.

(** @src crates/api/src/app/services.rs 757-767 [AppServices::sales_get] *)
Definition sales_get self tenant_id (order_id : SalesOrderId) : option SalesOrderReadModel :=
  ts_get (p_store (as_sales self)) tenant_id order_id.

(** @src crates/api/src/app/services.rs 769-775 [AppServices::sales_list] *)
Definition sales_list self tenant_id : list SalesOrderReadModel :=
  ts_list (p_store (as_sales self)) tenant_id.

(** @src crates/api/src/app/services.rs 777-787 [AppServices::invoices_get] *)
Definition invoices_get self tenant_id (invoice_id : InvoiceId) : option InvoiceReadModel :=
  ts_get (p_store (as_invoices self)) tenant_id invoice_id.

(** @src crates/api/src/app/services.rs 789-795 [AppServices::invoices_list] *)
Definition invoices_list self tenant_id : list InvoiceReadModel :=
  ts_list (p_store (as_invoices self)) tenant_id.

(** @src crates/api/src/app/services.rs 797-803 [AppServices::ar_aging_list] *)
Definition ar_aging_list self tenant_id : list InvoiceAgingReadModel :=
  ts_list (p_store (as_ar_aging self)) tenant_id.

(** @src crates/api/src/app/services.rs 805-815 [AppServices::purchases_get] *)
Definition purchases_get self tenant_id (order_id : PurchaseOrderId)
  : option PurchaseOrderReadModel :=
  ts_get (p_store (as_purchases self)) tenant_id order_id.

(** @src crates/api/src/app/services.rs 817-823 [AppServices::purchases_list] *)
Definition purchases_list self tenant_id : list PurchaseOrderReadModel :=
  ts_list (p_store (as_purchases self)) tenant_id.

(** @src crates/api/src/app/services.rs 825-831 [AppServices::ledger_balances_list] *)
Definition ledger_balances_list self tenant_id : list AccountBalance :=
  ts_list (p_store (as_ledger self)) tenant_id.

(** @src crates/api/src/app/services.rs 833-839 [AppServices::ledger_balance_get] *)
Definition ledger_balance_get self tenant_id (code : string) : option AccountBalance :=
  ts_get (p_store (as_ledger self)) tenant_id code.

(** @src crates/api/src/app/services.rs 841-847 [AppServices::users_get] *)
Definition users_get self tenant_id (user_id : UserId) : option UserReadModel :=
  ts_get (as_users self) tenant_id user_id.

(** @src crates/api/src/app/services.rs 849-855 [AppServices::users_list] *)
Definition users_list self tenant_id : list UserReadModel := ts_list (as_users self) tenant_id.

(** @src crates/api/src/app/services.rs 857-875 [AppServices::users_effective_permissions] *)
Definition users_effective_permissions self tenant_id (user_id : UserId)
    (role_permissions : string -> list string) : option EffectivePermissions :=
  effective_permissions (as_users self) tenant_id user_id role_permissions.

(** What a tenant's event stream shows of the messages its receiver got.

    @src crates/api/src/app/services.rs 950-964 [tenant_sse_stream] *)
Definition tenant_sse_stream (received : list RealtimeMessage) tenant_id : list RealtimeMessage :=
  List.filter (fun m => bool_decide (rt_tenant_id m = tenant_id)) received.
End Accessors.

(** ** The read side shows the write side *)
Section ReadSide.
Context {J : Type}.
Context `{Serde InventoryEvent J} `{Serde PartyEvent J} `{Serde ProductEvent J}
  `{Serde SalesOrderEvent J} `{Serde InvoiceEvent J} `{Serde PurchaseOrderEvent J}
  `{Serde LedgerEvent J} `{Serde UserEvent J}.
Context (fresh_order : InvoiceEvent -> SalesOrderId).
Context (fresh_supplier : PurchaseOrderEvent -> PartyId).
Implicit Types (self : AppServices) (env : EventEnvelope J) (envs : list (EventEnvelope J)).

#[local] Abbreviation turn := (subscriber_turn fresh_order fresh_supplier).
#[local] Abbreviation run := (subscriber_run fresh_order fresh_supplier).
#[local] Abbreviation stock_k := (stock_keyed (J:=J)
  (S:=InMemoryTenantStore InventoryItemId InventoryReadModel)).
#[local] Abbreviation parties_k := (parties_projection (J:=J)
  (S:=InMemoryTenantStore PartyId PartyReadModel)).
#[local] Abbreviation products_k := (products_projection (J:=J)
  (S:=InMemoryTenantStore ProductId ProductReadModel)).
#[local] Abbreviation sales_k := (sales_orders_projection (J:=J)
  (S:=InMemoryTenantStore SalesOrderId SalesOrderReadModel)).
#[local] Abbreviation invoices_k := (invoices_projection fresh_order (J:=J)
  (S:=InMemoryTenantStore InvoiceId InvoiceReadModel)).
#[local] Abbreviation aging_k := (aging_projection (J:=J)
  (S:=InMemoryTenantStore InvoiceId InvoiceAgingReadModel)).
#[local] Abbreviation purchases_k := (purchase_orders_projection fresh_supplier (J:=J)
  (S:=InMemoryTenantStore PurchaseOrderId PurchaseOrderReadModel)).

(** What a turn broadcasts touches no projection. *)
Lemma turn_fields {X} (field : AppServices -> X) self env :
  (forall s x, field (set_realtime s x) = field s) ->
  (forall s x, field (set_triggered s x) = field s) ->
  field (turn self env)
  = field (apply_to_projections fresh_order fresh_supplier self env).1.
Proof.
  intros Hr Ht. unfold subscriber_turn.
  destruct (apply_to_projections _ _ self env) as [s ok]. destruct ok; [|done]. simpl.
  destruct (String.eqb _ _); by rewrite ?Ht, ?Hr.
Qed.

(** The envelope is another module's. *)
Ltac other_modules :=
  repeat match goal with
  | |- context [if String.eqb ?x ?y then _ else _] => destruct (String.eqb x y)
  | |- context [let '(_, _) := ?x in _] => destruct x as [? [?|?]]
  end; done.

(** A turn is a delivery to each projection that keeps cursors, which ignores the
    envelopes of other modules. *)
Ltac turn_is_deliver ty :=
  intros; rewrite turn_fields by done; unfold apply_to_projections;
  match goal with |- _ = (deliver (HK:=?k) _ ?env).1 =>
    destruct (decide (env_aggregate_type env = ty)) as [Hty|Hty];
    [rewrite Hty; cbn [String.eqb Ascii.eqb Bool.eqb];
     repeat match goal with |- context [let '(_, _) := ?x in _] =>
       destruct x as [? [?|?]] end; done
    |rewrite (deliver_other (HK:=k) _ env) by exact Hty; apply String.eqb_neq in Hty;
     rewrite ?Hty;
     other_modules]
  end.

Lemma turn_stock self env :
  as_inventory (turn self env) = (deliver (HK:=stock_k) (as_inventory self) env).1.
Proof. turn_is_deliver "inventory.item"%string. Qed.

Lemma turn_parties self env :
  as_parties (turn self env) = (deliver (HK:=parties_k) (as_parties self) env).1.
Proof. turn_is_deliver "parties.party"%string. Qed.

Lemma turn_products self env :
  as_products (turn self env) = (deliver (HK:=products_k) (as_products self) env).1.
Proof. turn_is_deliver "products.product"%string. Qed.

Lemma turn_sales self env :
  as_sales (turn self env) = (deliver (HK:=sales_k) (as_sales self) env).1.
Proof. turn_is_deliver "sales.order"%string. Qed.

Lemma turn_invoices self env :
  as_invoices (turn self env) = (deliver (HK:=invoices_k) (as_invoices self) env).1.
Proof. turn_is_deliver "invoicing.invoice"%string. Qed.

Lemma turn_purchases self env :
  as_purchases (turn self env) = (deliver (HK:=purchases_k) (as_purchases self) env).1.
Proof. turn_is_deliver "purchasing.order"%string. Qed.

(** The ageing report is delivered what the invoice document took. *)
Lemma turn_aging self env :
  (deliver (HK:=invoices_k) (as_invoices self) env).2 = Ok tt ->
  as_ar_aging (turn self env) = (deliver (HK:=aging_k) (as_ar_aging self) env).1.
Proof.
  intros Hok. rewrite turn_fields by done. unfold apply_to_projections.
  destruct (decide (env_aggregate_type env = "invoicing.invoice"%string)) as [Hty|Hty].
  - rewrite Hty. cbn [String.eqb Ascii.eqb Bool.eqb].
    destruct (deliver (as_invoices self) env) as [p r]. simpl in Hok. subst r. simpl.
    by destruct (deliver (HK:=aging_k) (as_ar_aging self) env).
  - rewrite (deliver_other (HK:=aging_k) _ env) by exact Hty. apply String.eqb_neq in Hty.
    rewrite Hty. other_modules.
Qed.

(** The ledger's projection checks the type itself. *)
Lemma turn_ledger self env :
  as_ledger (turn self env) = (TrialBalance.apply_envelope (as_ledger self) env).1.
Proof.
  rewrite turn_fields by done. unfold apply_to_projections.
  destruct (decide (env_aggregate_type env = "accounting.ledger"%string)) as [Hty|Hty].
  - rewrite Hty. cbn [String.eqb Ascii.eqb Bool.eqb]. by destruct (apply_envelope _ _).
  - rewrite (apply_envelope_other _ env Hty). apply String.eqb_neq in Hty. rewrite Hty.
    other_modules.
Qed.

Lemma run_ledger envs : forall self,
  as_ledger (run self envs) = deliver_all (as_ledger self) envs.
Proof.
  induction envs as [|env envs IH]; intros self; [done|].
  unfold run, deliver_all in *. simpl. by rewrite IH, turn_ledger.
Qed.

(** The user directory is handed the envelopes of users only. *)
Definition user_envelopes envs : list (EventEnvelope J) :=
  filter (fun env => env_aggregate_type env = "auth.user"%string) envs.

Lemma turn_users self env :
  as_users (turn self env) = users_apply_all (as_users self) (user_envelopes [env]).
Proof.
  rewrite turn_fields by done. unfold apply_to_projections, user_envelopes.
  rewrite filter_cons, filter_nil.
  destruct (decide (env_aggregate_type env = "auth.user"%string)) as [Hty|Hty].
  - rewrite Hty. cbn [String.eqb Ascii.eqb Bool.eqb]. unfold users_apply_all. simpl.
    by destruct (users_apply_envelope _ _).
  - apply String.eqb_neq in Hty. rewrite Hty. other_modules.
Qed.

Lemma run_users envs : forall self,
  as_users (run self envs) = users_apply_all (as_users self) (user_envelopes envs).
Proof.
  induction envs as [|env envs IH]; intros self; [done|].
  change (run self (env :: envs)) with (run (turn self env) envs). rewrite IH, turn_users.
  unfold users_apply_all. rewrite <- foldl_app. f_equal. symmetry. apply (filter_app _ [env] envs).
Qed.

Lemma run_component {K V E} `{Countable K} (HK : Keyed (InMemoryTenantStore K V) K V J E)
    (field : AppServices -> Proj K V) :
  (forall self env, field (turn self env) = (deliver (HK:=HK) (field self) env).1) ->
  forall envs self,
  field (run self envs) = foldl (fun p env => (deliver (HK:=HK) p env).1) (field self) envs.
Proof.
  intros Hturn envs. induction envs as [|env envs IH]; intros self; [done|].
  simpl. unfold run in *. simpl. rewrite IH. by rewrite Hturn.
Qed.

Lemma run_aging envs : forall self,
  (project_all (deliver (HK:=invoices_k)) (as_invoices self) envs).2 = Ok tt ->
  as_ar_aging (run self envs)
  = foldl (fun p env => (deliver (HK:=aging_k) p env).1) (as_ar_aging self) envs.
Proof.
  induction envs as [|env envs IH]; intros self Hok; [done|]. simpl in *.
  destruct (deliver (as_invoices self) env) as [p [[]|e]] eqn:Ed; [|done].
  unfold run in *. simpl. rewrite IH.
  - rewrite turn_aging; [done|]. by rewrite Ed.
  - rewrite turn_invoices. by rewrite Ed.
Qed.

(** A component of a new system follows its histories. *)
Lemma component_follows {K V E} `{Countable K} (HK : Keyed (InMemoryTenantStore K V) K V J E)
    (field : AppServices -> Proj K V) name hist envs :
  (forall self env, field (turn self env) = (deliver (HK:=HK) (field self) env).1) ->
  field services_new = projector_new name ∅ -> served HK hist envs ->
  forall t a, ts_get (p_store (field (run services_new envs))) t (kp_key (Keyed:=HK) a)
    = foldl (kp_step (Keyed:=HK) a) None (take (reach (kp_type (Keyed:=HK)) t a envs) (hist t a)).
Proof.
  intros Hturn Hnew Hs t a. rewrite (run_component HK field Hturn), Hnew.
  destruct (served_tracks HK (CS:=InMemoryCursorStore) hist envs name ∅ Hs
              (fun t k => lookup_empty _)) as [Hok Hget].
  rewrite (project_all_foldl _ _ Hok). apply Hget.
Qed.

Lemma invoice_handle_one (a : Invoice) c es :
  agg_inv a -> cmd_ok c -> agg_handle a c = Ok es -> length es = 1.
Proof. intros Hi Hc Hh. by rewrite (handle_decides a c es Hi Hc Hh). Qed.

(** What was delivered of a stream. *)
Definition seen {E} (ty : string) (envs : list (EventEnvelope J))
    (hist : TenantId -> AggregateId -> list E) (t : TenantId) (a : AggregateId) : list E :=
  take (reach ty t a envs) (hist t a).

Lemma elem_of_seen {E} ty envs (hist : TenantId -> AggregateId -> list E) t a e :
  e ∈ seen ty envs hist t a -> e ∈ hist t a.
Proof. intros (i & Hi & _)%elem_of_take. by eapply list_elem_of_lookup_2. Qed.

(** The ageing report is served like the invoice document. *)
Lemma aging_follows hist envs :
  served invoices_k hist envs -> forall t a,
  ts_get (p_store (as_ar_aging (run services_new envs))) t (mkInvoiceId a)
  = foldl aging_entry None (seen "invoicing.invoice" envs hist t a).
Proof.
  intros Hv t a.
  destruct (served_tracks invoices_k (CS:=InMemoryCursorStore) hist envs "invoicing.invoices" ∅ Hv
              (fun t k => lookup_empty _)) as [Hok _].
  destruct (served_tracks aging_k (CS:=InMemoryCursorStore) hist envs "invoicing.aging" ∅ Hv
              (fun t k => lookup_empty _)) as [Hok' Hget].
  rewrite run_aging by exact Hok.
  rewrite (project_all_foldl (HK:=aging_k) (as_ar_aging services_new) envs Hok'). apply Hget.
Qed.

Lemma invoice_entries_follow a cs :
  Forall Invoicing.command_ok cs ->
  follows (foldl (invoice_entry fresh_order) None
             (emitted (Invoicing.empty (mkInvoiceId a)) cs),
           foldl aging_entry None (emitted (Invoicing.empty (mkInvoiceId a)) cs),
           foldl (open_entry (fun _ => 0%Z)) None (emitted (Invoicing.empty (mkInvoiceId a)) cs))
    (foldl run_command (Invoicing.empty (mkInvoiceId a)) cs).
Proof.
  intros Hok. rewrite <- (entries_fold (fun _ => 0%Z)).
  apply (emitted_follows _ follows (fun _ => True)); [|done|apply invoice_empty_inv|done|by apply Forall_true].
  intros v s c es Hv Hi Hc _ Hh. by apply (entries_follow _ _ _ _ c).
Qed.

(** The read side shows the write side: start the services, and let the
    subscriber take any sequence of envelopes in which the events of every stream
    of the modules come from its first event without gaps, in any interleaving and
    with any repetitions, amid envelopes of anything else.  What the API then reads
    of an item, a product, a party, a sales order or a purchase order is the view
    of the aggregate rehydrated from the events delivered of its stream, nothing
    before the first; and an invoice's document and ageing entry mirror the
    invoice after some prefix of the commands that were sent to it, the one that
    emitted the events delivered. *)
Theorem read_side_shows_write_side
    (items : TenantId -> AggregateId -> list InventoryEvent)
    (products : TenantId -> AggregateId -> list ProductEvent)
    (parties : TenantId -> AggregateId -> list PartyEvent)
    (orders : TenantId -> AggregateId -> list SalesOrderEvent)
    (purchases : TenantId -> AggregateId -> list PurchaseOrderEvent)
    (invoices : TenantId -> AggregateId -> list InvoiceCommand)
    (unset : PartyId) (envs : list (EventEnvelope J)) :
  let invoiced t a := emitted (Invoicing.empty (mkInvoiceId a)) (invoices t a) in
  served stock_k items envs -> served products_k products envs ->
  served parties_k parties envs -> served sales_k orders envs ->
  served purchases_k purchases envs -> served invoices_k invoiced envs ->
  (forall t a, starts is_purchase_order_created (purchases t a)) ->
  (forall t a, Forall Invoicing.command_ok (invoices t a)) ->
  let s := run services_new envs in
  forall t a,
  (let es := seen "inventory.item" envs items t a in
   inventory_get s t (mkInventoryItemId a) = shown es (stock_view (replay (item_at a) es)))
  /\ (let es := seen "products.product" envs products t a in
      products_get s t (mkProductId a)
      = shown es (product_view (replay (Products.empty (mkProductId a)) es)))
  /\ (let es := seen "parties.party" envs parties t a in
      parties_get s t (mkPartyId a)
      = shown es (party_view (replay (Parties.empty (mkPartyId a)) es)))
  /\ (let es := seen "sales.order" envs orders t a in
      sales_get s t (mkSalesOrderId a)
      = shown es (sales_order_view (replay (Sales.empty (mkSalesOrderId a)) es)))
  /\ (let es := seen "purchasing.order" envs purchases t a in
      purchases_get s t (mkPurchaseOrderId a)
      = shown es (purchase_order_view unset
                    (replay (Purchasing.empty (mkPurchaseOrderId a)) es)))
  /\ exists n o,
       let cs := take n (invoices t a) in
       seen "invoicing.invoice" envs invoiced t a
         = emitted (Invoicing.empty (mkInvoiceId a)) cs
       /\ follows (invoices_get s t (mkInvoiceId a),
                   ts_get (p_store (as_ar_aging s)) t (mkInvoiceId a), o)
            (foldl run_command (Invoicing.empty (mkInvoiceId a)) cs).
Proof.
  intros invoiced Hi Hp Hq Ho Hb Hv Hstart Hok s t a. split_and!.
  - etrans; [exact (component_follows stock_k as_inventory _ _ _ turn_stock eq_refl Hi t a)|].
    apply (stock_entry_view t a). intros e He%elem_of_seen. by apply Hi.
  - etrans; [exact (component_follows products_k as_products _ _ _ turn_products eq_refl Hp t a)|].
    apply (product_shows t a). intros e He%elem_of_seen.
    apply (entry_isolation_None "product_id" _ _ product_key_agg). by apply Hp.
  - etrans; [exact (component_follows parties_k as_parties _ _ _ turn_parties eq_refl Hq t a)|].
    apply (party_shows t a). intros e He%elem_of_seen.
    apply (entry_isolation_None "party_id" _ _ party_key_agg). by apply Hq.
  - etrans; [exact (component_follows sales_k as_sales _ _ _ turn_sales eq_refl Ho t a)|].
    apply (sales_order_shows t a). intros e He%elem_of_seen.
    apply (entry_isolation_None "order_id" _ _ sales_key_agg). by apply Ho.
  - etrans; [exact (component_follows purchases_k as_purchases _ _ _ turn_purchases eq_refl Hb t a)|].
    apply (purchase_order_shows t a); [|apply starts_take, Hstart]. intros e He%elem_of_seen.
    apply (entry_isolation_None "order_id" _ _ purchase_key_agg). by apply Hb.
  - destruct (take_emitted (invoices t a) invoice_handle_one (Invoicing.empty (mkInvoiceId a))
      (reach "invoicing.invoice" t a envs) (invoice_empty_inv _) (Hok t a)) as [n Hn].
    exists n. eexists. split; [exact Hn|].
    pose proof (invoice_entries_follow a (take n (invoices t a))
      ltac:(by apply Forall_take)) as Hf.
    rewrite <- Hn in Hf. simpl in Hf.
    assert (Hd : invoices_get s t (mkInvoiceId a)
      = foldl (invoice_entry fresh_order) None (seen "invoicing.invoice" envs invoiced t a))
      by exact (component_follows invoices_k as_invoices _ _ _ turn_invoices eq_refl Hv t a).
    pose proof (aging_follows invoiced envs Hv t a) as Ha. fold s in Ha.
    rewrite Hd, Ha. exact Hf.
Qed.
End ReadSide.

(** A sample: an item, and a purchase order that is created between the item's two
    events; the invoice of a third stream. *)
Module Sample.
Inductive Payload : Type :=
| PItem (e : InventoryEvent) | PParty (e : PartyEvent) | PProduct (e : ProductEvent)
| POrder (e : SalesOrderEvent) | PInvoice (e : InvoiceEvent)
| PPurchase (e : PurchaseOrderEvent) | PLedger (e : LedgerEvent) | PUser (e : UserEvent).

#[local] Instance item_serde : Serde InventoryEvent Payload :=
  {| to_value e := Ok (PItem e); from_value j := match j with PItem e => Ok e | _ => Err "" end |}.
#[local] Instance party_serde : Serde PartyEvent Payload :=
  {| to_value e := Ok (PParty e); from_value j := match j with PParty e => Ok e | _ => Err "" end |}.
#[local] Instance product_serde : Serde ProductEvent Payload :=
  {| to_value e := Ok (PProduct e);
     from_value j := match j with PProduct e => Ok e | _ => Err "" end |}.
#[local] Instance order_serde : Serde SalesOrderEvent Payload :=
  {| to_value e := Ok (POrder e); from_value j := match j with POrder e => Ok e | _ => Err "" end |}.
#[local] Instance invoice_serde : Serde InvoiceEvent Payload :=
  {| to_value e := Ok (PInvoice e);
     from_value j := match j with PInvoice e => Ok e | _ => Err "" end |}.
#[local] Instance purchase_serde : Serde PurchaseOrderEvent Payload :=
  {| to_value e := Ok (PPurchase e);
     from_value j := match j with PPurchase e => Ok e | _ => Err "" end |}.
#[local] Instance ledger_serde : Serde LedgerEvent Payload :=
  {| to_value e := Ok (PLedger e);
     from_value j := match j with PLedger e => Ok e | _ => Err "" end |}.
#[local] Instance user_serde : Serde UserEvent Payload :=
  {| to_value e := Ok (PUser e); from_value j := match j with PUser e => Ok e | _ => Err "" end |}.

Definition tenant : TenantId := mkTenantId 1.
Definition at_ (a : N) : AggregateId := mkAggregateId a.
Definition created : InventoryEvent :=
  Inventory.EvItemCreated (Inventory.mkItemCreated tenant (mkInventoryItemId (at_ 2)) "bolt" 0).
Definition adjusted : InventoryEvent :=
  Inventory.EvStockAdjusted (Inventory.mkStockAdjusted tenant (mkInventoryItemId (at_ 2)) 7 0).
Definition purchase : PurchaseOrderEvent :=
  EvPurchaseOrderCreated
    (mkPurchaseOrderCreated tenant (mkPurchaseOrderId (at_ 3)) (mkPartyId (at_ 4)) 0).
Definition issue : InvoiceCommand :=
  CmdIssueInvoice (mkIssueInvoice tenant (mkInvoiceId (at_ 5)) (mkSalesOrderId (at_ 6))
    [mkInvoiceLine 1 (mkSalesOrderId (at_ 6)) (mkProductId (at_ 7)) 2 50] 0 0).
Definition issued : list InvoiceEvent := emitted (Invoicing.empty (mkInvoiceId (at_ 5))) [issue].

Definition envelope (a : N) (ty : string) (n : Z) (p : Payload) : EventEnvelope Payload :=
  mkEnvelope 0%N tenant (at_ a) ty n p.
Definition envs : list (EventEnvelope Payload) :=
  [envelope 2 "inventory.item" 1 (PItem created);
   envelope 3 "purchasing.order" 1 (PPurchase purchase)]
  ++ map (fun e => envelope 5 "invoicing.invoice" 1 (PInvoice e)) issued
  ++ [envelope 2 "inventory.item" 2 (PItem adjusted);
      envelope 2 "inventory.item" 1 (PItem created)].

Definition invoices (t : TenantId) (a : AggregateId) : list InvoiceCommand :=
  only tenant (at_ 5) [issue] t a.

Ltac serve :=
  apply served_only; [repeat constructor | by vm_compute | | reflexivity];
  repeat (apply Forall_cons; split); [..|by apply Forall_nil];
  intros Hm; first [discriminate Hm | split; [reflexivity|]; split; [reflexivity|]];
  first [by exists 0; eexists | by exists 1; eexists].

Definition after (s : AppServices) : Prop :=
  inventory_get s tenant (mkInventoryItemId (at_ 2))
    = Some (mkInventoryReadModel (mkInventoryItemId (at_ 2)) "bolt" 7)
  /\ option_map porm_supplier_id (purchases_get s tenant (mkPurchaseOrderId (at_ 3)))
     = Some (mkPartyId (at_ 4)).

Lemma read_side_shows_write_side_witness :
  let fresh_order := fun _ => mkSalesOrderId (at_ 0) in
  let fresh_supplier := fun _ => mkPartyId (at_ 0) in
  after (subscriber_run fresh_order fresh_supplier services_new envs).
Proof.
  intros fresh_order fresh_supplier.
  pose proof (read_side_shows_write_side fresh_order fresh_supplier
    (only tenant (at_ 2) [created; adjusted]) (only tenant (at_ 0) [])
    (only tenant (at_ 0) []) (only tenant (at_ 0) []) (only tenant (at_ 3) [purchase]) invoices
    (mkPartyId (at_ 0)) envs ltac:(serve) ltac:(serve) ltac:(serve) ltac:(serve) ltac:(serve)) as H.
  assert (Hinv : served (invoices_projection fresh_order
      (S:=InMemoryTenantStore InvoiceId InvoiceReadModel) (J:=Payload))
    (fun t a => emitted (Invoicing.empty (mkInvoiceId a)) (invoices t a)) envs).
  { apply (served_ext _ (only tenant (at_ 5) issued)); [|serve].
    intros t a. unfold invoices, only. by destruct (decide _) as [[_ ->]|]. }
  specialize (H Hinv).
  specialize (H ltac:(intros t a; unfold only; by destruct (decide _))).
  specialize (H ltac:(intros t a; unfold invoices, only; destruct (decide _);
    [repeat constructor; vm_compute; congruence | constructor])).
  split.
  - etrans; [exact (proj1 (H tenant (at_ 2)))|]. reflexivity.
  - etrans; [apply f_equal; exact (proj1 (proj2 (proj2 (proj2 (proj2 (H tenant (at_ 3)))))))|].
    reflexivity.
Defined.
End Sample.
