(* ===== verification/Replay.v ===== *)
(** * Replaying a projection: [projections/replay.rs] and
      [api/src/app/routes/replay.rs]

    A replay reads the tenant's events page by page from the event queries, clears
    the projection, and applies the events in order, reporting progress and
    watching a cancellation flag.  Here: the task itself, for any event query and
    any projection; the handle it reports to; the six replays the API offers, over
    [AppServices]; the job store and the handlers of the routes.

    [query i] answers the [i]-th page request (the store can change between two of
    them) and [cancelled k] is the value the [k]-th look at the flag finds.  The
    page loop takes fuel; [replay_always_terminates] gives a bound that is enough. *)

From S2P Require Import Prelude Core Events Bus EventStore EventQuery ReadModel Projection.
From S2P Require Import Auth Products Parties Sales Purchasing Invoicing Saga Stock.
From S2P Require Import Receivables Directories Services.
From S2P Require Inventory.
Import Inventory (InventoryItemId, mkInventoryItemId, InventoryEvent).

(** @src crates/infra/src/projections/replay.rs 19-33 [ReplayError] *)
Inductive ReplayError : Type :=
| REventStore (e : EventStoreError)
| RProjection (msg : string)
| RCancelled
| RInvalidAggregateType (msg : string).

(** @src crates/infra/src/event_store/trait.rs 117-132 [EventStoreError] *)
Definition show_event_store_error (e : EventStoreError) : string :=
  match e with
  | Concurrency m => "optimistic concurrency check failed: " +:+ m
  | TenantIsolation m => "tenant isolation violation: " +:+ m
  | AggregateTypeMismatch m => "aggregate type mismatch: " +:+ m
  | InvalidAppend m => "invalid append: " +:+ m
  | Publish m => "event publication failed: " +:+ m
  end.

(** @src crates/infra/src/projections/replay.rs 20-33 [ReplayError] *)
Definition show_replay_error (e : ReplayError) : string :=
  match e with
  | REventStore e => "event store error: " +:+ show_event_store_error e
  | RProjection m => "projection error: " +:+ m
  | RCancelled => "replay cancelled"
  | RInvalidAggregateType m => "invalid aggregate type: " +:+ m
  end.

(** @src crates/infra/src/projections/replay.rs 52-66 [ReplayPhase] *)
Inductive ReplayPhase : Type := Loading | Clearing | Replaying | Complete | Failed.

#[global] Instance ReplayPhase_eq_dec : EqDecision ReplayPhase.
Proof. solve_decision. Defined.

(** @src crates/infra/src/projections/replay.rs 35-50 [ReplayProgress] *)
Record ReplayProgress := mkReplayProgress {
  total_events : Z;
  processed_events : Z;
  processed_aggregates : Z;
  phase : ReplayPhase;
  is_complete : bool;
  error : option string
}.

(** @src crates/infra/src/projections/replay.rs 135-142 [replay_projection] *)
Definition progress_new : ReplayProgress :=
  {| total_events := 0; processed_events := 0; processed_aggregates := 0; phase := Loading;
     is_complete := false; error := None |}.

Definition with_phase (prog : ReplayProgress) (ph : ReplayPhase) : ReplayProgress :=
  {| total_events := total_events prog; processed_events := processed_events prog;
     processed_aggregates := processed_aggregates prog; phase := ph;
     is_complete := is_complete prog; error := error prog |}.

Definition with_total (prog : ReplayProgress) (n : Z) : ReplayProgress :=
  {| total_events := n; processed_events := processed_events prog;
     processed_aggregates := processed_aggregates prog; phase := phase prog;
     is_complete := is_complete prog; error := error prog |}.

Definition with_processed (prog : ReplayProgress) (events aggregates : Z) : ReplayProgress :=
  {| total_events := total_events prog; processed_events := events;
     processed_aggregates := aggregates; phase := phase prog;
     is_complete := is_complete prog; error := error prog |}.

(** @src crates/infra/src/projections/replay.rs 219-219 [run_replay (PAGE_SIZE)] *)
Definition PAGE_SIZE : Z := 1000.

(** ** The task *)
Section Task.
Context {J P : Type}.
Context (query : nat -> TenantId -> EventFilter -> Pagination
                 -> Result EventStoreError (EventQueryResult J)).
Context (cancelled : nat -> bool).
Context (apply_envelope : P -> EventEnvelope J -> P * Result string unit).
Context (clear_tenant : P -> TenantId -> P).

(** [aggregate_types.contains(&e.aggregate_type)]. *)
Definition relevant (aggregate_types : list string) (e : StoredEvent J) : bool :=
  bool_decide (se_aggregate_type e ∈ aggregate_types).

(** The page loop; [i] counts the pages, and with them the looks at the flag.
    [offset += PAGE_SIZE] wraps.

    @src crates/infra/src/projections/replay.rs 217-252 [run_replay] *)
Fixpoint load_events (fuel : nat) (tenant_id : TenantId) (aggregate_types : list string)
    (i : nat) (offset : Z) (all_events : list (StoredEvent J))
  : option (Result ReplayError (list (StoredEvent J) * nat)) :=
  match fuel with
  | O => None
  | S fuel =>
    if cancelled i then Some (Err RCancelled) else
    match query i tenant_id filter_default (pagination_new (Some PAGE_SIZE) (Some offset)) with
    | Err e => Some (Err (REventStore e))
    | Ok result =>
      let all_events :=
        all_events ++ List.filter (relevant aggregate_types) (qr_events result) in
      if negb (qr_has_more result) then Some (Ok (all_events, S i))
      else load_events fuel tenant_id aggregate_types (S i) (wrapU 32 (offset + PAGE_SIZE))
             all_events
    end
  end.

(** @src crates/infra/src/projections/replay.rs 284-291 [run_replay] *)
Definition stored_order (x y : StoredEvent J) : bool :=
  let tx := tenant_uuid (se_tenant_id x) in let ty := tenant_uuid (se_tenant_id y) in
  let ax := aggregate_uuid (se_aggregate_id x) in
  let ay := aggregate_uuid (se_aggregate_id y) in
  (tx <? ty)%N || ((tx =? ty)%N && ((ax <? ay)%N || ((ax =? ay)%N
     && (se_sequence_number x <=? se_sequence_number y)%Z))).

(** The replay loop; [k] counts the looks at the flag, [events] and [aggregates]
    are the two atomic counters.

    @src crates/infra/src/projections/replay.rs 293-328 [run_replay] *)
Fixpoint replay_events (dry_run : bool) (k : nat) (last_aggregate_id : option AggregateId)
    (events aggregates : Z) (p : P) (prog : ReplayProgress) (all_events : list (StoredEvent J))
  : P * ReplayProgress * Result ReplayError unit :=
  match all_events with
  | [] => (p, prog, Ok tt)
  | event :: rest =>
    if cancelled k then (p, prog, Err RCancelled) else
    let aggregates := if decide (Some (se_aggregate_id event) <> last_aggregate_id)
                      then wrapU 64 (aggregates + 1) else aggregates in
    let '(p, r) := if dry_run then (p, Ok tt) else apply_envelope p (to_envelope event) in
    match r with
    | Err msg => (p, prog, Err (RProjection msg))
    | Ok _ =>
      let count := wrapU 64 (events + 1) in
      replay_events dry_run (S k) (Some (se_aggregate_id event)) count aggregates p
        (with_processed prog count aggregates) rest
    end
  end.

(** @src crates/infra/src/projections/replay.rs 196-331 [run_replay] *)
Definition run_replay (fuel : nat) (tenant_id : TenantId) (aggregate_types : list string)
    (dry_run : bool) (p : P) (prog : ReplayProgress)
  : option (P * ReplayProgress * Result ReplayError unit) :=
  let prog := with_phase prog Loading in
  match load_events fuel tenant_id aggregate_types 0 0 [] with
  | None => None
  | Some (Err e) => Some (p, prog, Err e)
  | Some (Ok (all_events, k)) =>
    let prog := with_total prog (Z.of_nat (length all_events)) in
    if cancelled k then Some (p, prog, Err RCancelled) else
    let prog := with_phase prog Clearing in
    let p := if dry_run then p else clear_tenant p tenant_id in
    if cancelled (S k) then Some (p, prog, Err RCancelled) else
    let prog := with_phase prog Replaying in
    Some (replay_events dry_run (S (S k)) None 0 0 p prog (sort_by stored_order all_events))
  end.

(** The spawned task: the replay and the final state of its progress.

    @src crates/infra/src/projections/replay.rs 158-191 [replay_projection] *)
Definition replay_task (fuel : nat) (tenant_id : TenantId) (aggregate_types : list string)
    (dry_run : bool) (p : P) : option (P * ReplayProgress) :=
  '(p, prog, r) ← run_replay fuel tenant_id aggregate_types dry_run p progress_new;
  let finish ph err :=
    {| total_events := total_events prog; processed_events := processed_events prog;
       processed_aggregates := processed_aggregates prog; phase := ph; is_complete := true;
       error := err |} in
  Some (p, match r with
           | Ok _ => finish Complete (error prog)
           | Err RCancelled => finish Failed (Some "Replay cancelled"%string)
           | Err e => finish Failed (Some (show_replay_error e))
           end).

(** What a look at the progress tells a waiter; [None] is another round of sleep.

    @src crates/infra/src/projections/replay.rs 92-106 [ReplayHandle::wait_for_completion] *)
Definition completion (progress : ReplayProgress) : option (Result ReplayError ReplayProgress) :=
  if is_complete progress || bool_decide (phase progress = Failed) then
    Some match error progress with
         | Some e => Err (RProjection e)
         | None => if decide (phase progress = Failed) then Err RCancelled else Ok progress
         end
  else None.
End Task.

(** A replay of a part of a state. *)
Section Part.
Context {J A P : Type} (get : A -> P) (set : A -> P -> A).
Context (get_set : forall a p, get (set a p) = p) (set_set : forall a p q, set (set a p) q = set a q).
Context (query : nat -> TenantId -> EventFilter -> Pagination
                 -> Result EventStoreError (EventQueryResult J)).
Context (cancelled : nat -> bool).
Context (apply_part : P -> EventEnvelope J -> P * Result string unit).
Context (clear_part : P -> TenantId -> P).

Definition apply_in (a : A) (env : EventEnvelope J) : A * Result string unit :=
  let '(p, r) := apply_part (get a) env in (set a p, r).

Lemma replay_events_part evs : forall k last ev ag a p prog,
  replay_events cancelled apply_in false k last ev ag (set a p) prog evs
  = let '(p', prog', r) := replay_events cancelled apply_part false k last ev ag p prog evs in
    (set a p', prog', r).
Proof.
  induction evs as [|e evs IH]; intros k last ev ag a p prog; [done|]. simpl.
  destruct (cancelled k); [done|]. unfold apply_in. rewrite get_set.
  destruct (apply_part p (to_envelope e)) as [p1 [[]|m]]; rewrite set_set; [apply IH | done].
Qed.

Lemma replay_task_part fuel t types a p' prog :
  set a (get a) = a ->
  replay_task query cancelled apply_part clear_part fuel t types false (get a) = Some (p', prog) ->
  replay_task query cancelled apply_in (fun a t => set a (clear_part (get a) t)) fuel t types false a
  = Some (set a p', prog).
Proof.
  intros Ha. unfold replay_task, run_replay.
  destruct (load_events _ _ _ _ _ _ _ _) as [[[evs k]|e]|]; simpl;
    [|by intros [= <- <-]; rewrite Ha|done].
  destruct (cancelled k); [by intros [= <- <-]; rewrite Ha|].
  destruct (cancelled (S k)); [by intros [= <- <-]|].
  rewrite replay_events_part. destruct (replay_events _ _ _ _ _ _ _ _ _ _) as [[p1 prog1] r].
  by intros [= <- <-].
Qed.
End Part.

(** ** The six replays of the API *)

(** [format!("{}", e)] of the error of a projection of [what] events.

    @src crates/infra/src/projections/inventory_stock.rs 30-40 [InventoryProjectionError] *)
Definition show_failure (what : string) (e : ProjectionFailure) : string :=
  match e with
  | PDeserialize m => "failed to deserialize " +:+ what +:+ " event: " +:+ m
  | PTenantIsolation m => "tenant isolation violation: " +:+ m
  | PNonMonotonicSequence last found =>
    "non-monotonic sequence number (last=" +:+ pretty last +:+ ", found=" +:+ pretty found +:+ ")"
  end.

Section Api.
Context {J : Type}.
Context `{Serde InventoryEvent J} `{Serde PartyEvent J} `{Serde ProductEvent J}
  `{Serde SalesOrderEvent J} `{Serde InvoiceEvent J} `{Serde PurchaseOrderEvent J}.
Context (fresh_order : InvoiceEvent -> SalesOrderId).
Context (fresh_supplier : PurchaseOrderEvent -> PartyId).
(** [json!({})], and the two UUIDs the dummy envelope of a clearing draws. *)
Context (empty_object : J) (dummy_ids : Uuid * Uuid).

#[local] Abbreviation stock_k := (stock_keyed (J:=J)
  (S:=InMemoryTenantStore InventoryItemId InventoryReadModel)).
#[local] Abbreviation parties_k := (parties_projection (J:=J)
  (S:=InMemoryTenantStore PartyId PartyReadModel)).
#[local] Abbreviation products_k := (products_projection (J:=J)
  (S:=InMemoryTenantStore ProductId ProductReadModel)).
#[local] Abbreviation sales_k := (sales_orders_projection (J:=J)
  (S:=InMemoryTenantStore SalesOrderId SalesOrderReadModel)).
#[local] Abbreviation invoices_k := (invoices_projection fresh_order (J:=J)
  (S:=InMemoryTenantStore InvoiceId InvoiceReadModel)).
#[local] Abbreviation purchases_k := (purchase_orders_projection fresh_supplier (J:=J)
  (S:=InMemoryTenantStore PurchaseOrderId PurchaseOrderReadModel)).

(** A projection applies an envelope, and is cleared for a tenant by a rebuild from
    one dummy envelope whose failure is ignored. *)
Definition apply_fn {S K V E} `{TenantStoreLaws S K V} (HK : Keyed S K V J E) (what : string)
    (p : Projector S InMemoryCursorStore) (envelope : EventEnvelope J)
  : Projector S InMemoryCursorStore * Result string unit :=
  let '(p, r) := deliver (HK:=HK) p envelope in (p, map_err (show_failure what) r).

(** @src crates/api/src/app/routes/replay.rs 388-395 [create_inventory_clear_fn] *)
Definition dummy_envelope (tenant_id : TenantId) (aggregate_type : string) : EventEnvelope J :=
  mkEnvelope dummy_ids.1 tenant_id (mkAggregateId dummy_ids.2) aggregate_type 1 empty_object.

Definition clear_fn {S K V E} `{TenantStoreLaws S K V} (HK : Keyed S K V J E)
    (aggregate_type : string) (p : Projector S InMemoryCursorStore) (tenant_id : TenantId)
  : Projector S InMemoryCursorStore :=
  (rebuild (HK:=HK) p [dummy_envelope tenant_id aggregate_type]).1.

(** @src crates/api/src/app/routes/replay.rs 353-373 [create_inventory_apply_fn] *)
Definition create_inventory_apply_fn (self : AppServices) (envelope : EventEnvelope J)
  : AppServices * Result string unit :=
  let '(p, r) := apply_fn stock_k "inventory" (as_inventory self) envelope in
  (set_inventory self p, r).

(** @src crates/api/src/app/routes/replay.rs 375-408 [create_inventory_clear_fn] *)
Definition create_inventory_clear_fn (self : AppServices) (tenant_id : TenantId) : AppServices :=
  set_inventory self (clear_fn stock_k "inventory.item" (as_inventory self) tenant_id).

(** @src crates/api/src/app/routes/replay.rs 411-424 [create_products_apply_fn] *)
Definition create_products_apply_fn (self : AppServices) (envelope : EventEnvelope J)
  : AppServices * Result string unit :=
  let '(p, r) := apply_fn products_k "product" (as_products self) envelope in
  (set_products self p, r).

(** @src crates/api/src/app/routes/replay.rs 426-452 [create_products_clear_fn] *)
Definition create_products_clear_fn (self : AppServices) (tenant_id : TenantId) : AppServices :=
  set_products self (clear_fn products_k "products.product" (as_products self) tenant_id).

(** @src crates/api/src/app/routes/replay.rs 454-467 [create_parties_apply_fn] *)
Definition create_parties_apply_fn (self : AppServices) (envelope : EventEnvelope J)
  : AppServices * Result string unit :=
  let '(p, r) := apply_fn parties_k "party" (as_parties self) envelope in
  (set_parties self p, r).

(** @src crates/api/src/app/routes/replay.rs 469-495 [create_parties_clear_fn] *)
Definition create_parties_clear_fn (self : AppServices) (tenant_id : TenantId) : AppServices :=
  set_parties self (clear_fn parties_k "parties.party" (as_parties self) tenant_id).

(** @src crates/api/src/app/routes/replay.rs 497-510 [create_sales_apply_fn] *)
Definition create_sales_apply_fn (self : AppServices) (envelope : EventEnvelope J)
  : AppServices * Result string unit :=
  let '(p, r) := apply_fn sales_k "sales order" (as_sales self) envelope in
  (set_sales self p, r).

(** @src crates/api/src/app/routes/replay.rs 512-538 [create_sales_clear_fn] *)
Definition create_sales_clear_fn (self : AppServices) (tenant_id : TenantId) : AppServices :=
  set_sales self (clear_fn sales_k "sales.order" (as_sales self) tenant_id).

(** @src crates/api/src/app/routes/replay.rs 540-553 [create_invoices_apply_fn] *)
Definition create_invoices_apply_fn (self : AppServices) (envelope : EventEnvelope J)
  : AppServices * Result string unit :=
  let '(p, r) := apply_fn invoices_k "invoice" (as_invoices self) envelope in
  (set_invoices self p, r).

(** @src crates/api/src/app/routes/replay.rs 555-581 [create_invoices_clear_fn] *)
Definition create_invoices_clear_fn (self : AppServices) (tenant_id : TenantId) : AppServices :=
  set_invoices self (clear_fn invoices_k "invoicing.invoice" (as_invoices self) tenant_id).

(** @src crates/api/src/app/routes/replay.rs 583-596 [create_purchases_apply_fn] *)
Definition create_purchases_apply_fn (self : AppServices) (envelope : EventEnvelope J)
  : AppServices * Result string unit :=
  let '(p, r) := apply_fn purchases_k "purchase order" (as_purchases self) envelope in
  (set_purchases self p, r).

(** @src crates/api/src/app/routes/replay.rs 598-624 [create_purchases_clear_fn] *)
Definition create_purchases_clear_fn (self : AppServices) (tenant_id : TenantId) : AppServices :=
  set_purchases self (clear_fn purchases_k "purchasing.order" (as_purchases self) tenant_id).

Record ReplayConfig := mkReplayConfig {
  rc_aggregate_types : list string;
  rc_apply : AppServices -> EventEnvelope J -> AppServices * Result string unit;
  rc_clear : AppServices -> TenantId -> AppServices
}.

(** @src crates/api/src/app/routes/replay.rs 119-158 [start_replay] *)
Definition replay_config (projection_name : string) : option ReplayConfig :=
  if String.eqb projection_name "inventory" then Some
    {| rc_aggregate_types := ["inventory.item"%string];
       rc_apply := create_inventory_apply_fn; rc_clear := create_inventory_clear_fn |}
  else if String.eqb projection_name "products" then Some
    {| rc_aggregate_types := ["products.product"%string];
       rc_apply := create_products_apply_fn; rc_clear := create_products_clear_fn |}
  else if String.eqb projection_name "parties" then Some
    {| rc_aggregate_types := ["parties.party"%string];
       rc_apply := create_parties_apply_fn; rc_clear := create_parties_clear_fn |}
  else if String.eqb projection_name "sales" then Some
    {| rc_aggregate_types := ["sales.order"%string];
       rc_apply := create_sales_apply_fn; rc_clear := create_sales_clear_fn |}
  else if String.eqb projection_name "invoices" then Some
    {| rc_aggregate_types := ["invoicing.invoice"%string];
       rc_apply := create_invoices_apply_fn; rc_clear := create_invoices_clear_fn |}
  else if String.eqb projection_name "purchases" then Some
    {| rc_aggregate_types := ["purchasing.order"%string];
       rc_apply := create_purchases_apply_fn; rc_clear := create_purchases_clear_fn |}
  else None.
End Api.

(** ** The page loop *)
Section Pages.
Context {J : Type} (cancelled : nat -> bool) (all : list (StoredEvent J)).
Context (query : nat -> TenantId -> EventFilter -> Pagination
                 -> Result EventStoreError (EventQueryResult J)).
Context (t : TenantId) (types : list string).
(** The store answers every page from the same list. *)
Context (query_all : forall i l o,
  query i t filter_default (pagination_new l o) = Ok (page_of all (pagination_new l o))).
Context (all_short : (Z.of_nat (length all) + PAGE_SIZE < 2 ^ 32)%Z).

Lemma filter_take_drop (f : StoredEvent J -> bool) n m :
  List.filter f (take (n + m) all) = List.filter f (take n all) ++ List.filter f (take m (drop n all)).
Proof. by rewrite <- List.filter_app, take_take_drop. Qed.

(** With fuel for the pages the loop returns: a cancellation, or all the relevant
    events. *)
Lemma load_events_pages fuel : forall i,
  0 < fuel -> length all <= (i + fuel) * Z.to_nat PAGE_SIZE ->
  i * Z.to_nat PAGE_SIZE <= length all ->
  load_events query cancelled fuel t types i (Z.of_nat i * PAGE_SIZE)
    (List.filter (relevant types) (take (i * Z.to_nat PAGE_SIZE) all)) = Some (Err RCancelled)
  \/ exists k, load_events query cancelled fuel t types i (Z.of_nat i * PAGE_SIZE)
    (List.filter (relevant types) (take (i * Z.to_nat PAGE_SIZE) all))
    = Some (Ok (List.filter (relevant types) all, k)).
Proof.
  unfold PAGE_SIZE in *. change (Z.to_nat 1000) with 1000.
  induction fuel as [|fuel IH]; intros i Hf Hlen Hi; [lia|]. simpl load_events.
  destruct (cancelled i); [by left|]. rewrite query_all. unfold page_of, PAGE_SIZE. cbn -[take drop Nat.mul Nat.add Z.to_nat wrapU].
  change (1000 `min` 1000)%Z with 1000%Z.
  change (Z.to_nat 1000) with 1000.
  replace (Z.to_nat (Z.of_nat i * 1000)) with (i * 1000) by lia.
  rewrite <- filter_take_drop. replace (i * 1000 + 1000) with (S i * 1000) by lia.
  assert (Hw : is_u32 (Z.of_nat i * 1000 + 1000)) by (clear IH; ilia).
  rewrite (wrapU_id _ _ Hw).
  destruct (decide (Z.of_nat (length all) > Z.of_nat i * 1000 + 1000)%Z) as [Hm|Hm].
  - rewrite (bool_decide_eq_true_2 _ Hm). simpl.
    replace (Z.of_nat i * 1000 + 1000)%Z with (Z.of_nat (S i) * 1000)%Z by lia.
    apply IH; lia.
  - rewrite (bool_decide_eq_false_2 _ Hm). simpl. right. eexists. do 3 f_equal.
    rewrite take_ge by lia. done.
Qed.

Lemma load_events_all fuel :
  length all < fuel * Z.to_nat PAGE_SIZE ->
  load_events query cancelled fuel t types 0 0 [] = Some (Err RCancelled)
  \/ exists k, load_events query cancelled fuel t types 0 0 []
     = Some (Ok (List.filter (relevant types) all, k)).
Proof. intros Hl. apply (load_events_pages fuel 0); lia. Qed.

Lemma load_events_uncancelled fuel :
  (forall k, cancelled k = false) -> forall i o acc e,
  load_events query cancelled fuel t types i o acc = Some (Err e) -> e <> RCancelled.
Proof.
  intros Hc. induction fuel as [|fuel IH]; intros i o acc e; simpl; [done|].
  rewrite Hc, query_all. case_match; [by intros [= ]|]. apply IH.
Qed.
End Pages.

(** ** The replay loop *)
Section Loop.
Context {J P : Type} (cancelled : nat -> bool).
Context (apply_envelope : P -> EventEnvelope J -> P * Result string unit).
Implicit Types (evs : list (StoredEvent J)) (prog : ReplayProgress).

(** The applications alone, up to the first failure. *)
Fixpoint apply_all (p : P) (envs : list (EventEnvelope J)) : P * Result string unit :=
  match envs with
  | [] => (p, Ok tt)
  | env :: rest =>
    match apply_envelope p env with
    | (p', Ok _) => apply_all p' rest
    | (p', Err e) => (p', Err e)
    end
  end.

(** What the loop leaves of the progress it was given. *)
Definition same_run (prog prog' : ReplayProgress) : Prop :=
  total_events prog' = total_events prog /\ phase prog' = phase prog
  /\ is_complete prog' = is_complete prog /\ error prog' = error prog.

Lemma replay_events_dry evs : forall k last ev ag p prog,
  exists prog' r, replay_events cancelled apply_envelope true k last ev ag p prog evs
    = (p, prog', r) /\ same_run prog prog' /\ (r = Ok tt \/ r = Err RCancelled).
Proof.
  induction evs as [|e evs IH]; intros k last ev ag p prog; simpl.
  - exists prog. eexists. split; [done|]. split; [done|by left].
  - destruct (cancelled k); [exists prog; eexists; split; [done|split; [done|by right]]|].
    edestruct IH as (prog' & r & -> & Hs & Hr). exists prog', r. split; [done|]. by split.
Qed.

Lemma replay_events_same dry evs : forall k last ev ag p prog,
  exists p' prog' r, replay_events cancelled apply_envelope dry k last ev ag p prog evs
    = (p', prog', r) /\ same_run prog prog'
    /\ (r = Ok tt \/ r = Err RCancelled \/ exists msg, r = Err (RProjection msg)).
Proof.
  induction evs as [|e evs IH]; intros k last ev ag p prog; simpl.
  - do 3 eexists. split; [done|]. split; [done|by left].
  - destruct (cancelled k).
    { do 3 eexists. split; [done|]. split; [done|right; by left]. }
    destruct (if dry then (p, Ok tt) else apply_envelope p (to_envelope e)) as [p1 [[]|m]].
    + edestruct IH as (p' & prog' & r & -> & Hs & Hr). exists p', prog', r. by split_and!.
    + do 3 eexists. split; [done|]. split; [done|]. right. right. by eexists.
Qed.

Lemma replay_events_live evs : (forall k, cancelled k = false) ->
  forall k last ev ag p prog,
  exists prog',
    replay_events cancelled apply_envelope false k last ev ag p prog evs
    = (let '(p', r) := apply_all p (map to_envelope evs) in (p', prog', map_err RProjection r))
    /\ same_run prog prog'
    /\ (is_ok (apply_all p (map to_envelope evs)).2 = true ->
        processed_events prog'
        = if decide (evs = []) then processed_events prog
          else wrapU 64 (ev + Z.of_nat (length evs))).
Proof.
  intros Hc. induction evs as [|e evs IH]; intros k last ev ag p prog; simpl.
  - by exists prog.
  - rewrite Hc. destruct (apply_envelope p (to_envelope e)) as [p1 [[]|m]]; [|by exists prog].
    edestruct (IH (S k)) as (prog' & -> & Hs & Hn). exists prog'. split; [done|]. split; [done|].
    intros Hok. rewrite (Hn Hok). destruct evs as [|e' evs]; [done|].
    simpl. etrans; [apply wrapU_add_l|]. f_equal. lia.
Qed.
End Loop.

(** A projection's own loop is the applications, with the errors rendered. *)
Section Keyed.
Context {J S K V E : Type} `{HTS : TenantStoreLaws S K V} (HK : Keyed S K V J E) (what : string).
Implicit Types (p : Projector S InMemoryCursorStore) (envs : list (EventEnvelope J)).

Lemma apply_all_project envs : forall p,
  apply_all (apply_fn HK what) p envs
  = ((project_all (deliver (HK:=HK)) p envs).1,
     map_err (show_failure what) (project_all (deliver (HK:=HK)) p envs).2).
Proof.
  induction envs as [|env envs IH]; intros p; simpl; [done|].
  unfold apply_fn at 1. destruct (deliver p env) as [p1 [[]|e]]; simpl; [apply IH | done].
Qed.

Context (empty_object : J) (dummy_ids : Uuid * Uuid).
(** The empty object is no event. *)
Context (empty_no_event : is_ok (kp_decode (Keyed:=HK) empty_object) = false).

(** Clearing by the dummy envelope is clearing: its event does not decode. *)
Lemma clear_fn_clears p t :
  clear_fn empty_object dummy_ids HK kp_type p t
  = clear_cursors (with_store p (ts_clear_tenant (p_store p) t)) t.
Proof.
  unfold clear_fn, rebuild, rebuild_from_scratch. simpl.
  set (q := clear_cursors _ t). unfold deliver, project. simpl.
  rewrite decide_False by (intros Hn; by apply Hn).
  assert (Hg : get_cursor q t (mkAggregateId dummy_ids.2) = 0%Z).
  { unfold q, get_cursor, clear_cursors. simpl. destruct (p_cursor_store p); [done|]. simpl.
    rewrite (proj2 (map_lookup_filter_None _ _ _)); [done|]. right. by intros v _ []. }
  rewrite Hg. simpl. destruct (kp_decode empty_object) as [e|]; [done|]. reflexivity.
Qed.

(** All the envelopes of one tenant: the tenants to clear are that one. *)
Lemma rebuild_tenants_one t envs :
  envs <> [] -> (forall env, env ∈ envs -> env_tenant_id env = t) -> rebuild_tenants envs = [t].
Proof.
  intros Hne Ht. unfold rebuild_tenants.
  assert (Hall : forall x, x ∈ sort_by (fun t t' => (tenant_uuid t <=? tenant_uuid t')%N)
                      (map env_tenant_id envs) -> x = t).
  { intros x. rewrite sort_by_perm, list_elem_of_fmap. intros (env & -> & He). by apply Ht. }
  assert (Hl : length (sort_by (fun t t' => (tenant_uuid t <=? tenant_uuid t')%N)
                      (map env_tenant_id envs)) <> 0).
  { rewrite (Permutation_length (sort_by_perm _ _)), length_map. by destruct envs. }
  revert Hall Hl. generalize (sort_by (fun t t' => (tenant_uuid t <=? tenant_uuid t')%N)
                      (map env_tenant_id envs)) as l.
  induction l as [|x [|y l] IH]; intros Hall Hl; [done| |].
  - simpl. f_equal. apply Hall. left.
  - change (dedup (x :: y :: l)) with (if decide (x = y) then dedup (y :: l) else x :: dedup (y :: l)).
    rewrite decide_True.
    + apply IH; [|done]. intros z Hz. apply Hall. by right.
    + rewrite (Hall x), (Hall y); [done| |]; [right; left|left].
Qed.

Lemma rebuild_one_tenant p t envs :
  envs <> [] -> (forall env, env ∈ envs -> env_tenant_id env = t) ->
  rebuild (HK:=HK) p envs
  = project_all (deliver (HK:=HK)) (clear_cursors (with_store p (ts_clear_tenant (p_store p) t)) t)
      (sort_by replay_order envs).
Proof.
  intros Hne Ht. unfold rebuild, rebuild_from_scratch. by rewrite (rebuild_tenants_one t).
Qed.
End Keyed.

(** ** A replay over the in-memory store *)
Section OverMemory.
Context {J : Type}.
Context (order : gmap StreamKey (list (StoredEvent J)) -> list (StreamKey * list (StoredEvent J))).
Context (order_perm : forall m, order m ≡ₚ map_to_list m).
Context (store : InMemoryEventStore J) (t : TenantId).

(** All the events of the tenant. *)
Definition stored_of_tenant : list (StoredEvent J) :=
  tenant_events t (map_to_list (streams store)).

Lemma stored_of_tenant_tenant e : mem_ok store -> e ∈ stored_of_tenant -> se_tenant_id e = t.
Proof.
  intros Hok (k & st & Hk & Ht & He)%tenant_events_elem.
  apply elem_of_map_to_list in Hk. destruct (Hok (key_tenant_id k) (key_aggregate_id k))
    as [[ty Hall] _].
  unfold mem_stream in Hall. destruct k as [kt ka]; simpl in *. rewrite Hk in Hall. simpl in Hall.
  rewrite Forall_forall in Hall. destruct (Hall e He) as (Hte & _). congruence.
Qed.

Context (store_open : lock_poisoned store = false).

(** The queries of a store that does not change read one list. *)
Lemma query_fixed :
  exists all, all ≡ₚ stored_of_tenant
    /\ forall p, query_events order store t filter_default p = Ok (page_of all p).
Proof.
  exists (sort_by newest_first
       (List.filter (event_matches filter_default) (tenant_events t (order (streams store))))).
  split.
  - rewrite sort_by_perm. unfold stored_of_tenant.
    assert (Hall : forall l : list (StoredEvent J), List.filter (event_matches filter_default) l = l)
      by (induction l as [|e l IH]; simpl; [done | by rewrite IH]).
    rewrite Hall. unfold tenant_events. by rewrite order_perm.
  - intros p. unfold query_events. by rewrite store_open.
Qed.

Context (stored_short : (Z.of_nat (length stored_of_tenant) + PAGE_SIZE < 2 ^ 32)%Z).
Context (fuel : nat) (fuel_enough : length stored_of_tenant < fuel * Z.to_nat PAGE_SIZE).

#[local] Abbreviation query := (fun _ : nat => query_events order store).

(** C38: a replay always ends: whatever is cancelled when, whatever the projection
    answers, dry or not, the task over a store of the tenant's events (fewer than
    [2^32 - 1000], where the page offsets would wrap) finishes within a page more
    than the events fill, reports that it did, and a waiter gets its answer: the
    final progress, or a projection error, never the [Cancelled] error that
    [wait_for_completion] has a case for.  A dry run leaves the projection as it
    was, and so does a replay cancelled from the start. *)
Theorem replay_always_terminates {P : Type} (cancelled : nat -> bool)
    (apply_envelope : P -> EventEnvelope J -> P * Result string unit)
    (clear_tenant : P -> TenantId -> P) (types : list string) (dry_run : bool) (p : P) :
  exists p' prog,
    replay_task query cancelled apply_envelope clear_tenant fuel t types dry_run p
    = Some (p', prog)
    /\ is_complete prog = true
    /\ (completion prog = Some (Ok prog) \/ exists msg, completion prog = Some (Err (RProjection msg)))
    /\ (dry_run = true -> p' = p /\ (phase prog = Complete \/ error prog = Some "Replay cancelled"%string))
    /\ (cancelled 0 = true -> p' = p /\ error prog = Some "Replay cancelled"%string).
Proof.
  destruct query_fixed as (all & Hperm & Hq).
  assert (Hlen : length all = length stored_of_tenant) by (by apply Permutation_length).
  unfold replay_task, run_replay.
  assert (Hl := load_events_all cancelled all (fun _ => query_events order store) t types
                  (fun _ l o => Hq (pagination_new l o)) ltac:(by rewrite Hlen) fuel
                  ltac:(by rewrite Hlen)).
  destruct Hl as [->|[k Hl]].
  { do 2 eexists. split; [reflexivity|]. split_and!; simpl; eauto. }
  assert (Hc0 : cancelled 0 = false).
  { clear -Hl. destruct fuel; [done|]. simpl in Hl. by destruct (cancelled 0). }
  rewrite Hl, Hc0.
  destruct (cancelled k).
  { do 2 eexists. split; [reflexivity|]. split_and!; simpl; eauto; done. }
  destruct (cancelled (S k)).
  { do 2 eexists. split; [reflexivity|]. split_and!; simpl; eauto; [intros ->; by eauto|done]. }
  set (evs := sort_by _ _). destruct dry_run.
  - destruct (replay_events_dry cancelled apply_envelope evs (S (S k)) None 0 0 p
      (with_phase (with_phase (with_total (with_phase progress_new Loading)
         (Z.of_nat (length (List.filter (relevant types) all)))) Clearing) Replaying))
      as (prog' & r & -> & (Ht & Hph & Hic & He) & [-> | ->]); simpl in *.
    + do 2 eexists. split; [reflexivity|]. rewrite He. split_and!; simpl; eauto; done.
    + do 2 eexists. split; [reflexivity|]. split_and!; simpl; eauto; done.
  - destruct (replay_events_same cancelled apply_envelope false evs (S (S k)) None 0 0
      (clear_tenant p t)
      (with_phase (with_phase (with_total (with_phase progress_new Loading)
         (Z.of_nat (length (List.filter (relevant types) all)))) Clearing) Replaying))
      as (p' & prog' & r & -> & (Ht & Hph & Hic & He) & [-> | [-> | [m ->]]]); simpl in *.
    + do 2 eexists. split; [reflexivity|]. rewrite He. split_and!; simpl; eauto; done.
    + do 2 eexists. split; [reflexivity|]. split_and!; simpl; eauto; done.
    + do 2 eexists. split; [reflexivity|]. split_and!; simpl; eauto; done.
Qed.

(** The envelopes a rebuild of the projections of aggregate type [ty] is given. *)
Definition stored_of_type (ty : string) : list (StoredEvent J) :=
  List.filter (relevant [ty]) stored_of_tenant.

Context (store_good : mem_ok store).

Lemma stored_of_type_tenant ty evs env :
  evs ≡ₚ stored_of_type ty -> env ∈ map to_envelope evs -> env_tenant_id env = t.
Proof.
  intros Hevs. rewrite list_elem_of_fmap. intros (e & -> & He). simpl.
  apply (stored_of_tenant_tenant e store_good). rewrite Hevs in He.
  unfold stored_of_type in He. rewrite list_elem_of_In, filter_In, <- list_elem_of_In in He.
  by destruct He.
Qed.

Lemma stored_of_type_short ty evs :
  evs ≡ₚ stored_of_type ty -> (Z.of_nat (length evs) < 2 ^ 64)%Z.
Proof.
  intros ->. unfold stored_of_type.
  pose proof (List.filter_length_le (relevant [ty]) stored_of_tenant) as Hle.
  clear -Hle stored_short. unfold PAGE_SIZE in *. ilia.
Qed.

Lemma replay_rebuilds {S K V E} `{TenantStoreLaws S K V} (HK : Keyed S K V J E)
    (what : string) (empty_object : J) (dummy_ids : Uuid * Uuid)
    (p : Projector S InMemoryCursorStore) :
  is_ok (kp_decode (Keyed:=HK) empty_object) = false ->
  exists evs p' prog,
    evs ≡ₚ stored_of_type kp_type
    /\ replay_task query (fun _ => false) (apply_fn HK what)
         (clear_fn empty_object dummy_ids HK kp_type) fuel t [kp_type] false p
       = Some (p', prog)
    /\ is_complete prog = true /\ total_events prog = Z.of_nat (length evs)
    /\ if decide (evs = []) then
         p' = clear_cursors (with_store p (ts_clear_tenant (p_store p) t)) t
         /\ phase prog = Complete
       else
         p' = (rebuild (HK:=HK) p (map to_envelope evs)).1
         /\ match (rebuild (HK:=HK) p (map to_envelope evs)).2 with
            | Ok _ => phase prog = Complete /\ error prog = None
                      /\ processed_events prog = Z.of_nat (length evs)
            | Err e => phase prog = Failed
                       /\ error prog = Some (show_replay_error (RProjection (show_failure what e)))
            end.
Proof.
  intros Hempty. destruct query_fixed as (all & Hperm & Hq).
  assert (Hlen : length all = length stored_of_tenant) by (by apply Permutation_length).
  destruct (load_events_all (fun _ => false) all (fun _ => query_events order store) t [kp_type]
             (fun _ l o => Hq (pagination_new l o)) ltac:(by rewrite Hlen) fuel
             ltac:(by rewrite Hlen)) as [Hl|[k Hl]].
  { exfalso. by apply (load_events_uncancelled (fun _ => false) all
      (fun _ => query_events order store) t [kp_type] (fun _ l o => Hq (pagination_new l o))
      fuel (fun _ => eq_refl) _ _ _ _ Hl). }
  exists (List.filter (relevant [kp_type]) all).
  unfold replay_task, run_replay. rewrite Hl. clear Hl. cbv beta iota.
  set (evs := List.filter (relevant [kp_type]) all).
  assert (Hevs : evs ≡ₚ stored_of_type kp_type) by (unfold evs, stored_of_type; by rewrite Hperm).
  pose proof (fun env => stored_of_type_tenant kp_type evs env Hevs) as Ht.
  pose proof (stored_of_type_short kp_type evs Hevs) as Hshort.
  rewrite clear_fn_clears by done.
  set (p0 := clear_cursors _ t).
  set (prog0 := with_phase (with_phase (with_total _ _) Clearing) Replaying).
  destruct (replay_events_live (fun _ => false) (apply_fn HK what) (sort_by stored_order evs)
    (fun _ => eq_refl) (Datatypes.S (Datatypes.S k)) None 0 0 p0 prog0)
    as (prog' & -> & (Htot & Hph & Hic & Her) & Hn).
  rewrite apply_all_project in *.
  rewrite (map_sort_by stored_order replay_order to_envelope evs (fun _ _ => eq_refl)) in *.
  assert (Hsl : length (sort_by stored_order evs) = length evs)
    by apply Permutation_length, sort_by_perm.
  assert (Htot' : total_events prog' = Z.of_nat (length evs)) by exact Htot.
  assert (Her' : error prog' = None) by exact Her.
  clear Htot Her Hic Hph. clearbody prog0 evs.
  destruct (decide (evs = [])) as [->|He].
  - simpl. do 2 eexists. do 2 (split; [done|]). by rewrite Her'.
  - rewrite (rebuild_one_tenant HK p t) by (by destruct evs || exact Ht). fold p0.
    destruct (project_all deliver p0 (sort_by replay_order (map to_envelope evs)))
      as [p1 [[]|e]]; simpl in *.
    + do 2 eexists. do 2 (split; [done|]). simpl. split; [done|]. split; [exact Htot'|].
      split; [done|]. split; [done|]. split; [by rewrite Her'|]. rewrite (Hn eq_refl).
      rewrite Hsl, decide_False, Z.add_0_l; [by apply wrapU_id; ilia|].
      intros Hs. apply He. apply length_zero_iff_nil. by rewrite <- Hsl, Hs.
    + do 2 eexists. do 2 (split; [done|]). simpl. done.
Qed.

(** A projection whose histories the stored events are has processed them all after a
    replay. *)
Lemma replay_processes {S K V E} `{TenantStoreLaws S K V} (HK : Keyed S K V J E)
    (hist : TenantId -> AggregateId -> list E) (what : string) (empty_object : J)
    (dummy_ids : Uuid * Uuid) (p : Projector S InMemoryCursorStore) :
  is_ok (kp_decode (Keyed:=HK) empty_object) = false -> cursors_work p ->
  (forall t a e, e ∈ hist t a -> kp_isolation (Keyed:=HK) t a e = None) ->
  (forall t a, (Z.of_nat (length (hist t a)) < 2 ^ 64)%Z) ->
  (forall se, se ∈ stored_of_type (kp_type (Keyed:=HK)) ->
     from_history (HK:=HK) hist (to_envelope se)) ->
  (forall a i, i < length (hist t a) -> exists se,
     se ∈ stored_of_type (kp_type (Keyed:=HK))
     /\ about (kp_type (Keyed:=HK)) t a (to_envelope se) = true
     /\ env_sequence_number (to_envelope se) = (Z.of_nat i + 1)%Z) ->
  exists p' prog,
    replay_task query (fun _ => false) (apply_fn HK what)
      (clear_fn empty_object dummy_ids HK (kp_type (Keyed:=HK))) fuel t
      [kp_type (Keyed:=HK)] false p = Some (p', prog)
    /\ phase prog = Complete /\ cursors_work p'
    /\ forall a, tracks (HK:=HK) hist p' t a (length (hist t a)).
Proof.
  intros Hempty Hw Hown Hshort Hf Hall.
  destruct (replay_rebuilds HK what empty_object dummy_ids p Hempty)
    as (evs & p' & prog & Hevs & Hr & _ & _ & Hres).
  exists p', prog. split; [exact Hr|].
  assert (Hin : forall env, env ∈ map to_envelope evs ->
    exists se, se ∈ stored_of_type (kp_type (Keyed:=HK)) /\ env = to_envelope se).
  { intros env (se & -> & Hse)%list_elem_of_fmap. exists se. by rewrite <- Hevs. }
  destruct (decide (evs = [])) as [->|Hne].
  - destruct Hres as [-> Hph]. split; [done|].
    destruct (clear_all_spec (HK:=HK) hist Hown Hshort [t] p Hw) as (Hw' & Hcl & _). split; [exact Hw'|].
    intros a. destruct (hist t a) as [|e es] eqn:Eh.
    + destruct (Hcl t ltac:(left)) as [Hc Hk]. split_and!; [apply Hc | simpl; lia | apply Hk].
    + destruct (Hall a 0) as (se & Hse & _); [rewrite Eh; simpl; lia|].
      rewrite <- Hevs in Hse. by apply not_elem_of_nil in Hse.
  - destruct Hres as [-> Hph].
    destruct (rebuild_processes (HK:=HK) hist Hown Hshort p (map to_envelope evs) Hw)
      as (Hok & Hw' & Htr & _).
    + intros env (se & Hse & ->)%Hin. by apply Hf.
    + intros t' a i (env & He & Ht) Hi.
      rewrite (stored_of_type_tenant _ _ _ Hevs He) in Ht. subst t'.
      destruct (Hall a i Hi) as (se & Hse & Ha & Hs). exists (to_envelope se).
      split; [|done]. apply list_elem_of_fmap. exists se. by rewrite Hevs.
    + rewrite Hok in Hph. destruct Hph as [Hph _]. split_and!; [done..|].
      intros a. apply Htr. destruct evs as [|se evs]; [done|].
      exists (to_envelope se). split; [left|].
      by apply (stored_of_type_tenant _ _ _ Hevs); left.
Qed.

(** C15: a replay is a rebuild: a replay of a projection, not dry and not
    cancelled, over the in-memory store leaves the projection as
    [rebuild_from_scratch] does when it is given all the tenant's stored events of
    the projection's type at once (in some order), and when there are none, cleared
    for the tenant.  It completes exactly when the rebuild succeeds, having counted
    every one of these events; otherwise it fails with the rebuild's error. *)
Theorem replay_is_rebuild {S K V E} `{TenantStoreLaws S K V} (HK : Keyed S K V J E)
    (what : string) (empty_object : J) (dummy_ids : Uuid * Uuid)
    (p : Projector S InMemoryCursorStore) :
  is_ok (kp_decode (Keyed:=HK) empty_object) = false ->
  exists evs p' prog,
    evs ≡ₚ stored_of_type kp_type
    /\ replay_task query (fun _ => false) (apply_fn HK what)
         (clear_fn empty_object dummy_ids HK kp_type) fuel t [kp_type] false p
       = Some (p', prog)
    /\ is_complete prog = true /\ total_events prog = Z.of_nat (length evs)
    /\ if decide (evs = []) then
         p' = clear_cursors (with_store p (ts_clear_tenant (p_store p) t)) t
         /\ phase prog = Complete
       else
         p' = (rebuild (HK:=HK) p (map to_envelope evs)).1
         /\ match (rebuild (HK:=HK) p (map to_envelope evs)).2 with
            | Ok _ => phase prog = Complete /\ error prog = None
                      /\ processed_events prog = Z.of_nat (length evs)
            | Err e => phase prog = Failed
                       /\ error prog = Some (show_replay_error (RProjection (show_failure what e)))
            end.
Proof. apply replay_rebuilds. Qed.
End OverMemory.

(** ** The job store and the handlers of the routes *)

(** @src crates/infra/src/projections/replay.rs 68-73 [ReplayHandle] *)
Record ReplayHandle := mkReplayHandle {
  rh_progress : ReplayProgress;
  rh_cancelled : bool
}.

(** @src crates/infra/src/projections/replay.rs 81-84 [ReplayHandle::cancel] *)
Definition cancel (self : ReplayHandle) : ReplayHandle :=
  {| rh_progress := rh_progress self; rh_cancelled := true |}.

(** @src crates/infra/src/projections/replay.rs 86-89 [ReplayHandle::is_cancelled] *)
Definition is_cancelled (self : ReplayHandle) : bool := rh_cancelled self.

(** @src crates/api/src/app/routes/replay.rs 29-33 [ReplayJobStore] *)
Definition ReplayJobStore : Type := gmap Uuid ReplayHandle.

(** @src crates/api/src/app/routes/replay.rs 40-42 [ReplayJobStore::insert] *)
Definition job_insert (self : ReplayJobStore) (job_id : Uuid) (handle : ReplayHandle)
  : ReplayJobStore := <[job_id := handle]> self.

(** @src crates/api/src/app/routes/replay.rs 44-46 [ReplayJobStore::get] *)
Definition job_get (self : ReplayJobStore) (job_id : Uuid) : option ReplayHandle := self !! job_id.

(** @src crates/api/src/app/routes/replay.rs 52-54 [ReplayJobStore::remove] *)
Definition job_remove (self : ReplayJobStore) (job_id : Uuid) : ReplayJobStore :=
  delete job_id self.

(** The responses: status and code; the bodies that carry data, with it. *)
Inductive ReplayResponse : Type :=
| Forbidden403 (e : AuthzError)
| BadRequest400 (code : string)
| NotFound404
| NotImplemented501
| Accepted202 (job_id : Uuid) (dry_run : bool) (projection_name : string)
| Status200 (job_id : Uuid) (progress : ReplayProgress)
| Cancelled200 (job_id : Uuid)
| Jobs200 (jobs : list Uuid).

Section Routes.
Context `{SetOrder} {J : Type}.
Context `{Serde InventoryEvent J} `{Serde PartyEvent J} `{Serde ProductEvent J}
  `{Serde SalesOrderEvent J} `{Serde InvoiceEvent J} `{Serde PurchaseOrderEvent J}.
Context (fresh_order : InvoiceEvent -> SalesOrderId).
Context (fresh_supplier : PurchaseOrderEvent -> PartyId).
Context (empty_object : J) (dummy_ids : Uuid * Uuid).
Implicit Types (job_store : ReplayJobStore) (tenant : TenantContext)
  (principal : PrincipalContext).

(** @src crates/auth/src/permissions.rs 51-51 [USER_READ] *)
Definition USER_READ : Permission := mkPermission "admin.users.read".

(** The check every handler of the module opens with.

    @src crates/api/src/app/routes/replay.rs 108-114 [start_replay] *)
Definition authorized tenant principal {A} (k : A) (refuse : AuthzError -> A) : A :=
  match authorize_command tenant principal [USER_READ] with
  | Err e => refuse e
  | Ok _ => k
  end.

(** The task it starts, if it does, and the job store and response.  [job_id] is
    [Uuid::now_v7()].

    @src crates/api/src/app/routes/replay.rs 96-209 [start_replay] *)
Definition start_replay job_store tenant principal (projection_name : string)
    (dry_run : option bool) (job_id : Uuid)
  : ReplayJobStore * ReplayResponse * option (ReplayConfig (J:=J) * bool) :=
  authorized tenant principal
    (let dry_run := unwrap_or dry_run false in
     match replay_config fresh_order fresh_supplier empty_object dummy_ids projection_name with
     | None => (job_store, BadRequest400 "invalid_projection", None)
     | Some config =>
       (job_insert job_store job_id (mkReplayHandle progress_new false),
        Accepted202 job_id dry_run projection_name, Some (config, dry_run))
     end)
    (fun e => (job_store, Forbidden403 e, None)).

(** @src crates/api/src/app/routes/replay.rs 211-236 [start_all_replays] *)
Definition start_all_replays tenant principal : ReplayResponse :=
  authorized tenant principal NotImplemented501 Forbidden403.

(** [job_id] is the parsed path segment.

    @src crates/api/src/app/routes/replay.rs 238-277 [get_replay_status] *)
Definition get_replay_status job_store tenant principal (job_id : option Uuid) : ReplayResponse :=
  authorized tenant principal
    (match job_id with
     | None => BadRequest400 "invalid_id"
     | Some job_id =>
       match job_get job_store job_id with
       | Some handle => Status200 job_id (rh_progress handle)
       | None => NotFound404
       end
     end) Forbidden403.

(** @src crates/api/src/app/routes/replay.rs 279-320 [cancel_replay] *)
Definition cancel_replay job_store tenant principal (job_id : option Uuid)
  : ReplayJobStore * ReplayResponse :=
  authorized tenant principal
    (match job_id with
     | None => (job_store, BadRequest400 "invalid_id")
     | Some job_id =>
       match job_get job_store job_id with
       | Some handle => (<[job_id := cancel handle]> job_store, Cancelled200 job_id)
       | None => (job_store, NotFound404)
       end
     end) (fun e => (job_store, Forbidden403 e)).

(** [order] is the iteration order of the map's keys.

    @src crates/api/src/app/routes/replay.rs 322-347 [list_replays] *)
Definition list_replays (order : ReplayJobStore -> list Uuid) job_store tenant principal
  : ReplayResponse :=
  authorized tenant principal (Jobs200 (order job_store)) Forbidden403.

(** The check does not depend on the tenant: the membership it builds is of the
    tenant it asks about. *)
Lemma authorize_command_any_tenant t t' principal required :
  authorize_command t principal required = authorize_command t' principal required.
Proof.
  unfold authorize_command. generalize tt. induction required as [|perm required IH]; [done|].
  intros u. simpl. unfold authorize. simpl.
  rewrite !(decide_False (P := ctx_tenant_id _ <> ctx_tenant_id _)) by (intros Hn; by apply Hn).
  case_match; [apply IH | done].
Qed.

(** Jobs have no tenant: whoever may read the users of one tenant sees, lists and
    cancels the replays of every other. *)
Theorem replay_jobs_cross_tenants job_store t t' principal job_id order :
  get_replay_status job_store t principal job_id = get_replay_status job_store t' principal job_id
  /\ cancel_replay job_store t principal job_id = cancel_replay job_store t' principal job_id
  /\ list_replays order job_store t principal = list_replays order job_store t' principal.
Proof.
  unfold get_replay_status, cancel_replay, list_replays, authorized.
  by rewrite (authorize_command_any_tenant t t').
Qed.
End Routes.

(** A sample: the two events of an item, with payloads that may be the empty
    object. *)
Module Sample.
#[local] Instance sample_serde : Serde InventoryEvent (option InventoryEvent) :=
  {| to_value e := Ok (Some e);
     from_value j := match j with Some e => Ok e | None => Err "missing variant"%string end |}.

Definition tenant : TenantId := mkTenantId 1.
Definition item : InventoryItemId := mkInventoryItemId (mkAggregateId 2).
Definition uncommitted (e : InventoryEvent) : UncommittedEvent (option InventoryEvent) :=
  mkUncommitted 0%N tenant (mkAggregateId 2) "inventory.item" "" 1 0 (Some e).
Definition store : InMemoryEventStore (option InventoryEvent) :=
  append_run store_new
    [([uncommitted (Inventory.EvItemCreated (Inventory.mkItemCreated tenant item "bolt" 0));
       uncommitted (Inventory.EvStockAdjusted (Inventory.mkStockAdjusted tenant item 7 0))],
      Exact 0)].

Definition stock : Projector (InMemoryTenantStore InventoryItemId InventoryReadModel)
    InMemoryCursorStore := projector_new "inventory.stock" ∅.

Definition stock_k : Keyed (InMemoryTenantStore InventoryItemId InventoryReadModel)
    InventoryItemId InventoryReadModel (option InventoryEvent) InventoryEvent := stock_keyed.

Lemma stored_two : length (stored_of_tenant store tenant) = 2.
Proof. reflexivity. Qed.

Lemma stored_fits : (Z.of_nat (length (stored_of_tenant store tenant)) + PAGE_SIZE < 2 ^ 32)%Z.
Proof. rewrite stored_two. reflexivity. Qed.

Lemma one_page : length (stored_of_tenant store tenant) < 1 * Z.to_nat PAGE_SIZE.
Proof. rewrite stored_two. apply Nat.ltb_lt. reflexivity. Qed.

Lemma replay_always_terminates_witness :
  exists p' prog,
    replay_task (fun _ => query_events map_to_list store) (fun _ => false)
      (apply_fn stock_k "inventory")
      (clear_fn None (0%N, 0%N) stock_k "inventory.item") 1 tenant
      ["inventory.item"%string] true stock = Some (p', prog)
    /\ is_complete prog = true /\ p' = stock.
Proof.
  destruct (replay_always_terminates map_to_list (fun _ => reflexivity _) store tenant eq_refl
    stored_fits 1 one_page (fun _ => false) (apply_fn stock_k "inventory")
    (clear_fn None (0%N, 0%N) stock_k "inventory.item") ["inventory.item"%string] true stock)
    as (p' & prog & Hr & Hc & _ & Hd & _).
  exists p', prog. split; [exact Hr|]. split; [exact Hc|]. exact (proj1 (Hd eq_refl)).
Defined.

Lemma replay_is_rebuild_witness :
  exists p' prog,
    replay_task (fun _ => query_events map_to_list store) (fun _ => false)
      (apply_fn stock_k "inventory")
      (clear_fn None (0%N, 0%N) stock_k "inventory.item") 1 tenant
      ["inventory.item"%string] false stock = Some (p', prog)
    /\ is_complete prog = true /\ total_events prog = 2%Z.
Proof.
  destruct (replay_is_rebuild map_to_list (fun _ => reflexivity _) store tenant eq_refl
    stored_fits 1 one_page (proj1 (append_run_ok _)) stock_k "inventory" (None : option InventoryEvent) (0%N, 0%N)
    stock eq_refl) as (evs & p' & prog & Hp & Hr & Hc & Ht & _).
  exists p', prog. split; [exact Hr|]. split; [exact Hc|].
  rewrite Ht. rewrite (Permutation_length Hp). reflexivity.
Defined.
End Sample.
