(* ===== verification/Utf8.v ===== *)
(** * UTF-8: the bytes of a Rust string, and [String::from_utf8_lossy]

    [utf8] is the validity test of the Standard Library ([core::str::from_utf8]),
    by the table of well-formed byte sequences; [from_utf8_lossy] copies the valid
    sequences of any bytes and puts U+FFFD for each maximal part that is none.  On
    the bytes of a string it is the identity. *)

From S2P Require Import Prelude.
From Stdlib Require Import DecimalString.

(** What a first byte announces, and whether the second byte may follow it. *)
Definition is_ascii (a : Ascii.ascii) : bool := byte_in a 0 127.
Definition continues (a : Ascii.ascii) : bool := byte_in a 128 191.
Definition leads_two (a : Ascii.ascii) : bool := byte_in a 194 223.
Definition leads_three (a : Ascii.ascii) : bool := byte_in a 224 239.
Definition second_ok (a b : Ascii.ascii) : bool :=
  (byte_in a 194 223 && byte_in b 128 191)
  || (byte_in a 224 224 && byte_in b 160 191)
  || ((byte_in a 225 236 || byte_in a 238 239) && byte_in b 128 191)
  || (byte_in a 237 237 && byte_in b 128 159)
  || (byte_in a 240 240 && byte_in b 144 191)
  || (byte_in a 241 243 && byte_in b 128 191)
  || (byte_in a 244 244 && byte_in b 128 143).

Fixpoint utf8 (s : string) : bool :=
  match s with
  | EmptyString => true
  | String a s =>
    if is_ascii a then utf8 s else
    match s with
    | EmptyString => false
    | String b s =>
      second_ok a b &&
      if leads_two a then utf8 s else
      match s with
      | EmptyString => false
      | String c s =>
        continues c &&
        if leads_three a then utf8 s else
        match s with
        | EmptyString => false
        | String d s => continues d && utf8 s
        end
      end
    end
  end.

(** U+FFFD. *)
Definition replacement : string :=
  String (Ascii.ascii_of_N 239) (String (Ascii.ascii_of_N 191)
    (String (Ascii.ascii_of_N 189) EmptyString)).

Fixpoint from_utf8_lossy (s : string) : string :=
  match s with
  | EmptyString => EmptyString
  | String a s1 =>
    if is_ascii a then String a (from_utf8_lossy s1) else
    match s1 with
    | EmptyString => replacement
    | String b s2 =>
      if negb (second_ok a b) then replacement +:+ from_utf8_lossy s1 else
      if leads_two a then String a (String b (from_utf8_lossy s2)) else
      match s2 with
      | EmptyString => replacement
      | String c s3 =>
        if negb (continues c) then replacement +:+ from_utf8_lossy s2 else
        if leads_three a then String a (String b (String c (from_utf8_lossy s3))) else
        match s3 with
        | EmptyString => replacement
        | String d s4 =>
          if negb (continues d) then replacement +:+ from_utf8_lossy s3
          else String a (String b (String c (String d (from_utf8_lossy s4))))
        end
      end
    end
  end.

Lemma lossy_valid : forall s, utf8 s = true -> from_utf8_lossy s = s.
Proof.
  fix IH 1. intros [|a s]; [done|]. simpl. destruct (is_ascii a).
  - intros Hs. by rewrite IH.
  - destruct s as [|b s]; [done|]. destruct (second_ok a b); [cbn [andb negb]|done].
    destruct (leads_two a); [intros Hs; by rewrite IH|].
    destruct s as [|c s]; [done|]. destruct (continues c); [cbn [andb negb]|done].
    destruct (leads_three a); [intros Hs; by rewrite IH|].
    destruct s as [|d s]; [done|]. destruct (continues d); [cbn [andb negb]|done].
    intros Hs. by rewrite IH.
Qed.

(** Bytes that are not text are replaced: a lone continuation byte, an encoded
    surrogate (three replacements), a sequence cut short. *)
Example lossy_replaces :
  let bytes := map Ascii.ascii_of_N in
  let s l := String.string_of_list_ascii (bytes l) in
  from_utf8_lossy (s [97; 128; 98]%N) = "a" +:+ replacement +:+ "b"
  /\ from_utf8_lossy (s [237; 160; 128]%N) = replacement +:+ replacement +:+ replacement
  /\ from_utf8_lossy (s [240; 159; 152; 65]%N) = replacement +:+ "A"
  /\ utf8 (s [240; 159; 152; 128]%N) = true.
Proof. by vm_compute. Qed.

(** Decimal digits are text. *)
Lemma utf8_digits d : utf8 (NilEmpty.string_of_uint d) = true.
Proof. by induction d. Qed.
