(* ===== verification/Redis.v ===== *)
(** * The Redis event buses: [infra/src/event_bus]

    [redis_streams.rs]: publishing to a stream, reading a consumer group, the
    parsing of stream entries, the subscription's polling thread; and
    [redis_pubsub.rs].  The server and the [redis] crate are not code of the
    repository: class [RedisServer] is the commands the bus sends, with any
    replies.  So are the crates that print and parse UUIDs and JSON ([Texts], [Codec]);
    [String::from_utf8_lossy] is that of [Utf8].

    The theorems: what is published is parsed back (with a retry count of zero,
    whatever the deliveries before, so that no message goes to the dead letters,
    contrary to what the module and [docs/REDIS_STREAMS_FLOW.md] say); a batch read in one poll is handed to the
    subscriber in reverse, so that a projection keeps only the last event of a
    stream it sees for the first time. *)

From S2P Require Import Prelude Core Utf8 Events Bus EventStore ReadModel Projection Stock.
From S2P Require Inventory.
Import Inventory (InventoryItemId, mkInventoryItemId, InventoryEvent).

(** [redis::Value], as far as the bus looks. *)
Inductive RedisValue : Type :=
| Data (bytes : string)
| Bulk (values : list RedisValue)
| OtherValue.

(** A [redis::RedisError]: whether its kind is [TypeError], and its text. *)
Record RedisFailure := mkRedisFailure { is_type_error : bool; failure_text : string }.

(** The replies of a server in state [R]. *)
Class RedisServer (R : Type) := {
  get_connection : R -> Result RedisFailure unit;
  xadd : R -> string -> list (string * string) -> R * Result RedisFailure string;
  xgroup_create : R -> string -> string -> R * Result RedisFailure string;
  xack : R -> string -> string -> list string -> R * Result RedisFailure Z;
  xpending : R -> string -> string -> Z -> string -> R * Result RedisFailure (list string);
  xclaim : R -> string -> string -> string -> Z -> list string -> Z ->
           R * Result RedisFailure (list RedisValue);
  xreadgroup : R -> string -> string -> Z -> Z -> string ->
               R * Result RedisFailure (gmap string (list RedisValue))
}.

(** The texts of envelopes. *)
Class Codec (J : Type) := {
  show_envelope : EventEnvelope J -> Result string string;
  parse_envelope : string -> Result string (EventEnvelope J)
}.

(** What the crates document: they read what they wrote, and what they write is a
    string. *)
Class CodecLaws (J : Type) `{Texts} `{Codec J} : Prop := {
  parse_show_envelope e s : show_envelope e = Ok s -> parse_envelope s = Ok e;
  show_envelope_utf8 e s : show_envelope e = Ok s -> utf8 s = true;
  show_uuid_utf8 u : utf8 (show_uuid u) = true
}.

(** @src crates/infra/src/event_bus/redis_streams.rs 48-64 [RedisStreamsError] *)
Inductive RedisStreamsError : Type :=
| ConnectionFailed (msg : string)
| CommandFailed (msg : string)
| SerializationFailed (msg : string)
| DeserializationFailed (msg : string)
| ConsumerGroupFailed (msg : string).

(** @src crates/infra/src/event_bus/redis_streams.rs 27-27 [DEFAULT_STREAM_KEY] *)
Definition DEFAULT_STREAM_KEY : string := "forgeerp:events".
(** @src crates/infra/src/event_bus/redis_streams.rs 30-30 [DEFAULT_DLQ_KEY] *)
Definition DEFAULT_DLQ_KEY : string := "forgeerp:events:dlq".
(** @src crates/infra/src/event_bus/redis_streams.rs 33-33 [DEFAULT_MAX_RETRIES] *)
Definition DEFAULT_MAX_RETRIES : Z := 5.
(** @src crates/infra/src/event_bus/redis_streams.rs 36-36 [DEFAULT_PENDING_TIMEOUT_MS] *)
Definition DEFAULT_PENDING_TIMEOUT_MS : Z := 60000.

(** @src crates/infra/src/event_bus/redis_streams.rs 38-46 [RedisStreamsEventBus] *)
Record RedisStreamsEventBus := mkRedisStreamsEventBus {
  stream_key : string;
  dlq_key : string;
  max_retries : Z;
  pending_timeout_ms : Z
}.

(** @src crates/infra/src/event_bus/redis_streams.rs 74-89 [RedisStreamsEventBus::new] *)
Definition redis_bus_new (stream dlq : option string) : RedisStreamsEventBus :=
  {| stream_key := unwrap_or stream DEFAULT_STREAM_KEY;
     dlq_key := unwrap_or dlq DEFAULT_DLQ_KEY;
     max_retries := DEFAULT_MAX_RETRIES;
     pending_timeout_ms := DEFAULT_PENDING_TIMEOUT_MS |}.

(** [str::parse::<u32>]. *)
Definition parse_u32 : string -> option Z := parse_uint 32.

(** [Vec::chunks(2)], the chunks that are two [Data] put into the map, later ones
    over earlier ones.

    @src crates/infra/src/event_bus/redis_streams.rs 395-404 [RedisStreamsEventBus::parse_stream_entry] *)
Fixpoint collect_fields (lossy : string -> string) (values : list RedisValue)
    (fields : gmap string string) : gmap string string :=
  match values with
  | key :: value :: rest =>
    let fields := match key, value with
                  | Data k, Data v => <[lossy k := lossy v]> fields
                  | _, _ => fields
                  end in
    collect_fields lossy rest fields
  | _ => fields
  end.

Section Streams.
Context {R J : Type} `{RedisServer R} `{Texts} `{Codec J}.
Implicit Types (self : RedisStreamsEventBus) (conn : R).

(** @src crates/infra/src/event_bus/redis_streams.rs 440-446 [StreamMessage] *)
Record StreamMessage := mkStreamMessage {
  sm_message_id : string;
  sm_envelope : EventEnvelope J;
  sm_retry_count : Z
}.

(** The reply is ignored: a group that exists is an error.

    @src crates/infra/src/event_bus/redis_streams.rs 95-112 [RedisStreamsEventBus::ensure_consumer_group] *)
Definition ensure_consumer_group self conn (group_name : string)
  : R * Result RedisStreamsError unit :=
  match get_connection conn with
  | Err e => (conn, Err (ConnectionFailed (failure_text e)))
  | Ok _ => ((xgroup_create conn (stream_key self) group_name).1, Ok tt)
  end.

(** The fields of a stream entry.

    @src crates/infra/src/event_bus/redis_streams.rs 133-149 [RedisStreamsEventBus::publish_sync] *)
Definition entry_fields (message : EventEnvelope J) (payload : string) : list (string * string) :=
  [("tenant_id", show_uuid (tenant_uuid (env_tenant_id message)));
   ("aggregate_id", show_uuid (aggregate_uuid (env_aggregate_id message)));
   ("aggregate_type", env_aggregate_type message);
   ("sequence_number", pretty (env_sequence_number message));
   ("payload", payload)]%string.

(** @src crates/infra/src/event_bus/redis_streams.rs 126-155 [RedisStreamsEventBus::publish_sync] *)
Definition publish_sync self conn (message : EventEnvelope J)
  : R * Result RedisStreamsError unit :=
  match show_envelope message with
  | Err e => (conn, Err (SerializationFailed e))
  | Ok payload =>
    match get_connection conn with
    | Err e => (conn, Err (ConnectionFailed (failure_text e)))
    | Ok _ =>
      let '(conn, r) := xadd conn (stream_key self) (entry_fields message payload) in
      (conn, match r with
             | Ok _ => Ok tt
             | Err e => Err (CommandFailed ("XADD failed: " +:+ failure_text e))
             end)
    end
  end.

(** @src crates/infra/src/event_bus/redis_streams.rs 157-180 [RedisStreamsEventBus::acknowledge_sync] *)
Definition acknowledge_sync self conn (group_name : string) (message_ids : list string)
  : R * Result RedisStreamsError unit :=
  if decide (message_ids = []) then (conn, Ok tt) else
  match get_connection conn with
  | Err e => (conn, Err (ConnectionFailed (failure_text e)))
  | Ok _ =>
    let '(conn, r) := xack conn (stream_key self) group_name message_ids in
    (conn, match r with
           | Ok _ => Ok tt
           | Err e => Err (CommandFailed ("XACK failed: " +:+ failure_text e))
           end)
  end.

(** @src crates/infra/src/event_bus/redis_streams.rs 182-218 [RedisStreamsEventBus::send_to_dlq_sync] *)
Definition send_to_dlq_sync self conn (message : EventEnvelope J) (original_message_id : string)
    (retry_count : Z) (now : DateTime) : R * Result RedisStreamsError unit :=
  match show_envelope message with
  | Err e => (conn, Err (SerializationFailed e))
  | Ok payload =>
    match get_connection conn with
    | Err e => (conn, Err (ConnectionFailed (failure_text e)))
    | Ok _ =>
      let '(conn, r) := xadd conn (dlq_key self)
        [("original_message_id", original_message_id); ("retry_count", pretty retry_count);
         ("failed_at", to_rfc3339 now); ("payload", payload)]%string in
      (conn, match r with
             | Ok _ => Ok tt
             | Err e => Err (CommandFailed ("DLQ XADD failed: " +:+ failure_text e))
             end)
    end
  end.

(** @src crates/infra/src/event_bus/redis_streams.rs 534-538 [parse_tenant_id] *)
Definition parse_tenant_id (s : string) : Result string TenantId :=
  match parse_uuid s with Ok u => Ok (mkTenantId u) | Err e => Err e end.

(** @src crates/infra/src/event_bus/redis_streams.rs 370-386 [RedisStreamsEventBus::parse_stream_entry] *)
Definition message_id_of (v : RedisValue) : Result RedisStreamsError string :=
  match v with
  | Data data => Ok (from_utf8_lossy data)
  | Bulk (Data data :: _) => Ok (from_utf8_lossy data)
  | _ => Err (DeserializationFailed "Invalid message ID format")
  end.

(** @src crates/infra/src/event_bus/redis_streams.rs 352-437 [RedisStreamsEventBus::parse_stream_entry] *)
Definition parse_stream_entry (entry : RedisValue) (tenant_id : option TenantId)
  : Result RedisStreamsError StreamMessage :=
  entry_vec ← match entry with
              | Bulk v => Ok v
              | _ => Err (DeserializationFailed "Invalid entry format")
              end;
  match entry_vec with
  | id :: fields_value :: _ =>
    message_id ← message_id_of id;
    fields_vec ← match fields_value with
                 | Bulk v => Ok v
                 | _ => Err (DeserializationFailed "Invalid fields format")
                 end;
    let fields := collect_fields from_utf8_lossy fields_vec ∅ in
    tenant_str ← ok_or (fields !! "tenant_id"%string)
                   (DeserializationFailed "Missing tenant_id field");
    msg_tenant_id ← map_err (fun e => DeserializationFailed ("Invalid tenant_id: " +:+ e))
                      (parse_tenant_id tenant_str);
    _ ← match tenant_id with
        | Some filter_tenant =>
          if decide (msg_tenant_id <> filter_tenant)
          then Err (DeserializationFailed "Tenant mismatch (skipping)") else Ok tt
        | None => Ok tt
        end;
    payload_str ← ok_or (fields !! "payload"%string)
                    (DeserializationFailed "Missing payload field");
    envelope ← map_err (fun e =>
                   DeserializationFailed ("Failed to deserialize envelope: " +:+ e))
                 (parse_envelope payload_str);
    let retry_count := unwrap_or (fields !! "retry_count"%string ≫= parse_u32) 0%Z in
    Ok {| sm_message_id := message_id; sm_envelope := envelope; sm_retry_count := retry_count |}
  | _ => Err (DeserializationFailed "Entry too short")
  end.

(** [if let Ok(msg) = self.parse_stream_entry(..) { messages.push(msg); }] *)
Definition parse_entries (entries : list RedisValue) (tenant_id : option TenantId)
  : list StreamMessage :=
  omap (fun e => match parse_stream_entry e tenant_id with Ok m => Some m | Err _ => None end)
    entries.

(** @src crates/infra/src/event_bus/redis_streams.rs 244-299 [RedisStreamsEventBus::read_pending_sync] *)
Definition read_pending_sync self conn (group_name consumer_name : string)
    (tenant_id : option TenantId) (count : Z) : R * list StreamMessage :=
  let '(conn, pending_info) := xpending conn (stream_key self) group_name count consumer_name in
  match pending_info with
  | Err _ => (conn, [])
  | Ok pending_ids =>
    if decide (pending_ids = []) then (conn, []) else
    let '(conn, claimed) := xclaim conn (stream_key self) group_name consumer_name
                              (pending_timeout_ms self) pending_ids (max_retries self) in
    match claimed with
    | Err _ => (conn, [])
    | Ok claimed_entries => (conn, parse_entries claimed_entries tenant_id)
    end
  end.

(** @src crates/infra/src/event_bus/redis_streams.rs 301-349 [RedisStreamsEventBus::read_new_sync] *)
Definition read_new_sync self conn (group_name consumer_name : string)
    (tenant_id : option TenantId) (count block_ms : Z)
  : R * Result RedisStreamsError (list StreamMessage) :=
  let '(conn, result) := xreadgroup conn group_name consumer_name count block_ms
                           (stream_key self) in
  match result with
  | Ok data =>
    let entries := default [] (data !! stream_key self) in
    (conn, Ok (parse_entries entries tenant_id))
  | Err e =>
    if is_type_error e && mentions (failure_text e) "timeout" then (conn, Ok [])
    else (conn, Err (CommandFailed ("XREADGROUP failed: " +:+ failure_text e)))
  end.

(** @src crates/infra/src/event_bus/redis_streams.rs 220-242 [RedisStreamsEventBus::read_group_sync] *)
Definition read_group_sync self conn (group_name consumer_name : string)
    (tenant_id : option TenantId) (count block_ms : Z)
  : R * Result RedisStreamsError (list StreamMessage) :=
  match get_connection conn with
  | Err e => (conn, Err (ConnectionFailed (failure_text e)))
  | Ok _ =>
    let '(conn, pending) :=
      read_pending_sync self conn group_name consumer_name tenant_id count in
    if decide (length pending <> 0) then (conn, Ok pending)
    else read_new_sync self conn group_name consumer_name tenant_id count block_ms
  end.

(** ** The subscription *)

(** @src crates/infra/src/event_bus/redis_streams.rs 448-459 [RedisStreamsSubscription] *)
Record RedisStreamsSubscription := mkRedisStreamsSubscription {
  sub_bus : RedisStreamsEventBus;
  sub_group_name : string;
  sub_consumer_name : string;
  sub_tenant_id : option TenantId;
  sub_buffer : list (EventEnvelope J);
  sub_unacked : list string
}.

Definition with_queues (self : RedisStreamsSubscription) buffer unacked
  : RedisStreamsSubscription :=
  {| sub_bus := sub_bus self; sub_group_name := sub_group_name self;
     sub_consumer_name := sub_consumer_name self; sub_tenant_id := sub_tenant_id self;
     sub_buffer := buffer; sub_unacked := unacked |}.

(** @src crates/infra/src/event_bus/redis_streams.rs 462-481 [RedisStreamsSubscription::new] *)
Definition subscription_new bus conn (group_name consumer_name : string)
    (tenant_id : option TenantId) : R * RedisStreamsSubscription :=
  ((ensure_consumer_group bus conn group_name).1,
   {| sub_bus := bus; sub_group_name := group_name; sub_consumer_name := consumer_name;
      sub_tenant_id := tenant_id; sub_buffer := []; sub_unacked := [] |}).

(** One message of a poll; [now] is the clock of a dead-letter entry.

    @src crates/infra/src/event_bus/redis_streams.rs 497-509 [RedisStreamsSubscription::poll] *)
Definition take_message (now : DateTime) (st : R * RedisStreamsSubscription)
    (msg : StreamMessage) : R * RedisStreamsSubscription :=
  let '(conn, self) := st in
  if decide (max_retries (sub_bus self) <= sm_retry_count msg)%Z then
    ((send_to_dlq_sync (sub_bus self) conn (sm_envelope msg) (sm_message_id msg)
        (sm_retry_count msg) now).1,
     with_queues self (sub_buffer self) (sub_unacked self ++ [sm_message_id msg]))
  else
    (conn, with_queues self (sub_buffer self ++ [sm_envelope msg])
             (sub_unacked self ++ [sm_message_id msg])).

(** @src crates/infra/src/event_bus/redis_streams.rs 483-515 [RedisStreamsSubscription::poll] *)
Definition poll (now : DateTime) (conn : R) (self : RedisStreamsSubscription)
  : R * RedisStreamsSubscription :=
  match read_group_sync (sub_bus self) conn (sub_group_name self) (sub_consumer_name self)
          (sub_tenant_id self) 10 100 with
  | (conn, Ok messages) => foldl (take_message now) (conn, self) messages
  | (conn, Err _) => (conn, self)
  end.

(** @src crates/infra/src/event_bus/redis_streams.rs 517-528 [RedisStreamsSubscription::acknowledge] *)
Definition acknowledge (conn : R) (self : RedisStreamsSubscription) (count : nat)
  : R * RedisStreamsSubscription :=
  if decide (count <= length (sub_unacked self)) then
    ((acknowledge_sync (sub_bus self) conn (sub_group_name self)
        (take count (sub_unacked self))).1,
     with_queues self (sub_buffer self) (drop count (sub_unacked self)))
  else (conn, self).

(** [while let Some(msg) = buffer.pop() { tx.send(msg) }]: from the back; [alive]
    says whether the receiver still exists, and a failed send ends the thread with
    its message lost.

    @src crates/infra/src/event_bus/redis_streams.rs 590-597 [RedisStreamsEventBus::subscribe_with_group] *)
Fixpoint drain (n : nat) (buffer : list (EventEnvelope J)) (alive : bool)
    (channel : list (EventEnvelope J)) : list (EventEnvelope J) * list (EventEnvelope J) * bool :=
  match n, last buffer with
  | S n, Some msg =>
    let buffer := removelast buffer in
    if alive then drain n buffer alive (channel ++ [msg]) else (buffer, channel, false)
  | _, _ => (buffer, channel, true)
  end.

(** One round of the background thread: the subscription, what the channel holds
    then, and whether the thread goes on.

    @src crates/infra/src/event_bus/redis_streams.rs 584-607 [RedisStreamsEventBus::subscribe_with_group] *)
Definition forward_turn (now : DateTime) (alive : bool) (conn : R)
    (self : RedisStreamsSubscription) (channel : list (EventEnvelope J))
  : R * RedisStreamsSubscription * list (EventEnvelope J) * bool :=
  let '(conn, self) := poll now conn self in
  let '(buffer, channel, go_on) :=
    drain (length (sub_buffer self)) (sub_buffer self) alive channel in
  (conn, with_queues self buffer (sub_unacked self), channel, go_on).

(** [consumer] is the fresh UUID of the consumer's name: every subscriber of the
    trait joins the one group ["default"].

    @src crates/infra/src/event_bus/redis_streams.rs 547-556 [RedisStreamsEventBus::subscribe] *)
Definition redis_subscribe bus conn (consumer : Uuid) : R * RedisStreamsSubscription :=
  subscription_new bus conn "default" ("consumer-" +:+ show_uuid consumer) None.
End Streams.
Arguments StreamMessage : clear implicits.
Arguments RedisStreamsSubscription : clear implicits.

(** ** What was published is parsed back *)
Section Roundtrip.
Context {J : Type} `{TextsLaws} `{!Codec J} `{!CodecLaws J}.

(** An entry as [XREADGROUP] and [XCLAIM] reply it: its identifier and its fields,
    names and values alternating. *)
Definition entry_value (id : string) (fields : list (string * string)) : RedisValue :=
  Bulk [Data id; Bulk (concat (map (fun kv => [Data kv.1; Data kv.2]) fields))].

Definition published_as (env : EventEnvelope J) (id : string) (v : RedisValue) : Prop :=
  utf8 id = true
  /\ exists payload, show_envelope env = Ok payload /\ v = entry_value id (entry_fields env payload).

Lemma parse_published (env : EventEnvelope J) id payload tenant_id :
  utf8 id = true -> show_envelope env = Ok payload ->
  parse_stream_entry (entry_value id (entry_fields env payload)) tenant_id
  = if decide (tenant_id = None \/ tenant_id = Some (env_tenant_id env))
    then Ok {| sm_message_id := id; sm_envelope := env; sm_retry_count := 0 |}
    else Err (DeserializationFailed "Tenant mismatch (skipping)").
Proof.
  intros Hid Hp. unfold parse_stream_entry, entry_value, entry_fields.
  cbn [fst snd map concat app message_id_of collect_fields mbind Result_bind].
  rewrite (lossy_valid id), (lossy_valid payload), (lossy_valid (show_uuid (tenant_uuid _)))
    by eauto using show_envelope_utf8, show_uuid_utf8.
  repeat match goal with |- context [<[from_utf8_lossy ?k := _]> _] =>
    change (from_utf8_lossy k) with k end.
  set (fields := <["payload"%string := payload]> _).
  assert (Ht : fields !! "tenant_id"%string = Some (show_uuid (tenant_uuid (env_tenant_id env))))
    by (unfold fields; do 4 rewrite lookup_insert_ne by done; apply lookup_insert_eq).
  assert (Hy : fields !! "payload"%string = Some payload) by apply lookup_insert_eq.
  assert (Hr : fields !! "retry_count"%string = None)
    by (unfold fields; do 5 rewrite lookup_insert_ne by done; apply lookup_empty).
  rewrite Ht, Hy, Hr. simpl. unfold parse_tenant_id. rewrite parse_show_uuid. simpl.
  replace (mkTenantId (tenant_uuid (env_tenant_id env))) with (env_tenant_id env)
    by by destruct (env_tenant_id env).
  rewrite (parse_show_envelope _ _ Hp). simpl.
  destruct tenant_id as [t|]; [|by rewrite decide_True by by left].
  destruct (decide (env_tenant_id env <> t)) as [Hne|Heq%dec_stable]; simpl.
  - rewrite decide_False; [done|]. intros [Hn|[= Hn]]; [done|]. by apply Hne.
  - subst t. by rewrite decide_True by by right.
Qed.

(** C39: publishing and parsing are inverse: the entry that [publish] adds to the
    stream, whatever identifier the server gives it, is parsed back to the envelope
    it was made from, with that identifier and a retry count of zero, by a
    subscriber without a tenant filter or with a filter on the envelope's tenant,
    and skipped by one that filters on another tenant.  The server is asked for no
    more than that it gives the fields back in their order; the texts pass through
    [from_utf8_lossy]. *)
Theorem redis_publish_parse_roundtrip (env : EventEnvelope J) (id : string) (v : RedisValue)
    (tenant_id : option TenantId) :
  published_as env id v ->
  parse_stream_entry v tenant_id
  = if decide (tenant_id = None \/ tenant_id = Some (env_tenant_id env))
    then Ok {| sm_message_id := id; sm_envelope := env; sm_retry_count := 0 |}
    else Err (DeserializationFailed "Tenant mismatch (skipping)").
Proof. intros (Hid & payload & Hp & ->). by apply parse_published. Qed.

(** The module's documentation and [docs/REDIS_STREAMS_FLOW.md] promise that a message
    goes to the dead-letter queue after [max_retries] failures.  But the retry count
    is read from a field that [publish] does not write and that no command of the bus
    changes, so it is zero at every delivery, and the message is handed over however
    often it was delivered before. *)
Theorem published_never_dead_lettered {R : Type} `{RedisServer R} (now : DateTime) (conn : R)
    (sub : RedisStreamsSubscription J) (env : EventEnvelope J) id v tenant_id m :
  (0 < max_retries (sub_bus sub))%Z -> published_as env id v ->
  parse_stream_entry v tenant_id = Ok m ->
  take_message now (conn, sub) m
  = (conn, with_queues sub (sub_buffer sub ++ [env]) (sub_unacked sub ++ [id])).
Proof.
  intros Hmax (Hid & payload & Hp & ->) Hm. rewrite (parse_published _ _ _ _ Hid Hp) in Hm.
  destruct (decide _); [|done]. injection Hm as <-.
  unfold take_message. simpl. by rewrite decide_False by lia.
Qed.
End Roundtrip.

(** ** A batch is delivered backwards *)
Section Batch.
Context {R J : Type} `{RedisServer R} `{TextsLaws} `{!Codec J} `{!CodecLaws J}.
Implicit Types (self : RedisStreamsSubscription J) (envs : list (EventEnvelope J)).

Lemma take_message_ok now (conn : R) self m :
  (sm_retry_count m < max_retries (sub_bus self))%Z ->
  take_message now (conn, self) m
  = (conn, with_queues self (sub_buffer self ++ [sm_envelope m])
             (sub_unacked self ++ [sm_message_id m])).
Proof. intros Hm. unfold take_message. by rewrite decide_False by lia. Qed.

Lemma take_messages now (conn : R) (msgs : list (StreamMessage J)) : forall self,
  Forall (fun m => (sm_retry_count m < max_retries (sub_bus self))%Z) msgs ->
  foldl (take_message now) (conn, self) msgs
  = (conn, with_queues self (sub_buffer self ++ map sm_envelope msgs)
             (sub_unacked self ++ map sm_message_id msgs)).
Proof.
  induction msgs as [|m msgs IH]; intros self Hall; cbn [foldl map].
  - rewrite !app_nil_r. by destruct self.
  - apply Forall_cons_1 in Hall as [Hm Hall]. rewrite take_message_ok by done.
    rewrite IH by done. simpl. by rewrite <- !app_assoc.
Qed.

Lemma drain_all (buffer : list (EventEnvelope J)) : forall channel,
  drain (length buffer) buffer true channel = ([], channel ++ rev buffer, true).
Proof.
  induction buffer as [|x buffer IH] using rev_ind; intros channel; [by rewrite app_nil_r|].
  rewrite length_app, Nat.add_comm. simpl. rewrite last_snoc, removelast_last, IH.
  rewrite rev_app_distr. simpl. by rewrite <- app_assoc.
Qed.

(** The server has new entries for the consumer, and none pending. *)
Definition has_new (conn : R) self (entries : list RedisValue) : Prop :=
  is_ok (get_connection conn) = true
  /\ exists conn1, xpending conn (stream_key (sub_bus self)) (sub_group_name self) 10
                     (sub_consumer_name self) = (conn1, Ok [])
  /\ exists conn2, xreadgroup conn1 (sub_group_name self) (sub_consumer_name self) 10 100
                     (stream_key (sub_bus self))
                   = (conn2, Ok {[stream_key (sub_bus self) := entries]}).

Lemma parse_entries_cons v vs tenant_id :
  parse_entries (J:=J) (v :: vs) tenant_id
  = match parse_stream_entry v tenant_id with
    | Ok m => m :: parse_entries vs tenant_id
    | Err _ => parse_entries vs tenant_id
    end.
Proof. unfold parse_entries. simpl. by destruct (parse_stream_entry v tenant_id). Qed.

Lemma parse_batch envs ids entries :
  Forall3 published_as envs ids entries ->
  parse_entries entries None
  = zip_with (fun env id => {| sm_message_id := id; sm_envelope := env; sm_retry_count := 0 |})
      envs ids.
Proof.
  induction 1 as [|env id v envs ids vs (Hid & payload & Hp & ->) _ IH]; [done|].
  rewrite parse_entries_cons.
  rewrite (parse_published _ _ _ None Hid Hp), decide_True by by left. simpl. by rewrite IH.
Qed.

(** A round of the thread that finds new entries. *)
Lemma forward_batch now (conn : R) self envs ids entries :
  Forall3 published_as envs ids entries -> (0 < max_retries (sub_bus self))%Z ->
  sub_tenant_id self = None -> sub_buffer self = [] -> has_new conn self entries ->
  exists conn', forall channel,
    forward_turn now true conn self channel
    = (conn', with_queues self [] (sub_unacked self ++ ids), channel ++ rev envs, true).
Proof.
  intros Hall Hmax Hnone Hbuf (Hok & conn1 & Hpend & conn2 & Hnew). exists conn2. intros channel.
  unfold forward_turn, poll, read_group_sync, read_pending_sync, read_new_sync.
  destruct (get_connection conn) as [[]|]; [|done]. rewrite Hpend. cbn [length].
  rewrite decide_True by done. rewrite decide_False by (intros Hn; by apply Hn).
  rewrite Hnew, lookup_singleton_eq, Hnone. change (default [] (Some entries)) with entries.
  rewrite (parse_batch _ _ _ Hall).
  rewrite take_messages.
  - simpl. rewrite Hbuf. simpl.
    assert (Hl : length envs = length ids) by by eapply Forall3_length_lm.
    assert (Hm : map sm_envelope (zip_with (fun env id => {| sm_message_id := id;
       sm_envelope := env; sm_retry_count := 0 |}) envs ids) = envs).
    { clear -Hl. revert ids Hl. induction envs as [|e envs IH]; intros [|i ids] Hl; try done.
      simpl. rewrite IH; [done|]. by injection Hl. }
    assert (Hi : map sm_message_id (zip_with (fun env id => {| sm_message_id := id;
       sm_envelope := env; sm_retry_count := 0 |}) envs ids) = ids).
    { clear -Hl. revert ids Hl. induction envs as [|e envs IH]; intros [|i ids] Hl; try done.
      simpl. rewrite IH; [done|]. by injection Hl. }
    rewrite Hm, Hi. rewrite drain_all. done.
  - apply Forall_forall. intros m Hm. apply elem_of_lookup_zip_with in Hm as (? & ? & ? & -> & _).
    done.
Qed.
End Batch.

(** ** What a projection makes of it *)
Section Loss.
Context {R J S K V E CS : Type} `{RedisServer R} `{TextsLaws} `{!Codec J} `{!CodecLaws J}.
Context `{HTS : TenantStoreLaws S K V} (HK : Keyed S K V J E) `{!ProjectionCursorStore CS}.

(** The envelopes of the events [es] of one stream, numbered from 1. *)
Definition of_stream (t : TenantId) (a : AggregateId) (es : list E)
    (envs : list (EventEnvelope J)) : Prop :=
  length envs = length es
  /\ forall i env, envs !! i = Some env ->
       env_aggregate_type env = kp_type (Keyed:=HK) /\ env_tenant_id env = t
       /\ env_aggregate_id env = a /\ env_sequence_number env = (Z.of_nat i + 1)%Z
       /\ exists e, es !! i = Some e /\ kp_decode (Keyed:=HK) (env_payload env) = Ok e
                    /\ kp_isolation (Keyed:=HK) t a e = None.

(** The Redis bus hands a batch over backwards, and events are lost: let the
    first events of a new stream be published, and let a subscriber's next poll find
    their entries, in the order of the stream.  The thread then sends them to the
    subscriber in the opposite order, and a projection that has not seen the stream
    takes the last event, drops all the earlier ones as duplicates, reports no
    error, and ends with its cursor at the last number and an entry made of the
    last event alone.  Nothing was acknowledged. *)
Theorem redis_batch_loses_events (now : DateTime) (conn : R) (self : RedisStreamsSubscription J)
    (t : TenantId) (a : AggregateId) (es : list E) (e : E) (envs : list (EventEnvelope J))
    (ids : list string) (entries : list RedisValue) (p : Projector S CS) :
  of_stream t a (es ++ [e]) envs -> Forall3 published_as envs ids entries ->
  (0 < max_retries (sub_bus self))%Z -> sub_tenant_id self = None -> sub_buffer self = [] ->
  has_new conn self entries ->
  cursors_work p -> get_cursor p t a = 0%Z -> ts_get (p_store p) t (kp_key (Keyed:=HK) a) = None ->
  exists conn' self' delivered,
    forward_turn now true conn self [] = (conn', self', delivered, true)
    /\ delivered = rev envs /\ sub_unacked self' = sub_unacked self ++ ids
    /\ let '(p', r) := project_all (deliver (HK:=HK)) p delivered in
       r = Ok tt /\ get_cursor p' t a = Z.of_nat (length (es ++ [e]))
       /\ ts_get (p_store p') t (kp_key (Keyed:=HK) a) = kp_step (Keyed:=HK) a None e.
Proof.
  intros [Hlen Hst] Hpub Hmax Hnone Hbuf Hnew Hw Hc Hget.
  destruct (forward_batch now conn self envs ids entries Hpub Hmax Hnone Hbuf Hnew)
    as (conn' & Hturn).
  exists conn', (with_queues self [] (sub_unacked self ++ ids)), (rev envs).
  split; [exact (Hturn [])|]. split; [done|]. split; [done|].
  rewrite length_app in Hlen. simpl in Hlen.
  destruct envs as [|env envs _] using rev_ind; [simpl in Hlen; lia|].
  rewrite length_app in Hlen. simpl in Hlen.
  destruct (Hst (length envs) env) as (Hty & <- & <- & Hs & e' & He' & Hd & Hi).
  { by apply list_lookup_middle. }
  assert (Hle : length es = length envs) by lia.
  rewrite <- Hle in He', Hs. rewrite list_lookup_middle in He' by done. injection He' as <-.
  rewrite rev_unit. simpl. rewrite (deliver_first p env e) by (done || lia).
  set (q := update_cursor _ _ _ _).
  assert (Hq : get_cursor q (env_tenant_id env) (env_aggregate_id env) = env_sequence_number env).
  { unfold q. rewrite get_update_cursor by exact Hw. by rewrite decide_True. }
  rewrite project_all_stale.
  - split; [done|]. split; [rewrite Hq, length_app; simpl; lia|].
    simpl. rewrite kp_update_eq by done. by rewrite Hget.
  - intros x Hx. rewrite list_elem_of_In, <- in_rev, <- list_elem_of_In in Hx.
    apply list_elem_of_lookup in Hx as [i Hx]. pose proof (lookup_lt_Some _ _ _ Hx) as Hlt.
    destruct (Hst i x) as (Hty' & Ht' & Ha' & Hs' & _); [by apply lookup_app_l_Some|].
    rewrite Ht', Ha', Hq, Hs, Hs'. split; [done|]. lia.
Qed.
End Loss.

(** ** The pub/sub bus *)
Section PubSub.
Context {R J : Type} `{Texts} `{Codec J}.
(** The connection of a client and the [PUBLISH] of a payload to a channel. *)
Context (connect : R -> Result string unit).
Context (redis_publish : R -> string -> string -> R * Result string unit).

(** @src crates/infra/src/event_bus/redis_pubsub.rs 15-19 [RedisBusError] *)
Inductive RedisBusError : Type := RedisBusRedis (msg : string) | RedisBusSerialize (msg : string).

(** @src crates/infra/src/event_bus/redis_pubsub.rs 42-56 [RedisPubSubEventBus::publish] *)
Definition pubsub_publish (conn : R) (channel : string) (message : EventEnvelope J)
  : R * Result RedisBusError unit :=
  match show_envelope message with
  | Err e => (conn, Err (RedisBusSerialize e))
  | Ok payload =>
    match connect conn with
    | Err e => (conn, Err (RedisBusRedis e))
    | Ok _ =>
      let '(conn, r) := redis_publish conn channel payload in
      (conn, map_err RedisBusRedis r)
    end
  end.

(** What the background thread forwards of the messages it gets: a message is [None]
    when its payload is no string; the list ends with the connection.  A message that
    does not decode is skipped, and the thread ends when the receiver is gone, after
    [room] sends.

    @src crates/infra/src/event_bus/redis_pubsub.rs 75-95 [RedisPubSubEventBus::subscribe] *)
Fixpoint pubsub_forward (room : nat) (messages : list (option string))
  : list (EventEnvelope J) :=
  match messages with
  | [] => []
  | None :: rest => pubsub_forward room rest
  | Some payload :: rest =>
    match parse_envelope payload with
    | Err _ => pubsub_forward room rest
    | Ok envelope =>
      match room with
      | O => []
      | Datatypes.S room => envelope :: pubsub_forward room rest
      end
    end
  end.

(** Unlike the streams bus, this one keeps the order of what it forwards. *)
Lemma pubsub_forward_order `{!TextsLaws} `{!CodecLaws J} envs payloads :
  Forall2 (fun env p => show_envelope env = Ok p) envs payloads ->
  pubsub_forward (length envs) (map Some payloads) = envs.
Proof.
  induction 1 as [|env p envs ps Hp _ IH]; [done|]. simpl.
  rewrite (parse_show_envelope _ _ Hp). by rewrite IH.
Qed.
End PubSub.

(** A sample: an item is created and seven are put in stock; the subscriber's stock
    level starts from the second event and has lost the name. *)
Module Sample.
Import SampleTexts.
Definition tenant : TenantId := mkTenantId 1.
Definition item : InventoryItemId := mkInventoryItemId (mkAggregateId 2).
Definition created : InventoryEvent :=
  Inventory.EvItemCreated (Inventory.mkItemCreated tenant item "bolt" 0).
Definition adjusted : InventoryEvent :=
  Inventory.EvStockAdjusted (Inventory.mkStockAdjusted tenant item 7 0).

(** Payloads: [false] for the first event, [true] for the second. *)
#[local] Instance sample_serde : Serde InventoryEvent bool :=
  {| to_value _ := Err ""%string;
     from_value (j : bool) := Ok (if j then adjusted else created) |}.

Definition envelope (second : bool) : EventEnvelope bool :=
  mkEnvelope 0%N tenant (mkAggregateId 2) "inventory.item" (if second then 2 else 1) second.

#[local] Instance envelope_eq_dec : EqDecision (EventEnvelope bool).
Proof. solve_decision. Defined.

#[local] Instance sample_codec : Codec bool := {|
  show_envelope e := if decide (e = envelope false) then Ok "first"%string
                     else if decide (e = envelope true) then Ok "second"%string
                     else Err "unsupported"%string;
  parse_envelope s := if String.eqb s "first" then Ok (envelope false)
                      else if String.eqb s "second" then Ok (envelope true)
                      else Err "unsupported"%string
|}.

#[local] Instance sample_codec_laws : CodecLaws bool.
Proof.
  constructor; simpl.
  - intros e s. destruct (decide _) as [->|]; [by intros [= <-]|].
    destruct (decide _) as [->|]; [by intros [= <-]|done].
  - intros e s. destruct (decide _); [by intros [= <-]|].
    destruct (decide _); [by intros [= <-]|done].
  - intros u. apply utf8_digits.
Qed.

Definition entries : list RedisValue :=
  [entry_value "1-0" (entry_fields (envelope false) "first");
   entry_value "2-0" (entry_fields (envelope true) "second")].

#[local] Instance sample_server : RedisServer unit := {|
  get_connection _ := Ok tt; xadd c _ _ := (c, Ok ""%string);
  xgroup_create c _ _ := (c, Ok ""%string); xack c _ _ _ := (c, Ok 0%Z);
  xpending c _ _ _ _ := (c, Ok []); xclaim c _ _ _ _ _ _ := (c, Ok []);
  xreadgroup c _ _ _ _ key := (c, Ok {[key := entries]})
|}.

Definition sub : RedisStreamsSubscription bool :=
  (redis_subscribe (redis_bus_new None None) tt 9).2.

Lemma redis_publish_parse_roundtrip_witness :
  parse_stream_entry (entry_value "1-0" (entry_fields (envelope false) "first"))
    (Some (mkTenantId 3))
  = Err (DeserializationFailed "Tenant mismatch (skipping)").
Proof.
  etrans; [exact (redis_publish_parse_roundtrip (envelope false) "1-0" _ (Some (mkTenantId 3))
    (conj eq_refl (ex_intro _ "first"%string (conj eq_refl eq_refl))))|].
  reflexivity.
Defined.

Definition stock : Projector (InMemoryTenantStore InventoryItemId InventoryReadModel)
    InMemoryCursorStore := projector_new "inventory.stock" ∅.
Definition stock_k : Keyed (InMemoryTenantStore InventoryItemId InventoryReadModel)
    InventoryItemId InventoryReadModel bool InventoryEvent := stock_keyed.

Lemma redis_batch_loses_events_witness :
  exists p', project_all (deliver (HK:=stock_k)) stock [envelope true; envelope false] = (p', Ok tt)
    /\ ts_get (p_store p') tenant item = Some (mkInventoryReadModel item "" 7).
Proof.
  destruct (redis_batch_loses_events stock_k (CS:=InMemoryCursorStore) 0%Z tt sub tenant (mkAggregateId 2) [created]
    adjusted    [envelope false; envelope true] ["1-0"; "2-0"]%string entries stock) as
    (conn' & self' & delivered & _ & Hd & _ & H).
  - split; [done|]. intros [|[|i]] env Hi; simplify_eq/=;
      (do 4 (split; [done|])); eexists; done.
  - repeat constructor; eexists; (split; [|reflexivity]); reflexivity.
  - reflexivity.
  - reflexivity.
  - reflexivity.
  - split; [reflexivity|]. exists tt. split; [reflexivity|]. exists tt. reflexivity.
  - by left.
  - reflexivity.
  - reflexivity.
  - rewrite Hd in H. exists (project_all (deliver (HK:=stock_k)) stock [envelope true; envelope false]).1.
    split; [reflexivity|]. reflexivity.
Defined.
End Sample.
