(* ===== verification/Http.v ===== *)
(** * Responses, errors and bodies of the HTTP API: [api/src/app/errors.rs],
    [api/src/app/dto.rs] and [routes/common.rs]

    A JSON value is a tree; an object is its fields in the order the code writes
    them.  A request body is the value its DTO deserialises to: a body that does
    not is answered by the web framework before any handler runs.  The lower-case
    mapping of Unicode ([Lowercase]) and the escapes of [Debug] ([DebugText]) are
    the standard library's tables, and parameters. *)

From S2P Require Import Prelude Core Events Bus EventStore ReadModel Dispatcher.
From S2P Require Import Auth Products Parties Users Sales Purchasing Invoicing Accounting.
From S2P Require Import Saga Stock Receivables TrialBalance Directories UserDirectory.
From S2P Require Inventory.

(** ** JSON *)

(** [serde_json::Value]; a floating-point number is its bits. *)
Inductive Json : Type :=
| JNull
| JBool (b : bool)
| JInt (n : Z)
| JFloat (bits : Z)
| JStr (s : string)
| JArr (items : list Json)
| JObj (fields : list (string * Json)).

(** [Value::get] of a field, [Value::as_str], [Value::as_array]. *)
Definition json_get (v : Json) (key : string) : option Json :=
  match v with
  | JObj fields => snd <$> find (fun kv => String.eqb kv.1 key) fields
  | _ => None
  end.
Definition json_as_str (v : Json) : option string :=
  match v with JStr s => Some s | _ => None end.
Definition json_as_array (v : Json) : option (list Json) :=
  match v with JArr l => Some l | _ => None end.

(** [Serialize] of an [Option]. *)
Definition json_opt {A} (f : A -> Json) (o : option A) : Json :=
  match o with Some a => f a | None => JNull end.
Definition json_len {A} (l : list A) : Json := JInt (Z.of_nat (length l)).

(** [Debug] of a string: quoted and escaped. *)
Class DebugText := debug_str : string -> string.

(** ** Responses *)
Record Response := mkResponse { resp_status : StatusCode; resp_body : Json }.

(** [StatusCode::is_success]. *)
Definition is_success (r : Response) : bool :=
  ((200 <=? as_u16 (resp_status r)) && (as_u16 (resp_status r) <? 300))%Z.

(** @src crates/api/src/app/errors.rs 30-43 [json_error] *)
Definition json_error (status : StatusCode) (code message : string) : Response :=
  mkResponse status (JObj [("error", JStr code); ("message", JStr message)]).

(** [Debug] of a store's error, derived.

    @src crates/infra/src/event_store/trait.rs 117-133 [EventStoreError] *)
Definition debug_store_error `{DebugText} (e : EventStoreError) : string :=
  match e with
  | Concurrency m => "Concurrency(" +:+ debug_str m +:+ ")"
  | TenantIsolation m => "TenantIsolation(" +:+ debug_str m +:+ ")"
  | AggregateTypeMismatch m => "AggregateTypeMismatch(" +:+ debug_str m +:+ ")"
  | InvalidAppend m => "InvalidAppend(" +:+ debug_str m +:+ ")"
  | Publish m => "Publish(" +:+ debug_str m +:+ ")"
  end.

(** [Display] of a store's error.

    @src crates/infra/src/event_store/trait.rs 117-133 [EventStoreError] *)
Definition show_store_error (e : EventStoreError) : string :=
  match e with
  | Concurrency m => "optimistic concurrency check failed: " +:+ m
  | TenantIsolation m => "tenant isolation violation: " +:+ m
  | AggregateTypeMismatch m => "aggregate type mismatch: " +:+ m
  | InvalidAppend m => "invalid append: " +:+ m
  | Publish m => "event publication failed: " +:+ m
  end.

(** @src crates/api/src/app/errors.rs 8-28 [dispatch_error_to_response] *)
Definition dispatch_error_to_response `{DebugText} (err : DispatchError) : Response :=
  match err with
  | DConcurrency msg => json_error CONFLICT "conflict" msg
  | DValidation msg => json_error BAD_REQUEST "validation_error" msg
  | DInvariantViolation msg => json_error UNPROCESSABLE_ENTITY "invariant_violation" msg
  | DUnauthorized => json_error FORBIDDEN "unauthorized" "unauthorized"
  | DNotFound => json_error NOT_FOUND "not_found" "not found"
  | DDeserialize msg => json_error INTERNAL_SERVER_ERROR "deserialize_error" msg
  | DStore e => json_error INTERNAL_SERVER_ERROR "store_error" (debug_store_error e)
  | DPublish msg => json_error BAD_GATEWAY "publish_error" msg
  | DTenantIsolation msg => json_error FORBIDDEN "tenant_isolation" msg
  end.

(** @src crates/api/src/app/errors.rs 45-58 [parse_account_kind] *)
Definition parse_account_kind `{Lowercase} (s : string) : Result Response AccountKind :=
  let l := to_lowercase s in
  if String.eqb l "asset" then Ok Asset
  else if String.eqb l "liability" then Ok Liability
  else if String.eqb l "equity" then Ok Equity
  else if String.eqb l "revenue" then Ok Revenue
  else if String.eqb l "expense" then Ok Expense
  else Err (json_error BAD_REQUEST "invalid_account_kind"
              "kind must be one of: asset, liability, equity, revenue, expense").

(** ** Request bodies *)

(** @src crates/api/src/app/dto.rs 20-23 [CreateItemRequest] *)
Record CreateItemRequest := mkCreateItemRequest { cir_name : string }.

(** @src crates/api/src/app/dto.rs 25-28 [AdjustStockRequest] *)
Record AdjustStockRequest := mkAdjustStockRequest { asr_delta : Z }.

(** @src crates/api/src/app/dto.rs 30-35 [CreateProductRequest] *)
Record CreateProductRequest := mkCreateProductRequest {
  cpr_sku : string; cpr_name : string; cpr_pricing : option PricingMetadata
}.

(** @src crates/api/src/app/dto.rs 37-41 [RegisterPartyRequest] *)
Record RegisterPartyRequest := mkRegisterPartyRequest {
  rpr_name : string; rpr_contact : option ContactInfo
}.

(** @src crates/api/src/app/dto.rs 43-47 [UpdatePartyRequest] *)
Record UpdatePartyRequest := mkUpdatePartyRequest {
  upr_name : option string; upr_contact : option ContactInfo
}.

(** @src crates/api/src/app/dto.rs 49-52 [SuspendPartyRequest] *)
Record SuspendPartyRequest := mkSuspendPartyRequest { spr_reason : option string }.

(** @src crates/api/src/app/dto.rs 54-59 [CreateSalesOrderLineRequest] *)
Record CreateSalesOrderLineRequest := mkCreateSalesOrderLineRequest {
  slr_product_id : string; slr_quantity : Z; slr_unit_price : Z
}.

(** @src crates/api/src/app/dto.rs 61-66 [IssueInvoiceRequest] *)
Record IssueInvoiceRequest := mkIssueInvoiceRequest {
  iir_sales_order_id : string; iir_due_date : string;
  iir_lines : list CreateSalesOrderLineRequest
}.

(** @src crates/api/src/app/dto.rs 68-71 [RegisterPaymentRequest] *)
Record RegisterPaymentRequest := mkRegisterPaymentRequest { rpq_amount : Z }.

(** @src crates/api/src/app/dto.rs 73-76 [VoidInvoiceRequest] *)
Record VoidInvoiceRequest := mkVoidInvoiceRequest { vir_reason : option string }.

(** @src crates/api/src/app/dto.rs 78-82 [PurchaseOrderLineRequest] *)
Record PurchaseOrderLineRequest := mkPurchaseOrderLineRequest {
  plr_product_id : string; plr_quantity : Z
}.

(** @src crates/api/src/app/dto.rs 84-88 [CreatePurchaseOrderRequest] *)
Record CreatePurchaseOrderRequest := mkCreatePurchaseOrderRequest {
  por_supplier_id : string; por_lines : list PurchaseOrderLineRequest
}.

(** @src crates/api/src/app/dto.rs 90-97 [CreateLedgerLineRequest] *)
Record CreateLedgerLineRequest := mkCreateLedgerLineRequest {
  llr_account_code : string; llr_account_name : string; llr_kind : string;
  llr_amount : Z; llr_is_debit : bool
}.

(** @src crates/api/src/app/dto.rs 99-103 [PostJournalEntryRequest] *)
Record PostJournalEntryRequest := mkPostJournalEntryRequest {
  pjr_description : option string; pjr_lines : list CreateLedgerLineRequest
}.

(** [Debug] names of the status enums. *)
Definition debug_product_status (s : ProductStatus) : string :=
  match s with
  | Products.Draft => "Draft" | Products.Active => "Active" | Archived => "Archived"
  end.
Definition debug_party_status (s : PartyStatus) : string :=
  match s with Parties.Active => "Active" | Parties.Suspended => "Suspended" end.
Definition debug_sales_status (s : SalesOrderStatus) : string :=
  match s with
  | Sales.Draft => "Draft" | Confirmed => "Confirmed" | Invoiced => "Invoiced"
  | Sales.Closed => "Closed"
  end.
Definition debug_invoice_status (s : InvoiceStatus) : string :=
  match s with Open => "Open" | Paid => "Paid" | Void => "Void" end.
Definition debug_purchase_status (s : PurchaseOrderStatus) : string :=
  match s with
  | Purchasing.Draft => "Draft" | Approved => "Approved" | Received => "Received"
  | Purchasing.Closed => "Closed"
  end.
Definition debug_account_kind (k : AccountKind) : string :=
  match k with
  | Asset => "Asset" | Liability => "Liability" | Equity => "Equity"
  | Revenue => "Revenue" | Expense => "Expense"
  end.

(** ** Read models as JSON *)
Section ToJson.
Context `{Texts} `{Lowercase}.

Definition json_aggregate (a : AggregateId) : Json := JStr (show_uuid (aggregate_uuid a)).

(** @src crates/api/src/app/dto.rs 109-115 [inventory_to_json] *)
Definition inventory_to_json (rm : InventoryReadModel) : Json :=
  JObj [("id", json_aggregate (Inventory.item_aggregate (rm_item_id rm)));
        ("name", JStr (rm_name rm)); ("quantity", JInt (rm_quantity rm))].

(** @src crates/api/src/app/dto.rs 117-128 [product_to_json] *)
Definition product_to_json (rm : ProductReadModel) : Json :=
  JObj [("id", json_aggregate (product_aggregate (prm_product_id rm)));
        ("sku", JStr (prm_sku rm)); ("name", JStr (prm_name rm));
        ("status", JStr (to_lowercase (debug_product_status (prm_status rm))));
        ("pricing", JObj [("base_price", json_opt JInt (base_price (prm_pricing rm)));
                          ("currency", json_opt JStr (currency (prm_pricing rm)))])].

(** @src crates/api/src/app/dto.rs 130-139 [party_to_json] *)
Definition party_to_json (rm : PartyReadModel) : Json :=
  JObj [("id", json_aggregate (party_aggregate (tyrm_party_id rm)));
        ("kind", JStr (match tyrm_kind rm with Customer => "customer" | Supplier => "supplier" end));
        ("name", JStr (tyrm_name rm)); ("email", json_opt JStr (tyrm_email rm));
        ("phone", json_opt JStr (tyrm_phone rm));
        ("status", JStr (to_lowercase (debug_party_status (tyrm_status rm))))].

(** @src crates/api/src/app/dto.rs 141-152 [sales_order_to_json] *)
Definition sales_order_to_json (rm : SalesOrderReadModel) : Json :=
  JObj [("id", json_aggregate (so_aggregate (sorm_order_id rm)));
        ("status", JStr (to_lowercase (debug_sales_status (sorm_status rm))));
        ("lines", JArr (map (fun l =>
           JObj [("line_no", JInt (sol_line_no l));
                 ("product_id", json_aggregate (product_aggregate (sol_product_id l)));
                 ("quantity", JInt (sol_quantity l)); ("unit_price", JInt (sol_unit_price l))])
           (sorm_lines rm)))].

(** @src crates/api/src/app/dto.rs 154-170 [invoice_to_json] *)
Definition invoice_to_json (rm : InvoiceReadModel) : Json :=
  JObj [("id", json_aggregate (invoice_aggregate (irm_invoice_id rm)));
        ("sales_order_id", json_aggregate (so_aggregate (irm_sales_order_id rm)));
        ("status", JStr (to_lowercase (debug_invoice_status (irm_status rm))));
        ("due_date", json_opt (fun d => JStr (to_rfc3339 d)) (irm_due_date rm));
        ("total_amount", JInt (irm_total_amount rm));
        ("total_paid", JInt (irm_total_paid rm));
        ("outstanding_amount", JInt (saturating_subU (irm_total_amount rm) (irm_total_paid rm)));
        ("lines", JArr (map (fun l =>
           JObj [("line_no", JInt (il_line_no l));
                 ("product_id", json_aggregate (product_aggregate (il_product_id l)));
                 ("quantity", JInt (il_quantity l)); ("unit_price", JInt (il_unit_price l))])
           (irm_lines rm)))].

(** @src crates/api/src/app/dto.rs 172-183 [purchase_order_to_json] *)
Definition purchase_order_to_json (rm : PurchaseOrderReadModel) : Json :=
  JObj [("id", json_aggregate (po_aggregate (porm_order_id rm)));
        ("supplier_id", json_aggregate (party_aggregate (porm_supplier_id rm)));
        ("status", JStr (to_lowercase (debug_purchase_status (porm_status rm))));
        ("lines", JArr (map (fun l =>
           JObj [("line_no", JInt (Purchasing.line_no l));
                 ("product_id", json_aggregate (product_aggregate (Purchasing.product_id l)));
                 ("quantity", JInt (Purchasing.quantity l))])
           (porm_lines rm)))].

(** @src crates/api/src/app/dto.rs 185-192 [ledger_balance_to_json] *)
Definition ledger_balance_to_json (b : AccountBalance) : Json :=
  JObj [("account_code", JStr (ab_account_code b)); ("account_name", JStr (ab_account_name b));
        ("kind", JStr (to_lowercase (debug_account_kind (ab_kind b))));
        ("balance", JStr (pretty (ab_balance b)))].

(** @src crates/api/src/app/dto.rs 194-214 [to_journal_lines] *)
Definition to_journal_lines (req_lines : list CreateLedgerLineRequest)
  : Result Response (list JournalEntryLine) :=
  try_fold (fun lines l =>
    kind ← parse_account_kind (llr_kind l);
    Ok (lines ++ [{| jl_account := {| acc_code := llr_account_code l;
                                      acc_name := llr_account_name l; acc_kind := kind |};
                     jl_amount := llr_amount l; jl_is_debit := llr_is_debit l |}]))
    [] req_lines.
End ToJson.

(** ** Insights *)

(** A result of the AI subsystem; scores are floating-point numbers, by their bits.

    @src crates/ai/src/result.rs 9-22 [AiResult] *)
Record AiResult := mkAiResult {
  air_score : Z;
  air_confidence : Z;
  air_explanation : option string;
  air_metadata : Json
}.
