(* ===== verification/Routes.v ===== *)
(** * The tenant routes of the HTTP API: [api/src/app/routes/]: [inventory.rs],
    [products.rs], [customers.rs], [suppliers.rs], [sales.rs], [invoices.rs],
    [purchases.rs], [ledger.rs], [ar.rs] and [system.rs]

    A handler is a computation that may change the dispatcher (its store and bus)
    and may return early with a response: the monad [Handler].  It reads the read
    models as they are when it runs; the subscriber that maintains them runs on
    its own ([Services]).  What a handler draws from its surroundings (fresh
    identifiers, the clock) is the record [Surroundings]. *)

From S2P Require Import Prelude Core Events Bus EventStore ReadModel Dispatcher.
From S2P Require Import Auth Products Parties Users Sales Purchasing Invoicing Accounting.
From S2P Require Import Saga Stock Receivables TrialBalance Directories UserDirectory.
From S2P Require Import Services Http.
From S2P Require Inventory.
Import Inventory (InventoryItemId, mkInventoryItemId, InventoryEvent, InventoryItem,
  InventoryCommand, CmdCreateItem, CmdAdjustStock, mkCreateItem, mkAdjustStock).

(** ** Handlers *)

(** A handler over the state [D]: [Err] is an early [return]. *)
Definition Handler (D A : Type) : Type := D -> D * Result Response A.

#[global] Instance Handler_ret {D} : MRet (Handler D) := fun A a d => (d, Ok a).
#[global] Instance Handler_bind {D} : MBind (Handler D) := fun A B f h d =>
  match h d with
  | (d', Ok a) => f a d'
  | (d', Err r) => (d', Err r)
  end.

Definition early {D A} (r : Response) : Handler D A := fun d => (d, Err r).
Definition lift {D A} (r : Result Response A) : Handler D A := fun d => (d, r).

(** The response a request gets. *)
Definition respond {D} (h : Handler D Response) (d : D) : D * Response :=
  let '(d', r) := h d in (d', match r with Ok x => x | Err x => x end).

(** What a request draws: one fresh aggregate identifier, one journal entry
    identifier, and for its [k]-th command a time and the events' identifiers. *)
Record Surroundings := mkSurroundings {
  fresh_aggregate : AggregateId;
  fresh_entry : Uuid;
  utc_now : nat -> DateTime;
  fresh_event : nat -> nat -> Uuid
}.

(** @src crates/api/src/app/routes/common.rs 3-7 [CmdAuth] *)
Record CmdAuth (C : Type) := mkCmdAuth { inner : C; required : list Permission }.
Arguments mkCmdAuth {C}.
Arguments inner {C}.
Arguments required {C}.

(** @src crates/api/src/app/routes/common.rs 10-12 [required_permissions] *)
Definition required_permissions {C} (self : CmdAuth C) : list Permission := required self.

Section Routes.
Context {S B : Type} `{HS : EventStore S Json} `{HB : EventBus B (EventEnvelope Json)}.
Context `{SetOrder} `{Texts} `{Lowercase} `{DebugText}.
Context `{Serde InventoryEvent Json} `{Serde PartyEvent Json} `{Serde ProductEvent Json}
  `{Serde SalesOrderEvent Json} `{Serde InvoiceEvent Json} `{Serde PurchaseOrderEvent Json}
  `{Serde LedgerEvent Json}.

#[local] Abbreviation D := (CommandDispatcher S B).
Implicit Types (tenant : TenantContext) (principal : PrincipalContext) (env : Surroundings)
  (services : AppServices).

(** The segment of a path that is an identifier, or a field of a body that is. *)
Definition parse_id (s msg : string) : Handler D AggregateId :=
  match id_from_str "AggregateId" mkAggregateId s with
  | Ok a => mret a
  | Err _ => early (json_error BAD_REQUEST "invalid_id" msg)
  end.

(** The check that stands before every command.

    @src crates/api/src/app/routes/inventory.rs 50-52 [create_item] *)
Definition authorized {C} tenant principal (command : CmdAuth C) : Handler D unit :=
  match authorize_command tenant principal (required_permissions command) with
  | Err e => early (json_error FORBIDDEN "forbidden" (show_authz_error e))
  | Ok _ => mret tt
  end.

(** [services.dispatch] and the match on its result.

    @src crates/api/src/app/services.rs 674-703 [AppServices::dispatch] *)
Definition services_dispatch {A C E} `{Aggregate A C E} `{Event E} `{Serde E Json}
    tenant_id (aggregate_id : AggregateId) (aggregate_type : string) (command : C)
    (make_aggregate : TenantId -> AggregateId -> A) (new_id : nat -> Uuid)
  : Handler D (list (StoredEvent Json)) :=
  fun d => let '(d', r) :=
    dispatch d tenant_id aggregate_id aggregate_type command make_aggregate new_id in
  (d', map_err dispatch_error_to_response r).

(** Authorise, then dispatch: the tail of every command handler.

    @src crates/api/src/app/routes/inventory.rs 45-63 [create_item] *)
Definition execute {A C E} `{Aggregate A C E} `{Event E} `{Serde E Json}
    env (k : nat) tenant principal (perm : string) (aggregate_id : AggregateId)
    (aggregate_type : string) (command : C) (make : TenantId -> AggregateId -> A)
  : Handler D (list (StoredEvent Json)) :=
  let cmd_auth := mkCmdAuth command [mkPermission perm] in
  _ ← authorized tenant principal cmd_auth;
  services_dispatch (ctx_tenant_id tenant) aggregate_id aggregate_type (inner cmd_auth)
    make (fresh_event env k).

Definition id_committed (a : AggregateId) (committed : list (StoredEvent Json)) : Json :=
  JObj [("id", json_aggregate a); ("events_committed", json_len committed)].

(** The response of a read. *)
Definition found_or {V} (o : option V) (to_json : V -> Json) (missing : string) : Response :=
  match o with
  | Some v => mkResponse OK (to_json v)
  | None => json_error NOT_FOUND "not_found" missing
  end.
Definition items_json {V} (to_json : V -> Json) (l : list V) : Response :=
  mkResponse OK (JObj [("items", JArr (map to_json l))]).

(** ** Inventory *)

Definition make_item (_ : TenantId) (a : AggregateId) : InventoryItem := Inventory.empty (mkInventoryItemId a).

(** @src crates/api/src/app/routes/inventory.rs 29-73 [create_item] *)
Definition create_item env tenant principal (body : CreateItemRequest) : Handler D Response :=
  let agg := fresh_aggregate env in
  committed ← execute env 0 tenant principal "inventory.items.create" agg "inventory.item"
    (CmdCreateItem (mkCreateItem (ctx_tenant_id tenant) (mkInventoryItemId agg) (cir_name body)
                      (utc_now env 0))) make_item;
  mret (mkResponse CREATED (id_committed agg committed)).

(** @src crates/api/src/app/routes/inventory.rs 75-125 [adjust_stock] *)
Definition adjust_stock env tenant principal (id : string) (body : AdjustStockRequest)
  : Handler D Response :=
  agg ← parse_id id "invalid item id";
  committed ← execute env 0 tenant principal "inventory.items.adjust" agg "inventory.item"
    (CmdAdjustStock (mkAdjustStock (ctx_tenant_id tenant) (mkInventoryItemId agg)
                       (asr_delta body) (utc_now env 0))) make_item;
  mret (mkResponse OK (JObj
    [("id", json_aggregate agg); ("events_committed", json_len committed);
     ("stream_version",
       JInt (match last committed with Some e => se_sequence_number e | None => 0 end))])).

(** @src crates/api/src/app/routes/inventory.rs 127-143 [get_item] *)
Definition get_item services tenant (id : string) : Handler D Response :=
  agg ← parse_id id "invalid item id";
  mret (found_or (inventory_get services (ctx_tenant_id tenant) (mkInventoryItemId agg))
          inventory_to_json "item not found").

(** The anomalies among the insights [all] of the sink: those of the tenant and of
    the anomaly detection, with the test [keep].

    @src crates/api/src/app/routes/inventory.rs 145-175 [get_inventory_anomalies] *)
Definition tenant_anomalies (all : list (TenantId * AiResult)) (tenant_id : TenantId)
    (keep : Json -> bool) : list Json :=
  concat (map (fun '(t, r) =>
    if decide (t <> tenant_id) then []
    else if decide ((json_get (air_metadata r) "kind" ≫= json_as_str)
                    <> Some "inventory.anomaly_detection"%string) then []
    else match json_get (air_metadata r) "anomalies" ≫= json_as_array with
         | Some arr => List.filter keep arr
         | None => []
         end) all).

(** @src crates/api/src/app/routes/inventory.rs 145-175 [get_inventory_anomalies] *)
Definition get_inventory_anomalies (all : list (TenantId * AiResult)) tenant
  : Handler D Response :=
  let anomalies := tenant_anomalies all (ctx_tenant_id tenant) (fun _ => true) in
  mret (mkResponse OK (JObj
    [("kind", JStr "insights"); ("insight_type", JStr "inventory.anomalies");
     ("count", json_len anomalies); ("anomalies", JArr anomalies)])).

(** @src crates/api/src/app/routes/inventory.rs 177-218 [get_inventory_item_insights] *)
Definition get_inventory_item_insights (all : list (TenantId * AiResult)) tenant (id : string)
  : Handler D Response :=
  agg ← parse_id id "invalid inventory id";
  let item_id := show_uuid (aggregate_uuid agg) in
  let item_anomalies := tenant_anomalies all (ctx_tenant_id tenant)
    (fun a => bool_decide ((json_get a "item_id" ≫= json_as_str) = Some item_id)) in
  mret (mkResponse OK (JObj
    [("kind", JStr "insights"); ("insight_type", JStr "inventory.item");
     ("item_id", JStr item_id); ("anomalies", JArr item_anomalies)])).

(** ** Products *)

Definition make_product (_ : TenantId) (a : AggregateId) : Product := Products.empty (mkProductId a).

(** @src crates/api/src/app/routes/products.rs 28-73 [create_product] *)
Definition create_product env tenant principal (body : CreateProductRequest)
  : Handler D Response :=
  let agg := fresh_aggregate env in
  committed ← execute env 0 tenant principal "products.create" agg "products.product"
    (CmdCreateProduct (mkCreateProduct (ctx_tenant_id tenant) (mkProductId agg) (cpr_sku body)
                         (cpr_name body) (cpr_pricing body) (utc_now env 0))) make_product;
  mret (mkResponse CREATED (id_committed agg committed)).

(** @src crates/api/src/app/routes/products.rs 75-113 [activate_product] *)
Definition activate_product env tenant principal (id : string) : Handler D Response :=
  agg ← parse_id id "invalid product id";
  committed ← execute env 0 tenant principal "products.activate" agg "products.product"
    (CmdActivateProduct (mkActivateProduct (ctx_tenant_id tenant) (mkProductId agg)
                           (utc_now env 0))) make_product;
  mret (mkResponse OK (id_committed agg committed)).

(** @src crates/api/src/app/routes/products.rs 115-153 [archive_product] *)
Definition archive_product env tenant principal (id : string) : Handler D Response :=
  agg ← parse_id id "invalid product id";
  committed ← execute env 0 tenant principal "products.archive" agg "products.product"
    (CmdArchiveProduct (mkArchiveProduct (ctx_tenant_id tenant) (mkProductId agg)
                          (utc_now env 0))) make_product;
  mret (mkResponse OK (id_committed agg committed)).

(** @src crates/api/src/app/routes/products.rs 155-169 [get_product] *)
Definition get_product services tenant (id : string) : Handler D Response :=
  agg ← parse_id id "invalid product id";
  mret (found_or (products_get services (ctx_tenant_id tenant) (mkProductId agg))
          product_to_json "product not found").

(** @src crates/api/src/app/routes/products.rs 171-181 [list_products] *)
Definition list_products services tenant : Handler D Response :=
  mret (items_json product_to_json (products_list services (ctx_tenant_id tenant))).

(** ** Customers and suppliers

    The two modules have the same private functions, which take the kind and the
    permission, up to the label in the response of a registration. *)

Definition make_party (_ : TenantId) (a : AggregateId) : Party := Parties.empty (mkPartyId a).

(** @src crates/api/src/app/routes/customers.rs 77-125 [register_party] *)
Definition register_party (label : string) env tenant principal (kind : PartyKind)
    (perm : string) (body : RegisterPartyRequest) : Handler D Response :=
  let agg := fresh_aggregate env in
  committed ← execute env 0 tenant principal perm agg "parties.party"
    (CmdRegisterParty (mkRegisterParty (ctx_tenant_id tenant) (mkPartyId agg) kind
                         (rpr_name body) (rpr_contact body) (utc_now env 0))) make_party;
  mret (mkResponse CREATED (JObj
    [("id", json_aggregate agg); ("kind", JStr label);
     ("events_committed", json_len committed)])).

(** The guard on the read model: a party known to be of the other kind is not
    found; one the read model does not know yet passes.

    @src crates/api/src/app/routes/customers.rs 142-147 [update_party] *)
Definition guard_kind services tenant (party : PartyId) (kind : PartyKind) : Handler D unit :=
  match parties_get services (ctx_tenant_id tenant) party with
  | Some rm =>
    if decide (tyrm_kind rm <> kind)
    then early (json_error NOT_FOUND "not_found" "party not found") else mret tt
  | None => mret tt
  end.

(** @src crates/api/src/app/routes/customers.rs 127-177 [update_party] *)
Definition update_party services env tenant principal (id : string) (body : UpdatePartyRequest)
    (kind : PartyKind) (perm : string) : Handler D Response :=
  agg ← parse_id id "invalid party id";
  _ ← guard_kind services tenant (mkPartyId agg) kind;
  committed ← execute env 0 tenant principal perm agg "parties.party"
    (CmdUpdateDetails (mkUpdateDetails (ctx_tenant_id tenant) (mkPartyId agg) (upr_name body)
                         (upr_contact body) (utc_now env 0))) make_party;
  mret (mkResponse OK (id_committed agg committed)).

(** @src crates/api/src/app/routes/customers.rs 179-227 [suspend_party] *)
Definition suspend_party services env tenant principal (id : string) (body : SuspendPartyRequest)
    (kind : PartyKind) (perm : string) : Handler D Response :=
  agg ← parse_id id "invalid party id";
  _ ← guard_kind services tenant (mkPartyId agg) kind;
  committed ← execute env 0 tenant principal perm agg "parties.party"
    (CmdSuspendParty (mkSuspendParty (ctx_tenant_id tenant) (mkPartyId agg) (spr_reason body)
                        (utc_now env 0))) make_party;
  mret (mkResponse OK (id_committed agg committed)).

(** @src crates/api/src/app/routes/customers.rs 229-244 [get_party_by_kind] *)
Definition get_party_by_kind services tenant (id : string) (kind : PartyKind)
  : Handler D Response :=
  agg ← parse_id id "invalid party id";
  mret match parties_get services (ctx_tenant_id tenant) (mkPartyId agg) with
       | Some rm => if decide (tyrm_kind rm = kind) then mkResponse OK (party_to_json rm)
                    else json_error NOT_FOUND "not_found" "party not found"
       | None => json_error NOT_FOUND "not_found" "party not found"
       end.

Definition list_parties services tenant (kind : PartyKind) : Response :=
  items_json party_to_json
    (List.filter (fun p => bool_decide (tyrm_kind p = kind))
       (parties_list services (ctx_tenant_id tenant))).

(** @src crates/api/src/app/routes/customers.rs 27-34 [register_customer] *)
Definition register_customer env tenant principal body : Handler D Response :=
  register_party "customer" env tenant principal Customer "customers.register" body.

(** @src crates/api/src/app/routes/customers.rs 36-44 [update_customer] *)
Definition update_customer services env tenant principal id body : Handler D Response :=
  update_party services env tenant principal id body Customer "customers.update".

(** @src crates/api/src/app/routes/customers.rs 46-54 [suspend_customer] *)
Definition suspend_customer services env tenant principal id body : Handler D Response :=
  suspend_party services env tenant principal id body Customer "customers.suspend".

(** @src crates/api/src/app/routes/customers.rs 56-62 [get_customer] *)
Definition get_customer services tenant id : Handler D Response :=
  get_party_by_kind services tenant id Customer.

(** @src crates/api/src/app/routes/customers.rs 64-75 [list_customers] *)
Definition list_customers services tenant : Handler D Response :=
  mret (list_parties services tenant Customer).

(** @src crates/api/src/app/routes/suppliers.rs 77-125 [register_party] *)
Definition suppliers_register_party env tenant principal kind perm body : Handler D Response :=
  register_party "supplier" env tenant principal kind perm body.

(** @src crates/api/src/app/routes/suppliers.rs 127-176 [update_party] *)
Definition suppliers_update_party services env tenant principal id body kind perm
  : Handler D Response := update_party services env tenant principal id body kind perm.

(** @src crates/api/src/app/routes/suppliers.rs 178-226 [suspend_party] *)
Definition suppliers_suspend_party services env tenant principal id body kind perm
  : Handler D Response := suspend_party services env tenant principal id body kind perm.

(** @src crates/api/src/app/routes/suppliers.rs 228-243 [get_party_by_kind] *)
Definition suppliers_get_party_by_kind services tenant id kind : Handler D Response :=
  get_party_by_kind services tenant id kind.

(** @src crates/api/src/app/routes/suppliers.rs 27-34 [register_supplier] *)
Definition register_supplier env tenant principal body : Handler D Response :=
  suppliers_register_party env tenant principal Supplier "suppliers.register" body.

(** @src crates/api/src/app/routes/suppliers.rs 36-44 [update_supplier] *)
Definition update_supplier services env tenant principal id body : Handler D Response :=
  suppliers_update_party services env tenant principal id body Supplier "suppliers.update".

(** @src crates/api/src/app/routes/suppliers.rs 46-54 [suspend_supplier] *)
Definition suspend_supplier services env tenant principal id body : Handler D Response :=
  suppliers_suspend_party services env tenant principal id body Supplier "suppliers.suspend".

(** @src crates/api/src/app/routes/suppliers.rs 56-62 [get_supplier] *)
Definition get_supplier services tenant id : Handler D Response :=
  suppliers_get_party_by_kind services tenant id Supplier.

(** @src crates/api/src/app/routes/suppliers.rs 64-75 [list_suppliers] *)
Definition list_suppliers services tenant : Handler D Response :=
  mret (list_parties services tenant Supplier).

(** ** Sales orders *)

Definition make_sales_order (_ : TenantId) (a : AggregateId) : SalesOrder := Sales.empty (mkSalesOrderId a).

(** @src crates/api/src/app/routes/sales.rs 38-71 [create_sales_order] *)
Definition create_sales_order env tenant principal : Handler D Response :=
  let agg := fresh_aggregate env in
  committed ← execute env 0 tenant principal "sales.orders.create" agg "sales.order"
    (CmdCreateSalesOrder (mkCreateSalesOrder (ctx_tenant_id tenant) (mkSalesOrderId agg)
                            (utc_now env 0))) make_sales_order;
  mret (mkResponse CREATED (id_committed agg committed)).

(** @src crates/api/src/app/routes/sales.rs 73-120 [add_sales_order_line] *)
Definition add_sales_order_line env tenant principal (id : string)
    (body : CreateSalesOrderLineRequest) : Handler D Response :=
  agg ← parse_id id "invalid order id";
  product_agg ← parse_id (slr_product_id body) "invalid product id";
  committed ← execute env 0 tenant principal "sales.orders.add_line" agg "sales.order"
    (Sales.CmdAddLine (Sales.mkAddLine (ctx_tenant_id tenant) (mkSalesOrderId agg)
       (mkProductId product_agg) (slr_quantity body) (slr_unit_price body) (utc_now env 0)))
    make_sales_order;
  mret (mkResponse OK (id_committed agg committed)).

(** @src crates/api/src/app/routes/sales.rs 122-160 [confirm_sales_order] *)
Definition confirm_sales_order env tenant principal (id : string) : Handler D Response :=
  agg ← parse_id id "invalid order id";
  committed ← execute env 0 tenant principal "sales.orders.confirm" agg "sales.order"
    (CmdConfirmOrder (mkConfirmOrder (ctx_tenant_id tenant) (mkSalesOrderId agg)
                        (utc_now env 0))) make_sales_order;
  mret (mkResponse OK (id_committed agg committed)).

(** @src crates/api/src/app/routes/sales.rs 162-200 [mark_sales_order_invoiced] *)
Definition mark_sales_order_invoiced env tenant principal (id : string) : Handler D Response :=
  agg ← parse_id id "invalid order id";
  committed ← execute env 0 tenant principal "sales.orders.mark_invoiced" agg "sales.order"
    (CmdMarkInvoiced (mkMarkInvoiced (ctx_tenant_id tenant) (mkSalesOrderId agg)
                        (utc_now env 0))) make_sales_order;
  mret (mkResponse OK (id_committed agg committed)).

(** @src crates/api/src/app/routes/sales.rs 202-216 [get_sales_order] *)
Definition get_sales_order services tenant (id : string) : Handler D Response :=
  agg ← parse_id id "invalid order id";
  mret (found_or (sales_get services (ctx_tenant_id tenant) (mkSalesOrderId agg))
          sales_order_to_json "sales order not found").

(** @src crates/api/src/app/routes/sales.rs 218-228 [list_sales_orders] *)
Definition list_sales_orders services tenant : Handler D Response :=
  mret (items_json sales_order_to_json (sales_list services (ctx_tenant_id tenant))).

(** ** Invoices *)

Definition make_invoice (_ : TenantId) (a : AggregateId) : Invoice := Invoicing.empty (mkInvoiceId a).

(** The loop over the lines of the body.

    @src crates/api/src/app/routes/invoices.rs 52-65 [issue_invoice] *)
Fixpoint invoice_lines (sales_order_id : SalesOrderId) (idx : nat)
    (lines : list CreateSalesOrderLineRequest) : Handler D (list InvoiceLine) :=
  match lines with
  | [] => mret []
  | l :: rest =>
    prod_agg ← parse_id (slr_product_id l) "invalid product id";
    ls ← invoice_lines sales_order_id (Datatypes.S idx) rest;
    mret ({| il_line_no := wrapU 32 (wrapU 32 (Z.of_nat idx) + 1);
             il_sales_order_id := sales_order_id; il_product_id := mkProductId prod_agg;
             il_quantity := slr_quantity l; il_unit_price := slr_unit_price l |} :: ls)
  end.

(** @src crates/api/src/app/routes/invoices.rs 32-96 [issue_invoice] *)
Definition issue_invoice env tenant principal (body : IssueInvoiceRequest) : Handler D Response :=
  sales_order_agg ← parse_id (iir_sales_order_id body) "invalid sales_order_id";
  let sales_order_id := mkSalesOrderId sales_order_agg in
  due_date ← match parse_rfc3339 (iir_due_date body) with
             | Ok dt => mret dt
             | Err _ => early (json_error BAD_REQUEST "invalid_due_date" "due_date must be RFC3339")
             end;
  let invoice_agg := fresh_aggregate env in
  lines ← invoice_lines sales_order_id 0 (iir_lines body);
  committed ← execute env 0 tenant principal "invoices.issue" invoice_agg "invoicing.invoice"
    (CmdIssueInvoice (mkIssueInvoice (ctx_tenant_id tenant) (mkInvoiceId invoice_agg)
                        sales_order_id lines due_date (utc_now env 0))) make_invoice;
  mret (mkResponse CREATED (id_committed invoice_agg committed)).

(** @src crates/api/src/app/routes/invoices.rs 98-138 [register_invoice_payment] *)
Definition register_invoice_payment env tenant principal (id : string)
    (body : RegisterPaymentRequest) : Handler D Response :=
  agg ← parse_id id "invalid invoice id";
  committed ← execute env 0 tenant principal "invoices.pay" agg "invoicing.invoice"
    (CmdRegisterPayment (mkRegisterPayment (ctx_tenant_id tenant) (mkInvoiceId agg)
                           (rpq_amount body) (utc_now env 0))) make_invoice;
  mret (mkResponse OK (id_committed agg committed)).

(** @src crates/api/src/app/routes/invoices.rs 140-180 [void_invoice] *)
Definition void_invoice env tenant principal (id : string) (body : VoidInvoiceRequest)
  : Handler D Response :=
  agg ← parse_id id "invalid invoice id";
  committed ← execute env 0 tenant principal "invoices.void" agg "invoicing.invoice"
    (CmdVoidInvoice (mkVoidInvoice (ctx_tenant_id tenant) (mkInvoiceId agg)
                       (vir_reason body) (utc_now env 0))) make_invoice;
  mret (mkResponse OK (id_committed agg committed)).

(** @src crates/api/src/app/routes/invoices.rs 182-196 [get_invoice] *)
Definition get_invoice services tenant (id : string) : Handler D Response :=
  agg ← parse_id id "invalid invoice id";
  mret (found_or (invoices_get services (ctx_tenant_id tenant) (mkInvoiceId agg))
          invoice_to_json "invoice not found").

(** @src crates/api/src/app/routes/invoices.rs 198-208 [list_invoices] *)
Definition list_invoices services tenant : Handler D Response :=
  mret (items_json invoice_to_json (invoices_list services (ctx_tenant_id tenant))).

(** ** Purchase orders *)

Definition make_purchase_order (_ : TenantId) (a : AggregateId) : PurchaseOrder :=
  Purchasing.empty (mkPurchaseOrderId a).

(** The command that adds one line.

    @src crates/api/src/app/routes/purchases.rs 88-111 [create_purchase_order] *)
Definition purchase_line env (k : nat) tenant principal (order_agg prod_agg : AggregateId)
    (l : PurchaseOrderLineRequest) : Handler D (list (StoredEvent Json)) :=
  execute env k tenant principal "purchases.orders.add_line" order_agg "purchasing.order"
    (Purchasing.CmdAddLine (Purchasing.mkAddLine (ctx_tenant_id tenant)
       (mkPurchaseOrderId order_agg) (mkProductId prod_agg) (plr_quantity l) (utc_now env k)))
    make_purchase_order.

(** The loop over the lines: each is authorised, dispatched and committed before
    the next is looked at.

    @src crates/api/src/app/routes/purchases.rs 83-113 [create_purchase_order] *)
Fixpoint add_purchase_lines env (k : nat) tenant principal (order_agg : AggregateId)
    (committed_total : nat) (lines : list PurchaseOrderLineRequest) : Handler D nat :=
  match lines with
  | [] => mret committed_total
  | l :: rest =>
    prod_agg ← parse_id (plr_product_id l) "invalid product id";
    committed ← purchase_line env k tenant principal order_agg prod_agg l;
    add_purchase_lines env (Datatypes.S k) tenant principal order_agg
      (committed_total + length committed) rest
  end.

(** @src crates/api/src/app/routes/purchases.rs 38-123 [create_purchase_order] *)
Definition create_purchase_order env tenant principal (body : CreatePurchaseOrderRequest)
  : Handler D Response :=
  supplier_agg ← parse_id (por_supplier_id body) "invalid supplier_id";
  let order_agg := fresh_aggregate env in
  committed ← execute env 0 tenant principal "purchases.orders.create" order_agg
    "purchasing.order"
    (CmdCreatePurchaseOrder (mkCreatePurchaseOrder (ctx_tenant_id tenant)
       (mkPurchaseOrderId order_agg) (mkPartyId supplier_agg) (utc_now env 0)))
    make_purchase_order;
  committed_total ← add_purchase_lines env 1 tenant principal order_agg (length committed)
                      (por_lines body);
  mret (mkResponse CREATED (JObj [("id", json_aggregate order_agg);
                                  ("events_committed", JInt (Z.of_nat committed_total))])).

(** @src crates/api/src/app/routes/purchases.rs 125-170 [add_purchase_order_line] *)
Definition add_purchase_order_line env tenant principal (id : string)
    (body : PurchaseOrderLineRequest) : Handler D Response :=
  agg ← parse_id id "invalid purchase order id";
  prod_agg ← parse_id (plr_product_id body) "invalid product id";
  committed ← purchase_line env 0 tenant principal agg prod_agg body;
  mret (mkResponse OK (id_committed agg committed)).

(** @src crates/api/src/app/routes/purchases.rs 172-208 [approve_purchase_order] *)
Definition approve_purchase_order env tenant principal (id : string) : Handler D Response :=
  agg ← parse_id id "invalid purchase order id";
  committed ← execute env 0 tenant principal "purchases.orders.approve" agg "purchasing.order"
    (CmdApprove (mkApprove (ctx_tenant_id tenant) (mkPurchaseOrderId agg) (utc_now env 0)))
    make_purchase_order;
  mret (mkResponse OK (id_committed agg committed)).

(** @src crates/api/src/app/routes/purchases.rs 210-246 [receive_purchase_order_goods] *)
Definition receive_purchase_order_goods env tenant principal (id : string)
  : Handler D Response :=
  agg ← parse_id id "invalid purchase order id";
  committed ← execute env 0 tenant principal "purchases.orders.receive" agg "purchasing.order"
    (CmdReceiveGoods (mkReceiveGoods (ctx_tenant_id tenant) (mkPurchaseOrderId agg)
                        (utc_now env 0))) make_purchase_order;
  mret (mkResponse OK (id_committed agg committed)).

(** @src crates/api/src/app/routes/purchases.rs 248-262 [get_purchase_order] *)
Definition get_purchase_order services tenant (id : string) : Handler D Response :=
  agg ← parse_id id "invalid purchase order id";
  mret (found_or (purchases_get services (ctx_tenant_id tenant) (mkPurchaseOrderId agg))
          purchase_order_to_json "purchase order not found").

(** @src crates/api/src/app/routes/purchases.rs 264-274 [list_purchase_orders] *)
Definition list_purchase_orders services tenant : Handler D Response :=
  mret (items_json purchase_order_to_json (purchases_list services (ctx_tenant_id tenant))).

(** ** Ledger, receivables, identity *)

Definition make_ledger (_ : TenantId) (a : AggregateId) : Ledger := Accounting.empty (mkLedgerId a).

(** @src crates/api/src/app/routes/ledger.rs 26-36 [list_ledger_balances] *)
Definition list_ledger_balances services tenant : Handler D Response :=
  mret (items_json ledger_balance_to_json (ledger_balances_list services (ctx_tenant_id tenant))).

(** @src crates/api/src/app/routes/ledger.rs 38-47 [get_ledger_balance] *)
Definition get_ledger_balance services tenant (code : string) : Handler D Response :=
  mret (found_or (ledger_balance_get services (ctx_tenant_id tenant) code)
          ledger_balance_to_json "account not found").

(** [ledger_agg] is [services.default_ledger_id()]: one identifier for all tenants.

    @src crates/api/src/app/routes/ledger.rs 49-100 [post_journal_entry] *)
Definition post_journal_entry env (ledger_agg : AggregateId) tenant principal
    (body : PostJournalEntryRequest) : Handler D Response :=
  if decide (pjr_lines body = [])
  then early (json_error BAD_REQUEST "validation" "journal entry must have lines")
  else
    lines ← lift (to_journal_lines (pjr_lines body));
    committed ← execute env 0 tenant principal "ledger.post" ledger_agg "accounting.ledger"
      (CmdPostJournalEntry (mkPostJournalEntry (ctx_tenant_id tenant) (mkLedgerId ledger_agg)
         (fresh_entry env) lines (utc_now env 0) (pjr_description body))) make_ledger;
    mret (mkResponse OK (JObj [("ledger_id", json_aggregate ledger_agg);
                               ("events_committed", json_len committed)])).

(** @src crates/api/src/app/routes/ar.rs 11-27 [get_ar_aging] *)
Definition get_ar_aging services tenant : Handler D Response :=
  mret (items_json (fun rm => JObj
    [("invoice_id", json_aggregate (invoice_aggregate (age_invoice_id rm)));
     ("status", JStr (to_lowercase (debug_invoice_status (age_status rm))));
     ("total_amount", JInt (age_total_amount rm));
     ("outstanding_amount", JInt (age_outstanding_amount rm));
     ("due_date", json_opt (fun d => JStr (to_rfc3339 d)) (age_due_date rm))])
    (ar_aging_list services (ctx_tenant_id tenant))).

(** @src crates/api/src/app/routes/system.rs 16-25 [whoami] *)
Definition whoami tenant principal : Handler D Response :=
  mret (mkResponse OK (JObj
    [("tenant_id", JStr (show_uuid (tenant_uuid (ctx_tenant_id tenant))));
     ("principal_id", JStr (show_uuid (principal_uuid (ctx_principal_id principal))));
     ("roles", JArr (map (fun r => JStr (role_str r)) (ctx_roles principal)))])).
End Routes.
