(* ===== verification/AdminRoutes.v ===== *)
(** * The administration routes: [api/src/app/routes/admin.rs], [rbac.rs],
    [events.rs] and [event_stream.rs], with the registry of [auth/src/authorize.rs]

    User administration, the inspection of roles, permissions, decisions and
    events, and the live event stream, as handlers of [Routes].  The texts of
    JSON values, Unicode's upper case and the order a [HashMap] hands out its
    values are parameters. *)

From Stdlib Require Import Ascii.
From S2P Require Import Prelude Core Events Bus EventStore ReadModel EventQuery Dispatcher.
From S2P Require Import Auth Users UserDirectory Services Http Routes.

(** ** Requests *)

(** @src crates/api/src/app/routes/admin.rs 34-38 [CreateUserRequest] *)
Record CreateUserRequest := mkCreateUserRequest {
  cur_email : string; cur_display_name : string; cur_initial_roles : option (list string)
}.

(** @src crates/api/src/app/routes/admin.rs 41-43 [AssignRoleRequest] *)
Record AssignRoleRequest := mkAssignRoleRequest { arq_role : string }.

(** @src crates/api/src/app/routes/admin.rs 51-53 [SuspendUserRequest] *)
Record SuspendUserRequest := mkSuspendUserRequest { sur_reason : option string }.

(** @src crates/api/src/app/routes/rbac.rs 32-35 [ExplainAuthzQuery] *)
Record ExplainAuthzQuery := mkExplainAuthzQuery {
  exq_permission : string; exq_user_id : option string
}.

(** The query string of the event listings.

    @src crates/api/src/app/routes/events.rs 30-39 [EventListQuery] *)
Record EventListQuery := mkEventListQuery {
  elq_aggregate_id : option string;
  elq_aggregate_type : option string;
  elq_event_type : option string;
  elq_occurred_after : option DateTime;
  elq_occurred_before : option DateTime;
  elq_limit : option Z;
  elq_offset : option Z
}.

(** ** The registry of roles and permissions *)

(** [str::split] at a character, and [slice::join]. *)
Fixpoint str_split (c : Ascii.ascii) (s : string) : list string :=
  match s with
  | EmptyString => [EmptyString]
  | String a s' =>
    if Ascii.eqb a c then EmptyString :: str_split c s'
    else match str_split c s' with
         | [] => [String a EmptyString]
         | p :: ps => String a p :: ps
         end
  end.
Definition str_join (sep : string) (parts : list string) : string :=
  match parts with
  | [] => ""
  | p :: ps => foldl (fun acc q => acc +:+ sep +:+ q) p ps
  end.

(** @src crates/auth/src/authorize.rs 266-271 [RoleDefinition] *)
Record RoleDefinition := mkRoleDefinition {
  rd_name : string; rd_permissions : list string; rd_description : option string
}.

(** @src crates/auth/src/authorize.rs 274-279 [PermissionDefinition] *)
Record PermissionDefinition := mkPermissionDefinition {
  pd_name : string; pd_description : option string; pd_category : option string
}.

(** @src crates/auth/src/authorize.rs 284-287 [RbacRegistry] *)
Record RbacRegistry := mkRbacRegistry {
  reg_roles : gmap string RoleDefinition;
  reg_permissions : gmap string PermissionDefinition
}.

(** @src crates/auth/src/authorize.rs 333-343 [role_description] *)
Definition role_description (role : string) : option string :=
  if String.eqb role "admin" then Some "Full system administrator with all permissions"%string
  else if String.eqb role "manager"
  then Some "Business manager with broad operational permissions"%string
  else if String.eqb role "accountant"
  then Some "Financial specialist with ledger and invoicing access"%string
  else if String.eqb role "salesperson"
  then Some "Sales staff with customer and order management"%string
  else if String.eqb role "warehouse"
  then Some "Warehouse staff with inventory and receiving access"%string
  else if String.eqb role "user" then Some "Basic user with read-only access"%string
  else None.

(** @src crates/auth/src/authorize.rs 345-373 [permission_description] *)
Definition permission_description (perm : string) : option string :=
  if String.eqb perm "*" then Some "Wildcard permission - grants all permissions"%string else
  let parts := str_split "."%char perm in
  if decide (2 <= length parts) then
    let module := List.nth 0 parts ""%string in
    let action := List.nth (length parts - 1) parts ""%string in
    let resource :=
      if decide (2 < length parts)
      then str_join "." (take (length parts - 2) (drop 1 parts)) else module in
    let action_desc :=
      (if String.eqb action "read" then "View/list"
       else if String.eqb action "write" then "Create/update/delete"
       else if String.eqb action "create" then "Create new"
       else if String.eqb action "list" then "List all"
       else action)%string in
    Some (action_desc +:+ " " +:+ resource +:+ " resources")
  else None.

(** @src crates/auth/src/authorize.rs 375-386 [permission_category] *)
Definition permission_category (perm : string) : option string :=
  if String.eqb perm "*" then Some "system"%string
  else head (str_split "."%char perm).

(** @src crates/auth/src/authorize.rs 299-301 [RbacRegistry::from_role_mapping] *)
Definition known_roles : list string :=
  ["admin"; "manager"; "accountant"; "salesperson"; "warehouse"; "user"]%string.

(** The loop over the known roles.

    @src crates/auth/src/authorize.rs 291-330 [RbacRegistry::from_role_mapping] *)
Definition from_role_mapping (role_permissions : string -> list string) : RbacRegistry :=
  foldl (fun reg role_name =>
    let perms := role_permissions role_name in
    mkRbacRegistry
      (<[role_name := mkRoleDefinition role_name perms (role_description role_name)]>
         (reg_roles reg))
      (foldl (fun permissions perm =>
         match permissions !! perm with
         | Some _ => permissions
         | None => <[perm := mkPermissionDefinition perm (permission_description perm)
                               (permission_category perm)]> permissions
         end) (reg_permissions reg) perms))
    (mkRbacRegistry ∅ ∅) known_roles.

(** Their derived [Serialize]. *)
Definition role_to_json (r : RoleDefinition) : Json :=
  JObj [("name", JStr (rd_name r)); ("permissions", JArr (map JStr (rd_permissions r)));
        ("description", json_opt JStr (rd_description r))].
Definition permission_to_json (p : PermissionDefinition) : Json :=
  JObj [("name", JStr (pd_name p)); ("description", json_opt JStr (pd_description p));
        ("category", json_opt JStr (pd_category p))].

(** ** The permissions of the administration *)

(** @src crates/auth/src/permissions.rs 45-45 [USER_CREATE] *)
Definition USER_CREATE : Permission := mkPermission "admin.users.create".
(** @src crates/auth/src/permissions.rs 48-48 [USER_LIST] *)
Definition USER_LIST : Permission := mkPermission "admin.users.list".
(** @src crates/auth/src/permissions.rs 51-51 [USER_READ] *)
Definition USER_READ : Permission := mkPermission "admin.users.read".
(** @src crates/auth/src/permissions.rs 54-54 [USER_ASSIGN_ROLE] *)
Definition USER_ASSIGN_ROLE : Permission := mkPermission "admin.users.assign_role".
(** @src crates/auth/src/permissions.rs 57-57 [USER_REVOKE_ROLE] *)
Definition USER_REVOKE_ROLE : Permission := mkPermission "admin.users.revoke_role".
(** @src crates/auth/src/permissions.rs 60-60 [USER_SUSPEND] *)
Definition USER_SUSPEND : Permission := mkPermission "admin.users.suspend".
(** @src crates/auth/src/permissions.rs 63-63 [USER_ACTIVATE] *)
Definition USER_ACTIVATE : Permission := mkPermission "admin.users.activate".

Section Admin.
Context {S B : Type} `{HS : EventStore S Json} `{HB : EventBus B (EventEnvelope Json)}.
Context `{HQ : !EventQueries S Json}.
Context `{SetOrder} `{Texts} `{Lowercase} `{DebugText} `{Serde UserEvent Json}.
Context (debug_strs : list string -> string).
Context (role_order : gmap string RoleDefinition -> list RoleDefinition).
Context (permission_order : gmap string PermissionDefinition -> list PermissionDefinition).

#[local] Abbreviation D := (CommandDispatcher S B).
Implicit Types (tenant : TenantContext) (principal : PrincipalContext) (env : Surroundings)
  (services : AppServices).

(** A check without a command: [CmdAuth::<()>]. *)
Definition permitted tenant principal (perm : Permission) : Handler D unit :=
  authorized tenant principal (mkCmdAuth tt [perm]).

(** [str::parse::<Uuid>] of a path segment. *)
Definition parse_uuid_or (s msg : string) : Handler D Uuid :=
  match parse_uuid s with
  | Ok u => mret u
  | Err _ => early (json_error BAD_REQUEST "invalid_id" msg)
  end.

(** ** Users *)

(** The user's stream, created with the tenant and the identifier of the
    aggregate. *)
Definition make_user (t : TenantId) (a : AggregateId) : User :=
  Users.new t (mkUserId (aggregate_uuid a)).

Definition id_str_committed (id : string) (committed : list (StoredEvent Json)) : Json :=
  JObj [("id", JStr id); ("events_committed", json_len committed)].

(** The loop over the initial roles of a non-administrator's request.

    @src crates/api/src/app/routes/admin.rs 94-105 [create_user] *)
Fixpoint check_escalation principal (initial_roles : list Role) : Result Response unit :=
  match initial_roles with
  | [] => Ok tt
  | role :: rest =>
    let actor_has_role :=
      existsb (fun r => String.eqb (role_str r) (role_str role)) (ctx_roles principal) in
    if negb actor_has_role && negb (String.eqb (role_str role) "user")
    then Err (json_error FORBIDDEN "privilege_escalation"
                ("cannot assign role '" +:+ role_str role +:+ "' that you don't have"))
    else check_escalation principal rest
  end.

(** @src crates/api/src/app/routes/admin.rs 75-144 [create_user] *)
Definition create_user env tenant principal (body : CreateUserRequest) : Handler D Response :=
  let agg := fresh_aggregate env in
  let initial_roles := map mkRole (unwrap_or (cur_initial_roles body) []) in
  let actor_is_admin := existsb (fun r => String.eqb (role_str r) "admin") (ctx_roles principal) in
  _ ← if actor_is_admin then mret tt else lift (check_escalation principal initial_roles);
  committed ← execute env 0 tenant principal (perm_str USER_CREATE) agg "auth.user"
    (CmdCreate (mkCreateUser (ctx_tenant_id tenant) (mkUserId (aggregate_uuid agg))
                  (cur_email body) (cur_display_name body) initial_roles (utc_now env 0)))
    make_user;
  mret (mkResponse CREATED (id_committed agg committed)).

(** @src crates/api/src/app/routes/admin.rs 443-454 [user_to_json] *)
Definition user_to_json (user : UserReadModel) : Json :=
  JObj [("id", JStr (show_uuid (user_id_uuid (urm_user_id user))));
        ("tenant_id", JStr (show_uuid (tenant_uuid (urm_tenant_id user))));
        ("email", JStr (urm_email user)); ("display_name", JStr (urm_display_name user));
        ("roles", JArr (map JStr (urm_roles user))); ("status", JStr (urm_status user));
        ("created_at", JStr (to_rfc3339 (urm_created_at user)));
        ("updated_at", JStr (to_rfc3339 (urm_updated_at user)))].

(** @src crates/api/src/app/routes/admin.rs 147-165 [list_users] *)
Definition list_users services tenant principal : Handler D Response :=
  _ ← permitted tenant principal USER_LIST;
  mret (items_json user_to_json (users_list services (ctx_tenant_id tenant))).

(** @src crates/api/src/app/routes/admin.rs 168-192 [get_user] *)
Definition get_user services tenant principal (id : string) : Handler D Response :=
  _ ← permitted tenant principal USER_READ;
  uuid ← parse_uuid_or id "invalid user id";
  mret (found_or (users_get services (ctx_tenant_id tenant) (mkUserId uuid))
          user_to_json "user not found").

(** A command addressed to the user of the path. *)
Definition user_command env tenant principal (id : string) (perm : Permission)
    (command : UserId -> UserCommand) : Handler D Response :=
  uuid ← parse_uuid_or id "invalid user id";
  committed ← execute env 0 tenant principal (perm_str perm) (mkAggregateId uuid) "auth.user"
    (command (mkUserId uuid)) make_user;
  mret (mkResponse OK (id_str_committed id committed)).

(** @src crates/api/src/app/routes/admin.rs 195-246 [assign_role] *)
Definition assign_role env tenant principal (id : string) (body : AssignRoleRequest)
  : Handler D Response :=
  user_command env tenant principal id USER_ASSIGN_ROLE (fun user_id =>
    CmdAssignRole (mkAssignRole (ctx_tenant_id tenant) user_id (mkRole (arq_role body))
                     (ctx_roles principal) (utc_now env 0))).

(** @src crates/api/src/app/routes/admin.rs 250-296 [revoke_role] *)
Definition revoke_role env tenant principal (id role : string) : Handler D Response :=
  user_command env tenant principal id USER_REVOKE_ROLE (fun user_id =>
    CmdRevokeRole (mkRevokeRole (ctx_tenant_id tenant) user_id (mkRole role) (utc_now env 0))).

(** @src crates/api/src/app/routes/admin.rs 299-346 [suspend_user] *)
Definition suspend_user env tenant principal (id : string) (body : SuspendUserRequest)
  : Handler D Response :=
  user_command env tenant principal id USER_SUSPEND (fun user_id =>
    CmdSuspend (mkSuspendUser (ctx_tenant_id tenant) user_id
                  (unwrap_or (sur_reason body) "No reason provided"%string) (utc_now env 0))).

(** @src crates/api/src/app/routes/admin.rs 349-394 [activate_user] *)
Definition activate_user env tenant principal (id : string) : Handler D Response :=
  user_command env tenant principal id USER_ACTIVATE (fun user_id =>
    CmdActivate (mkActivateUser (ctx_tenant_id tenant) user_id (utc_now env 0))).

(** @src crates/api/src/app/routes/admin.rs 399-437 [inspect_permissions] *)
Definition inspect_permissions services tenant principal (id : string) : Handler D Response :=
  _ ← permitted tenant principal USER_READ;
  uuid ← parse_uuid_or id "invalid user id";
  mret (found_or
    (users_effective_permissions services (ctx_tenant_id tenant) (mkUserId uuid)
       default_role_permissions)
    (fun effective => JObj
       [("user_id", JStr (show_uuid (user_id_uuid (ep_user_id effective))));
        ("tenant_id", JStr (show_uuid (tenant_uuid (ep_tenant_id effective))));
        ("roles", JArr (map JStr (ep_roles effective)));
        ("permissions", JArr (map JStr (sort_by String.leb (ep_permissions effective))))])
    "user not found").

(** ** Roles, permissions and decisions *)

#[local] Abbreviation registry := (from_role_mapping default_role_permissions).

(** @src crates/api/src/app/routes/rbac.rs 56-74 [list_roles] *)
Definition list_roles tenant principal : Handler D Response :=
  _ ← permitted tenant principal USER_READ;
  mret (mkResponse OK (JObj [("roles", JArr (map role_to_json (role_order (reg_roles registry))))])).

(** @src crates/api/src/app/routes/rbac.rs 77-97 [get_role] *)
Definition get_role tenant principal (name : string) : Handler D Response :=
  _ ← permitted tenant principal USER_READ;
  mret (found_or (reg_roles registry !! name) (fun r => JObj [("role", role_to_json r)])
          "role not found").

(** @src crates/api/src/app/routes/rbac.rs 100-118 [list_permissions] *)
Definition list_permissions tenant principal : Handler D Response :=
  _ ← permitted tenant principal USER_READ;
  mret (mkResponse OK (JObj
    [("permissions", JArr (map permission_to_json (permission_order (reg_permissions registry))))])).

(** @src crates/api/src/app/routes/rbac.rs 121-143 [get_permission] *)
Definition get_permission tenant principal (name : string) : Handler D Response :=
  _ ← permitted tenant principal USER_READ;
  mret (found_or (reg_permissions registry !! name)
          (fun p => JObj [("permission", permission_to_json p)]) "permission not found").

(** The derived [Serialize] of an explanation.

    @src crates/auth/src/authorize.rs 70-112 [AuthorizationExplanation] *)
Definition explanation_to_json (e : AuthorizationExplanation) : Json :=
  let p := explained e in
  JObj [("required_permission", JStr (required_permission e)); ("granted", JBool (granted e));
        ("reason", JStr (reason e));
        ("principal", JObj
          [("principal_id", JStr (show_uuid (principal_uuid (ps_principal_id p))));
           ("active_tenant_id", JStr (show_uuid (tenant_uuid (ps_active_tenant_id p))));
           ("membership_tenant_id", JStr (show_uuid (tenant_uuid (ps_membership_tenant_id p))));
           ("roles", JArr (map JStr (ps_roles p)));
           ("effective_permissions", JArr (map JStr (Auth.effective_permissions p)));
           ("has_wildcard", JBool (has_wildcard p))]);
        ("denial_reason", json_opt (fun r => JObj
          [("kind", JStr (match denial_kind r with
                          | DeniedTenantMismatch => "tenant_mismatch"
                          | DeniedMissingPermission => "missing_permission"
                          end));
           ("message", JStr (denial_message r));
           ("suggestions", JArr (map JStr (suggestions r)))]) (denial_reason e))].

Definition show_tenant (t : TenantId) : string := show_uuid (tenant_uuid t).

(** @src crates/api/src/app/routes/rbac.rs 146-171 [explain_authorization_decision] *)
Definition explain_authorization_decision tenant principal (query : ExplainAuthzQuery)
  : Handler D Response :=
  let membership :=
    {| tm_tenant_id := ctx_tenant_id tenant; tm_roles := ctx_roles principal;
       tm_permissions := permissions_from_roles (ctx_roles principal) |} in
  let principal_obj :=
    {| principal_id := ctx_principal_id principal; active_tenant_id := ctx_tenant_id tenant;
       membership := membership |} in
  let explanation := explain_authorization show_tenant debug_strs principal_obj
    (mkPermission (exq_permission query)) default_role_permissions in
  mret (mkResponse OK (JObj [("explanation", explanation_to_json explanation)])).

(** @src crates/api/src/app/routes/rbac.rs 174-235 [explain_user_authorization] *)
Definition explain_user_authorization services tenant principal (user_id_str : string)
    (query : ExplainAuthzQuery) : Handler D Response :=
  _ ← permitted tenant principal USER_READ;
  uuid ← parse_uuid_or user_id_str "invalid user id";
  let user_id := mkUserId uuid in
  user ← lift (ok_or (users_get services (ctx_tenant_id tenant) user_id)
                 (json_error NOT_FOUND "not_found" "user not found"));
  effective ← lift (ok_or (users_effective_permissions services (ctx_tenant_id tenant) user_id
                             default_role_permissions)
                      (json_error NOT_FOUND "not_found" "user not found"));
  let membership :=
    {| tm_tenant_id := ctx_tenant_id tenant; tm_roles := map mkRole (ep_roles effective);
       tm_permissions := map mkPermission (ep_permissions effective) |} in
  let principal_obj :=
    {| principal_id := mkPrincipalId (user_id_uuid (urm_user_id user));
       active_tenant_id := ctx_tenant_id tenant; membership := membership |} in
  let explanation := explain_authorization show_tenant debug_strs principal_obj
    (mkPermission (exq_permission query)) default_role_permissions in
  mret (mkResponse OK (JObj
    [("user_id", JStr (show_uuid (user_id_uuid user_id))); ("user_email", JStr (urm_email user));
     ("explanation", explanation_to_json explanation)])).

(** ** Events *)

(** @src crates/api/src/app/routes/events.rs 220-232 [event_to_json] *)
Definition event_to_json (event : StoredEvent Json) : Json :=
  JObj [("event_id", JStr (show_uuid (se_event_id event)));
        ("tenant_id", JStr (show_uuid (tenant_uuid (se_tenant_id event))));
        ("aggregate_id", json_aggregate (se_aggregate_id event));
        ("aggregate_type", JStr (se_aggregate_type event));
        ("sequence_number", JInt (se_sequence_number event));
        ("event_type", JStr (se_event_type event));
        ("event_version", JInt (se_event_version event));
        ("occurred_at", JStr (to_rfc3339 (se_occurred_at event)));
        ("payload", se_payload event)].

Definition events_page (result : EventQueryResult Json) : list (string * Json) :=
  [("events", JArr (map event_to_json (qr_events result))); ("total", JInt (qr_total result));
   ("pagination", JObj [("limit", JInt (limit (qr_pagination result)));
                        ("offset", JInt (offset (qr_pagination result)))]);
   ("has_more", JBool (qr_has_more result))].

Definition query_failed (what : string) (e : EventStoreError) : Response :=
  json_error INTERNAL_SERVER_ERROR "query_failed"
    ("Failed to query " +:+ what +:+ ": " +:+ show_store_error e).

(** What a query of the store answers. *)
Definition query_store {A} (q : S -> Result EventStoreError A) (what : string) : Handler D A :=
  fun d => (d, map_err (query_failed what) (q (d_store d))).

(** An aggregate identifier that does not parse filters nothing.

    @src crates/api/src/app/routes/events.rs 67-122 [list_events] *)
Definition list_events tenant principal (query : EventListQuery) : Handler D Response :=
  _ ← permitted tenant principal USER_READ;
  let aggregate_id :=
    s ← elq_aggregate_id query;
    match parse_uuid s with Ok u => Some (mkAggregateId u) | Err _ => None end in
  let filter :=
    {| flt_aggregate_id := aggregate_id; flt_aggregate_type := elq_aggregate_type query;
       flt_event_type := elq_event_type query; flt_occurred_after := elq_occurred_after query;
       flt_occurred_before := elq_occurred_before query |} in
  let pagination := pagination_new (elq_limit query) (elq_offset query) in
  result ← query_store (fun s => q_events s (ctx_tenant_id tenant) filter pagination) "events";
  mret (mkResponse OK (JObj (events_page result))).

(** @src crates/api/src/app/routes/events.rs 127-177 [get_aggregate_events] *)
Definition get_aggregate_events tenant principal (aggregate_id_str : string)
    (query : EventListQuery) : Handler D Response :=
  _ ← permitted tenant principal USER_READ;
  uuid ← parse_uuid_or aggregate_id_str "invalid aggregate id";
  let pagination := pagination_new (elq_limit query) (elq_offset query) in
  result ← query_store (fun s => q_aggregate s (ctx_tenant_id tenant) (mkAggregateId uuid)
                                   (Some pagination)) "events";
  mret (mkResponse OK (JObj (("aggregate_id", JStr aggregate_id_str) :: events_page result))).

(** @src crates/api/src/app/routes/events.rs 182-214 [get_event] *)
Definition get_event tenant principal (event_id_str : string) : Handler D Response :=
  _ ← permitted tenant principal USER_READ;
  uuid ← parse_uuid_or event_id_str "invalid event id";
  event ← query_store (fun s => q_event s (ctx_tenant_id tenant) uuid) "event";
  mret (found_or event event_to_json "event not found").
End Admin.
