(* ===== verification/EventStream.v ===== *)
(** * The live event stream: [api/src/app/routes/event_stream.rs]

    The blocking task behind the server-sent events of [/admin/stream/events]: one
    turn per return of [recv_timeout].  A task that panics ends, like one that
    breaks out of its loop, and its channel with it: nothing is sent afterwards.
    [json_text] is the printer of JSON values; [first_is_uppercase] Unicode's
    upper case, asked of the first character of a string. *)

From S2P Require Import Prelude Core Events Bus EventStore Dispatcher.
From S2P Require Import Auth Http Routes AdminRoutes.

Class StreamTexts := {
  json_text : Json -> string;
  first_is_uppercase : string -> bool
}.

(** [str::is_char_boundary]: not before a continuation byte of UTF-8. *)
Definition is_char_boundary (s : string) (n : nat) : bool :=
  match String.get n s with
  | Some a => negb ((128 <=? Ascii.N_of_ascii a) && (Ascii.N_of_ascii a <? 192))%N
  | None => (n =? String.length s)%nat
  end.

Record SseEvent := mkSseEvent { sse_event : string; sse_data : string }.

(** What [recv_timeout] returns. *)
Inductive Received : Type :=
| Envelope (env : EventEnvelope Json)
| Timeout
| Disconnected.

(** A turn: what was received, the two clocks when it was, and whether the
    browser's end of the channel is still there. *)
Record Turn := mkTurn {
  turn_received : Received;
  turn_utc : DateTime;
  turn_instant : Z;
  turn_listening : bool
}.

Record StreamTask := mkStreamTask {
  last_heartbeat : Z;
  sent : list SseEvent;
  running : bool
}.

Section Stream.
Context `{Texts} `{StreamTexts}.
Implicit Types (self : StreamTask) (env : EventEnvelope Json).

(** [None] is the panic of a slice that ends within a character.

    @src crates/api/src/app/routes/event_stream.rs 165-172 [truncate_payload] *)
Definition truncate_payload (payload : Json) : option string :=
  let json_str := json_text payload in
  if decide (500 < String.length json_str) then
    if is_char_boundary json_str 500
    then Some (String.substring 0 500 json_str +:+ "...") else None
  else Some json_str.

(** @src crates/api/src/app/routes/event_stream.rs 176-195 [extract_event_type] *)
Definition extract_event_type (payload : Json) : option string :=
  match payload with
  | JObj fields =>
    match json_get payload "event_type" ≫= json_as_str with
    | Some s => Some s
    | None =>
      match fields with
      | [(key, _)] => if first_is_uppercase key then Some key else None
      | _ => None
      end
    end
  | _ => None
  end.

(** @src crates/api/src/app/routes/event_stream.rs 103-122 [stream_events] *)
Definition event_data env (now : DateTime) : option Json :=
  preview ← truncate_payload (env_payload env);
  Some (JObj
    ([("event_id", JStr (show_uuid (env_event_id env)));
      ("tenant_id", JStr (show_uuid (tenant_uuid (env_tenant_id env))));
      ("aggregate_id", json_aggregate (env_aggregate_id env));
      ("aggregate_type", JStr (env_aggregate_type env));
      ("sequence_number", JInt (env_sequence_number env));
      ("occurred_at", JStr (to_rfc3339 now));
      ("payload_preview", JStr preview)]
     ++ match extract_event_type (env_payload env) with
        | Some evt_type => [("event_type"%string, JStr evt_type)]
        | None => []
        end)).

Definition stop self : StreamTask :=
  {| last_heartbeat := last_heartbeat self; sent := sent self; running := false |}.
(** [tx.send(..)], and the heartbeat's clock if it went through. *)
Definition send_event self (turn : Turn) (ev : SseEvent) : StreamTask :=
  if turn_listening turn
  then {| last_heartbeat := turn_instant turn; sent := sent self ++ [ev]; running := true |}
  else stop self.

(** @src crates/api/src/app/routes/event_stream.rs 95-151 [stream_events] *)
Definition stream_turn (tenant_id : TenantId) self (turn : Turn) : StreamTask :=
  if negb (running self) then self else
  match turn_received turn with
  | Envelope env =>
    if decide (env_tenant_id env <> tenant_id) then self else
    match event_data env (turn_utc turn) with
    | None => stop self
    | Some event_data => send_event self turn (mkSseEvent "event" (json_text event_data))
    end
  | Timeout =>
    if decide (turn_instant turn - last_heartbeat self > 15 * 1000000000)%Z
    then send_event self turn (mkSseEvent "heartbeat" "{}") else self
  | Disconnected => stop self
  end.

(** @src crates/api/src/app/routes/event_stream.rs 73-158 [stream_events] *)
Definition stream_run (tenant_id : TenantId) (start : Z) (turns : list Turn) : StreamTask :=
  foldl (stream_turn tenant_id) (mkStreamTask start [] true) turns.

Lemma stopped_stays tenant_id turns : forall self,
  running self = false -> foldl (stream_turn tenant_id) self turns = self.
Proof.
  induction turns as [|turn turns IH]; intros self Hr; [done|]. simpl.
  unfold stream_turn at 2. rewrite Hr. simpl. by apply IH.
Qed.

(** What the tenant's envelopes among the turns look like. *)
Definition shown_events (tenant_id : TenantId) (turns : list Turn) : list SseEvent :=
  omap (fun turn =>
    match turn_received turn with
    | Envelope env =>
      if decide (env_tenant_id env = tenant_id)
      then mkSseEvent "event" ∘ json_text <$> event_data env (turn_utc turn) else None
    | _ => None
    end) turns.

Definition is_event (e : SseEvent) : bool := String.eqb (sse_event e) "event".

(** A turn that does not end the task: the browser listens, and the payload of the
    tenant's envelope can be cut. *)
Definition goes_on (tenant_id : TenantId) (turn : Turn) : Prop :=
  turn_listening turn = true
  /\ match turn_received turn with
     | Envelope env => env_tenant_id env = tenant_id -> is_Some (truncate_payload (env_payload env))
     | Timeout => True
     | Disconnected => False
     end.

Lemma turn_shows tenant_id self turn :
  running self = true -> goes_on tenant_id turn ->
  running (stream_turn tenant_id self turn) = true
  /\ List.filter is_event (sent (stream_turn tenant_id self turn))
     = List.filter is_event (sent self) ++ shown_events tenant_id [turn].
Proof.
  intros Hr [Hl Hg]. unfold stream_turn, shown_events, send_event. rewrite Hr, Hl. simpl.
  destruct (turn_received turn) as [env| |]; [..|done].
  - destruct (decide (env_tenant_id env = tenant_id)) as [E|E].
    + rewrite decide_False by auto. destruct (Hg E) as [p Hp].
      unfold event_data. rewrite Hp. simpl. split; [done|]. by rewrite List.filter_app.
    + rewrite decide_True by done. by rewrite app_nil_r.
  - case_decide; simpl; [|by rewrite app_nil_r].
    split; [done|]. rewrite List.filter_app. simpl. by rewrite app_nil_r.
Qed.

Lemma shown_app tenant_id l l' :
  shown_events tenant_id (l ++ l') = shown_events tenant_id l ++ shown_events tenant_id l'.
Proof. apply omap_app. Qed.

Lemma run_shows tenant_id start turns :
  Forall (goes_on tenant_id) turns ->
  running (stream_run tenant_id start turns) = true
  /\ List.filter is_event (sent (stream_run tenant_id start turns)) = shown_events tenant_id turns.
Proof.
  induction turns as [|turn turns IH] using rev_ind; [done|].
  rewrite Forall_app, Forall_singleton. intros [Hf Hg]. destruct (IH Hf) as [Hr Hs].
  unfold stream_run in *. rewrite foldl_snoc.
  destruct (turn_shows tenant_id _ turn Hr Hg) as [Hr' Hs']. split; [done|].
  by rewrite Hs', Hs, shown_app.
Qed.

(** The event stream shows the tenant's events until one cannot be cut: as long
    as every turn goes on, the browser receives exactly the tenant's envelopes, in
    the order of the bus; the first envelope whose payload has a character across
    the 500th byte of its text ends the stream, and nothing follows it, whatever
    is published. *)
Theorem event_stream_dies_at_wide_character (tenant_id : TenantId) (start : Z)
    (before after : list Turn) (env : EventEnvelope Json) (turn : Turn) :
  Forall (goes_on tenant_id) before ->
  turn_received turn = Envelope env -> env_tenant_id env = tenant_id ->
  truncate_payload (env_payload env) = None ->
  List.filter is_event (sent (stream_run tenant_id start (before ++ turn :: after)))
  = shown_events tenant_id before.
Proof.
  intros Hb Ht He Hp. destruct (run_shows tenant_id start before Hb) as [Hr Hs].
  rewrite <- Hs. unfold stream_run in *. rewrite foldl_app. simpl.
  set (self := foldl (stream_turn tenant_id) _ before) in *.
  assert (stream_turn tenant_id self turn = stop self) as ->.
  { unfold stream_turn. rewrite Hr, Ht. simpl. rewrite decide_False by auto.
    unfold event_data. by rewrite Hp. }
  by rewrite stopped_stays.
Qed.
End Stream.

(** Who may open a stream, and the tenant it is for; a refusal is plain text.

    @src crates/api/src/app/routes/event_stream.rs 53-71 [stream_events] *)
Definition stream_events {D} `{SetOrder} (tenant : TenantContext) (principal : PrincipalContext)
  : Handler D TenantId :=
  match authorize_command tenant principal
          (required_permissions (mkCmdAuth tt [AdminRoutes.USER_READ])) with
  | Err e => early (mkResponse FORBIDDEN (JStr ("Forbidden: " +:+ show_authz_error e)))
  | Ok _ => mret (ctx_tenant_id tenant)
  end.

(** A payload of 502 bytes whose 500th and 501st are one character. *)
Module Sample.
Import SampleTexts.

#[local] Instance texts : StreamTexts := {|
  json_text j := match j with JStr s => s | _ => ""%string end;
  first_is_uppercase _ := false
|}.

Fixpoint repeat_a (n : nat) (tail : string) : string :=
  match n with 0 => tail | S n => "a" +:+ repeat_a n tail end.
Definition wide : Json := JStr (repeat_a 499 "é!").
Definition ending (payload : Json) : Turn :=
  mkTurn (Envelope (mkEnvelope 1%N (mkTenantId 1) (mkAggregateId 2) "parties.party" 1 payload))
    0 0 true.

Example wide_payload_ends_stream :
  map (fun t => length (sent (stream_run (mkTenantId 1) 0 t)))
    [[ending (JStr "x"); ending (JStr "y")]; [ending (JStr "x"); ending wide; ending (JStr "y")]]
  = [2; 1]
  /\ running (stream_run (mkTenantId 1) 0 [ending wide]) = false.
Proof. split; vm_compute; reflexivity. Qed.
End Sample.
