(* ===== verification/Api.v ===== *)
(** * The API as a whole: [api/src/app/mod.rs], [routes/mod.rs] and the middleware

    A request is a command or a query of the routes ([Routes], [AdminRoutes]), one of
    the replay's ([Replay]), or opens one of the two streams of server-sent events
    ([Services], [EventStream]); the middleware ([Auth]) stands before all of them.
    [/health], which has no guard and no state, is left out.  The theorems: a request
    writes only the stream it addresses, in its own tenant and with the permission
    its route asks for; the response of a command tells what was stored; and what
    a tenant is answered or streamed depends on no other tenant's read models,
    except for the jobs of the replays, which have no tenant. *)

From S2P Require Import Prelude Core Events Bus EventStore ReadModel EventQuery Dispatcher.
From S2P Require Import Auth Products Parties Users Sales Purchasing Invoicing Accounting.
From S2P Require Import Saga Stock Receivables TrialBalance Directories UserDirectory.
From S2P Require Import Services Http Routes AdminRoutes.
From S2P Require Inventory Replay EventStream.
Import Inventory (InventoryItemId, mkInventoryItemId, InventoryEvent).

(** The routes that change state. *)
Inductive Command : Type :=
| CreateItem (body : CreateItemRequest)
| AdjustStock (id : string) (body : AdjustStockRequest)
| CreateProduct (body : CreateProductRequest)
| ActivateProduct (id : string)
| ArchiveProduct (id : string)
| RegisterCustomer (body : RegisterPartyRequest)
| UpdateCustomer (id : string) (body : UpdatePartyRequest)
| SuspendCustomer (id : string) (body : SuspendPartyRequest)
| RegisterSupplier (body : RegisterPartyRequest)
| UpdateSupplier (id : string) (body : UpdatePartyRequest)
| SuspendSupplier (id : string) (body : SuspendPartyRequest)
| CreateSalesOrder
| AddSalesOrderLine (id : string) (body : CreateSalesOrderLineRequest)
| ConfirmSalesOrder (id : string)
| MarkSalesOrderInvoiced (id : string)
| IssueInvoice (body : IssueInvoiceRequest)
| RegisterInvoicePayment (id : string) (body : RegisterPaymentRequest)
| VoidInvoice (id : string) (body : VoidInvoiceRequest)
| CreatePurchaseOrder (body : CreatePurchaseOrderRequest)
| AddPurchaseOrderLine (id : string) (body : PurchaseOrderLineRequest)
| ApprovePurchaseOrder (id : string)
| ReceivePurchaseOrderGoods (id : string)
| PostJournalEntry (body : PostJournalEntryRequest)
| CreateUser (body : CreateUserRequest)
| AssignRole (id : string) (body : AssignRoleRequest)
| RevokeRole (id role : string)
| SuspendUser (id : string) (body : SuspendUserRequest)
| ActivateUser (id : string).

(** The routes that only read. *)
Inductive Query : Type :=
| WhoAmI
| GetItem (id : string) | GetInventoryAnomalies | GetItemInsights (id : string)
| GetProduct (id : string) | ListProducts
| GetCustomer (id : string) | ListCustomers
| GetSupplier (id : string) | ListSuppliers
| GetSalesOrder (id : string) | ListSalesOrders
| GetInvoice (id : string) | ListInvoices
| GetPurchaseOrder (id : string) | ListPurchaseOrders
| ListLedgerBalances | GetLedgerBalance (code : string)
| GetArAging
| ListUsers | GetUser (id : string) | InspectPermissions (id : string)
| ListRoles | GetRole (name : string) | ListPermissions | GetPermission (name : string)
| ExplainDecision (query : ExplainAuthzQuery)
| ExplainUser (user_id : string) (query : ExplainAuthzQuery)
| ListEvents (query : EventListQuery)
| GetAggregateEvents (aggregate_id : string) (query : EventListQuery)
| GetEvent (event_id : string).

(** The routes of [/admin/replay], with the segments and the query of their paths;
    [job_id] of the first is [Uuid::now_v7()]. *)
Inductive ReplayRequest : Type :=
| StartReplay (projection_name : string) (dry_run : option bool) (job_id : Uuid)
| StartAllReplays
| GetReplayStatus (job_id : string)
| CancelReplay (job_id : string)
| ListReplays.

Inductive Request : Type :=
| Write (c : Command)
| Read (q : Query)
| Replays (r : ReplayRequest)
| OpenStream
| OpenEventStream.

(** The permission a command's route asks for. *)
Definition permission (c : Command) : string :=
  match c with
  | CreateItem _ => "inventory.items.create"
  | AdjustStock _ _ => "inventory.items.adjust"
  | CreateProduct _ => "products.create"
  | ActivateProduct _ => "products.activate"
  | ArchiveProduct _ => "products.archive"
  | RegisterCustomer _ => "customers.register"
  | UpdateCustomer _ _ => "customers.update"
  | SuspendCustomer _ _ => "customers.suspend"
  | RegisterSupplier _ => "suppliers.register"
  | UpdateSupplier _ _ => "suppliers.update"
  | SuspendSupplier _ _ => "suppliers.suspend"
  | CreateSalesOrder => "sales.orders.create"
  | AddSalesOrderLine _ _ => "sales.orders.add_line"
  | ConfirmSalesOrder _ => "sales.orders.confirm"
  | MarkSalesOrderInvoiced _ => "sales.orders.mark_invoiced"
  | IssueInvoice _ => "invoices.issue"
  | RegisterInvoicePayment _ _ => "invoices.pay"
  | VoidInvoice _ _ => "invoices.void"
  | CreatePurchaseOrder _ => "purchases.orders.create"
  | AddPurchaseOrderLine _ _ => "purchases.orders.add_line"
  | ApprovePurchaseOrder _ => "purchases.orders.approve"
  | ReceivePurchaseOrderGoods _ => "purchases.orders.receive"
  | PostJournalEntry _ => "ledger.post"
  | CreateUser _ => "admin.users.create"
  | AssignRole _ _ => "admin.users.assign_role"
  | RevokeRole _ _ => "admin.users.revoke_role"
  | SuspendUser _ _ => "admin.users.suspend"
  | ActivateUser _ => "admin.users.activate"
  end.

Section Api.
Context {S B : Type} `{HS : EventStore S Json} `{HB : EventBus B (EventEnvelope Json)}.
Context `{HQ : !EventQueries S Json}.
Context `{SetOrder} `{Texts} `{Lowercase} `{DebugText}.
Context `{Serde InventoryEvent Json} `{Serde PartyEvent Json} `{Serde ProductEvent Json}
  `{Serde SalesOrderEvent Json} `{Serde InvoiceEvent Json} `{Serde PurchaseOrderEvent Json}
  `{Serde LedgerEvent Json} `{Serde UserEvent Json}.
Context (debug_strs : list string -> string).
Context (role_order : gmap string RoleDefinition -> list RoleDefinition).
Context (permission_order : gmap string PermissionDefinition -> list PermissionDefinition).
(** [services.default_ledger_id()]. *)
Context (default_ledger_id : AggregateId).

#[local] Abbreviation D := (CommandDispatcher S B).
Implicit Types (env : Surroundings) (services : AppServices) (tenant : TenantContext)
  (principal : PrincipalContext) (insights : list (TenantId * AiResult)).

Definition perform env services tenant principal (c : Command) : Handler D Response :=
  match c with
  | CreateItem body => create_item env tenant principal body
  | AdjustStock id body => adjust_stock env tenant principal id body
  | CreateProduct body => create_product env tenant principal body
  | ActivateProduct id => activate_product env tenant principal id
  | ArchiveProduct id => archive_product env tenant principal id
  | RegisterCustomer body => register_customer env tenant principal body
  | UpdateCustomer id body => update_customer services env tenant principal id body
  | SuspendCustomer id body => suspend_customer services env tenant principal id body
  | RegisterSupplier body => register_supplier env tenant principal body
  | UpdateSupplier id body => update_supplier services env tenant principal id body
  | SuspendSupplier id body => suspend_supplier services env tenant principal id body
  | CreateSalesOrder => create_sales_order env tenant principal
  | AddSalesOrderLine id body => add_sales_order_line env tenant principal id body
  | ConfirmSalesOrder id => confirm_sales_order env tenant principal id
  | MarkSalesOrderInvoiced id => mark_sales_order_invoiced env tenant principal id
  | IssueInvoice body => issue_invoice env tenant principal body
  | RegisterInvoicePayment id body => register_invoice_payment env tenant principal id body
  | VoidInvoice id body => void_invoice env tenant principal id body
  | CreatePurchaseOrder body => create_purchase_order env tenant principal body
  | AddPurchaseOrderLine id body => add_purchase_order_line env tenant principal id body
  | ApprovePurchaseOrder id => approve_purchase_order env tenant principal id
  | ReceivePurchaseOrderGoods id => receive_purchase_order_goods env tenant principal id
  | PostJournalEntry body => post_journal_entry env default_ledger_id tenant principal body
  | CreateUser body => create_user env tenant principal body
  | AssignRole id body => assign_role env tenant principal id body
  | RevokeRole id role => revoke_role env tenant principal id role
  | SuspendUser id body => suspend_user env tenant principal id body
  | ActivateUser id => activate_user env tenant principal id
  end.

Definition answer services insights tenant principal (q : Query) : Handler D Response :=
  match q with
  | WhoAmI => whoami tenant principal
  | GetItem id => get_item services tenant id
  | GetInventoryAnomalies => get_inventory_anomalies insights tenant
  | GetItemInsights id => get_inventory_item_insights insights tenant id
  | GetProduct id => get_product services tenant id
  | ListProducts => list_products services tenant
  | GetCustomer id => get_customer services tenant id
  | ListCustomers => list_customers services tenant
  | GetSupplier id => get_supplier services tenant id
  | ListSuppliers => list_suppliers services tenant
  | GetSalesOrder id => get_sales_order services tenant id
  | ListSalesOrders => list_sales_orders services tenant
  | GetInvoice id => get_invoice services tenant id
  | ListInvoices => list_invoices services tenant
  | GetPurchaseOrder id => get_purchase_order services tenant id
  | ListPurchaseOrders => list_purchase_orders services tenant
  | ListLedgerBalances => list_ledger_balances services tenant
  | GetLedgerBalance code => get_ledger_balance services tenant code
  | GetArAging => get_ar_aging services tenant
  | ListUsers => list_users services tenant principal
  | GetUser id => get_user services tenant principal id
  | InspectPermissions id => inspect_permissions services tenant principal id
  | ListRoles => list_roles role_order tenant principal
  | GetRole name => get_role tenant principal name
  | ListPermissions => list_permissions permission_order tenant principal
  | GetPermission name => get_permission tenant principal name
  | ExplainDecision query => explain_authorization_decision debug_strs tenant principal query
  | ExplainUser id query => explain_user_authorization debug_strs services tenant principal id query
  | ListEvents query => list_events tenant principal query
  | GetAggregateEvents id query => get_aggregate_events tenant principal id query
  | GetEvent id => get_event tenant principal id
  end.

(** The parameters of the replays, and the order of the job table's keys. *)
Context (fresh_order : InvoiceEvent -> SalesOrderId).
Context (fresh_supplier : PurchaseOrderEvent -> PartyId).
Context (empty_object : Json) (dummy_ids : Uuid * Uuid).
Context (job_order : Replay.ReplayJobStore -> list Uuid).
Implicit Types (jobs : Replay.ReplayJobStore).

(** What the client gets: a response; that of a replay route, with the task it
    started; or an open stream, of [tenant_sse_stream] or of [EventStream], for a
    tenant.  The task behind a stream subscribes to the bus by itself, later. *)
Inductive Reply : Type :=
| Answered (resp : Response)
| ReplayAnswered (resp : Replay.ReplayResponse)
    (started : option (Replay.ReplayConfig (J:=Json) * bool))
| Streaming (tenant_id : TenantId)
| StreamingEvents (tenant_id : TenantId).

Definition job_id_of (segment : string) : option Uuid :=
  match parse_uuid segment with Ok u => Some u | Err _ => None end.

(** @src crates/api/src/app/routes/replay.rs 83-90 [router] *)
Definition serve_replay jobs tenant principal (r : ReplayRequest) : Replay.ReplayJobStore * Reply :=
  match r with
  | StartReplay name dry_run job_id =>
    let '(jobs, resp, started) := Replay.start_replay fresh_order fresh_supplier empty_object
      dummy_ids jobs tenant principal name dry_run job_id in
    (jobs, ReplayAnswered resp started)
  | StartAllReplays => (jobs, ReplayAnswered (Replay.start_all_replays tenant principal) None)
  | GetReplayStatus id =>
    (jobs, ReplayAnswered (Replay.get_replay_status jobs tenant principal (job_id_of id)) None)
  | CancelReplay id =>
    let '(jobs, resp) := Replay.cancel_replay jobs tenant principal (job_id_of id) in
    (jobs, ReplayAnswered resp None)
  | ListReplays => (jobs, ReplayAnswered (Replay.list_replays job_order jobs tenant principal) None)
  end.

(** The tenant-scoped routes.

    @src crates/api/src/app/routes/mod.rs 21-39 [router] *)
Definition serve env services insights jobs tenant principal (req : Request) (d : D)
  : D * Replay.ReplayJobStore * Reply :=
  match req with
  | Write c =>
    let '(d, resp) := respond (perform env services tenant principal c) d in
    (d, jobs, Answered resp)
  | Read q =>
    let '(d, resp) := respond (answer services insights tenant principal q) d in
    (d, jobs, Answered resp)
  | Replays r =>
    let '(jobs, reply) := serve_replay jobs tenant principal r in (d, jobs, reply)
  | OpenStream => (d, jobs, Streaming (ctx_tenant_id tenant))
  | OpenEventStream =>
    let '(d, r) := EventStream.stream_events tenant principal d in
    (d, jobs, match r with Ok t => StreamingEvents t | Err resp => Answered resp end)
  end.

(** A request with its [Authorization] header; an error of the middleware is a
    bare status.

    @src crates/api/src/app/mod.rs 22-42 [build_app] *)
Definition http_request {HeaderValue : Type} (to_str : HeaderValue -> option string)
    (decode : Decoder) (jwt : Hs256JwtValidator) env services insights jobs
    (authorization : option HeaderValue) (now : DateTime) (req : Request) (d : D)
  : D * Replay.ReplayJobStore * Reply :=
  match auth_middleware to_str decode jwt authorization now with
  | Err status => (d, jobs, Answered (mkResponse status JNull))
  | Ok (tenant, principal) => serve env services insights jobs tenant principal req d
  end.

(** The aggregate a command addresses; [None] when its identifier does not parse. *)
Definition addressed_id (s : string) : option AggregateId :=
  match parse_uuid s with Ok u => Some (mkAggregateId u) | Err _ => None end.
Definition target env (c : Command) : option AggregateId :=
  match c with
  | CreateItem _ | CreateProduct _ | RegisterCustomer _ | RegisterSupplier _ | CreateSalesOrder
  | IssueInvoice _ | CreatePurchaseOrder _ | CreateUser _ => Some (fresh_aggregate env)
  | PostJournalEntry _ => Some default_ledger_id
  | AdjustStock id _ | ActivateProduct id | ArchiveProduct id
  | UpdateCustomer id _ | SuspendCustomer id _ | UpdateSupplier id _ | SuspendSupplier id _
  | AddSalesOrderLine id _ | ConfirmSalesOrder id | MarkSalesOrderInvoiced id
  | RegisterInvoicePayment id _ | VoidInvoice id _
  | AddPurchaseOrderLine id _ | ApprovePurchaseOrder id | ReceivePurchaseOrderGoods id
  | AssignRole id _ | RevokeRole id _ | SuspendUser id _ | ActivateUser id => addressed_id id
  end.
End Api.

(** ** A logic for handlers *)
Section Logic.
Context {S B : Type} `{HS : EventStore S Json} `{HSL : !EventStoreLaws S}
  `{HB : EventBus B (EventEnvelope Json)}.
#[local] Abbreviation D := (CommandDispatcher S B).

(** A handler that leaves the state alone and refuses with an error, if at all. *)
Definition pure {A} (h : Handler D A) : Prop :=
  forall d, (h d).1 = d /\ (forall resp, (h d).2 = Err resp -> is_success resp = false).

Definition unchanged (s s' : S) : Prop := forall t a, stream s' t a = stream s t a.

(** What a handler does to one stream: it writes no other; it does anything at all,
    and succeeds, only if [P] holds; a result [x] comes with the events [c] it
    appended, related by [Q]; an error leaves the streams unchanged unless the events could not be
    published ([502]) or [partial] effects are allowed. *)
Definition effect (partial : Prop) (P : Prop) (t : TenantId) (a : AggregateId) {A}
    (h : Handler D A) (Q : list (StoredEvent Json) -> A -> Prop) : Prop :=
  forall d, store_ok (d_store d) ->
  let '(d', r) := h d in
  store_ok (d_store d') /\ extends (d_store d) (d_store d') /\ (d' = d \/ P)
  /\ (forall t' a', (t', a') <> (t, a) -> stream (d_store d') t' a' = stream (d_store d) t' a')
  /\ match r with
     | Ok x => P /\ exists c, stream (d_store d') t a = stream (d_store d) t a ++ c /\ Q c x
     | Err resp => is_success resp = false
         /\ (unchanged (d_store d) (d_store d') \/ resp_status resp = BAD_GATEWAY \/ partial)
     end.

Lemma pure_ret {A} (x : A) : pure (mret x).
Proof. by intros d. Qed.

Lemma pure_early {A} resp : is_success resp = false -> pure (early (A:=A) resp).
Proof. intros Hr d. split; [done|]. by intros ? [= <-]. Qed.

Lemma pure_bind {A A'} (h : Handler D A) (f : A -> Handler D A') :
  pure h -> (forall x, pure (f x)) -> pure (h ≫= f).
Proof.
  intros Hh Hf d. specialize (Hh d). unfold mbind, Handler_bind.
  destruct (h d) as [d' [x|e]]; simpl in *; destruct Hh as [-> He]; [apply Hf|].
  split; [done|]. by intros ? [= <-]; apply He.
Qed.

Context (partial P : Prop) (t : TenantId) (a : AggregateId).

Lemma effect_ret {A} (x : A) (Q : list (StoredEvent Json) -> A -> Prop) :
  P -> Q [] x -> effect partial P t a (mret x) Q.
Proof.
  intros HP HQ d Hok. split_and!; [done | done | by left | done | done |].
  exists []. by rewrite app_nil_r.
Qed.

Lemma effect_early {A} resp (Q : list (StoredEvent Json) -> A -> Prop) :
  is_success resp = false -> effect partial P t a (early resp) Q.
Proof. intros Hr d Hok. simpl. split_and!; [done | done | by left | done | done | by left]. Qed.

(** After a pure computation; what it returned is known. *)
Lemma effect_after {A A'} (h : Handler D A) (f : A -> Handler D A') Q :
  pure h -> (forall d x, (h d).2 = Ok x -> effect partial P t a (f x) Q) ->
  effect partial P t a (h ≫= f) Q.
Proof.
  intros Hh Hf d Hok. specialize (Hh d). pose proof (Hf d) as Hfd. unfold mbind, Handler_bind.
  destruct (h d) as [d' [x|e]]; simpl in *; destruct Hh as [-> He].
  - by apply (Hfd x eq_refl d Hok).
  - split_and!; [done | done | by left | done | by apply He | by left].
Qed.

(** A pure end: it does not fail. *)
Lemma effect_then {A A'} (h : Handler D A) (f : A -> A') Q (Q' : list (StoredEvent Json) -> A' -> Prop) :
  effect partial P t a h Q -> (forall c x, Q c x -> Q' c (f x)) ->
  effect partial P t a (x ← h; mret (f x)) Q'.
Proof.
  intros Hh Hf d Hok. specialize (Hh d Hok). unfold mbind, Handler_bind.
  destruct (h d) as [d' [x|e]]; [|done]. simpl in *.
  destruct Hh as (Hok' & Hext & HP & Ho & Hp & c & Hc & Hx). split_and!; [done..|].
  exists c. auto.
Qed.
End Logic.

#[export] Hint Resolve pure_ret pure_early pure_bind : forge.

Section Effects.
Context {S B : Type} `{HS : EventStore S Json} `{HSL : !EventStoreLaws S}
  `{HB : EventBus B (EventEnvelope Json)}.
Context `{SetOrder} `{Texts} `{Lowercase} `{DebugText}.
#[local] Abbreviation D := (CommandDispatcher S B).
Implicit Types (d : D) (env : Surroundings) (tenant : TenantContext)
  (principal : PrincipalContext).

(** With partial effects allowed, effects compose. *)
Lemma effect_bind (P : Prop) t a {A A'} (h : Handler D A) (f : A -> Handler D A')
    Q (Q' : list (StoredEvent Json) -> A' -> Prop) :
  effect True P t a h Q ->
  (forall x c1, P -> Q c1 x -> effect True P t a (f x) (fun c2 y => Q' (c1 ++ c2) y)) ->
  effect True P t a (h ≫= f) Q'.
Proof.
  intros Hh Hf d Hok. specialize (Hh d Hok). unfold mbind, Handler_bind.
  destruct (h d) as [d1 [x|e]]; [|done]. destruct Hh as (Hok1 & Hext & HP & Ho & Hp & c1 & Hc1 & Hx).
  specialize (Hf x c1 Hp Hx d1 Hok1). destruct (f x d1) as [d2 r].
  destruct Hf as (Hok2 & Hext2 & HP2 & Ho2 & Hr). split_and!; [done | by etrans | | |].
  - by right.
  - intros t' a' Hne. by rewrite Ho2, Ho.
  - destruct r as [y|e].
    + destruct Hr as (_ & c2 & Hc2 & HQ). split; [done|]. exists (c1 ++ c2). split; [|done].
      by rewrite Hc2, Hc1, app_assoc.
    + destruct Hr as [Hs _]. split; [done|]. right. by right.
Qed.

Lemma json_error_not_success status code msg :
  ~ (200 <= as_u16 status < 300)%Z -> is_success (json_error status code msg) = false.
Proof. unfold is_success, json_error. simpl. intros. apply andb_false_iff. lia. Qed.

Lemma dispatch_error_response e :
  is_success (dispatch_error_to_response e) = false.
Proof. destruct e; by apply json_error_not_success; simpl; lia. Qed.

Lemma publish_error_status e :
  resp_status (dispatch_error_to_response e) = BAD_GATEWAY <-> exists msg, e = DPublish msg.
Proof. destruct e; simpl; naive_solver. Qed.

(** What a dispatch does to the store, whatever the aggregate decides. *)
Lemma dispatch_effect {A C E} `{Aggregate A C E} `{Event E} `{Serde E Json}
    partial t a ty (cmd : C) (make : TenantId -> AggregateId -> A) new_id :
  effect partial True t a (services_dispatch t a ty cmd make new_id : Handler D _)
    (fun c x => x = c).
Proof.
  intros d Hok. unfold services_dispatch, dispatch.
  destruct (decide_events (d_store d) t a ty cmd make new_id) as [[[us v]|]|e] eqn:Ed.
  - destruct (decide_Some _ _ _ _ _ _ _ _ _ Ed) as (_ & _ & Hb).
    destruct (commit_events d us v) as [d' r] eqn:Ec.
    assert (Hs : d_store d' = (es_append (d_store d) us v).1).
    { rewrite <- (commit_store d us v). by rewrite Ec. }
    split_and!; [rewrite Hs; by apply append_keeps | rewrite Hs; apply append_extends | by right
      | intros t' a' Hne; by apply (commit_others _ _ _ _ _ _ _ _ _ _ Hb Ec) |].
    destruct (commit_cases _ _ _ _ _ _ _ _ Hb Ec)
      as [(c & k & _ & Hc & _ & [[-> _]|[msg ->]])|(e & Ea & _ & ->)]; simpl.
    + eauto.
    + split; [done|]. by right; left.
    + split; [apply dispatch_error_response|]. left. intros t' a'.
      by apply (append_failed _ _ _ _ _ Ea).
  - split_and!; [done | done | by left | done |]. split; [done|]. exists [].
    by rewrite app_nil_r.
  - simpl. split_and!; [done | done | by left | done | apply dispatch_error_response | by left].
Qed.

Lemma effect_weaken partial (P P' : Prop) t a {A} (h : Handler D A) Q :
  (P -> P') -> effect partial P t a h Q -> effect partial P' t a h Q.
Proof.
  intros HP Hh d Hok. specialize (Hh d Hok). destruct (h d) as [d' r].
  destruct Hh as (? & ? & Hp & ? & Hr). split_and!; try done; [destruct Hp; auto|].
  destruct r; [destruct Hr; auto | done].
Qed.

Definition allowed tenant principal (perm : string) : Prop :=
  authorize_command tenant principal [mkPermission perm] = Ok tt.

Lemma pure_authorized {C} tenant principal (cmd : CmdAuth C) :
  pure (authorized tenant principal cmd : Handler D unit).
Proof. unfold authorized. destruct (authorize_command _ _ _); auto with forge. Qed.

Lemma execute_effect {A C E} `{Aggregate A C E} `{Event E} `{Serde E Json}
    partial env k tenant principal perm a ty (cmd : C) (make : TenantId -> AggregateId -> A) :
  effect partial (allowed tenant principal perm) (ctx_tenant_id tenant) a
    (execute env k tenant principal perm a ty cmd make : Handler D _) (fun c x => x = c).
Proof.
  unfold execute. apply effect_after; [apply pure_authorized|].
  intros d [] Ha. eapply effect_weaken; [|apply dispatch_effect]. intros _.
  unfold authorized in Ha. unfold allowed. simpl in Ha.
  destruct (authorize_command _ _ _) as [[]|]; [done|discriminate].
Qed.

Lemma pure_parse_id s msg : pure (parse_id s msg : Handler D AggregateId).
Proof. unfold parse_id. destruct (id_from_str _ _ s); auto with forge. Qed.

Lemma parse_id_addressed s msg d x :
  (parse_id s msg d).2 = Ok x -> addressed_id s = Some x.
Proof.
  unfold parse_id, id_from_str, addressed_id. destruct (parse_uuid s); simpl; congruence.
Qed.

Lemma pure_parse_uuid s msg : pure (parse_uuid_or s msg : Handler D Uuid).
Proof. unfold parse_uuid_or. destruct (parse_uuid s); auto with forge. Qed.

Lemma parse_uuid_addressed s msg d x :
  (parse_uuid_or s msg d).2 = Ok x -> addressed_id s = Some (mkAggregateId x).
Proof. unfold parse_uuid_or, addressed_id. destruct (parse_uuid s); simpl; congruence. Qed.

Lemma pure_guard_kind services tenant party kind :
  pure (guard_kind services tenant party kind : Handler D unit).
Proof. unfold guard_kind. repeat case_match; auto with forge. Qed.

Lemma effect_partial (Q1 Q2 P : Prop) t a {A} (h : Handler D A) Q :
  (Q1 -> Q2) -> effect Q1 P t a h Q -> effect Q2 P t a h Q.
Proof.
  intros HQ Hh d Hok. specialize (Hh d Hok). destruct (h d) as [d' [x|e]]; [done|].
  destruct Hh as (? & ? & ? & ? & ? & ?). split_and!; try done. tauto.
Qed.

(** The response of a command tells how many events were appended. *)
Definition told (c : list (StoredEvent Json)) (resp : Response) : Prop :=
  is_success resp = true /\ json_get (resp_body resp) "events_committed" = Some (json_len c).

(** A command addressed by a text: it has its effect on the aggregate the text
    names, or is refused. *)
Definition addressed_effect partial P t (o : option AggregateId) (h : Handler D Response) : Prop :=
  match o with
  | Some a => effect partial P t a h told
  | None => forall d, exists resp, h d = (d, Err resp) /\ is_success resp = false
  end.

Lemma id_route partial P t id msg (f : AggregateId -> Handler D Response) :
  (forall a, effect partial P t a (f a) told) ->
  addressed_effect partial P t (addressed_id id) (parse_id id msg ≫= f).
Proof.
  intros Hf. unfold addressed_effect. destruct (addressed_id id) as [a|] eqn:E.
  - apply effect_after; [apply pure_parse_id|]. intros d x Hx.
    apply parse_id_addressed in Hx. rewrite E in Hx. by injection Hx as ->.
  - intros d. exists (json_error BAD_REQUEST "invalid_id" msg). split; [|done].
    unfold addressed_id in E. unfold parse_id, id_from_str, mbind, Handler_bind.
    by destruct (parse_uuid id).
Qed.

Lemma uuid_route partial P t id msg (f : Uuid -> Handler D Response) :
  (forall u, effect partial P t (mkAggregateId u) (f u) told) ->
  addressed_effect partial P t (addressed_id id) (parse_uuid_or id msg ≫= f).
Proof.
  intros Hf. unfold addressed_effect. destruct (addressed_id id) as [a|] eqn:E.
  - apply effect_after; [apply pure_parse_uuid|]. intros d x Hx.
    apply parse_uuid_addressed in Hx. rewrite E in Hx. by injection Hx as ->.
  - intros d. exists (json_error BAD_REQUEST "invalid_id" msg). split; [|done].
    unfold addressed_id in E. unfold parse_uuid_or, mbind, Handler_bind.
    by destruct (parse_uuid id).
Qed.

(** The common end of the command routes. *)
Lemma execute_told {A C E} `{Aggregate A C E} `{Event E} `{Serde E Json}
    partial env k tenant principal perm a ty (cmd : C) (make : TenantId -> AggregateId -> A)
    (f : list (StoredEvent Json) -> Response) :
  (forall c, told c (f c)) ->
  effect partial (allowed tenant principal perm) (ctx_tenant_id tenant) a
    (committed ← (execute env k tenant principal perm a ty cmd make : Handler D _);
     mret (f committed)) told.
Proof.
  intros Hf. eapply effect_then; [apply execute_effect|]. by intros c ? ->.
Qed.

Lemma pure_invoice_lines so lines : forall idx,
  pure (invoice_lines so idx lines : Handler D _).
Proof.
  induction lines as [|l lines IH]; intros idx; simpl; [auto with forge|].
  apply pure_bind; [apply pure_parse_id|]. intros a. apply pure_bind; [apply IH|].
  intros ls. auto with forge.
Qed.

Lemma pure_lift {A} (r : Result Response A) :
  (forall e, r = Err e -> is_success e = false) -> pure (lift r : Handler D A).
Proof. intros Hr d. split; [done|]. intros resp. apply Hr. Qed.

Lemma parse_account_kind_refused s e : parse_account_kind s = Err e -> is_success e = false.
Proof.
  unfold parse_account_kind. repeat (destruct (String.eqb _ _); [done|]). by intros [= <-].
Qed.

Lemma to_journal_lines_refused lines e :
  to_journal_lines lines = Err e -> is_success e = false.
Proof.
  unfold to_journal_lines. generalize (@nil JournalEntryLine) at 2.
  induction lines as [|l lines IH]; intros acc; simpl; [done|].
  destruct (parse_account_kind (llr_kind l)) as [k|r] eqn:E; simpl; [apply IH|].
  intros [= <-]. by apply (parse_account_kind_refused _ _ E).
Qed.

Lemma check_escalation_refused principal roles e :
  check_escalation principal roles = Err e -> is_success e = false.
Proof.
  induction roles as [|r roles IH]; simpl; [done|].
  destruct (_ && _); [by intros [= <-] | apply IH].
Qed.
End Effects.

(** ** What requests do *)
Section Requests.
Context {S B : Type} `{HS : EventStore S Json} `{HSL : !EventStoreLaws S}
  `{HB : EventBus B (EventEnvelope Json)}.
Context `{HQ : !EventQueries S Json}.
Context `{SetOrder} `{Texts} `{Lowercase} `{DebugText}.
Context `{Serde InventoryEvent Json} `{Serde PartyEvent Json} `{Serde ProductEvent Json}
  `{Serde SalesOrderEvent Json} `{Serde InvoiceEvent Json} `{Serde PurchaseOrderEvent Json}
  `{Serde LedgerEvent Json} `{Serde UserEvent Json}.
Context (debug_strs : list string -> string).
Context (role_order : gmap string RoleDefinition -> list RoleDefinition).
Context (permission_order : gmap string PermissionDefinition -> list PermissionDefinition).
Context (default_ledger_id : AggregateId).
Context (fresh_order : InvoiceEvent -> SalesOrderId).
Context (fresh_supplier : PurchaseOrderEvent -> PartyId).
Context (empty_object : Json) (dummy_ids : Uuid * Uuid).
Context (job_order : Replay.ReplayJobStore -> list Uuid).
#[local] Abbreviation D := (CommandDispatcher S B).
#[local] Abbreviation serve :=
  (serve (S:=S) (B:=B) debug_strs role_order permission_order default_ledger_id fresh_order
     fresh_supplier empty_object dummy_ids job_order).
#[local] Abbreviation perform := (perform (S:=S) (B:=B) default_ledger_id).
#[local] Abbreviation answer :=
  (answer (S:=S) (B:=B) debug_strs role_order permission_order).
Implicit Types (d : D) (env : Surroundings) (services : AppServices) (tenant : TenantContext)
  (principal : PrincipalContext) (insights : list (TenantId * AiResult)).

(** The lines of a new purchase order, one commit each. *)
Lemma purchase_lines_effect (P : Prop) env tenant principal a lines : P -> forall k total,
  effect True P (ctx_tenant_id tenant) a
    (add_purchase_lines env k tenant principal a total lines : Handler D _)
    (fun c n => n = total + length c).
Proof.
  intros HP. induction lines as [|l lines IH]; intros k total; simpl.
  { apply effect_ret; [done|]. simpl. lia. }
  apply effect_after; [apply pure_parse_id|]. intros d prod_agg _.
  eapply effect_bind.
  - eapply effect_weaken; [|apply execute_effect]. done.
  - intros ? c1 _ ->. intros d1 Hok. specialize (IH (Datatypes.S k) (total + length c1) d1 Hok).
    destruct (add_purchase_lines _ _ _ _ _ _ _ _) as [d2 [n|e]]; [|done].
    destruct IH as (? & ? & ? & ? & ? & c2 & Hc2 & ->). split_and!; [done..|].
    exists c2. split; [done|]. rewrite length_app. lia.
Qed.

Lemma party_update_effect partial env services tenant principal id body kind perm :
  addressed_effect partial (allowed tenant principal perm) (ctx_tenant_id tenant)
    (addressed_id id)
    (update_party services env tenant principal id body kind perm : Handler D _).
Proof.
  apply id_route. intros a. apply effect_after; [apply pure_guard_kind|]. intros d [] _.
  by apply execute_told.
Qed.

Lemma party_suspend_effect partial env services tenant principal id body kind perm :
  addressed_effect partial (allowed tenant principal perm) (ctx_tenant_id tenant)
    (addressed_id id)
    (suspend_party services env tenant principal id body kind perm : Handler D _).
Proof.
  apply id_route. intros a. apply effect_after; [apply pure_guard_kind|]. intros d [] _.
  by apply execute_told.
Qed.

Lemma user_command_effect partial env tenant principal id perm command :
  addressed_effect partial (allowed tenant principal (perm_str perm)) (ctx_tenant_id tenant)
    (addressed_id id)
    (user_command env tenant principal id perm command : Handler D _).
Proof. apply uuid_route. intros u. by apply execute_told. Qed.

(** Every command route, on the stream it addresses. *)
Lemma perform_effect env services tenant principal c :
  addressed_effect (exists body, c = CreatePurchaseOrder body)
    (allowed tenant principal (permission c)) (ctx_tenant_id tenant)
    (target default_ledger_id env c) (perform env services tenant principal c).
Proof.
  destruct c; simpl.
  25-28: apply user_command_effect.
  8,11: apply party_suspend_effect.
  7,9: apply party_update_effect.
  1,3,6,7,8: by apply execute_told.
  1-3,5,6,8,9,12,13: apply id_route; intros a; by apply execute_told.
  - (* AddSalesOrderLine *)
    apply id_route. intros a. apply effect_after; [apply pure_parse_id|]. intros d p _.
    by apply execute_told.
  - (* IssueInvoice *)
    apply effect_after; [apply pure_parse_id|]. intros d so _.
    apply effect_after; [destruct (parse_rfc3339 _); auto with forge|]. intros _ due _.
    apply effect_after; [apply pure_invoice_lines|]. intros _ lines _.
    by apply execute_told.
  - (* CreatePurchaseOrder *)
    apply (effect_partial True); [intros _; eauto|].
    apply effect_after; [apply pure_parse_id|]. intros d supplier _.
    eapply effect_bind; [apply execute_effect|]. intros ? c1 HP ->.
    eapply effect_then; [by apply purchase_lines_effect|].
    intros c2 n ->. split; [done|]. simpl. unfold json_len. by rewrite length_app.
  - (* AddPurchaseOrderLine *)
    apply id_route. intros a. apply effect_after; [apply pure_parse_id|]. intros d p _.
    by apply execute_told.
  - (* PostJournalEntry *)
    unfold post_journal_entry. case_decide; [by apply effect_early|].
    apply effect_after; [apply pure_lift, to_journal_lines_refused|]. intros _ lines _.
    by apply execute_told.
  - (* CreateUser *)
    apply effect_after.
    { destruct (existsb _ _); [auto with forge|]. apply pure_lift, check_escalation_refused. }
    intros _ [] _. by apply execute_told.
Qed.

Lemma pure_permitted tenant principal perm : pure (permitted tenant principal perm : Handler D unit).
Proof. apply pure_authorized. Qed.

Lemma pure_query {A} (q : S -> Result EventStoreError A) what :
  pure (query_store q what : Handler D A).
Proof.
  intros d. split; [done|]. simpl. destruct (q (d_store d)); [done|]. by intros ? [= <-].
Qed.

(** Queries change nothing. *)
Lemma answer_pure services insights tenant principal q :
  pure (answer services insights tenant principal q).
Proof.
  destruct q; simpl; try (apply pure_ret);
    try (apply pure_bind; [apply pure_parse_id | intros; apply pure_ret]);
    try (apply pure_bind; [apply pure_permitted | intros; apply pure_ret]);
    (apply pure_bind; [apply pure_permitted | intros _]);
    try (apply pure_bind; [apply pure_query | intros; apply pure_ret]);
    (apply pure_bind; [apply pure_parse_uuid | intros u]);
    try (apply pure_bind; [apply pure_query | intros; apply pure_ret]);
    try (apply pure_ret).
  apply pure_bind; [apply pure_lift; by destruct (users_get _ _ _); intros ? [= <-]|]. intros user.
  apply pure_bind; [|intros; apply pure_ret].
  apply pure_lift. by destruct (users_effective_permissions _ _ _ _); intros ? [= <-].
Qed.

(** The roles a permission comes with. *)
Definition may tenant principal (perm : string) : Prop :=
  mkRole "admin" ∈ ctx_roles principal
  \/ exists r, r ∈ ctx_roles principal /\ perm ∈ default_role_permissions (role_str r).

Lemma allowed_may tenant principal perm :
  allowed tenant principal perm <-> may tenant principal perm.
Proof. unfold allowed. by rewrite authorize_command_Ok, Forall_singleton. Qed.

(** The outcome of a command, as the caller sees it. *)
Lemma command_outcome env services tenant principal c d :
  store_ok (d_store d) ->
  let '(d', resp) := respond (perform env services tenant principal c) d in
  store_ok (d_store d') /\ extends (d_store d) (d_store d')
  /\ (d' = d \/ exists a, target default_ledger_id env c = Some a
        /\ may tenant principal (permission c)
        /\ forall t' a', (t', a') <> (ctx_tenant_id tenant, a) ->
             stream (d_store d') t' a' = stream (d_store d) t' a')
  /\ if is_success resp
     then may tenant principal (permission c) /\ exists a appended,
       target default_ledger_id env c = Some a
       /\ stream (d_store d') (ctx_tenant_id tenant) a
          = stream (d_store d) (ctx_tenant_id tenant) a ++ appended
       /\ json_get (resp_body resp) "events_committed" = Some (json_len appended)
     else unchanged (d_store d) (d_store d') \/ resp_status resp = BAD_GATEWAY
          \/ exists body, c = CreatePurchaseOrder body.
Proof.
  intros Hok. pose proof (perform_effect env services tenant principal c) as He.
  unfold addressed_effect in He. unfold respond.
  destruct (target default_ledger_id env c) as [a|].
  - apply (effect_weaken _ _ _ _ _ _ _ (proj1 (allowed_may _ _ _))) in He. specialize (He d Hok).
    destruct (perform env services tenant principal c d) as [d' [resp|resp]];
      destruct He as (Hok' & Hext & HP & Ho & Hr);
      split_and!; try done; try (destruct HP as [->|HP]; [by left|]; right; exists a; by eauto).
    + destruct Hr as (HP' & app & Happ & Hs & Hj). rewrite Hs. split; [done|]. by exists a, app.
    + by destruct Hr as [-> Hr].
  - destruct (He d) as (resp & -> & Hs). split_and!; [done | done | by left |].
    rewrite Hs. by left.
Qed.


(** C23: responses tell what was stored: when the response of a command is a
    success, the roles grant its permission, and exactly as many events as the
    response's [events_committed] says were appended to the stream of the addressed
    aggregate; when it is an error, no stream has changed, unless the events could
    not be published ([502], they are stored nevertheless), or the command was the
    creation of a purchase order, whose lines are committed one by one. *)
Theorem responses_tell_what_was_stored env services tenant principal (c : Command) d :
  store_ok (d_store d) ->
  let '(d', resp) := respond (perform env services tenant principal c) d in
  if is_success resp
  then (mkRole "admin" ∈ ctx_roles principal \/ exists r, r ∈ ctx_roles principal
          /\ permission c ∈ default_role_permissions (role_str r))
    /\ exists a appended,
      target default_ledger_id env c = Some a
      /\ stream (d_store d') (ctx_tenant_id tenant) a
         = stream (d_store d) (ctx_tenant_id tenant) a ++ appended
      /\ json_get (resp_body resp) "events_committed" = Some (JInt (Z.of_nat (length appended)))
  else (forall t a, stream (d_store d') t a = stream (d_store d) t a)
    \/ resp_status resp = BAD_GATEWAY \/ exists body, c = CreatePurchaseOrder body.
Proof.
  intros Hok. pose proof (command_outcome env services tenant principal c d Hok) as Hc.
  destruct (respond _ d) as [d' resp]. by destruct Hc as (_ & _ & _ & Hc).
Qed.

(** Two read models that hold the same for a tenant. *)
Definition same_for {K V} `{Countable K} (t : TenantId) (m m' : InMemoryTenantStore K V) : Prop :=
  (forall k, ts_get m t k = ts_get m' t k) /\ ts_list m t = ts_list m' t.

Definition same_view (t : TenantId) services services' : Prop :=
  same_for t (p_store (as_inventory services)) (p_store (as_inventory services'))
  /\ same_for t (p_store (as_products services)) (p_store (as_products services'))
  /\ same_for t (p_store (as_parties services)) (p_store (as_parties services'))
  /\ same_for t (p_store (as_sales services)) (p_store (as_sales services'))
  /\ same_for t (p_store (as_invoices services)) (p_store (as_invoices services'))
  /\ same_for t (p_store (as_ar_aging services)) (p_store (as_ar_aging services'))
  /\ same_for t (p_store (as_purchases services)) (p_store (as_purchases services'))
  /\ same_for t (p_store (as_ledger services)) (p_store (as_ledger services'))
  /\ same_for t (as_users services) (as_users services').

Definition own_insights (t : TenantId) insights : list (TenantId * AiResult) :=
  List.filter (fun r => bool_decide (r.1 = t)) insights.

Lemma anomalies_own insights t keep :
  tenant_anomalies insights t keep = tenant_anomalies (own_insights t insights) t keep.
Proof.
  unfold tenant_anomalies, own_insights. induction insights as [|[t' r] l IH]; simpl; [done|].
  destruct (decide (t' = t)) as [->|Hne].
  - rewrite bool_decide_eq_true_2 by done. simpl. by rewrite IH.
  - rewrite bool_decide_eq_false_2 by done. by rewrite decide_True.
Qed.

Lemma bind_ext {A A'} (h : Handler D A) (f g : A -> Handler D A') d :
  (forall x d, f x d = g x d) -> (h ≫= f) d = (h ≫= g) d.
Proof. intros Hfg. unfold mbind, Handler_bind. destruct (h d) as [d' [x|]]; [apply Hfg | done]. Qed.

Lemma update_party_view env services services' tenant principal id body kind perm d :
  (forall k, parties_get services (ctx_tenant_id tenant) k
             = parties_get services' (ctx_tenant_id tenant) k) ->
  (update_party services env tenant principal id body kind perm : Handler D _) d
  = update_party services' env tenant principal id body kind perm d.
Proof. intros Hg. apply bind_ext. intros a d1. unfold guard_kind. by rewrite Hg. Qed.

Lemma suspend_party_view env services services' tenant principal id body kind perm d :
  (forall k, parties_get services (ctx_tenant_id tenant) k
             = parties_get services' (ctx_tenant_id tenant) k) ->
  (suspend_party services env tenant principal id body kind perm : Handler D _) d
  = suspend_party services' env tenant principal id body kind perm d.
Proof. intros Hg. apply bind_ext. intros a d1. unfold guard_kind. by rewrite Hg. Qed.

Lemma perform_view env services services' tenant principal c d :
  same_view (ctx_tenant_id tenant) services services' ->
  perform env services tenant principal c d = perform env services' tenant principal c d.
Proof.
  intros (_ & _ & [Ht _] & _). destruct c.
  7,10: by apply update_party_view.
  7,9: by apply suspend_party_view.
  all: reflexivity.
Qed.

Lemma answer_view services services' insights insights' tenant principal q d :
  same_view (ctx_tenant_id tenant) services services' ->
  own_insights (ctx_tenant_id tenant) insights = own_insights (ctx_tenant_id tenant) insights' ->
  answer services insights tenant principal q d = answer services' insights' tenant principal q d.
Proof.
  intros ([Hi Hi'] & [Hp Hp'] & [Ht Ht'] & [Hs Hs'] & [Hn Hn'] & [_ Ha'] & [Hu Hu'] & [Hl Hl']
          & [Hr Hr']) Hins.
  destruct q; simpl; try reflexivity.
  all: repeat (apply bind_ext; intros ? ?).
  all: first
    [ unfold inventory_get; by rewrite Hi
    | unfold get_inventory_anomalies; by rewrite anomalies_own, Hins, <- anomalies_own
    | by rewrite anomalies_own, Hins, <- anomalies_own
    | unfold products_get; by rewrite Hp
    | unfold list_products, products_list; by rewrite Hp'
    | unfold parties_get; by rewrite Ht
    | unfold list_customers, list_suppliers, list_parties, parties_list; by rewrite Ht'
    | unfold sales_get; by rewrite Hs
    | unfold list_sales_orders, sales_list; by rewrite Hs'
    | unfold invoices_get; by rewrite Hn
    | unfold list_invoices, invoices_list; by rewrite Hn'
    | unfold get_ar_aging, ar_aging_list; by rewrite Ha'
    | unfold purchases_get; by rewrite Hu
    | unfold list_purchase_orders, purchases_list; by rewrite Hu'
    | unfold list_ledger_balances, ledger_balances_list; by rewrite Hl'
    | unfold get_ledger_balance, ledger_balance_get; by rewrite Hl
    | unfold users_list; by rewrite Hr'
    | unfold users_get, users_effective_permissions, UserDirectory.effective_permissions;
      by rewrite Hr
    | unfold users_get; by rewrite Hr ].
Qed.

(** The routes of the replay jobs, which are shared by the tenants. *)
Definition asks_for_jobs (req : Request) : bool :=
  match req with
  | Replays (GetReplayStatus _) | Replays (CancelReplay _) | Replays ListReplays => true
  | _ => false
  end.

Definition own_turn (t : TenantId) (turn : EventStream.Turn) : bool :=
  match EventStream.turn_received turn with
  | EventStream.Envelope env => bool_decide (env_tenant_id env = t)
  | _ => true
  end.

(** A live stream passes over what is another tenant's. *)
Lemma stream_own `{EventStream.StreamTexts} t (turns : list EventStream.Turn) : forall self,
  foldl (EventStream.stream_turn t) self turns
  = foldl (EventStream.stream_turn t) self (List.filter (own_turn t) turns).
Proof.
  induction turns as [|turn turns IH]; intros self; [done|]. simpl. rewrite IH.
  unfold own_turn at 2. destruct (EventStream.turn_received turn) as [env| |] eqn:E; [|done..].
  case_bool_decide as Ht; [done|]. f_equal. unfold EventStream.stream_turn.
  rewrite E, decide_True by done. by destruct (negb _).
Qed.

(** C24: a tenant sees only itself: let two states of the read models and of the
    insights agree on one tenant, and differ on the others as they like, and let
    the tables of replay jobs be any.  Then every request of that tenant but those
    that ask for replay jobs is answered alike in both and has the same effect on the
    store and the bus; a stream that it opens is the tenant's; and what such a stream
    shows is of that tenant's messages, or the same as if only its envelopes had been
    published.  The three routes of the replay jobs are excepted since they do show
    and cancel the jobs of all tenants ([Replay.replay_jobs_cross_tenants]). *)
Theorem tenant_sees_only_itself `{EventStream.StreamTexts}
    env services services' insights insights' jobs jobs' tenant principal :
  let t := ctx_tenant_id tenant in
  same_view t services services' -> own_insights t insights = own_insights t insights' ->
  (forall req d, asks_for_jobs req = false ->
    let '(d1, _, reply) := serve env services insights jobs tenant principal req d in
    let '(d2, _, reply') := serve env services' insights' jobs' tenant principal req d in
    d1 = d2 /\ reply = reply'
    /\ match reply with Streaming t' | StreamingEvents t' => t' = t | _ => True end)
  /\ (forall received, Forall (fun m => rt_tenant_id m = t) (tenant_sse_stream received t))
  /\ forall start turns, EventStream.stream_run t start turns
      = EventStream.stream_run t start (List.filter (own_turn t) turns).
Proof.
  intros t Hview Hins. split_and!.
  - intros req d Hjobs. destruct req as [c|q|r| |]; simpl.
    + unfold respond. rewrite (perform_view env services services') by done.
      by destruct (perform _ _ _ _ _ d).
    + unfold respond. rewrite (answer_view services services' insights insights') by done.
      by destruct (answer _ _ _ _ _ d).
    + destruct r as [name dry_run job_id| | | |]; try done. simpl. unfold Replay.start_replay,
        Replay.authorized. destruct (authorize_command _ _ _); [|done].
      by destruct (Replay.replay_config _ _ _ _ _).
    + done.
    + unfold EventStream.stream_events. by destruct (authorize_command _ _ _).
  - intros received. apply Forall_forall. intros m Hm.
    apply list_elem_of_In, filter_In in Hm as [_ Hm]. by apply bool_decide_eq_true_1 in Hm.
  - intros start turns. apply stream_own.
Qed.

(** Suspension is not consulted: the documentation says that a suspended user cannot
    authenticate, but no command depends on the directory of the users; whatever it
    says of the user behind the token, the command is answered alike and has the same
    effect. *)
Theorem suspension_is_not_consulted {HeaderValue : Type} (to_str : HeaderValue -> option string)
    (decode : Decoder) (jwt : Hs256JwtValidator) env services directory insights jobs
    (authorization : option HeaderValue) (now : DateTime) (c : Command) d :
  http_request debug_strs role_order permission_order default_ledger_id
    fresh_order fresh_supplier empty_object dummy_ids job_order to_str decode jwt env
    (set_users services directory) insights jobs authorization now (Write c) d
  = http_request debug_strs role_order permission_order default_ledger_id
    fresh_order fresh_supplier empty_object dummy_ids job_order to_str decode jwt env
    services insights jobs authorization now (Write c) d.
Proof. unfold http_request. destruct (auth_middleware _ _ _ _ _) as [[]|]; [by destruct c | done]. Qed.

Lemma bind_run {A A'} (h : Handler D A) (f : A -> Handler D A') d d' x :
  h d = (d', Ok x) -> (h ≫= f) d = f x d'.
Proof. intros E. unfold mbind, Handler_bind. by rewrite E. Qed.

Lemma bind_stop {A A'} (h : Handler D A) (f : A -> Handler D A') d d' e :
  h d = (d', Err e) -> (h ≫= f) d = (d', Err e).
Proof. intros E. unfold mbind, Handler_bind. by rewrite E. Qed.

Lemma parse_id_known s msg d a : addressed_id s = Some a -> parse_id s msg d = (d, Ok a).
Proof.
  unfold addressed_id, parse_id, id_from_str. destruct (parse_uuid s); [by intros [= <-]|done].
Qed.

Lemma parse_id_unknown s msg d :
  addressed_id s = None -> parse_id s msg d = (d, Err (json_error BAD_REQUEST "invalid_id" msg)).
Proof. unfold addressed_id, parse_id, id_from_str. by destruct (parse_uuid s). Qed.

Lemma execute_allowed {A C E} `{Aggregate A C E} `{Event E} `{Serde E Json}
    env k tenant principal perm a ty (cmd : C) (make : TenantId -> AggregateId -> A) d :
  allowed tenant principal perm ->
  execute env k tenant principal perm a ty cmd make d
  = services_dispatch (ctx_tenant_id tenant) a ty cmd make (fresh_event env k) d.
Proof.
  unfold allowed, execute. intros Ha. rewrite (bind_run _ _ d d tt); [done|].
  unfold authorized. simpl. by rewrite Ha.
Qed.

(** No role but the administrator's grants what any command asks for. *)
Lemma no_role_grants c r :
  permission c ∈ default_role_permissions r -> False.
Proof.
  unfold default_role_permissions. intros Hin.
  repeat case_match; apply list_elem_of_In in Hin; simpl in Hin; destruct c; simpl in Hin;
    repeat (destruct Hin as [Hin|Hin]; [discriminate Hin|]); destruct Hin.
Qed.

(** Only administrators can do anything: the mapping of roles grants the
    manager, the accountant, the salesperson and the warehouse permissions like
    [sales.write] and [inventory.write], but no route asks for one of those.  Every
    command of a principal without the role [admin] is therefore answered with an
    error and leaves the store and the bus exactly as they were; that of an
    administrator passes the check. *)
Theorem commands_need_admin env services tenant principal (c : Command) d :
  store_ok (d_store d) ->
  (mkRole "admin" ∉ ctx_roles principal ->
    let '(d', resp) := respond (perform env services tenant principal c) d in
    d' = d /\ is_success resp = false)
  /\ (mkRole "admin" ∈ ctx_roles principal ->
    authorize_command tenant principal [mkPermission (permission c)] = Ok tt).
Proof.
  intros Hok. split; [|intros Ha; apply authorize_command_Ok, Forall_singleton; by left].
  intros Hn. pose proof (command_outcome env services tenant principal c d Hok) as Hc.
  destruct (respond _ d) as [d' resp]. destruct Hc as (_ & _ & HP & Hr).
  assert (Hmay : ~ may tenant principal (permission c)).
  { intros [?|(r & _ & Hg)]; [done|]. by apply no_role_grants in Hg. }
  split.
  - by destruct HP as [|(a & _ & Hm & _)].
  - destruct (is_success resp); [|done]. by destruct Hr.
Qed.

(** A purchase order is not created atomically: when the first line of the body
    names no product identifier, the request is refused as a bad request, but the
    order it would have created stands in the store, without lines. *)
Theorem refused_purchase_order_is_kept `{!SerdeLaws PurchaseOrderEvent Json}
    env services tenant principal body supplier l rest d :
  store_ok (d_store d) -> available (d_store d) ->
  stream (d_store d) (ctx_tenant_id tenant) (fresh_aggregate env) = [] ->
  may tenant principal (permission (CreatePurchaseOrder body)) ->
  addressed_id (por_supplier_id body) = Some supplier ->
  por_lines body = l :: rest -> addressed_id (plr_product_id l) = None ->
  let '(d', resp) := respond (perform env services tenant principal (CreatePurchaseOrder body)) d in
  (resp = json_error BAD_REQUEST "invalid_id" "invalid product id"
   \/ resp_status resp = BAD_GATEWAY)
  /\ decodes (stream (d_store d') (ctx_tenant_id tenant) (fresh_aggregate env))
       [EvPurchaseOrderCreated (mkPurchaseOrderCreated (ctx_tenant_id tenant)
          (mkPurchaseOrderId (fresh_aggregate env)) (mkPartyId supplier) (utc_now env 0))].
Proof.
  intros Hok Hav Hnew Hmay Hsup Hl Hbad. apply allowed_may in Hmay.
  simpl. unfold create_purchase_order, respond.
  erewrite bind_run by exact (parse_id_known _ _ _ _ Hsup).
  pose proof (dispatch_step d (ctx_tenant_id tenant) (fresh_aggregate env) "purchasing.order"
    (CmdCreatePurchaseOrder (mkCreatePurchaseOrder (ctx_tenant_id tenant)
       (mkPurchaseOrderId (fresh_aggregate env)) (mkPartyId supplier) (utc_now env 0)))
    make_purchase_order (fresh_event env 0) [] Hok Hav) as Hstep.
  rewrite Hnew in Hstep. specialize (Hstep I eq_refl ltac:(constructor)).
  pose proof (execute_allowed env 0 tenant principal _ (fresh_aggregate env) "purchasing.order"
    (CmdCreatePurchaseOrder (mkCreatePurchaseOrder (ctx_tenant_id tenant)
       (mkPurchaseOrderId (fresh_aggregate env)) (mkPartyId supplier) (utc_now env 0)))
    make_purchase_order d Hmay) as Hex.
  unfold services_dispatch in Hex. destruct (dispatch _ _ _ _ _ _ _) as [d' r].
  simpl in Hstep. destruct Hstep as (c & _ & _ & Hdec & _ & [->|[msg ->]]); simpl in Hex.
  - erewrite bind_run by exact Hex. rewrite Hl. simpl.
    erewrite bind_stop; [|erewrite bind_stop; [done|exact (parse_id_unknown _ _ _ Hbad)]].
    split; [by left | exact Hdec].
  - erewrite bind_stop by exact Hex. split; [by right | exact Hdec].
Qed.

(** The inspection routes show the tenant's own events only. *)
Theorem inspection_stays_in_tenant `{!EventQueriesLaws S Json} services insights tenant principal q d resp :
  store_ok (d_store d) ->
  (answer services insights tenant principal q d).2 = Ok resp ->
  match q with
  | ListEvents _ | GetAggregateEvents _ _ => exists events,
      json_get (resp_body resp) "events" = Some (JArr (map event_to_json events))
      /\ Forall (fun e => se_tenant_id e = ctx_tenant_id tenant) events
  | GetEvent _ => resp_status resp = NOT_FOUND \/ exists e,
      resp_body resp = event_to_json e /\ se_tenant_id e = ctx_tenant_id tenant
  | _ => True
  end.
Proof.
  intros Hok. destruct q; try done; simpl; unfold list_events, get_aggregate_events, get_event,
    mbind, Handler_bind; (destruct (permitted _ _ _ d) as [d1 [[]|]] eqn:E1; [|done]);
    (assert (d1 = d) as -> by (pose proof (pure_permitted tenant principal USER_READ d) as [Hd _];
       by rewrite E1 in Hd)).
  - unfold query_store. destruct (q_events _ _ _ _) as [r|] eqn:Eq; [|done]. intros [= <-].
    exists (qr_events r). split; [done|]. by apply (q_events_scoped _ _ _ _ _ Hok Eq).
  - unfold parse_uuid_or. destruct (parse_uuid _) as [u|]; [|done]. simpl.
    unfold query_store. destruct (q_aggregate _ _ _ _) as [r|] eqn:Eq; [|done]. intros [= <-].
    exists (qr_events r). split; [done|]. by apply (q_aggregate_scoped _ _ _ _ _ Hok Eq).
  - unfold parse_uuid_or. destruct (parse_uuid _) as [u|]; [|done]. simpl.
    unfold query_store. destruct (q_event _ _ _) as [[e|]|] eqn:Eq; [..|done]; intros [= <-].
    + right. exists e. split; [done|]. by apply (q_event_scoped _ _ _ _ Hok Eq).
    + by left.
Qed.

(** The guard of the customers' routes asks the read model: until the subscriber
    has shown a new supplier there, [/customers] renames it. *)
Theorem customer_route_renames_unshown_supplier `{!SerdeLaws PartyEvent Json}
    env services tenant principal id a (e : PartyRegistered) d :
  store_ok (d_store d) -> available (d_store d) ->
  type_stable (stream (d_store d) (ctx_tenant_id tenant) a) "parties.party" ->
  decodes (stream (d_store d) (ctx_tenant_id tenant) a) [EvPartyRegistered e] ->
  pr_kind e = Supplier -> pr_tenant_id e = ctx_tenant_id tenant -> pr_party_id e = mkPartyId a ->
  parties_get services (ctx_tenant_id tenant) (mkPartyId a) = None ->
  may tenant principal "customers.update" -> addressed_id id = Some a ->
  let body := mkUpdatePartyRequest (Some "renamed"%string) None in
  let '(d', resp) := respond (perform env services tenant principal (UpdateCustomer id body)) d in
  decodes (stream (d_store d') (ctx_tenant_id tenant) a)
    [EvPartyRegistered e;
     EvPartyUpdated (mkPartyUpdated (ctx_tenant_id tenant) (mkPartyId a) "renamed" (pr_contact e)
                       (utc_now env 0))]
  /\ (resp_status resp = OK \/ resp_status resp = BAD_GATEWAY).
Proof.
  intros Hok Hav Hty Hdec Hk Ht Hi Hget Hmay Hid. apply allowed_may in Hmay.
  simpl. unfold update_customer, update_party, respond.
  erewrite bind_run by exact (parse_id_known _ _ _ _ Hid).
  erewrite bind_run by (unfold guard_kind; by rewrite Hget).
  set (cmd := CmdUpdateDetails _).
  pose proof (dispatch_step d (ctx_tenant_id tenant) a "parties.party" cmd make_party
    (fresh_event env 0) [EvPartyRegistered e] Hok Hav Hty) as Hstep.
  assert (length (stream (d_store d) (ctx_tenant_id tenant) a) = 1) as Hlen
    by exact (Forall2_length _ _ _ Hdec).
  specialize (Hstep ltac:(by rewrite Hlen) Hdec).
  pose proof (execute_allowed env 0 tenant principal _ a "parties.party" cmd make_party d Hmay) as Hex.
  unfold services_dispatch in Hex. destruct (dispatch _ _ _ _ _ _ _) as [d' r].
  destruct e as [et ep ek en ec eo]; simpl in *. subst et ep ek.
  unfold Parties.handle, handle_update, Parties.ensure_tenant, ensure_party_id in Hstep. simpl in Hstep.
  rewrite !decide_False in Hstep by (intros Hn; by apply Hn). simpl in Hstep.
  destruct Hstep as (c & _ & _ & Hdec' & _ & [->|[msg ->]]); simpl in Hex.
  - erewrite bind_run by exact Hex. split; [exact Hdec' | by left].
  - erewrite bind_stop by exact Hex. split; [exact Hdec' | by right].
Qed.
End Requests.

(** ** Concrete requests *)
Module Sample.
Import SampleTexts.

#[local] Instance lower : Lowercase := fun s => s.
#[local] Instance quoted : DebugText := fun s => s.
#[local] Instance sets : SetOrder := {| set_order := elements; set_order_perm s := reflexivity _ |}.
#[local] Instance streams_listed : StreamOrder Json :=
  {| stream_order := map_to_list; stream_order_perm m := reflexivity _ |}.
#[local] Instance sample_serde {E} : Serde E Json :=
  {| to_value _ := Ok JNull; from_value _ := Err "opaque"%string |}.

Definition tenant : TenantId := mkTenantId 1.
Definition start : CommandDispatcher (InMemoryEventStore Json) (InMemoryEventBus (EventEnvelope Json)) :=
  mkDispatcher store_new bus_new.
Definition env : Surroundings :=
  mkSurroundings (mkAggregateId 7) 8 (fun _ => 15%Z) (fun _ i => N.of_nat (10 + i)).
Definition fresh_order (_ : InvoiceEvent) : SalesOrderId := mkSalesOrderId (mkAggregateId 4).
Definition fresh_supplier (_ : PurchaseOrderEvent) : PartyId := mkPartyId (mkAggregateId 4).
(** The token ["w"] belongs to a warehouse worker, any other to an administrator. *)
Definition decode : Decoder := fun _ token =>
  Ok (mkClaims (mkPrincipalId 5) tenant
        [mkRole (if String.eqb token "w" then "warehouse" else "admin")] 10 20).
Definition ask (token : string) (req : Request)
  : CommandDispatcher (InMemoryEventStore Json) (InMemoryEventBus (EventEnvelope Json))
    * Replay.ReplayJobStore * Reply :=
  http_request (fun _ => ""%string) (fun m => map snd (map_to_list m))
    (fun m => map snd (map_to_list m)) (mkAggregateId 3) fresh_order fresh_supplier JNull (0, 0)%N
    (fun m => map fst (map_to_list m)) Some decode (mkValidator [])
    env services_new [] ∅ (Some ("Bearer " +:+ token)) 15 req start.
Definition reply_status (r : Reply) : StatusCode :=
  match r with Answered resp => resp_status resp | _ => OK end.
Definition create : Request := Write (CreateItem (mkCreateItemRequest "bolt")).
Definition stored (d : CommandDispatcher (InMemoryEventStore Json)
    (InMemoryEventBus (EventEnvelope Json))) (t : TenantId) : nat :=
  length (mem_stream (d_store d) t (mkAggregateId 7)).


Definition admin : PrincipalContext := mkPrincipalContext (mkPrincipalId 5) [mkRole "admin"].
Definition worker : PrincipalContext := mkPrincipalContext (mkPrincipalId 5) [mkRole "warehouse"].
Definition ctx : TenantContext := mkTenantContext tenant.

Lemma responses_tell_what_was_stored_witness :
  let '(d', resp) := respond (perform (mkAggregateId 3) env services_new ctx admin
                                (CreateItem (mkCreateItemRequest "bolt"))) start in
  is_success resp = true
  /\ json_get (resp_body resp) "events_committed" = Some (JInt (Z.of_nat (stored d' tenant))).
Proof.
  pose proof (responses_tell_what_was_stored (mkAggregateId 3) env services_new ctx admin
    (CreateItem (mkCreateItemRequest "bolt")) start store_new_ok) as Ht.
  assert (is_success (respond (perform (mkAggregateId 3) env services_new ctx admin
                                (CreateItem (mkCreateItemRequest "bolt"))) start).2 = true)
    as Hs by (vm_compute; reflexivity).
  destruct (respond _ start) as [d' resp]. simpl in Hs. rewrite Hs in Ht.
  destruct Ht as (_ & a & app & Ha & Happ & Hj). split; [done|]. injection Ha as <-.
  rewrite Hj. do 2 f_equal. unfold stored. symmetry. exact (f_equal (fun l => Z.of_nat (length l)) Happ).
Defined.

Lemma commands_need_admin_witness :
  (respond (perform (mkAggregateId 3) env services_new ctx worker
              (CreateItem (mkCreateItemRequest "bolt"))) start).1 = start.
Proof.
  pose proof (proj1 (commands_need_admin (mkAggregateId 3) env services_new ctx worker
    (CreateItem (mkCreateItemRequest "bolt")) start store_new_ok)
    ltac:(apply (bool_decide_unpack _); vm_compute; exact I)) as Hn.
  destruct (respond _ start) as [d' resp]. by destruct Hn.
Defined.

(** Another tenant's item. *)
Definition with_other : AppServices :=
  set_inventory services_new (with_store (as_inventory services_new)
    (ts_upsert (p_store (as_inventory services_new)) (mkTenantId 2)
       (mkInventoryItemId (mkAggregateId 7)) (mkInventoryReadModel (mkInventoryItemId (mkAggregateId 7)) "nut" 4))).

#[local] Instance stream_texts : EventStream.StreamTexts :=
  {| EventStream.json_text _ := ""%string; EventStream.first_is_uppercase _ := true |}.

Lemma same_but_other : same_view tenant with_other services_new.
Proof.
  split_and!; (split; [intros k | reflexivity]); try reflexivity.
  refine (lookup_insert_ne (∅ : gmap (TenantId * InventoryItemId) InventoryReadModel) _ _ _ _).
  intros Hk. discriminate (f_equal (fun x => tenant_uuid x.1) Hk).
Qed.

Definition running : Replay.ReplayJobStore :=
  {[9%N := Replay.mkReplayHandle Replay.progress_new false]}.

(** Asked for the other tenant's item. *)
Lemma tenant_sees_only_itself_witness :
  (serve (fun _ => ""%string) (fun m => map snd (map_to_list m))
    (fun m => map snd (map_to_list m)) (mkAggregateId 3) fresh_order fresh_supplier JNull (0, 0)%N
    (fun m => map fst (map_to_list m)) env with_other [] running ctx worker
    (Read (GetItem "7")) start).2
  = Answered (json_error NOT_FOUND "not_found" "item not found").
Proof.
  pose proof (proj1 (tenant_sees_only_itself (fun _ => ""%string) (fun m => map snd (map_to_list m))
    (fun m => map snd (map_to_list m)) (mkAggregateId 3) fresh_order fresh_supplier JNull (0, 0)%N
    (fun m => map fst (map_to_list m)) env with_other services_new [] [] running ∅ ctx worker
    same_but_other eq_refl) (Read (GetItem "7")) start eq_refl) as Hs.
  destruct (serve _ _ _ _ _ _ _ _ _ env with_other _ _ _ _ _ _) as [[d1 j1] r1].
  vm_compute in Hs. by destruct Hs as (_ & -> & _).
Defined.
End Sample.
