(* ===== verification/Jobs.v ===== *)
(** * Background jobs: [crates/infra/src/jobs]

    Jobs and their retry policy ([types.rs]), the in-memory store ([store.rs])
    and the executor ([executor.rs]).

    Clock readings are arguments.  [delay_for_attempt] computes in [f64] and only
    chooses when a failed job becomes ready again: it is the argument [delay] of
    the definitions that use it (in nanoseconds), and nothing is assumed of it here
    ([JobLoop] has the computation).
    The store's locks are taken for the whole of an operation, so that operations
    of several executors interleave as wholes. *)

From S2P Require Import Prelude Core.
From stdpp Require Import relations fin_map_dom.

(** @src crates/infra/src/jobs/types.rs 11-24 [JobId] *)
Record JobId := mkJobId { job_uuid : Uuid }.

#[global] Instance JobId_eq_dec : EqDecision JobId.
Proof. solve_decision. Defined.
#[global] Instance JobId_countable : Countable JobId.
Proof. refine (inj_countable' job_uuid mkJobId _); by intros []. Defined.

(** @src crates/infra/src/jobs/types.rs 38-53 [JobKind] *)
Inductive JobKind : Type :=
| AiInference (job_type : string)
| ProjectionRebuild (projection_name : string)
| SagaStep (saga_type step_name : string)
| Custom (kind : string).

(** @src crates/infra/src/jobs/types.rs 79-86 [JobKind::type_name] *)
Definition type_name (self : JobKind) : string :=
  match self with
  | AiInference job_type => job_type
  | ProjectionRebuild projection_name => projection_name
  | SagaStep saga_type _ => saga_type
  | Custom kind => kind
  end.

(** @src crates/infra/src/jobs/types.rs 89-105 [JobStatus] *)
Inductive JobStatus : Type :=
| Pending
| Running
| Completed
| Failed (error : string) (attempt : Z)
| DeadLettered (error : string) (attempts : Z)
| Cancelled.

#[global] Instance JobStatus_eq_dec : EqDecision JobStatus.
Proof. solve_decision. Defined.

(** @src crates/infra/src/jobs/types.rs 108-113 [JobStatus::is_terminal] *)
Definition is_terminal (self : JobStatus) : bool :=
  match self with Completed | DeadLettered _ _ | Cancelled => true | _ => false end.

(** @src crates/infra/src/jobs/types.rs 120-130 [BackoffStrategy] *)
Inductive BackoffStrategy : Type := Fixed | Exponential | Linear.

(** The delays in nanoseconds; [jitter] is an [f64] that is only carried around: its
    bit pattern.

    @src crates/infra/src/jobs/types.rs 138-151 [RetryPolicy] *)
Record RetryPolicy := mkRetryPolicy {
  max_attempts : Z;
  base_delay : Z;
  max_delay : Z;
  strategy : BackoffStrategy;
  jitter : N
}.

(** @src crates/infra/src/jobs/types.rs 153-163 [RetryPolicy::default] *)
Definition retry_default : RetryPolicy :=
  {| max_attempts := 5; base_delay := 500000000; max_delay := 60000000000;
     strategy := Exponential; jitter := 0x3FB999999999999A%N |}.

(** @src crates/infra/src/jobs/types.rs 166-172 [RetryPolicy::no_retry] *)
Definition no_retry : RetryPolicy :=
  {| max_attempts := 0; base_delay := base_delay retry_default;
     max_delay := max_delay retry_default; strategy := strategy retry_default;
     jitter := jitter retry_default |}.

(** @src crates/infra/src/jobs/types.rs 174-183 [RetryPolicy::fixed] *)
Definition retry_fixed (max_attempts delay : Z) : RetryPolicy :=
  {| max_attempts := max_attempts; base_delay := delay; max_delay := delay;
     strategy := Fixed; jitter := 0 |}.

(** @src crates/infra/src/jobs/types.rs 230-233 [RetryPolicy::should_retry] *)
Definition should_retry (self : RetryPolicy) (attempt : Z) : bool :=
  (attempt <? max_attempts self)%Z.

(** @src crates/infra/src/jobs/types.rs 263-272 [JobAttemptRecord] *)
Record JobAttemptRecord := mkAttempt {
  rec_attempt : Z;
  rec_started_at : DateTime;
  rec_finished_at : DateTime;
  rec_success : bool;
  rec_error : option string;
  rec_duration_ms : Z
}.

(** @src crates/infra/src/jobs/types.rs 236-261 [Job] *)
Record Job (J : Type) := mkJob {
  job_id : JobId;
  job_tenant_id : TenantId;
  job_kind : JobKind;
  job_payload : J;
  job_status : JobStatus;
  job_retry_policy : RetryPolicy;
  job_attempt : Z;
  job_created_at : DateTime;
  job_updated_at : DateTime;
  job_scheduled_at : option DateTime;
  job_history : list JobAttemptRecord
}.
Arguments mkJob {J}.
Arguments job_id {J}.
Arguments job_tenant_id {J}.
Arguments job_kind {J}.
Arguments job_payload {J}.
Arguments job_status {J}.
Arguments job_retry_policy {J}.
Arguments job_attempt {J}.
Arguments job_created_at {J}.
Arguments job_updated_at {J}.
Arguments job_scheduled_at {J}.
Arguments job_history {J}.

Section Lifecycle.
Context {J : Type} (delay : RetryPolicy -> Z -> Z).

(** The fields the lifecycle methods change. *)
Definition with_state (self : Job J) (status : JobStatus) (attempt : Z) (updated_at : DateTime)
    (scheduled_at : option DateTime) (history : list JobAttemptRecord) : Job J :=
  {| job_id := job_id self; job_tenant_id := job_tenant_id self; job_kind := job_kind self;
     job_payload := job_payload self; job_status := status;
     job_retry_policy := job_retry_policy self; job_attempt := attempt;
     job_created_at := job_created_at self; job_updated_at := updated_at;
     job_scheduled_at := scheduled_at; job_history := history |}.

(** @src crates/infra/src/jobs/types.rs 275-291 [Job::new] *)
Definition job_new (id : JobId) (now : DateTime) (t : TenantId) (kind : JobKind) (payload : J)
  : Job J :=
  {| job_id := id; job_tenant_id := t; job_kind := kind; job_payload := payload;
     job_status := Pending; job_retry_policy := retry_default; job_attempt := 0;
     job_created_at := now; job_updated_at := now; job_scheduled_at := None;
     job_history := [] |}.

(** @src crates/infra/src/jobs/types.rs 311-317 [Job::is_ready] *)
Definition is_ready (now : DateTime) (self : Job J) : bool :=
  match job_scheduled_at self with Some at_ => (at_ <=? now)%Z | None => true end.

(** @src crates/infra/src/jobs/types.rs 319-324 [Job::mark_running] *)
Definition mark_running (now : DateTime) (self : Job J) : Job J :=
  with_state self Running (wrapU 32 (job_attempt self + 1)) now (job_scheduled_at self)
    (job_history self).

(** [(now - started_at).num_milliseconds().max(0) as u64]. *)
Definition duration_ms (started_at now : DateTime) : Z :=
  Z.max 0 (Z.quot (now - started_at) 1000000).

(** [chrono::Duration::from_std(d).unwrap_or_default()], in nanoseconds. *)
Definition from_std (d : Z) : Z :=
  if decide (d <= (2 ^ 63 - 1) * 1000000)%Z then d else 0%Z.

(** @src crates/infra/src/jobs/types.rs 326-339 [Job::mark_completed] *)
Definition mark_completed (started_at now : DateTime) (self : Job J) : Job J :=
  with_state self Completed (job_attempt self) now (job_scheduled_at self)
    (job_history self ++
       [mkAttempt (job_attempt self) started_at now true None (duration_ms started_at now)]).

(** @src crates/infra/src/jobs/types.rs 341-369 [Job::mark_failed] *)
Definition mark_failed (error : string) (started_at now : DateTime) (self : Job J) : Job J :=
  let history := job_history self ++
    [mkAttempt (job_attempt self) started_at now false (Some error) (duration_ms started_at now)] in
  if should_retry (job_retry_policy self) (job_attempt self)
  then with_state self (Failed error (job_attempt self)) (job_attempt self) now
         (Some (now + from_std (delay (job_retry_policy self) (job_attempt self)))%Z) history
  else with_state self (DeadLettered error (job_attempt self)) (job_attempt self) now
         (job_scheduled_at self) history.

(** [job.scheduled_at = ..]. *)
Definition with_scheduled_at (at_ : option DateTime) (self : Job J) : Job J :=
  with_state self (job_status self) (job_attempt self) (job_updated_at self) at_
    (job_history self).
End Lifecycle.

(** @src crates/infra/src/jobs/types.rs 378-389 [JobResult] *)
Inductive JobResult : Type :=
| Success
| Failure (error : string)
| RetryNow
| RetryAfter (delay : Z).

(** @src crates/infra/src/jobs/types.rs 391-397 [DeadLetterEntry] *)
Record DeadLetterEntry (J : Type) := mkDeadLetter {
  dl_job : Job J;
  dl_at : DateTime;
  dl_reason : string
}.
Arguments mkDeadLetter {J}.
Arguments dl_job {J}.
Arguments dl_at {J}.
Arguments dl_reason {J}.

(** @src crates/infra/src/jobs/store.rs 63-74 [JobStoreError] *)
Inductive JobStoreError : Type :=
| JobNotFound (id : JobId)
| JobTenantIsolation
| AlreadyExists (id : JobId)
| Storage (msg : string).

(** ** The store *)

(** @src crates/infra/src/jobs/store.rs 87-92 [InMemoryJobStore] *)
Record InMemoryJobStore (J : Type) := mkJobStore {
  jobs : gmap JobId (Job J);
  dead_letters : gmap JobId (DeadLetterEntry J)
}.
Arguments mkJobStore {J}.
Arguments jobs {J}.
Arguments dead_letters {J}.

Section Store.
Context {J : Type}.
Implicit Types (self : InMemoryJobStore J) (j : Job J).

(** @src crates/infra/src/jobs/store.rs 95-100 [InMemoryJobStore::new] *)
Definition job_store_new : InMemoryJobStore J := {| jobs := ∅; dead_letters := ∅ |}.

(** @src crates/infra/src/jobs/store.rs 114-122 [InMemoryJobStore::enqueue] *)
Definition enqueue self j : InMemoryJobStore J * Result JobStoreError JobId :=
  match jobs self !! job_id j with
  | Some _ => (self, Err (AlreadyExists (job_id j)))
  | None => ({| jobs := <[job_id j := j]> (jobs self); dead_letters := dead_letters self |},
             Ok (job_id j))
  end.

(** @src crates/infra/src/jobs/store.rs 124-131 [InMemoryJobStore::get] *)
Definition job_get self (t : TenantId) (id : JobId) : Result JobStoreError (option (Job J)) :=
  match jobs self !! id with
  | Some job => if decide (job_tenant_id job = t) then Ok (Some job) else Err JobTenantIsolation
  | None => Ok None
  end.

(** @src crates/infra/src/jobs/store.rs 133-140 [InMemoryJobStore::update] *)
Definition job_update self j : InMemoryJobStore J * Result JobStoreError unit :=
  match jobs self !! job_id j with
  | None => (self, Err (JobNotFound (job_id j)))
  | Some _ => ({| jobs := <[job_id j := j]> (jobs self); dead_letters := dead_letters self |},
               Ok tt)
  end.

(** @src crates/infra/src/jobs/store.rs 147-153 [InMemoryJobStore::claim_next] *)
Definition claimable (now : DateTime) (tenant_id : option TenantId) j : bool :=
  match job_status j with Pending | Failed _ _ => true | _ => false end
  && is_ready now j
  && match tenant_id with None => true | Some t => bool_decide (job_tenant_id j = t) end.

Definition older (j j' : Job J) : bool := (job_created_at j <=? job_created_at j')%Z.

(** [order] lists the values of the map in its iteration order.

    @src crates/infra/src/jobs/store.rs 142-168 [InMemoryJobStore::claim_next] *)
Definition claim_next (order : gmap JobId (Job J) -> list (Job J)) (now : DateTime) self
    (tenant_id : option TenantId) : InMemoryJobStore J * option (Job J) :=
  match sort_by older (List.filter (claimable now tenant_id) (order (jobs self))) with
  | job :: _ =>
    match jobs self !! job_id job with
    | Some job' =>
      let claimed := mark_running now job' in
      ({| jobs := <[job_id job := claimed]> (jobs self); dead_letters := dead_letters self |},
       Some claimed)
    | None => (self, None)
    end
  | [] => (self, None)
  end.

(** @src crates/infra/src/jobs/store.rs 211-225 [InMemoryJobStore::dead_letter] *)
Definition dead_letter (now : DateTime) self j (reason : string) : InMemoryJobStore J :=
  let job := with_state j (DeadLettered reason (job_attempt j)) (job_attempt j) now
               (job_scheduled_at j) (job_history j) in
  {| jobs := delete (job_id job) (jobs self);
     dead_letters := <[job_id job := mkDeadLetter job now reason]> (dead_letters self) |}.

(** @src crates/infra/src/jobs/store.rs 244-267 [InMemoryJobStore::retry_dead_letter] *)
Definition retry_dead_letter (now : DateTime) self (t : TenantId) (id : JobId)
  : InMemoryJobStore J * Result JobStoreError (Job J) :=
  match dead_letters self !! id with
  | None => (self, Err (JobNotFound id))
  | Some entry =>
    if decide (job_tenant_id (dl_job entry) <> t) then
      ({| jobs := jobs self;
          dead_letters := <[id := entry]> (delete id (dead_letters self)) |},
       Err JobTenantIsolation)
    else
      let job := with_state (dl_job entry) Pending 0 now None [] in
      ({| jobs := <[job_id job := job]> (jobs self);
          dead_letters := delete id (dead_letters self) |}, Ok job)
  end.

(** @src crates/infra/src/jobs/store.rs 269-280 [InMemoryJobStore::delete_dead_letter] *)
Definition delete_dead_letter self (t : TenantId) (id : JobId)
  : InMemoryJobStore J * Result JobStoreError unit :=
  match dead_letters self !! id with
  | None => (self, Err (JobNotFound id))
  | Some entry =>
    if decide (job_tenant_id (dl_job entry) <> t) then (self, Err JobTenantIsolation)
    else ({| jobs := jobs self; dead_letters := delete id (dead_letters self) |}, Ok tt)
  end.
End Store.
