(* ===== verification/Executor.v ===== *)
(** * The job executor: [crates/infra/src/jobs/executor.rs]

    Handler lookup, the execution of a claimed job, and the system of any number
    of executors and administrators over one job store, with the properties of
    the job lifecycle.

    Handlers are functions from jobs to results.  [handlers] lists the entries of
    the executor's [HashMap] in its iteration order; [show_kind] and [show_id] are
    the [Debug] text of a kind and the [Display] text of an identifier. *)

From S2P Require Import Prelude Core Jobs.
From stdpp Require Import relations fin_map_dom.

(** [&pattern[..pattern.len() - 2]] when [pattern.ends_with(".*")]. *)
Definition strip_star (pattern : string) : option string :=
  match rev (String.list_ascii_of_string pattern) with
  | s :: d :: rest =>
    if byte_in s 42 42 && byte_in d 46 46
    then Some (String.string_of_list_ascii (rev rest)) else None
  | _ => None
  end.

Example strip_star_ai : strip_star "ai.*" = Some "ai"%string.
Proof. reflexivity. Qed.

Section Executor.
Context {J : Type} (delay : RetryPolicy -> Z -> Z).
Context (show_kind : JobKind -> string) (show_id : JobId -> string).

(** @src crates/infra/src/jobs/executor.rs 16-17 [JobHandler] *)
Definition JobHandler : Type := Job J -> JobResult.

Definition assoc (handlers : list (string * JobHandler)) (k : string) : option JobHandler :=
  snd <$> List.find (fun p => bool_decide (p.1 = k)) handlers.

(** @src crates/infra/src/jobs/executor.rs 112-118 [JobExecutor::register_handler] *)
Definition register_handler (handlers : list (string * JobHandler)) (k : string)
    (h : JobHandler) : list (string * JobHandler) :=
  (k, h) :: List.filter (fun p => negb (bool_decide (p.1 = k))) handlers.

(** @src crates/infra/src/jobs/executor.rs 129-136 [JobExecutor::get_handler] *)
Fixpoint prefix_handler (handlers : list (string * JobHandler)) (name : string)
  : option JobHandler :=
  match handlers with
  | [] => None
  | (pattern, handler) :: rest =>
    match strip_star pattern with
    | Some prefix => if starts_with prefix name then Some handler else prefix_handler rest name
    | None => prefix_handler rest name
    end
  end.

(** @src crates/infra/src/jobs/executor.rs 120-140 [JobExecutor::get_handler] *)
Definition get_handler (handlers : list (string * JobHandler)) (kind : JobKind)
  : option JobHandler :=
  match assoc handlers (type_name kind) with
  | Some h => Some h
  | None =>
    match prefix_handler handlers (type_name kind) with
    | Some h => Some h
    | None => assoc handlers "*"
    end
  end.

(** The [Display] text of a store error.

    @src crates/infra/src/jobs/store.rs 63-74 [JobStoreError] *)
Definition show_store_error (e : JobStoreError) : string :=
  match e with
  | JobNotFound id => "job not found: " +:+ show_id id
  | JobTenantIsolation => "tenant isolation violation"
  | AlreadyExists id => "job already exists: " +:+ show_id id
  | Storage msg => "storage error: " +:+ msg
  end.

(** The clock at the start of an execution, when its result is recorded, and
    when a requested delay is added. *)
Record Clock := mkClock { started : DateTime; finished : DateTime; later : DateTime }.

(** [self.store.update(job).map_err(..)?] followed by the given result. *)
Definition store_and (store : InMemoryJobStore J) (job : Job J) (r : Result string unit)
  : InMemoryJobStore J * Job J * Result string unit :=
  match job_update store job with
  | (store', Err e) => (store', job, Err (show_store_error e))
  | (store', Ok _) => (store', job, r)
  end.

(** @src crates/infra/src/jobs/executor.rs 288-334 [execute_job] *)
Definition execute_job (handlers : list (string * JobHandler)) (c : Clock)
    (store : InMemoryJobStore J) (job : Job J)
  : InMemoryJobStore J * Job J * Result string unit :=
  match get_handler handlers (job_kind job) with
  | None =>
    let error := "no handler for job kind: " +:+ show_kind (job_kind job) in
    let job' := mark_failed delay error (started c) (finished c) job in
    ((job_update store job').1, job', Err error)
  | Some handler =>
    match handler job with
    | Success => store_and store (mark_completed (started c) (finished c) job) (Ok tt)
    | Failure error =>
      let job' := mark_failed delay error (started c) (finished c) job in
      match job_update store job' with
      | (store', Err e) => (store', job', Err (show_store_error e))
      | (store', Ok _) =>
        match job_status job' with
        | DeadLettered _ _ => (dead_letter (later c) store' job' error, job', Err error)
        | _ => (store', job', Err error)
        end
      end
    | RetryNow =>
      store_and store
        (with_scheduled_at None
           (mark_failed delay "retry requested" (started c) (finished c) job))
        (Err "retry requested"%string)
    | RetryAfter d =>
      store_and store
        (with_scheduled_at (Some (later c + from_std d)%Z)
           (mark_failed delay "retry after delay" (started c) (finished c) job))
        (Err "retry after delay"%string)
    end
  end.

(** @src crates/infra/src/jobs/executor.rs 167-207 [JobExecutor::execute_one] *)
Definition execute_one (handlers : list (string * JobHandler)) (c : Clock)
    (store : InMemoryJobStore J) (job : Job J)
  : InMemoryJobStore J * Job J * Result string unit :=
  match get_handler handlers (job_kind job) with
  | None => (store, job, Err ("no handler for job kind: " +:+ show_kind (job_kind job)))
  | Some _ => execute_job handlers c store (mark_running (started c) job)
  end.

(** ** A job's life *)

(** How often a job may run: at least once, even with no retries. *)
Definition run_limit (j : Job J) : Z := Z.max 1 (max_attempts (job_retry_policy j)).

(** The attempt counter, the status and the history of a job agree. *)
Definition job_ok (j : Job J) : Prop :=
  is_u32 (max_attempts (job_retry_policy j))
  /\ (0 <= job_attempt j <= run_limit j)%Z
  /\ match job_status j with
     | Pending => job_attempt j = 0%Z /\ job_history j = []
     | Running =>
       (0 < job_attempt j)%Z /\ Z.of_nat (length (job_history j)) = (job_attempt j - 1)%Z
     | Failed _ a =>
       a = job_attempt j /\ (0 < job_attempt j < run_limit j)%Z
       /\ Z.of_nat (length (job_history j)) = job_attempt j
     | DeadLettered _ a =>
       (0 < job_attempt j)%Z /\ Z.of_nat (length (job_history j)) = job_attempt j
       /\ a = job_attempt j
     | Completed =>
       (0 < job_attempt j)%Z /\ Z.of_nat (length (job_history j)) = job_attempt j
     | Cancelled => False
     end.

Lemma job_new_ok id now t k (p : J) : job_ok (job_new id now t k p).
Proof. split_and!; simpl; try done; ilia. Qed.

(** Claiming a pending or failed job starts its next attempt, within the limit. *)
Lemma mark_running_ok now j :
  job_ok j ->
  match job_status j with Pending => True | Failed _ _ => True | _ => False end ->
  job_ok (mark_running now j).
Proof.
  intros (Hu & Hb & Hs) Hst. unfold job_ok, run_limit in *. simpl.
  assert (Hlt : (job_attempt j < Z.max 1 (max_attempts (job_retry_policy j)))%Z).
  { destruct (job_status j); try done; destruct Hs; lia. }
  rewrite wrapU_id by ilia. split_and!; [done | ilia | ilia | lia |].
  destruct (job_status j); try done; [destruct Hs as [-> ->]; simpl; lia|].
  destruct Hs as (_ & _ & ->). lia.
Qed.

Lemma mark_completed_ok s n j :
  job_ok j -> job_status j = Running -> job_ok (mark_completed s n j).
Proof.
  intros (Hu & Hb & Hs) Hst. rewrite Hst in Hs. unfold job_ok, run_limit in *. simpl.
  rewrite length_app. simpl. split_and!; try done; lia.
Qed.

Lemma mark_failed_ok e s n j :
  job_ok j -> job_status j = Running -> job_ok (mark_failed delay e s n j).
Proof.
  intros (Hu & Hb & Hs) Hst. rewrite Hst in Hs. unfold mark_failed, should_retry.
  destruct (Z.ltb_spec (job_attempt j) (max_attempts (job_retry_policy j)));
    unfold job_ok, run_limit in *; simpl; rewrite length_app; simpl; split_and!; try done; lia.
Qed.

Lemma with_scheduled_at_ok o j : job_ok j -> job_ok (with_scheduled_at o j).
Proof. done. Qed.

Lemma mark_failed_status e s n (j : Job J) :
  (exists m a, job_status (mark_failed delay e s n j) = Failed m a)
  \/ (exists m a, job_status (mark_failed delay e s n j) = DeadLettered m a).
Proof. unfold mark_failed. destruct (should_retry _ _); [left | right]; by do 2 eexists. Qed.

(** ** Executors and administrators over one store

    [flight] are the jobs executors have claimed and not finished, as the local
    copies they hold; [known] are the identifiers enqueued and not deleted. *)
Record Sys := mkSys {
  sys_store : InMemoryJobStore J;
  flight : list (Job J);
  known : gset JobId
}.

Inductive job_step : Sys -> Sys -> Prop :=
| step_enqueue st fl kn id now t k p pol :
    id ∉ kn -> is_u32 (max_attempts pol) ->
    let j := mkJob id t k p Pending pol 0 now now None [] in
    job_step (mkSys st fl kn) (mkSys (enqueue st j).1 fl ({[id]} ∪ kn))
| step_claim st fl kn order now tenant st' j :
    (forall m, order m ≡ₚ map snd (map_to_list m)) ->
    claim_next order now st tenant = (st', Some j) ->
    job_step (mkSys st fl kn) (mkSys st' (j :: fl) kn)
| step_execute st fl1 fl2 kn handlers c j :
    job_step (mkSys st (fl1 ++ j :: fl2) kn)
      (mkSys (execute_job handlers c st j).1.1 (fl1 ++ fl2) kn)
| step_retry st fl kn now t id :
    job_step (mkSys st fl kn) (mkSys (retry_dead_letter now st t id).1 fl kn)
| step_delete st fl kn t id :
    job_step (mkSys st fl kn)
      (mkSys (delete_dead_letter st t id).1 fl
         (if delete_dead_letter st t id is (_, Ok _) then kn ∖ {[id]} else kn)).

Definition sys_start : Sys := mkSys job_store_new [] ∅.

Definition sys_ok (s : Sys) : Prop :=
  (forall id j, jobs (sys_store s) !! id = Some j -> job_id j = id /\ job_ok j)
  /\ (forall id e, dead_letters (sys_store s) !! id = Some e ->
       job_id (dl_job e) = id /\ job_ok (dl_job e)
       /\ exists m a, job_status (dl_job e) = DeadLettered m a)
  /\ (forall id, jobs (sys_store s) !! id = None \/ dead_letters (sys_store s) !! id = None)
  /\ (forall id, id ∈ known s <->
       is_Some (jobs (sys_store s) !! id) \/ is_Some (dead_letters (sys_store s) !! id))
  /\ NoDup (map job_id (flight s))
  /\ (forall j, j ∈ flight s <->
       jobs (sys_store s) !! job_id j = Some j /\ job_status j = Running).

Lemma sys_start_ok : sys_ok sys_start.
Proof.
  unfold sys_ok, sys_start. simpl. split_and!.
  - intros id j. by rewrite lookup_empty.
  - intros id j. by rewrite lookup_empty.
  - intros id. left. apply lookup_empty.
  - intros id. rewrite !lookup_empty, !is_Some_alt. set_solver.
  - constructor.
  - intros j. rewrite lookup_empty. split; [by intros ?%not_elem_of_nil | by intros []].
Qed.

(** Writing a job back over one with the same identifier. *)
Lemma insert_job_ok (m : gmap JobId (Job J)) j :
  (forall id j, m !! id = Some j -> job_id j = id /\ job_ok j) -> job_ok j ->
  forall id j', <[job_id j := j]> m !! id = Some j' -> job_id j' = id /\ job_ok j'.
Proof.
  intros Hm Hj id j' H. apply lookup_insert_Some in H as [[<- <-]|[_ H]]; [done | by apply Hm].
Qed.

Lemma claim_next_spec (order : gmap JobId (Job J) -> list (Job J)) now st tenant st' j :
  (forall m, order m ≡ₚ map snd (map_to_list m)) ->
  (forall id j, jobs st !! id = Some j -> job_id j = id /\ job_ok j) ->
  claim_next order now st tenant = (st', Some j) ->
  exists j0, jobs st !! job_id j0 = Some j0 /\ claimable now tenant j0 = true
    /\ j = mark_running now j0
    /\ st' = {| jobs := <[job_id j0 := j]> (jobs st); dead_letters := dead_letters st |}
    /\ forall id j', jobs st !! id = Some j' -> claimable now tenant j' = true ->
         (job_created_at j0 <= job_created_at j')%Z.
Proof.
  intros Hord Hm. unfold claim_next.
  pose proof (sort_by_perm older (List.filter (claimable now tenant) (order (jobs st)))) as Hperm.
  assert (Hsort : StronglySorted (fun x y => older x y = true)
      (sort_by older (List.filter (claimable now tenant) (order (jobs st))))).
  { apply sort_by_sorted; unfold older; intros *; rewrite !Z.leb_le; lia. }
  assert (Hmem : forall j', j' ∈ List.filter (claimable now tenant) (order (jobs st)) <->
      (jobs st !! job_id j' = Some j' /\ claimable now tenant j' = true)).
  { intros j'. rewrite list_elem_of_In, filter_In, <- list_elem_of_In, Hord.
    rewrite list_elem_of_fmap. split.
    - intros [([id x] & -> & Hx) Hc]. apply elem_of_map_to_list in Hx.
      destruct (Hm _ _ Hx) as [<- _]. done.
    - intros [Hx Hc]. split; [|done]. exists (job_id j', j').
      split; [done|]. by apply elem_of_map_to_list. }
  destruct (sort_by _ _) as [|j0 rest]; [done|].
  assert (Hj0 : j0 ∈ List.filter (claimable now tenant) (order (jobs st))).
  { rewrite <- Hperm. left. }
  apply Hmem in Hj0 as [Hj0 Hc]. rewrite Hj0. intros [= <- <-].
  exists j0. split_and!; try done. intros id j' Hj' Hc'.
  destruct (Hm _ _ Hj') as [<- _].
  assert (Hin : j' ∈ j0 :: rest) by (rewrite Hperm; by apply Hmem).
  apply StronglySorted_inv in Hsort as [_ Hall]. rewrite Forall_forall in Hall.
  apply elem_of_cons in Hin as [->|Hin]; [lia|]. specialize (Hall _ Hin).
  unfold older in Hall. lia.
Qed.

(** The job an executor finishes is in the store, as it holds it, and no other
    executor holds it. *)
Lemma flight_split st fl1 fl2 kn j :
  sys_ok (mkSys st (fl1 ++ j :: fl2) kn) ->
  jobs st !! job_id j = Some j /\ job_status j = Running /\ job_ok j
  /\ NoDup (map job_id (fl1 ++ fl2))
  /\ forall x, x ∈ fl1 ++ fl2 <-> (x ∈ fl1 ++ j :: fl2 /\ job_id x <> job_id j).
Proof.
  intros (Hj & _ & _ & _ & Hnd & Hf). simpl in *.
  destruct (proj1 (Hf j)) as [Hin Hr]; [set_solver|].
  rewrite !map_app in *. simpl in *.
  rewrite (Permutation_app_comm (map job_id fl1)) in Hnd. simpl in Hnd.
  apply NoDup_cons in Hnd as [Hnin Hnd]. rewrite (Permutation_app_comm (map job_id fl2)) in Hnd.
  split_and!; [done | done | by eapply Hj | done |].
  intros x. split.
  - intros Hx. split; [set_solver|]. intros Hid. apply Hnin.
    rewrite <- Hid. apply elem_of_app in Hx. apply elem_of_app.
    destruct Hx as [Hx|Hx]; [right|left]; by apply list_elem_of_fmap_2.
  - intros [Hx Hid]. apply elem_of_app in Hx as [Hx|[->|Hx]%elem_of_cons]; set_solver.
Qed.

Lemma put_back_ok st fl1 fl2 kn j j' :
  sys_ok (mkSys st (fl1 ++ j :: fl2) kn) ->
  job_ok j' -> job_id j' = job_id j -> job_status j' <> Running ->
  sys_ok (mkSys {| jobs := <[job_id j := j']> (jobs st); dead_letters := dead_letters st |}
            (fl1 ++ fl2) kn).
Proof.
  intros Hs Hok Hid Hst. destruct (flight_split _ _ _ _ _ Hs) as (Hj & Hr & _ & Hnd & Hfl).
  destruct Hs as (HA & HB & HC & HD & _ & HF). simpl in *. split_and!; simpl.
  - rewrite <- Hid. by apply insert_job_ok.
  - exact HB.
  - intros id. destruct (decide (id = job_id j)) as [->|Hne]; [|by rewrite lookup_insert_ne].
    right. destruct (HC (job_id j)); congruence.
  - intros id. rewrite HD. destruct (decide (id = job_id j)) as [->|Hne];
      [|by rewrite lookup_insert_ne]. rewrite lookup_insert_eq, Hj. naive_solver.
  - exact Hnd.
  - intros x. rewrite Hfl, HF. destruct (decide (job_id x = job_id j)) as [->|Hne].
    + rewrite lookup_insert_eq. split; [naive_solver|]. intros [[= ->] ?]. done.
    + rewrite lookup_insert_ne by done. naive_solver.
Qed.

Lemma bury_ok st fl1 fl2 kn j e :
  sys_ok (mkSys st (fl1 ++ j :: fl2) kn) ->
  job_id (dl_job e) = job_id j -> job_ok (dl_job e) ->
  (exists m a, job_status (dl_job e) = DeadLettered m a) ->
  sys_ok (mkSys {| jobs := delete (job_id j) (jobs st);
                   dead_letters := <[job_id j := e]> (dead_letters st) |} (fl1 ++ fl2) kn).
Proof.
  intros Hs Hid Hok Hst. destruct (flight_split _ _ _ _ _ Hs) as (Hj & Hr & _ & Hnd & Hfl).
  destruct Hs as (HA & HB & HC & HD & _ & HF). simpl in *. split_and!; simpl.
  - intros id x [_ Hx]%lookup_delete_Some. by apply HA.
  - intros id x [[<- <-]|[_ Hx]]%lookup_insert_Some; [done | by apply HB].
  - intros id. destruct (decide (id = job_id j)) as [->|Hne]; [left; apply lookup_delete_eq|].
    rewrite lookup_delete_ne, lookup_insert_ne by done. apply HC.
  - intros id. rewrite HD. destruct (decide (id = job_id j)) as [->|Hne].
    + rewrite lookup_insert_eq, Hj. naive_solver.
    + by rewrite lookup_delete_ne, lookup_insert_ne by done.
  - exact Hnd.
  - intros x. rewrite Hfl, HF. destruct (decide (job_id x = job_id j)) as [->|Hne].
    + rewrite lookup_delete_eq. naive_solver.
    + rewrite lookup_delete_ne by done. naive_solver.
Qed.

(** What an execution does to the store: the job comes back finished or failed,
    or it moves to the dead letters. *)
Lemma execute_job_spec handlers c st j :
  jobs st !! job_id j = Some j -> job_status j = Running -> job_ok j ->
  exists j', job_ok j' /\ job_id j' = job_id j /\ job_status j' <> Running
    /\ ((execute_job handlers c st j).1.1
         = {| jobs := <[job_id j := j']> (jobs st); dead_letters := dead_letters st |}
        \/ exists n r m a, job_status j' = DeadLettered m a
            /\ (execute_job handlers c st j).1.1
               = {| jobs := delete (job_id j) (jobs st);
                    dead_letters := <[job_id j := mkDeadLetter j' n r]> (dead_letters st) |}).
Proof.
  intros Hj Hr Hok.
  assert (Hfail : forall e, job_ok (mark_failed delay e (started c) (finished c) j)
     /\ job_id (mark_failed delay e (started c) (finished c) j) = job_id j
     /\ job_status (mark_failed delay e (started c) (finished c) j) <> Running).
  { intros e. split_and!; [by apply mark_failed_ok | unfold mark_failed; by destruct (should_retry _ _)|].
    intros H. destruct (mark_failed_status e (started c) (finished c) j)
      as [(m & a & Hst)|(m & a & Hst)]; congruence. }
  unfold execute_job, store_and, job_update.
  destruct (get_handler handlers (job_kind j)) as [h|].
  - destruct (h j) as [|e| |d].
    + exists (mark_completed (started c) (finished c) j).
      split_and!; [by apply mark_completed_ok | done | done|]. left. simpl. by rewrite Hj.
    + destruct (Hfail e) as (Hf1 & Hf2 & Hf3). rewrite Hf2, Hj.
      set (jf := mark_failed delay e (started c) (finished c) j) in *.
      destruct (mark_failed_status e (started c) (finished c) j) as [(m & a & Est)|(m & a & Est)];
        fold jf in Est; rewrite Est.
      { exists jf. split_and!; try done. left. done. }
      exists (with_state jf (DeadLettered e (job_attempt jf)) (job_attempt jf) (later c)
                (job_scheduled_at jf) (job_history jf)).
      destruct Hf1 as (Hu & Hb & Hs). rewrite Est in Hs. destruct Hs as (Hs1 & Hs2 & _).
      split_and!; [by split_and!; try done; apply Hb|done|done|].
      right. do 4 eexists. split; [done|]. unfold dead_letter. simpl. rewrite Hf2. f_equal.
      apply delete_insert_eq.
    + destruct (Hfail "retry requested"%string) as (Hf1 & Hf2 & Hf3).
      exists (with_scheduled_at None (mark_failed delay "retry requested" (started c) (finished c) j)).
      split_and!; [done|done|done|]. left. simpl. by rewrite Hf2, Hj.
    + destruct (Hfail "retry after delay"%string) as (Hf1 & Hf2 & Hf3).
      exists (with_scheduled_at (Some (later c + from_std d)%Z)
                (mark_failed delay "retry after delay" (started c) (finished c) j)).
      split_and!; [done|done|done|]. left. simpl. by rewrite Hf2, Hj.
  - destruct (Hfail ("no handler for job kind: " +:+ show_kind (job_kind j))) as (Hf1 & Hf2 & Hf3).
    exists (mark_failed delay ("no handler for job kind: " +:+ show_kind (job_kind j))
              (started c) (finished c) j).
    split_and!; try done. left. simpl. by rewrite Hf2, Hj.
Qed.

Lemma enqueue_step_ok st fl kn id now t k p pol :
  sys_ok (mkSys st fl kn) -> id ∉ kn -> is_u32 (max_attempts pol) ->
  sys_ok (mkSys (enqueue st (mkJob id t k p Pending pol 0 now now None [])).1 fl ({[id]} ∪ kn)).
Proof.
  intros (HA & HB & HC & HD & HE & HF) Hid Hpol. simpl in *.
  assert (Hn : jobs st !! id = None /\ dead_letters st !! id = None).
  { split; apply eq_None_not_Some; intros Hs; apply Hid, HD; auto. }
  destruct Hn as [Hnj Hnd]. unfold enqueue. simpl. rewrite Hnj. split_and!; simpl.
  - intros i j Hi. apply (insert_job_ok (jobs st)
      (mkJob id t k p Pending pol 0 now now None [])) in Hi; [done | exact HA |].
    split_and!; simpl; try done. unfold run_limit. simpl. lia.
  - exact HB.
  - intros i. destruct (decide (i = id)) as [->|Hne]; [by right|].
    rewrite lookup_insert_ne by done. apply HC.
  - intros i. rewrite elem_of_union, elem_of_singleton, HD.
    destruct (decide (i = id)) as [->|Hne]; [rewrite lookup_insert_eq; naive_solver|].
    rewrite lookup_insert_ne by done. naive_solver.
  - exact HE.
  - intros x. rewrite HF. destruct (decide (job_id x = id)) as [<-|Hne].
    + rewrite lookup_insert_eq, Hnj. split; [naive_solver|]. by intros [[= <-] ?].
    + by rewrite lookup_insert_ne by done.
Qed.

Lemma claim_step_ok st fl kn order now tenant st' j :
  sys_ok (mkSys st fl kn) -> (forall m, order m ≡ₚ map snd (map_to_list m)) ->
  claim_next order now st tenant = (st', Some j) -> sys_ok (mkSys st' (j :: fl) kn).
Proof.
  intros (HA & HB & HC & HD & HE & HF) Hord H. simpl in *.
  destruct (claim_next_spec order now st tenant st' j Hord HA H)
    as (j0 & Hj0 & Hc & -> & -> & _). clear H.
  assert (Hst : match job_status j0 with Pending => True | Failed _ _ => True | _ => False end).
  { unfold claimable in Hc. by destruct (job_status j0). }
  assert (Hok : job_ok (mark_running now j0)) by (apply mark_running_ok; [by eapply HA | done]).
  split_and!; simpl.
  - intros id x. by apply (insert_job_ok (jobs st) (mark_running now j0)).
  - exact HB.
  - intros id. destruct (decide (id = job_id j0)) as [->|Hne]; [|by rewrite lookup_insert_ne].
    right. destruct (HC (job_id j0)); congruence.
  - intros id. rewrite HD. destruct (decide (id = job_id j0)) as [->|Hne];
      [|by rewrite lookup_insert_ne]. rewrite lookup_insert_eq, Hj0. naive_solver.
  - apply NoDup_cons. split; [|done]. intros (x & Hx & Hin)%list_elem_of_fmap.
    apply HF in Hin as [Hin Hr]. rewrite <- Hx, Hj0 in Hin. injection Hin as ->.
    by rewrite Hr in Hst.
  - intros x. rewrite elem_of_cons, HF. destruct (decide (job_id x = job_id j0)) as [Hx|Hne].
    + rewrite Hx, lookup_insert_eq, Hj0. split.
      * intros [->|[[= ->] Hr]]; [done|]. by rewrite Hr in Hst.
      * intros [[= <-] _]. by left.
    + rewrite lookup_insert_ne by done. split; [|by right]. intros [->|?]; [by destruct Hne|done].
Qed.

Lemma retry_step_ok st fl kn now t id :
  sys_ok (mkSys st fl kn) -> sys_ok (mkSys (retry_dead_letter now st t id).1 fl kn).
Proof.
  intros Hs. assert (Hs' := Hs). destruct Hs' as (HA & HB & HC & HD & HE & HF). simpl in *.
  unfold retry_dead_letter. destruct (dead_letters st !! id) as [e|] eqn:He; [|done].
  destruct (HB _ _ He) as (Hid & Hok & _). destruct (decide _); simpl.
  { rewrite insert_delete_id by done. by destruct st. }
  assert (Hnj : jobs st !! id = None) by (destruct (HC id); congruence).
  rewrite Hid. split_and!; simpl.
  - intros i j. rewrite <- Hid. apply (insert_job_ok (jobs st)
      (with_state (dl_job e) Pending 0 now None [])); [exact HA|].
    destruct Hok as (Hu & Hb & _). split_and!; try done. unfold run_limit. simpl. lia.
  - intros i x [_ Hx]%lookup_delete_Some. by apply HB.
  - intros i. destruct (decide (i = id)) as [->|Hne]; [right; apply lookup_delete_eq|].
    rewrite lookup_delete_ne, lookup_insert_ne by done. apply HC.
  - intros i. rewrite HD. destruct (decide (i = id)) as [->|Hne].
    + rewrite lookup_insert_eq, He. naive_solver.
    + by rewrite lookup_delete_ne, lookup_insert_ne by done.
  - exact HE.
  - intros x. rewrite HF. destruct (decide (job_id x = id)) as [->|Hne].
    + rewrite lookup_insert_eq, Hnj. split; [naive_solver|]. by intros [[= <-] ?].
    + by rewrite lookup_insert_ne by done.
Qed.

Lemma delete_step_ok st fl kn t id :
  sys_ok (mkSys st fl kn) ->
  sys_ok (mkSys (delete_dead_letter st t id).1 fl
            (if delete_dead_letter st t id is (_, Ok _) then kn ∖ {[id]} else kn)).
Proof.
  intros Hs. assert (Hs' := Hs). destruct Hs' as (HA & HB & HC & HD & HE & HF). simpl in *.
  unfold delete_dead_letter. destruct (dead_letters st !! id) as [e|] eqn:He; [|done].
  destruct (decide _); [done|]. simpl.
  assert (Hnj : jobs st !! id = None) by (destruct (HC id); congruence).
  split_and!; simpl; [exact HA | | | | exact HE | exact HF].
  - intros i x [_ Hx]%lookup_delete_Some. by apply HB.
  - intros i. destruct (HC i) as [?|Hn]; [by left|]. right. by apply lookup_delete_None; right.
  - intros i. rewrite elem_of_difference, elem_of_singleton, HD.
    destruct (decide (i = id)) as [->|Hne].
    + rewrite lookup_delete_eq, Hnj. rewrite !is_Some_alt. naive_solver.
    + rewrite lookup_delete_ne by done. naive_solver.
Qed.

Lemma job_step_ok s s' : job_step s s' -> sys_ok s -> sys_ok s'.
Proof.
  intros Hstep Hs. destruct Hstep as [st fl kn id now t k p pol Hid Hpol j|
    st fl kn order now tenant st' j Hord Hc|st fl1 fl2 kn handlers c j|st fl kn now t id|
    st fl kn t id].
  - by apply enqueue_step_ok.
  - by eapply claim_step_ok.
  - destruct (flight_split _ _ _ _ _ Hs) as (Hj & Hr & Hok & _).
    destruct (execute_job_spec handlers c st j Hj Hr Hok)
      as (j' & Hok' & Hid & Hst & [->|(n & r & m & a & Hdl & ->)]).
    + by apply (put_back_ok _ _ _ _ j j').
    + apply bury_ok; [done | done | done | eauto].
  - by apply retry_step_ok.
  - by apply delete_step_ok.
Qed.

Lemma job_reachable_ok s : rtc job_step sys_start s -> sys_ok s.
Proof.
  intros Hrun. pose proof sys_start_ok as H0. revert H0. induction Hrun; eauto using job_step_ok.
Qed.

(** C16: the job system is safe: let any number of executors claim jobs from one
    store and execute them with any handlers, while jobs are enqueued and
    administrators retry and delete dead letters, in any interleaving.  Then a
    job is never executed by two executors at once; no job is lost or duplicated
    (every identifier enqueued and not deleted is either in the store or among
    the dead letters, not both); and no job is attempted more often than its
    retry policy allows (at least once), each finished attempt being on record. *)
Theorem job_system_safe (s : Sys) :
  rtc job_step sys_start s ->
  NoDup (map job_id (flight s))
  /\ (forall j, j ∈ flight s -> jobs (sys_store s) !! job_id j = Some j)
  /\ (forall id, id ∈ known s <->
       is_Some (jobs (sys_store s) !! id) \/ is_Some (dead_letters (sys_store s) !! id))
  /\ (forall id, jobs (sys_store s) !! id = None \/ dead_letters (sys_store s) !! id = None)
  /\ (forall id j, jobs (sys_store s) !! id = Some j ->
       (job_attempt j <= run_limit j)%Z
       /\ Z.of_nat (length (job_history j))
          = (if decide (job_status j = Running) then job_attempt j - 1 else job_attempt j)%Z).
Proof.
  intros Hrun. apply job_reachable_ok in Hrun as (HA & _ & HC & HD & HE & HF). split_and!; try done.
  - intros j Hj. by apply HF.
  - intros id j Hj. destruct (HA _ _ Hj) as [_ (_ & Hb & Hst)]. split; [lia|].
    destruct (job_status j); simpl; try case_decide; try done; try tauto;
      repeat match goal with H : _ /\ _ |- _ => destruct H end; try done; try lia.
    all: by rewrite H, H0.
Qed.

(** An exhausted job whose handler asks for another retry is stranded: when
    a job has used up its attempts and its handler returns [RetryNow] or
    [RetryAfter], or no handler is registered for it, the job is marked dead but
    stays in the store: it is not among the dead letters, retrying or deleting
    the dead letter reports that there is none, and no claim ever returns it. *)
Theorem exhausted_retry_is_stranded (s : Sys) handlers c j fl1 fl2 :
  rtc job_step sys_start s -> flight s = fl1 ++ j :: fl2 ->
  should_retry (job_retry_policy j) (job_attempt j) = false ->
  match get_handler handlers (job_kind j) with
  | None => True
  | Some h => match h j with RetryNow | RetryAfter _ => True | _ => False end
  end ->
  let st' := (execute_job handlers c (sys_store s) j).1.1 in
  exists j', jobs st' !! job_id j = Some j'
    /\ (exists m, job_status j' = DeadLettered m (job_attempt j))
    /\ dead_letters st' !! job_id j = None
    /\ (forall now t, (retry_dead_letter now st' t (job_id j)).2 = Err (JobNotFound (job_id j)))
    /\ (forall t, (delete_dead_letter st' t (job_id j)).2 = Err (JobNotFound (job_id j)))
    /\ (forall now t, claimable now t j' = false).
Proof.
  intros Hs%job_reachable_ok Hfl Hret Hh. destruct s as [st fl kn]. simpl in *. subst fl.
  destruct (flight_split _ _ _ _ _ Hs) as (Hj & Hr & _).
  assert (Hnd : dead_letters st !! job_id j = None).
  { destruct Hs as (_ & _ & HC & _). destruct (HC (job_id j)); simpl in *; congruence. }
  assert (Hmf : forall e, job_id (mark_failed delay e (started c) (finished c) j) = job_id j
    /\ job_status (mark_failed delay e (started c) (finished c) j) = DeadLettered e (job_attempt j)).
  { intros e. unfold mark_failed. by rewrite Hret. }
  assert (Hend : exists j' e, (execute_job handlers c st j).1.1
      = {| jobs := <[job_id j := j']> (jobs st); dead_letters := dead_letters st |}
      /\ job_status j' = DeadLettered e (job_attempt j)).
  { unfold execute_job, store_and, job_update.
    destruct (get_handler handlers (job_kind j)) as [h|].
    - destruct (h j) as [| | |d]; try done; simpl;
        [destruct (Hmf "retry requested"%string) as [-> Hst]
        |destruct (Hmf "retry after delay"%string) as [-> Hst]]; rewrite Hj; simpl; eauto.
    - destruct (Hmf ("no handler for job kind: " +:+ show_kind (job_kind j))) as [-> Hst].
      rewrite Hj. simpl. eauto. }
  destruct Hend as (j' & e & -> & Hst). exists j'. simpl. rewrite lookup_insert_eq.
  unfold retry_dead_letter, delete_dead_letter, claimable. simpl. rewrite Hnd, Hst.
  split_and!; eauto.
Qed.
End Executor.

(** ** A sample: one job without retries, claimed by one executor *)
Module Sample.
Definition values (m : gmap JobId (Job unit)) : list (Job unit) := map snd (map_to_list m).
Definition kind : JobKind := Custom "report".
Definition sample_job : Job unit :=
  mkJob (mkJobId 1) (mkTenantId 1) kind tt Pending no_retry 0 0 0 None [].
Definition running : Job unit := mark_running 5 sample_job.
Definition claimed : Sys :=
  mkSys {| jobs := <[mkJobId 1 := running]> (<[mkJobId 1 := sample_job]> ∅); dead_letters := ∅ |}
    [running] ({[mkJobId 1]} ∪ ∅).
Definition no_delay (_ : RetryPolicy) (_ : Z) : Z := 0.
Definition show_kind (_ : JobKind) : string := "kind".
Definition show_id (_ : JobId) : string := "id".
Definition retrying : list (string * JobHandler (J:=unit)) := [("report"%string, fun _ => RetryNow)].
Definition clock : Clock := {| started := 5; finished := 6; later := 7 |}.

Lemma claimed_reached :
  rtc (job_step no_delay show_kind show_id) sys_start claimed.
Proof.
  eapply rtc_l.
  { apply (step_enqueue _ _ _ job_store_new [] ∅ (mkJobId 1) 0 (mkTenantId 1) kind tt no_retry);
      [apply not_elem_of_empty | vm_compute; split; congruence]. }
  eapply rtc_l; [|apply rtc_refl].
  eapply (step_claim _ _ _ _ [] _ values 5 None); [done | reflexivity].
Qed.

Lemma job_system_safe_witness :
  flight claimed = [running] /\ NoDup (map job_id (flight claimed)).
Proof.
  split; [reflexivity|].
  destruct (job_system_safe no_delay show_kind show_id claimed claimed_reached) as [H _]. exact H.
Defined.

Lemma exhausted_retry_is_stranded_witness :
  exists j', jobs (execute_job no_delay show_kind show_id retrying clock (sys_store claimed)
                     running).1.1 !! mkJobId 1 = Some j'
    /\ job_status j' = DeadLettered "retry requested" 1
    /\ forall now t, claimable now t j' = false.
Proof.
  destruct (exhausted_retry_is_stranded no_delay show_kind show_id claimed retrying clock running
              [] [] claimed_reached eq_refl eq_refl I) as (j' & Hj & _ & _ & _ & _ & Hc).
  exists j'. split; [exact Hj|]. split; [|exact Hc].
  assert (E : jobs (execute_job no_delay show_kind show_id retrying clock (sys_store claimed)
                     running).1.1 !! mkJobId 1
    = Some (with_scheduled_at None (mark_failed no_delay "retry requested" 5 6 running)))
    by (vm_compute; reflexivity).
  change (job_id running) with (mkJobId 1) in Hj. rewrite E in Hj. injection Hj as <-. reflexivity.
Defined.
End Sample.

