(* ===== verification/OfflineQueue.v ===== *)
(** * The desktop's offline command queue: [desktop/src/command_queue.rs]

    The SQLite table is the list of its rows, texts as the code binds them, in
    insertion order; each statement is the function its SQL denotes.  Whether the
    runtime, the pool and the statement of a call succeed is read from a schedule
    of outcomes, so that every method's failure branches are there; that a call is made
    where it must not block, and panics, is in [DesktopSync].  The printers
    and parsers of UUIDs, JSON and times are their crates' ([Texts], [QueueCodec]); the
    order of rows with equal [created_at] is SQLite's ([order_by_created]).

    The theorem: the table of text rows implements a list of typed commands,
    whatever calls are made and whatever statements fail, and [list_pending]
    reads back exactly the commands to send. *)

From S2P Require Import Prelude Core.

(** ** SQLite *)

(** A database handle: the table, and the outcome of each coming call, [None]
    when the runtime is created, the pool obtained and the statement executed. *)
Record Sqlite (T : Type) := mkSqlite {
  table : T;
  outcome : nat -> option string;
  calls : nat
}.
Arguments mkSqlite {T}.
Arguments table {T}.
Arguments outcome {T}.
Arguments calls {T}.

Definition execute {T A} (db : Sqlite T) (statement : T -> Result string (T * A))
  : Sqlite T * Result string A :=
  let after t := {| table := t; outcome := outcome db; calls := S (calls db) |} in
  match outcome db (calls db) with
  | Some err => (after (table db), Err err)
  | None =>
    match statement (table db) with
    | Ok (t, a) => (after t, Ok a)
    | Err err => (after (table db), Err err)
    end
  end.

(** An [UPDATE] or [DELETE], which cannot violate a constraint here. *)
Definition write {T} (db : Sqlite T) (f : T -> T) : Sqlite T :=
  (execute db (fun t => Ok (f t, tt))).1.

Lemma execute_calls {T A} (db : Sqlite T) (f : T -> Result string (T * A)) :
  calls (execute db f).1 = S (calls db) /\ outcome (execute db f).1 = outcome db.
Proof. unfold execute. by repeat case_match. Qed.

Lemma table_write {T} (db : Sqlite T) (f : T -> T) :
  table (write db f) = match outcome db (calls db) with None => f (table db) | Some _ => table db end.
Proof. unfold write, execute. by case_match. Qed.

(** A read leaves the table alone. *)
Lemma execute_read {T A} (db : Sqlite T) (f : T -> Result string A) :
  table (execute db (fun t => a ← f t; Ok (t, a))).1 = table db.
Proof. unfold execute. case_match; [done|]. by destruct (f _). Qed.

(** ** The data *)

(** @src crates/desktop/src/types.rs 21-29 [CommandStatus] *)
Inductive CommandStatus : Type := Pending | Syncing | Synced | Failed.

#[global] Instance CommandStatus_eq_dec : EqDecision CommandStatus.
Proof. solve_decision. Defined.

(** @src crates/desktop/src/types.rs 32-39 [CommandStatus::as_str] *)
Definition as_str (self : CommandStatus) : string :=
  match self with
  | Pending => "Pending" | Syncing => "Syncing" | Synced => "Synced" | Failed => "Failed"
  end.

(** @src crates/desktop/src/command_queue.rs 34-41 [CommandStatus] *)
Definition decode_status (s : string) : Result string CommandStatus :=
  if String.eqb s "Pending" then Ok Pending
  else if String.eqb s "Syncing" then Ok Syncing
  else if String.eqb s "Synced" then Ok Synced
  else if String.eqb s "Failed" then Ok Failed
  else Err ("invalid CommandStatus: " +:+ s).

(** @src crates/desktop/src/types.rs 42-54 [QueuedCommand] *)
Record QueuedCommand (J : Type) := mkQueuedCommand {
  id : Uuid;
  tenant_id : TenantId;
  command_type : string;
  aggregate_id : AggregateId;
  payload : J;
  status : CommandStatus;
  created_at : DateTime;
  synced_at : option DateTime;
  error : option string
}.
Arguments mkQueuedCommand {J}.
Arguments id {J}.
Arguments tenant_id {J}.
Arguments command_type {J}.
Arguments aggregate_id {J}.
Arguments payload {J}.
Arguments status {J}.
Arguments created_at {J}.
Arguments synced_at {J}.
Arguments error {J}.

(** A row of the table the code creates.

    @src crates/desktop/src/command_queue.rs 91-107 [CommandQueue::ensure_initialized] *)
Record CommandRow := mkCommandRow {
  row_id : string;
  row_tenant_id : string;
  row_command_type : string;
  row_aggregate_id : string;
  row_payload : string;
  row_status : string;
  row_created_at : string;
  row_synced_at : option string;
  row_error : option string
}.

(** The columns an [UPDATE] sets. *)
Definition set_row (r : CommandRow) (st : string) (synced err : option string) : CommandRow :=
  {| row_id := row_id r; row_tenant_id := row_tenant_id r;
     row_command_type := row_command_type r; row_aggregate_id := row_aggregate_id r;
     row_payload := row_payload r; row_status := st; row_created_at := row_created_at r;
     row_synced_at := synced; row_error := err |}.

Definition update_where (p : CommandRow -> bool) (f : CommandRow -> CommandRow)
    (rows : list CommandRow) : list CommandRow :=
  map (fun r => if p r then f r else r) rows.

(** The order [BINARY] collation gives two texts. *)
Definition text_lt (a b : string) : bool := String.ltb a b.
Definition created_le (r r' : CommandRow) : bool := String.leb (row_created_at r) (row_created_at r').

(** The texts of JSON values. *)
Class QueueCodec (J : Type) := {
  show_json : J -> string;
  parse_json : string -> Result string J
}.

(** [ORDER BY created_at ASC], ties in any order. *)
Class CreatedOrder (order_by_created : list CommandRow -> list CommandRow) : Prop := {
  ordered_perm rows : order_by_created rows ≡ₚ rows;
  ordered_sorted rows : StronglySorted (fun r r' => created_le r r' = true) (order_by_created rows)
}.

(** ** The operations *)
Section Queue.
Context {J : Type} `{Texts} `{QueueCodec J} (order_by_created : list CommandRow -> list CommandRow).
Implicit Types (self : Sqlite (list CommandRow)).

(** The bindings of the [INSERT].

    @src crates/desktop/src/command_queue.rs 164-191 [CommandQueue::enqueue] *)
Definition inserted_row (cmd : QueuedCommand J) : CommandRow :=
  {| row_id := show_uuid (id cmd); row_tenant_id := show_uuid (tenant_uuid (tenant_id cmd));
     row_command_type := command_type cmd;
     row_aggregate_id := show_uuid (aggregate_uuid (aggregate_id cmd));
     row_payload := show_json (payload cmd); row_status := as_str (status cmd);
     row_created_at := to_rfc3339 (created_at cmd); row_synced_at := None; row_error := None |}.

(** [id] is the primary key. *)
Definition insert_row (row : CommandRow) (rows : list CommandRow)
  : Result string (list CommandRow * unit) :=
  if existsb (fun r => String.eqb (row_id r) (row_id row)) rows
  then Err "failed to insert queued command"%string
  else Ok (rows ++ [row], tt).

(** The fresh identifier and the clock are arguments.

    @src crates/desktop/src/command_queue.rs 125-198 [CommandQueue::enqueue] *)
Definition enqueue self (fresh : Uuid) (now : DateTime) (tenant : TenantId) (ty : string)
    (aggregate : AggregateId) (value : J) : Sqlite (list CommandRow) * QueuedCommand J :=
  let cmd := {| id := fresh; tenant_id := tenant; command_type := ty; aggregate_id := aggregate;
                payload := value; status := Pending; created_at := now; synced_at := None;
                error := None |} in
  ((execute self (insert_row (inserted_row cmd))).1, cmd).

(** @src crates/desktop/src/command_queue.rs 440-497 [row_to_command] *)
Definition row_to_command (row : CommandRow) : Result string (QueuedCommand J) :=
  rid ← map_err (fun _ => "invalid UUID in command_queue.id"%string) (parse_uuid (row_id row));
  rtenant ← map_err (fun _ => "invalid tenant_id in command_queue"%string)
              (id_from_str "TenantId" mkTenantId (row_tenant_id row));
  raggregate ← map_err (fun _ => "invalid aggregate_id in command_queue"%string)
                 (id_from_str "AggregateId" mkAggregateId (row_aggregate_id row));
  rpayload ← map_err (fun _ => "invalid JSON payload in command_queue"%string)
               (parse_json (row_payload row));
  rstatus ← map_err (fun _ => "unknown command status '" +:+ row_status row
                              +:+ "' in command_queue") (decode_status (row_status row));
  rcreated ← map_err (fun _ => "invalid created_at in command_queue"%string)
               (parse_rfc3339 (row_created_at row));
  rsynced ← match row_synced_at row with
            | Some s => dt ← map_err (fun _ => "invalid synced_at in command_queue"%string)
                               (parse_rfc3339 s); Ok (Some dt)
            | None => Ok None
            end;
  Ok {| id := rid; tenant_id := rtenant; command_type := row_command_type row;
        aggregate_id := raggregate; payload := rpayload; status := rstatus;
        created_at := rcreated; synced_at := rsynced; error := row_error row |}.

(** The [WHERE] clause of [list_pending].

    @src crates/desktop/src/command_queue.rs 234-235 [CommandQueue::list_pending] *)
Definition to_send (tenant : TenantId) (row : CommandRow) : bool :=
  String.eqb (row_tenant_id row) (show_uuid (tenant_uuid tenant))
  && (String.eqb (row_status row) "Pending" || String.eqb (row_status row) "Failed").

(** @src crates/desktop/src/command_queue.rs 201-259 [CommandQueue::list_pending] *)
Definition list_pending self (tenant : TenantId) : Sqlite (list CommandRow) * list (QueuedCommand J) :=
  let '(self, result) :=
    execute self (fun rows =>
      cmds ← mapM row_to_command (order_by_created (List.filter (to_send tenant) rows));
      Ok (rows, cmds)) in
  (self, match result with Ok cmds => cmds | Err _ => [] end).

(** [WHERE id = ?1]. *)
Definition has_id (i : Uuid) (row : CommandRow) : bool := String.eqb (row_id row) (show_uuid i).

(** @src crates/desktop/src/command_queue.rs 390-430 [CommandQueue::update_status] *)
Definition update_status self (i : Uuid) (st : CommandStatus) (at_ : option DateTime)
  : Sqlite (list CommandRow) :=
  let synced_at_str := to_rfc3339 <$> at_ in
  write self (update_where (has_id i) (fun r => set_row r (as_str st) synced_at_str (row_error r))).

(** @src crates/desktop/src/command_queue.rs 262-264 [CommandQueue::mark_syncing] *)
Definition mark_syncing self (i : Uuid) : Sqlite (list CommandRow) :=
  update_status self i Syncing None.

(** @src crates/desktop/src/command_queue.rs 267-270 [CommandQueue::mark_synced] *)
Definition mark_synced self (i : Uuid) (now : DateTime) : Sqlite (list CommandRow) :=
  update_status self i Synced (Some now).

(** @src crates/desktop/src/command_queue.rs 273-309 [CommandQueue::mark_failed] *)
Definition mark_failed self (i : Uuid) (err : string) : Sqlite (list CommandRow) :=
  write self (update_where (has_id i) (fun r => set_row r "Failed" (row_synced_at r) (Some err))).

(** @src crates/desktop/src/command_queue.rs 312-348 [CommandQueue::retry_failed] *)
Definition retry_failed self (i : Uuid) : Sqlite (list CommandRow) :=
  write self (update_where (fun r => has_id i r && String.eqb (row_status r) "Failed")
                (fun r => set_row r "Pending" (row_synced_at r) None)).

(** The [WHERE] clause of [clear_synced].

    @src crates/desktop/src/command_queue.rs 374-376 [CommandQueue::clear_synced] *)
Definition expired (cutoff : string) (row : CommandRow) : bool :=
  String.eqb (row_status row) "Synced"
  && match row_synced_at row with Some s => text_lt s cutoff | None => false end.

(** [Duration::days(7)] in nanoseconds. *)
Definition seven_days : Z := (7 * 24 * 3600 * 1000000000)%Z.

(** @src crates/desktop/src/command_queue.rs 350-387 [CommandQueue::clear_synced] *)
Definition clear_synced self (now : DateTime) : Sqlite (list CommandRow) :=
  let cutoff := to_rfc3339 (now - seven_days)%Z in
  write self (List.filter (fun r => negb (expired cutoff r))).

(** The calls that change the table. *)
Inductive QueueCall : Type :=
| CallEnqueue (fresh : Uuid) (now : DateTime) (tenant : TenantId) (ty : string)
    (aggregate : AggregateId) (value : J)
| CallMarkSyncing (i : Uuid)
| CallMarkSynced (i : Uuid) (now : DateTime)
| CallMarkFailed (i : Uuid) (err : string)
| CallRetryFailed (i : Uuid)
| CallClearSynced (now : DateTime).

Definition queue_call self (c : QueueCall) : Sqlite (list CommandRow) :=
  match c with
  | CallEnqueue fresh now tenant ty aggregate value =>
      (enqueue self fresh now tenant ty aggregate value).1
  | CallMarkSyncing i => mark_syncing self i
  | CallMarkSynced i now => mark_synced self i now
  | CallMarkFailed i err => mark_failed self i err
  | CallRetryFailed i => retry_failed self i
  | CallClearSynced now => clear_synced self now
  end.
End Queue.
Arguments CallEnqueue {J}.
Arguments CallMarkSyncing {J}.
Arguments CallMarkSynced {J}.
Arguments CallMarkFailed {J}.
Arguments CallRetryFailed {J}.
Arguments CallClearSynced {J}.

(** ** The specification: a list of typed commands *)
Section Commands.
Context {J : Type} `{Texts} `{QueueCodec J}.
Implicit Types (c : QueuedCommand J) (cmds : list (QueuedCommand J)).

Definition with_status c (st : CommandStatus) (synced : option DateTime) (err : option string)
  : QueuedCommand J :=
  {| id := id c; tenant_id := tenant_id c; command_type := command_type c;
     aggregate_id := aggregate_id c; payload := payload c; status := st;
     created_at := created_at c; synced_at := synced; error := err |}.

Definition on_id (i : Uuid) (f : QueuedCommand J -> QueuedCommand J) cmds :=
  map (fun c => if decide (id c = i) then f c else c) cmds.

(** Synced long enough ago, by the printed times. *)
Definition outdated (now : DateTime) c : bool :=
  bool_decide (status c = Synced)
  && match synced_at c with
     | Some t => text_lt (to_rfc3339 t) (to_rfc3339 (now - seven_days)%Z)
     | None => false
     end.

Definition commands_call cmds (call : QueueCall) : list (QueuedCommand J) :=
  match call with
  | CallEnqueue i now tenant ty aggregate value =>
      if decide (i ∈ map id cmds) then cmds
      else cmds ++ [mkQueuedCommand i tenant ty aggregate value Pending now None None]
  | CallMarkSyncing i => on_id i (fun c => with_status c Syncing None (error c)) cmds
  | CallMarkSynced i now => on_id i (fun c => with_status c Synced (Some now) (error c)) cmds
  | CallMarkFailed i err => on_id i (fun c => with_status c Failed (synced_at c) (Some err)) cmds
  | CallRetryFailed i =>
      on_id i (fun c => if decide (status c = Failed)
                        then with_status c Pending (synced_at c) None else c) cmds
  | CallClearSynced now => List.filter (fun c => negb (outdated now c)) cmds
  end.

(** The calls that go through, in order. *)
Fixpoint commands_after (out : nat -> option string) (k : nat) cmds (cs : list QueueCall)
  : list (QueuedCommand J) :=
  match cs with
  | [] => cmds
  | c :: cs' =>
    commands_after out (S k) (match out k with None => commands_call cmds c | Some _ => cmds end) cs'
  end.

Definition awaits_sending (tenant : TenantId) c : bool :=
  bool_decide (tenant_id c = tenant) && bool_decide (status c = Pending \/ status c = Failed).

(** The row that holds a command. *)
Definition command_row c : CommandRow :=
  set_row (inserted_row c) (as_str (status c)) (to_rfc3339 <$> synced_at c) (error c).

(** The payloads and times the crates read back as they wrote them. *)
Definition time_ok (t : DateTime) : Prop := parse_rfc3339 (to_rfc3339 t) = Ok t.
Definition readable c : Prop :=
  parse_json (show_json (payload c)) = Ok (payload c) /\ time_ok (created_at c)
  /\ forall t, synced_at c = Some t -> time_ok t.
Definition call_ok (call : QueueCall) : Prop :=
  match call with
  | CallEnqueue _ now _ _ _ value => parse_json (show_json value) = Ok value /\ time_ok now
  | CallMarkSynced _ now => time_ok now
  | _ => True
  end.

Context `{!TextsLaws}.

Lemma show_uuid_inj u u' : show_uuid u = show_uuid u' -> u = u'.
Proof. intros E. pose proof (parse_show_uuid u) as Eu. rewrite E, parse_show_uuid in Eu. congruence. Qed.

Lemma show_uuid_eqb u u' : String.eqb (show_uuid u) (show_uuid u') = bool_decide (u = u').
Proof.
  case_bool_decide as Hu; [subst; apply String.eqb_refl|].
  apply String.eqb_neq. intros ?%show_uuid_inj; done.
Qed.

Lemma has_id_row i c : has_id i (command_row c) = bool_decide (id c = i).
Proof. apply show_uuid_eqb. Qed.

Lemma status_eqb st st' s : s = as_str st' -> String.eqb (as_str st) s = bool_decide (st = st').
Proof. intros ->. by destruct st, st'. Qed.

Lemma decode_as_str st : decode_status (as_str st) = Ok st.
Proof. by destruct st. Qed.

(** Reading inverts writing. *)
Lemma row_to_command_row c : readable c -> row_to_command (command_row c) = Ok c.
Proof.
  intros (Hj & Ht & Hs). unfold row_to_command, id_from_str, command_row; simpl.
  rewrite !parse_show_uuid; simpl. rewrite Hj; simpl.
  rewrite decode_as_str.
  simpl. rewrite Ht; simpl. destruct c as [? [] ? [] ? ? ? [t|] ?]; simpl in *; [|done].
  by rewrite (Hs t eq_refl).
Qed.

Lemma mapM_rows cmds : Forall readable cmds -> mapM row_to_command (map command_row cmds) = Ok cmds.
Proof.
  induction 1 as [|c cmds Hc _ IH]; [done|]. simpl. rewrite row_to_command_row by done. simpl.
  by rewrite IH.
Qed.

(** *** Each statement acts on the rows as the specification on the commands *)
Lemma update_rows (p : CommandRow -> bool) f g cmds :
  (forall c, (if p (command_row c) then f (command_row c) else command_row c) = command_row (g c)) ->
  update_where p f (map command_row cmds) = map command_row (map g cmds).
Proof. intros Hf. unfold update_where. rewrite !map_map. apply map_ext, Hf. Qed.

Lemma filter_rows p q cmds : (forall c, p (command_row c) = q c) ->
  List.filter p (map command_row cmds) = map command_row (List.filter q cmds).
Proof.
  intros Hp. induction cmds as [|c cmds IH]; simpl; [done|]. rewrite Hp, IH. by destruct (q c).
Qed.

Lemma insert_row_rows c cmds :
  insert_row (command_row c) (map command_row cmds)
  = if decide (id c ∈ map id cmds) then Err "failed to insert queued command"%string
    else Ok (map command_row (cmds ++ [c]), tt).
Proof.
  unfold insert_row. rewrite map_app. case_decide as Hi.
  - replace (existsb _ _) with true; [done|]. symmetry. apply existsb_exists.
    apply list_elem_of_fmap in Hi as (c' & E & Hc). exists (command_row c').
    split; [by apply in_map, list_elem_of_In|].
    change (has_id (id c) (command_row c') = true). rewrite has_id_row, E.
    by apply bool_decide_eq_true.
  - replace (existsb _ _) with false; [done|]. symmetry. apply not_true_iff_false.
    intros (r & Hr & E)%existsb_exists. apply in_map_iff in Hr as (c' & <- & Hc').
    change (has_id (id c) (command_row c') = true) in E. rewrite has_id_row in E.
    apply bool_decide_eq_true in E. apply Hi. rewrite <- E.
    by apply list_elem_of_fmap_2, list_elem_of_In.
Qed.

Lemma expired_row now c :
  expired (to_rfc3339 (now - seven_days)%Z) (command_row c) = outdated now c.
Proof. unfold expired, outdated; simpl. rewrite (status_eqb _ Synced) by done. by destruct (synced_at c). Qed.

Lemma to_send_row tenant c : to_send tenant (command_row c) = awaits_sending tenant c.
Proof.
  unfold to_send, awaits_sending; simpl.
  rewrite show_uuid_eqb, (status_eqb _ Pending), (status_eqb _ Failed) by done.
  f_equal; [apply bool_decide_ext; destruct (tenant_id c), tenant; naive_solver|].
  by rewrite bool_decide_or.
Qed.

Lemma queue_call_rows self cmds call : table self = map command_row cmds ->
  table (queue_call self call)
  = map command_row (match outcome self (calls self) with
                     | None => commands_call cmds call | Some _ => cmds end).
Proof.
  intros Ht. destruct call; simpl;
    unfold mark_syncing, mark_synced, update_status, mark_failed, retry_failed, clear_synced;
    rewrite ?table_write, ?Ht.
  - unfold execute. destruct (outcome self (calls self)); [by rewrite <- Ht|].
    rewrite Ht. rewrite (insert_row_rows (mkQueuedCommand fresh tenant ty aggregate value Pending now None None)).
    simpl. by case_decide.
  - case_match; [done|]. apply update_rows. intros c. rewrite has_id_row. by repeat case_match; case_bool_decide.
  - case_match; [done|]. apply update_rows. intros c. rewrite has_id_row. by repeat case_match; case_bool_decide.
  - case_match; [done|]. apply update_rows. intros c. rewrite has_id_row. by repeat case_match; case_bool_decide.
  - case_match; [done|]. apply update_rows. intros c.
    rewrite has_id_row; simpl. rewrite (status_eqb _ Failed) by done.
    by repeat (case_bool_decide || case_decide).
  - case_match; [done|]. apply filter_rows. intros c. by rewrite expired_row.
Qed.
(** *** What every list of commands satisfies *)
Definition commands_ok cmds : Prop := NoDup (map id cmds) /\ Forall readable cmds.

Lemma map_id_on_id i f cmds : (forall c, id (f c) = id c) -> map id (on_id i f cmds) = map id cmds.
Proof. intros Hf. unfold on_id. rewrite map_map. apply map_ext. intros c. by case_decide. Qed.

Lemma on_id_ok i f cmds :
  (forall c, id (f c) = id c) -> (forall c, readable c -> readable (f c)) ->
  commands_ok cmds -> commands_ok (on_id i f cmds).
Proof.
  intros Hid Hf [Hn Hr]. split; [by rewrite map_id_on_id|].
  apply Forall_map. eapply Forall_impl; [done|]. intros c Hc. simpl. case_decide; auto.
Qed.

Lemma filter_ok (p : QueuedCommand J -> bool) cmds : commands_ok cmds -> commands_ok (List.filter p cmds).
Proof.
  intros [Hn Hr]. split.
  - clear Hr. induction cmds as [|c cmds IH]; simpl in *; [done|].
    apply NoDup_cons in Hn as [Hc Hn]. destruct (p c); simpl; [|by apply IH].
    apply NoDup_cons. split; [|by apply IH]. intros (c' & E & Hc')%list_elem_of_fmap.
    apply Hc. rewrite E. apply list_elem_of_fmap_2. apply list_elem_of_In.
    by apply list_elem_of_In, filter_In in Hc' as [? _].
  - rewrite Forall_forall in *. intros c Hc. apply Hr.
    apply list_elem_of_In. by apply list_elem_of_In, filter_In in Hc as [? _].
Qed.

Lemma commands_call_ok cmds call : call_ok call -> commands_ok cmds -> commands_ok (commands_call cmds call).
Proof.
  intros Hc Hok. destruct call; simpl in *;
    try (apply on_id_ok; [intros c; by try case_decide | | done]; intros c (Hj & Ht & Hs)).
  - case_decide as Hi; [done|]. destruct Hok as [Hn Hr]. split.
    + rewrite map_app. apply NoDup_app. split_and!; [done| |apply NoDup_singleton].
      intros x Hx ->%list_elem_of_singleton. by apply Hi.
    + apply Forall_app. split; [done|]. constructor; [|constructor].
      destruct Hc. by split_and!.
  - by split_and!.
  - split_and!; [done..|]. by intros t [= <-].
  - by split_and!.
  - case_decide; by split_and!.
  - by apply filter_ok.
Qed.

Lemma run_rows self cmds (cs : list QueueCall) : table self = map command_row cmds ->
  table (foldl queue_call self cs)
  = map command_row (commands_after (outcome self) (calls self) cmds cs)
  /\ calls (foldl queue_call self cs) = calls self + length cs
  /\ outcome (foldl queue_call self cs) = outcome self.
Proof.
  revert self cmds. induction cs as [|c cs IH]; intros self cmds Ht; simpl; [by rewrite Nat.add_0_r|].
  destruct (IH _ _ (queue_call_rows self cmds c Ht)) as (Ht' & Hc & Ho).
  assert (calls (queue_call self c) = S (calls self) /\ outcome (queue_call self c) = outcome self)
    as [Ec Eo] by (destruct c; apply execute_calls).
  rewrite Ht', Hc, Ho, Ec, Eo. split_and!; [done | lia | done].
Qed.

Lemma commands_after_ok out k cmds cs : Forall call_ok cs -> commands_ok cmds ->
  commands_ok (commands_after out k cmds cs).
Proof.
  intros Hcs. revert k cmds. induction Hcs as [|c cs Hc _ IH]; intros k cmds Hok; simpl; [done|].
  apply IH. case_match; [done|]. by apply commands_call_ok.
Qed.

(** *** Listing *)
Definition created_text_le c c' : bool :=
  String.leb (to_rfc3339 (created_at c)) (to_rfc3339 (created_at c')).

Lemma sorted_rows cmds :
  StronglySorted (fun r r' => created_le r r' = true) (map command_row cmds) ->
  StronglySorted (fun c c' => created_text_le c c' = true) cmds.
Proof.
  induction cmds as [|c cmds IH]; [constructor|]. intros Hs.
  apply StronglySorted_inv in Hs as [Hs Hc]. constructor; [by apply IH|].
  by apply Forall_map in Hc.
Qed.

Lemma list_pending_rows order `{!CreatedOrder order} self cmds tenant :
  table self = map command_row cmds -> Forall readable cmds -> outcome self (calls self) = None ->
  let sent := (list_pending order self tenant).2 in
  sent ≡ₚ List.filter (awaits_sending tenant) cmds
  /\ StronglySorted (fun c c' => created_text_le c c' = true) sent.
Proof.
  intros Ht Hr Ho. unfold list_pending, execute. rewrite Ho, Ht.
  rewrite (filter_rows _ (awaits_sending tenant)) by apply to_send_row.
  set (pending := List.filter (awaits_sending tenant) cmds).
  pose proof (ordered_perm (map command_row pending)) as Hp.
  pose proof (ordered_sorted (map command_row pending)) as Hs.
  apply Permutation_map_inv in Hp as (l & E & Hl). rewrite E in *.
  rewrite mapM_rows; simpl.
  - split; [by symmetry | by apply sorted_rows].
  - rewrite <- Hl. apply Forall_forall. intros c Hc%list_elem_of_In%filter_In.
    rewrite Forall_forall in Hr. by apply Hr, list_elem_of_In, Hc.
Qed.

(** C28: The command table is a faithful queue of typed commands.  Whatever calls
    are made on an empty table, and whichever of them fail for lack of a runtime,
    a connection or a working statement, the text rows are exactly those of the
    commands the calls that went through describe, no two of them with one id; and
    [list_pending] reads back, unchanged and ordered by creation time, exactly the
    tenant's commands that are [Pending] or [Failed]; nothing when its own call
    fails. *)
Theorem queue_implements_commands order (Horder : CreatedOrder order) self (cs : list QueueCall)
    (tenant : TenantId) :
  table self = [] -> Forall call_ok cs ->
  let after := foldl queue_call self cs in
  let cmds := commands_after (outcome self) (calls self) [] cs in
  let sent := (list_pending order after tenant).2 in
  table after = map command_row cmds /\ NoDup (map id cmds) /\
  match outcome self (calls self + length cs) with
  | None => sent ≡ₚ List.filter (awaits_sending tenant) cmds
            /\ StronglySorted (fun c c' => created_text_le c c' = true) sent
  | Some _ => sent = []
  end.
Proof.
  intros He Hcs after cmds sent.
  destruct (run_rows self [] cs He) as (Ht & Hc & Ho).
  destruct (commands_after_ok (outcome self) (calls self) [] cs Hcs) as [Hn Hr];
    [by split; constructor|].
  split_and!; [done..|].
  rewrite <- Hc, <- Ho. case_match eqn:Eo.
  - fold after in Eo. unfold sent, list_pending, execute. by rewrite Eo.
  - by apply list_pending_rows.
Qed.
End Commands.

(** One row that cannot be read hides every command of its tenant. *)
Lemma unreadable_row_hides_all {J} `{Texts} `{QueueCodec J} order `{!CreatedOrder order} self tenant row err :
  row ∈ table self -> to_send tenant row = true -> row_to_command (J:=J) row = Err err ->
  (list_pending (J:=J) order self tenant).2 = [].
Proof.
  intros Hin Hsend Hrow. unfold list_pending, execute.
  destruct (outcome self (calls self)); [done|].
  assert (row ∈ order (List.filter (to_send tenant) (table self))) as Hx.
  { rewrite ordered_perm. apply list_elem_of_In, filter_In. by rewrite <- list_elem_of_In. }
  revert Hx. generalize (order (List.filter (to_send tenant) (table self))) as rows.
  intros rows Hx. enough (exists e, mapM row_to_command rows = Err e) as [e ->] by done.
  induction rows as [|r rows IH]; [by apply not_elem_of_nil in Hx|].
  apply elem_of_cons in Hx as [<-|Hx]; simpl; [rewrite Hrow; by exists err|].
  destruct (row_to_command r) as [c|e]; simpl; [|by exists e].
  destruct (IH Hx) as [e ->]. by exists e.
Qed.

(** ** An order *)
Lemma text_le_trans a b c : String.leb a b = true -> String.leb b c = true -> String.leb a c = true.
Proof.
  unfold String.leb. revert b c.
  induction a as [|x a IH]; intros [|y b] [|z c]; simpl; try done.
  unfold Ascii.compare.
  destruct (N.compare_spec (Ascii.N_of_ascii x) (Ascii.N_of_ascii y)) as [Exy|Hxy|Hxy]; try done;
    destruct (N.compare_spec (Ascii.N_of_ascii y) (Ascii.N_of_ascii z)) as [Eyz|Hyz|Hyz]; try done;
    intros H1 H2.
  - rewrite Exy, Eyz, N.compare_refl. by apply (IH b).
  - rewrite Exy. by apply N.compare_lt_iff in Hyz as ->.
  - rewrite <- Eyz. by apply N.compare_lt_iff in Hxy as ->.
  - pose proof (N.lt_trans _ _ _ Hxy Hyz) as Hxz. by apply N.compare_lt_iff in Hxz as ->.
Qed.

(** A stable sort is one order SQLite may return. *)
#[global] Instance sort_created_order : CreatedOrder (sort_by created_le).
Proof.
  constructor; intros rows; [apply sort_by_perm|]. apply sort_by_sorted; unfold created_le.
  - intros x y. apply String.leb_total.
  - intros x y z. apply text_le_trans.
Qed.

(** ** A concrete queue *)
Module Sample.

Export SampleTexts.

(** Numbers stand for the texts of payloads, too. *)
#[global] Instance sample_queue_codec : QueueCodec N := {|
  show_json := show_number; parse_json := read_number
|}.

Definition tenant : TenantId := mkTenantId 1.
Definition item : AggregateId := mkAggregateId 2.
Definition empty : Sqlite (list CommandRow) :=
  mkSqlite [] (fun n => if decide (n = 3) then Some "disk full"%string else None) 0.

(** Two adjustments; the first fails and is to be retried, the second is lost
    because its statement fails. *)
Definition session : list (QueueCall (J:=N)) :=
  [CallEnqueue 20%N 200 tenant "inventory.adjust_stock" item 5%N;
   CallEnqueue 10%N 100 tenant "inventory.adjust_stock" item 7%N;
   CallMarkFailed 20%N "API error (500): "; CallMarkSynced 10%N 300]%Z.

Lemma queue_implements_commands_witness :
  (list_pending (J:=N) (sort_by created_le) (foldl queue_call empty session) tenant).2
  = [mkQueuedCommand 10%N tenant "inventory.adjust_stock" item 7%N Pending 100 None None;
     mkQueuedCommand 20%N tenant "inventory.adjust_stock" item 5%N Failed 200 None
       (Some "API error (500): "%string)]%Z
  /\ length (list_pending (J:=N) (sort_by created_le) (foldl queue_call empty session) tenant).2 = 2.
Proof.
  split; [vm_compute; reflexivity|].
  assert (Forall (call_ok (J:=N)) session) as Hok by (repeat constructor).
  destruct (queue_implements_commands (sort_by created_le) _ empty session tenant eq_refl Hok)
    as (_ & _ & Hp & _).
  etrans; [exact (Permutation_length Hp)|]. vm_compute. reflexivity.
Defined.
End Sample.
