(* ===== verification/DesktopSync.v ===== *)
(** * The desktop client: [desktop/src], the cache, the synchronisation, the worker

    [cache.rs], [offline.rs], [sync.rs], [sync_manager.rs], [sync_worker.rs] and
    the Tauri commands of [commands.rs] over the queue of [OfflineQueue].  The API
    is any server with any replies ([ApiServer]); the clock is any sequence of
    readings; every SQLite call may fail.  A Tauri command, a worker tick and a
    synchronisation run to their end one after the other here.

    The methods of the queue and of the cache start a runtime and block on it.  Tokio
    refuses that on a thread that drives a task of a runtime: [Runtime::block_on]
    panics there.  The asynchronous functions that call them therefore have a
    [Driver], and [None] is the panic of their caller's task.  The program drives all
    of them as tasks of its runtime ([main.rs], Tauri's commands, the worker); another
    executor on a thread of the blocking pool could drive them to their end.

    The theorems: run as a task, a synchronisation panics before it sends anything,
    and the application neither queues nor caches anything; where the calls may
    block, a synchronisation settles every waiting command, and a command that met a
    network error is never sent again; the worker that once found the API unreachable
    never looks again; a request is tried at most four times. *)

From S2P Require Import Prelude Core OfflineQueue.
From S2P Require Inventory.
Import Inventory (InventoryItemId, item_aggregate).

(** ** Connectivity: [offline.rs] *)

(** @src crates/desktop/src/types.rs 56-64 [ConnectivityState] *)
Inductive ConnectivityState : Type := Online | Offline.

#[global] Instance ConnectivityState_eq_dec : EqDecision ConnectivityState.
Proof. solve_decision. Defined.

(** @src crates/desktop/src/offline.rs 8-13 [OfflineMode] *)
Record OfflineMode := mkOfflineMode { state : ConnectivityState; offline_api_url : string }.

(** @src crates/desktop/src/offline.rs 15-21 [OfflineError] *)
Inductive OfflineError : Type := OfflineErr | ApiConnection (msg : string).

(** @src crates/desktop/src/offline.rs 24-29 [OfflineMode::new] *)
Definition offline_mode_new (api_url : string) : OfflineMode := mkOfflineMode Online api_url.

(** @src crates/desktop/src/offline.rs 39-42 [OfflineMode::set_offline] *)
Definition set_offline (self : OfflineMode) : OfflineMode :=
  mkOfflineMode Offline (offline_api_url self).

(** @src crates/desktop/src/offline.rs 44-47 [OfflineMode::set_online] *)
Definition set_online (self : OfflineMode) : OfflineMode :=
  mkOfflineMode Online (offline_api_url self).

(** @src crates/desktop/src/offline.rs 49-52 [OfflineMode::is_offline] *)
Definition is_offline (self : OfflineMode) : bool := bool_decide (state self = Offline).

(** @src crates/desktop/src/offline.rs 54-61 [OfflineMode::require_online] *)
Definition require_online (self : OfflineMode) : Result OfflineError unit :=
  if is_offline self then Err OfflineErr else Ok tt.

(** ** Errors and results *)

(** [SyncError] of [sync_manager.rs]; that of [sync.rs] is its first four cases.

    @src crates/desktop/src/sync_manager.rs 454-467 [SyncError] *)
Inductive SyncError : Type :=
| ErrOffline
| ErrNetwork (msg : string)
| ErrApi (code : Z) (msg : string)
| ErrParse (msg : string)
| ErrCache (msg : string)
| ErrConflict (msg : string).

(** @src crates/desktop/src/sync_manager.rs 454-467 [SyncError] *)
Definition show_sync_error (e : SyncError) : string :=
  match e with
  | ErrOffline => "client is offline"
  | ErrNetwork m => "network error: " +:+ m
  | ErrApi code m => "API error (" +:+ pretty code +:+ "): " +:+ m
  | ErrParse m => "parse error: " +:+ m
  | ErrCache m => "cache error: " +:+ m
  | ErrConflict m => "conflict: " +:+ m
  end.

(** @src crates/desktop/src/types.rs 66-76 [ConflictResolution] *)
Inductive ConflictResolution : Type := UseLocal | UseRemote | Merge.

(** @src crates/desktop/src/types.rs 78-86 [Conflict] *)
Record Conflict := mkConflict {
  conflict_aggregate_type : string;
  conflict_aggregate_id : AggregateId;
  local_version : option Z;
  remote_version : Z;
  resolution : ConflictResolution
}.

(** @src crates/desktop/src/types.rs 88-94 [SyncResult] *)
Record SyncResult := mkSyncResult {
  synced_commands : list Uuid;
  synced_read_models : list (string * AggregateId);
  conflicts : list Conflict
}.

(** @src crates/desktop/src/sync_manager.rs 448-451 [SyncReadModelResult] *)
Inductive SyncReadModelResult : Type :=
| ReadModelConflict (c : Conflict)
| ReadModelSynced (aggregate_type : string) (aggregate_id : AggregateId).

(** @src crates/desktop/src/types.rs 13-19 [InventoryReadModel] *)
Record InventoryReadModel := mkInventoryReadModel {
  irm_id : string;
  irm_name : string;
  irm_quantity : Z
}.

(** ** What the client talks to *)

(** A response, as far as the client looks: [resp_header] a header whose value is
    text, [resp_body] the body or the error of reading it. *)
Record Response := mkResponse {
  resp_status : Z;
  resp_header : string -> option string;
  resp_body : Result string string
}.

(** [StatusCode::is_success], [Response::text().unwrap_or_default()]. *)
Definition is_success (r : Response) : bool := ((200 <=? resp_status r) && (resp_status r <? 300))%Z.
Definition text_or_default (r : Response) : string :=
  match resp_body r with Ok t => t | Err _ => "" end.

(** The API server and the network, in state [N], behind the [reqwest] client:
    requests carry a URL, a bearer token and for a [POST] a JSON body, and are
    answered or fail. *)
Class ApiServer (N J : Type) := {
  try_clone : string -> J -> bool;
  post : N -> string -> option string -> J -> N * Result string Response;
  get : N -> string -> option string -> N * Result string Response
}.

(** What the desktop asks of JSON values beyond their texts. *)
Class DesktopJson (J : Type) := {
  stream_version : J -> option Z;
  delta_payload : Z -> J;
  show_item : InventoryReadModel -> Result string string;
  parse_item : string -> Result string InventoryReadModel
}.

(** ** Calls that block *)

(** What drives an asynchronous function: a task of the tokio runtime, or an executor
    whose thread may block on another runtime. *)
Inductive Driver : Type := TokioTask | BlockingExecutor.

(** A computation that begins by blocking on a new runtime. *)
Definition block_on {S A : Type} (driver : Driver) (s : S) (r : S * A) : S * option A :=
  match driver with TokioTask => (s, None) | BlockingExecutor => (r.1, Some r.2) end.

(** ** The cache: [cache.rs] *)

(** A row of [read_models], apart from its key.

    @src crates/desktop/src/cache.rs 63-78 [LocalCache::ensure_initialized] *)
Record CacheRow := mkCacheRow { data : string; cached_at : string; version : option Z }.

(** The table by its primary key: tenant, aggregate type, aggregate. *)
Abbreviation ReadModels := (gmap (string * string * string) CacheRow).

Section Cache.
Context {J : Type} `{Texts} `{QueueCodec J} `{DesktopJson J}.
Implicit Types (self : Sqlite ReadModels).

Definition cache_key (tenant : TenantId) (aggregate_type aggregate : string)
  : string * string * string :=
  (show_uuid (tenant_uuid tenant), aggregate_type, aggregate).

(** [version as i64] on the way in, [as u64] on the way out.

    @src crates/desktop/src/cache.rs 279-327 [LocalCache::cache_read_model_with_version] *)
Definition cache_read_model_with_version self (tenant : TenantId) (aggregate_type aggregate : string)
    (model : Result string string) (v : option Z) (now : DateTime)
  : Sqlite ReadModels * Result string unit :=
  execute self (fun rows =>
    text ← map_err (fun _ => "failed to serialize read model for cache"%string) model;
    Ok (<[cache_key tenant aggregate_type aggregate :=
           mkCacheRow text (to_rfc3339 now) (wrapS 64 <$> v)]> rows, tt)).

(** @src crates/desktop/src/cache.rs 263-277 [LocalCache::cache_read_model] *)
Definition cache_read_model self tenant aggregate_type aggregate model now :=
  cache_read_model_with_version self tenant aggregate_type aggregate model None now.

(** @src crates/desktop/src/cache.rs 329-367 [LocalCache::get_read_model_version] *)
Definition get_read_model_version self (tenant : TenantId) (aggregate_type : string)
    (aggregate : AggregateId) : Sqlite ReadModels * Result string (option Z) :=
  execute self (fun rows =>
    Ok (rows, match rows !! cache_key tenant aggregate_type (show_uuid (aggregate_uuid aggregate)) with
              | Some row => wrapU 64 <$> version row
              | None => None
              end)).

(** @src crates/desktop/src/cache.rs 369-414 [LocalCache::get_read_model] *)
Definition get_read_model {T} (parse : string -> Result string T) self (tenant : TenantId)
    (aggregate_type aggregate : string) : Sqlite ReadModels * Result string (option T) :=
  execute self (fun rows =>
    match rows !! cache_key tenant aggregate_type aggregate with
    | None => Ok (rows, None)
    | Some row =>
      model ← map_err (fun _ => "failed to deserialize cached read model"%string) (parse (data row));
      Ok (rows, Some model)
    end).

(** @src crates/desktop/src/cache.rs 92-119 [LocalCache::cache_inventory_item] *)
Definition cache_inventory_item self (tenant : TenantId) (item : InventoryItemId)
    (model : InventoryReadModel) (now : DateTime) : Sqlite ReadModels :=
  (cache_read_model self tenant "inventory_item" (show_uuid (aggregate_uuid (item_aggregate item)))
     (show_item model) now).1.

(** @src crates/desktop/src/cache.rs 121-189 [LocalCache::get_inventory_item] *)
Definition get_inventory_item self (tenant : TenantId) (item : InventoryItemId)
    (max_age : option Z) (now : DateTime) : Sqlite ReadModels * option InventoryReadModel :=
  let '(self, result) :=
    execute self (fun rows =>
      match rows !! cache_key tenant "inventory_item"
                      (show_uuid (aggregate_uuid (item_aggregate item))) with
      | None => Ok (rows, None)
      | Some row =>
        at_ ← map_err (fun _ => "invalid cached_at timestamp in cache"%string)
                (parse_rfc3339 (cached_at row));
        if match max_age with Some max => (max <? now - at_)%Z | None => false end
        then Ok (rows, None)
        else
          model ← map_err (fun _ => "failed to deserialize inventory read model"%string)
                    (parse_item (data row));
          Ok (rows, Some model)
      end) in
  (self, match result with Ok model => model | Err _ => None end).

(** @src crates/desktop/src/cache.rs 191-227 [LocalCache::clear_tenant] *)
Definition clear_tenant self (tenant : TenantId) : Sqlite ReadModels :=
  write self (filter (fun kv => kv.1.1.1 <> show_uuid (tenant_uuid tenant))).

(** @src crates/desktop/src/cache.rs 229-261 [LocalCache::clear_all] *)
Definition clear_all self : Sqlite ReadModels := write self (fun _ => ∅).
End Cache.

(** ** Synchronisation: [sync_manager.rs], [sync.rs] *)

(** What a running client holds: the queue's and the cache's handles, the network,
    and the clock with the number of readings taken. *)
Record Client (N : Type) := mkClient {
  queue : Sqlite (list CommandRow);
  cache : Sqlite ReadModels;
  net : N;
  clock : nat -> DateTime;
  readings : nat
}.
Arguments mkClient {N}.
Arguments queue {N}.
Arguments cache {N}.
Arguments net {N}.
Arguments clock {N}.
Arguments readings {N}.

(** @src crates/desktop/src/sync_manager.rs 28-35 [SyncManager] *)
Record SyncManager := mkSyncManager { api_url : string; token : option string }.

(** @src crates/desktop/src/sync.rs 20-24 [SyncClient] *)
Record SyncClient := mkSyncClient { client_api_url : string; client_token : option string }.

Section Sync.
Context {N J : Type} `{Texts} `{QueueCodec J} `{DesktopJson J} `{ApiServer N J}.
Context (order_by_created : list CommandRow -> list CommandRow).
Context (driver : Driver).
Implicit Types (self : SyncManager) (s : Client N).

Definition set_queue s (q : Sqlite (list CommandRow)) : Client N :=
  {| queue := q; cache := cache s; net := net s; clock := clock s; readings := readings s |}.
Definition set_cache s (c : Sqlite ReadModels) : Client N :=
  {| queue := queue s; cache := c; net := net s; clock := clock s; readings := readings s |}.
Definition set_net s (n : N) : Client N :=
  {| queue := queue s; cache := cache s; net := n; clock := clock s; readings := readings s |}.

(** [Utc::now()]. *)
Definition utc_now s : Client N * DateTime :=
  ({| queue := queue s; cache := cache s; net := net s; clock := clock s;
      readings := S (readings s) |}, clock s (readings s)).

(** @src crates/desktop/src/sync_manager.rs 392-419 [SyncManager::command_endpoint] *)
Definition command_endpoint (ty : string) (aggregate : AggregateId) : string :=
  let aid := show_uuid (aggregate_uuid aggregate) in
  if starts_with "inventory." ty then
    if mentions ty "adjust" then "/inventory/items/" +:+ aid +:+ "/adjust"
    else if mentions ty "create" then "/inventory/items"
    else "/inventory/items/" +:+ aid
  else if starts_with "sales." ty then
    if mentions ty "create" then "/sales/orders" else "/sales/orders/" +:+ aid
  else if starts_with "products." ty then
    if mentions ty "create" then "/products" else "/products/" +:+ aid
  else "/commands/" +:+ aid.

(** @src crates/desktop/src/sync_manager.rs 422-429 [SyncManager::read_model_endpoint] *)
Definition read_model_endpoint (ty : string) (aggregate : AggregateId) : string :=
  let aid := show_uuid (aggregate_uuid aggregate) in
  if String.eqb ty "inventory_item" then "/inventory/items/" +:+ aid
  else if String.eqb ty "sales_order" then "/sales/orders/" +:+ aid
  else if String.eqb ty "product" then "/products/" +:+ aid
  else "/read-models/" +:+ ty +:+ "/" +:+ aid.

(** [command_type.split('.').next()], which is always there. *)
Fixpoint before_dot (s : string) : string :=
  match s with
  | EmptyString => EmptyString
  | String a s' => if byte_in a 46 46 then EmptyString else String a (before_dot s')
  end.

(** @src crates/desktop/src/sync_manager.rs 432-443 [SyncManager::aggregate_type_from_command_type] *)
Definition aggregate_type_from_command_type (ty : string) : string :=
  let prefix := before_dot ty in
  if String.eqb prefix "inventory" then "inventory_item"
  else if String.eqb prefix "sales" then "sales_order"
  else if String.eqb prefix "products" then "product"
  else prefix.

(** The rounds of [sync_command] from the attempts left on; [for] over
    [0..=max_retries].  The delays slept are listed, in seconds.

    @src crates/desktop/src/sync_manager.rs 155-221 [SyncManager::sync_command] *)
Fixpoint sync_attempts self (url : string) (body : J) (max_retries : nat) (attempts : list nat)
    (delay : Z) (n : N) : N * list Z * Result SyncError unit :=
  match attempts with
  | [] => (n, [], Err (ErrNetwork "Max retries exceeded"))
  | attempt :: rest =>
    if try_clone (N:=N) url body then
      let '(n, reply) := post n url (token self) body in
      let retry :=
        let '(n, slept, r) := sync_attempts self url body max_retries rest (delay * 2)%Z n in
        (n, delay :: slept, r) in
      match reply with
      | Ok resp =>
        if is_success resp then (n, [], Ok tt)
        else if (resp_status resp =? 409)%Z then (n, [], Err (ErrConflict (text_or_default resp)))
        else if decide (attempt < max_retries) then retry
        else (n, [], Err (ErrApi (resp_status resp) (text_or_default resp)))
      | Err e =>
        if decide (attempt < max_retries) then retry else (n, [], Err (ErrNetwork e))
      end
    else (n, [], Err (ErrNetwork "Failed to clone request for retry"))
  end.

(** @src crates/desktop/src/sync_manager.rs 143-221 [SyncManager::sync_command] *)
Definition sync_command self (n : N) (cmd : QueuedCommand J) : N * list Z * Result SyncError unit :=
  let url := api_url self +:+ command_endpoint (command_type cmd) (aggregate_id cmd) in
  let max_retries := 3 in
  sync_attempts self url (payload cmd) max_retries (seq 0 (S max_retries)) 1%Z n.

(** [etag_str.strip_prefix('v')]. *)
Definition strip_v (s : string) : option string :=
  match s with String a rest => if byte_in a 118 118 then Some rest else None | EmptyString => None end.

(** @src crates/desktop/src/sync_manager.rs 354-389 [SyncManager::extract_version_from_body] *)
Definition extract_version_from_body s (body : J) (headers : string -> option string)
  : Client N * Z :=
  match (headers "ETag"%string ≫= strip_v) ≫= parse_uint 64 with
  | Some v => (s, v)
  | None =>
    match headers "X-Stream-Version"%string ≫= parse_uint 64 with
    | Some v => (s, v)
    | None =>
      match stream_version body with
      | Some v => (s, v)
      | None => let '(s, now) := utc_now s in (s, wrapU 64 (now / 1000000000))
      end
    end
  end.

(** Caching the fetched body.

    @src crates/desktop/src/sync_manager.rs 335-345 [SyncManager::sync_read_model] *)
Definition cache_body s (tenant : TenantId) (ty : string) (aggregate : AggregateId) (body : J) (v : Z)
  : Client N * Result SyncError unit :=
  let '(s, now) := utc_now s in
  let '(c, r) := cache_read_model_with_version (cache s) tenant ty (show_uuid (aggregate_uuid aggregate))
                   (Ok (show_json body)) (Some v) now in
  (set_cache s c, map_err ErrCache r).

(** What follows where the first call, of the cache, may block.

    @src crates/desktop/src/sync_manager.rs 235-351 [SyncManager::sync_read_model] *)
Definition fetch_read_model self s (tenant : TenantId) (ty : string) (aggregate : AggregateId)
  : Client N * Result SyncError (option SyncReadModelResult) :=
  let '(c, local) := get_read_model_version (cache s) tenant ty aggregate in
  let s := set_cache s c in
  match local with
  | Err e => (s, Err (ErrCache e))
  | Ok local_version =>
    let '(n, reply) := get (J:=J) (net s) (api_url self +:+ read_model_endpoint ty aggregate) (token self) in
    let s := set_net s n in
    match reply with
    | Err e => (s, Err (ErrNetwork e))
    | Ok resp =>
      if negb (is_success resp) then (s, Err (ErrApi (resp_status resp) (text_or_default resp))) else
      match resp_body resp ≫= parse_json with
      | Err e => (s, Err (ErrParse ("Failed to parse read model: " +:+ e)))
      | Ok body =>
        let '(s, remote_version) := extract_version_from_body s body (resp_header resp) in
        let conflict :=
          match local_version with
          | Some local_ver =>
            if (local_ver <? remote_version)%Z
            then Some (mkConflict ty aggregate (Some local_ver) remote_version UseRemote) else None
          | None => None
          end in
        match conflict with
        | Some conflict =>
          let '(s, cached) :=
            match resolution conflict with
            | UseRemote | Merge => cache_body s tenant ty aggregate body remote_version
            | UseLocal => (s, Ok tt)
            end in
          (s, match cached with Ok _ => Ok (Some (ReadModelConflict conflict)) | Err e => Err e end)
        | None =>
          let '(s, cached) := cache_body s tenant ty aggregate body remote_version in
          (s, match cached with Ok _ => Ok (Some (ReadModelSynced ty aggregate)) | Err e => Err e end)
        end
      end
    end
  end.

(** @src crates/desktop/src/sync_manager.rs 229-241 [SyncManager::sync_read_model] *)
Definition sync_read_model self s (tenant : TenantId) (ty : string) (aggregate : AggregateId)
  : Client N * option (Result SyncError (option SyncReadModelResult)) :=
  block_on driver s (fetch_read_model self s tenant ty aggregate).

(** What the loop over the pending commands does with the outcome of sending one; it
    is reached only where the calls may block.

    @src crates/desktop/src/sync_manager.rs 94-126 [SyncManager::sync_tenant] *)
Definition record_outcome self (tenant : TenantId) (acc : Client N * SyncResult)
    (cmd : QueuedCommand J) (r : Result SyncError unit) : Client N * SyncResult :=
  let '(s, result) := acc in
  match r with
  | Ok _ =>
    let '(s, now) := utc_now s in
    let s := set_queue s (mark_synced (queue s) (id cmd) now) in
    let agg_type := aggregate_type_from_command_type (command_type cmd) in
    let '(s, read_model) := fetch_read_model self s tenant agg_type (aggregate_id cmd) in
    let result := mkSyncResult (synced_commands result ++ [id cmd]) (synced_read_models result)
                    (conflicts result) in
    (s, match read_model with
        | Ok (Some (ReadModelConflict conflict)) =>
            mkSyncResult (synced_commands result) (synced_read_models result)
              (conflicts result ++ [conflict])
        | Ok (Some (ReadModelSynced ty aggregate)) =>
            mkSyncResult (synced_commands result) (synced_read_models result ++ [(ty, aggregate)])
              (conflicts result)
        | _ => result
        end)
  | Err (ErrNetwork _) | Err ErrOffline => (set_queue s (mark_syncing (queue s) (id cmd)), result)
  | Err e => (set_queue s (mark_failed (queue s) (id cmd) (show_sync_error e)), result)
  end.

(** The body of the loop over the pending commands.

    @src crates/desktop/src/sync_manager.rs 93-127 [SyncManager::sync_tenant] *)
Definition sync_one self (tenant : TenantId) (acc : Client N * SyncResult) (cmd : QueuedCommand J)
  : Client N * SyncResult :=
  let '(s, result) := acc in
  let '(n, _, r) := sync_command self (net s) cmd in
  record_outcome self tenant (set_net s n, result) cmd r.

(** The pass, where its first call, of the queue, may block.

    @src crates/desktop/src/sync_manager.rs 89-140 [SyncManager::sync_tenant] *)
Definition sync_pending self s (tenant : TenantId) : Client N * Result SyncError SyncResult :=
  let '(q, pending) := list_pending order_by_created (queue s) tenant in
  let s := set_queue s q in
  let '(s, result) := foldl (sync_one self tenant) (s, mkSyncResult [] [] []) pending in
  (s, Ok result).

(** @src crates/desktop/src/sync_manager.rs 77-90 [SyncManager::sync_tenant] *)
Definition sync_tenant self s (tenant : TenantId)
  : Client N * option (Result SyncError SyncResult) :=
  block_on driver s (sync_pending self s tenant).

(** @src crates/desktop/src/sync.rs 42-47 [SyncClient::check_connectivity] *)
Definition check_connectivity (self : SyncClient) s : Client N * bool :=
  let '(n, reply) := get (J:=J) (net s) (client_api_url self +:+ "/health") None in
  (set_net s n, is_ok reply).

(** @src crates/desktop/src/sync.rs 49-74 [SyncClient::sync_inventory_item] *)
Definition sync_inventory_item (self : SyncClient) s (tenant : TenantId) (item : InventoryItemId)
  : Client N * option (Result SyncError unit) :=
  let url := client_api_url self +:+ "/inventory/items/"
             +:+ show_uuid (aggregate_uuid (item_aggregate item)) in
  let '(n, reply) := get (J:=J) (net s) url (client_token self) in
  let s := set_net s n in
  match reply with
  | Err e => (s, Some (Err (ErrNetwork e)))
  | Ok resp =>
    if negb (is_success resp) then (s, Some (Err (ErrApi (resp_status resp) (text_or_default resp)))) else
    match resp_body resp ≫= parse_item with
    | Err e => (s, Some (Err (ErrParse e)))
    | Ok model =>
      block_on driver s
        (let '(s, now) := utc_now s in
         (set_cache s (cache_inventory_item (cache s) tenant item model now), Ok tt))
    end
  end.

(** @src crates/desktop/src/sync.rs 76-99 [SyncClient::full_sync] *)
Definition full_sync (self : SyncClient) s (offline : OfflineMode)
  : Client N * OfflineMode * Result SyncError unit :=
  let '(s, online) := check_connectivity self s in
  if negb online then (s, set_offline offline, Err ErrOffline) else (s, set_online offline, Ok tt).
End Sync.

(** ** The application: [commands.rs] and [sync_worker.rs] *)

(** @src crates/desktop/src/commands.rs 15-23 [AppState] *)
Record AppState (N : Type) := mkAppState {
  client : Client N;
  sync_client : SyncClient;
  sync_manager : SyncManager;
  offline_mode : OfflineMode
}.
Arguments mkAppState {N}.
Arguments client {N}.
Arguments sync_client {N}.
Arguments sync_manager {N}.
Arguments offline_mode {N}.

(** @src crates/desktop/src/commands.rs 25-71 [AppState::with_token] *)
Definition app_state_new {N} (url : string) (auth : option string) (c : Client N) : AppState N :=
  {| client := c; sync_client := mkSyncClient url auth; sync_manager := mkSyncManager url auth;
     offline_mode := offline_mode_new url |}.

(** What the worker emits to the window.

    @src crates/desktop/src/sync_worker.rs 21-39 [SyncCompletedEvent] *)
Inductive WorkerEvent : Type :=
| SyncCompleted (synced_commands synced_read_models conflicts : nat)
| SyncConflict (conflicts : list Conflict)
| SyncFailed (error : string).

(** The worker's own state; the delays are in seconds.  [worker_running]: its task
    has not panicked.

    @src crates/desktop/src/sync_worker.rs 13-19 [SyncWorker] *)
Record SyncWorker := mkSyncWorker {
  active_tenants : list TenantId;
  consecutive_failures : Z;
  backoff_duration : Z;
  emitted : list WorkerEvent;
  worker_running : bool
}.

Section App.
Context {N J : Type} `{Texts} `{QueueCodec J} `{DesktopJson J} `{ApiServer N J}.
Context (order_by_created : list CommandRow -> list CommandRow).
Context (driver : Driver).
Implicit Types (app : AppState N) (w : SyncWorker).

Definition set_client app (c : Client N) : AppState N :=
  {| client := c; sync_client := sync_client app; sync_manager := sync_manager app;
     offline_mode := offline_mode app |}.
Definition set_mode app (m : OfflineMode) : AppState N :=
  {| client := client app; sync_client := sync_client app; sync_manager := sync_manager app;
     offline_mode := m |}.

(** [tenant_id.parse::<TenantId>().map_err(|e| format!("Invalid {}: {}", ..))]. *)
Definition parse_arg {T} (name type_name : string) (wrap : Uuid -> T) (text : string) : Result string T :=
  map_err (fun e => "Invalid " +:+ name +:+ ": " +:+ show_domain_error e)
    (id_from_str type_name wrap text).

(** @src crates/desktop/src/commands.rs 75-93 [list_inventory_items] *)
Definition list_inventory_items (tenant_text : string) : Result string (list InventoryReadModel) :=
  _ ← parse_arg "tenant_id" "TenantId" mkTenantId tenant_text; Ok [].

(** The fresh identifier of the queued command is an argument.

    @src crates/desktop/src/commands.rs 95-156 [adjust_stock] *)
Definition adjust_stock app (fresh : Uuid) (tenant_text item_text : string) (delta : Z)
  : AppState N * option (Result string unit) :=
  match parse_arg "tenant_id" "TenantId" mkTenantId tenant_text,
        parse_arg "item_id" "AggregateId" mkAggregateId item_text with
  | Err e, _ | Ok _, Err e => (app, Some (Err e))
  | Ok tenant, Ok aggregate =>
    let offline := is_offline (offline_mode app) in
    let '(c, now) := utc_now (client app) in
    block_on driver (set_client app c)
      (let '(q, queued) := enqueue (queue c) fresh now tenant "inventory.adjust_stock" aggregate
                             (delta_payload delta) in
       let c := set_queue c q in
       if offline then (set_client app c, Ok tt) else
       let '(n, _, r) := sync_command (sync_manager app) (net c) queued in
       let c := set_net c n in
       match r with
       | Err _ => (set_client app c, Ok tt)
       | Ok _ =>
         let '(c, now) := utc_now c in
         (set_client app (set_queue c (mark_synced (queue c) (id queued) now)), Ok tt)
       end)
  end.

(** [Check connectivity] and [Update offline mode].

    @src crates/desktop/src/sync_worker.rs 107-120 [SyncWorker::start] *)
Definition check_mode app : AppState N * bool :=
  let '(c, online) := check_connectivity (J:=J) (sync_client app) (client app) in
  let app := set_client app c in
  (set_mode app (if online then set_online (offline_mode app) else set_offline (offline_mode app)),
   online).

(** @src crates/desktop/src/commands.rs 158-194 [sync_now] *)
Definition sync_now app (tenant_text : string) : AppState N * option (Result string SyncResult) :=
  match parse_arg "tenant_id" "TenantId" mkTenantId tenant_text with
  | Err e => (app, Some (Err e))
  | Ok tenant =>
    let '(app, online) := check_mode app in
    if negb online then (app, Some (Err "Client is offline. Cannot sync."%string)) else
    let '(c, r) := sync_tenant (J:=J) order_by_created driver (sync_manager app) (client app) tenant in
    (set_client app c, map_err (fun e => "Sync failed: " +:+ show_sync_error e) <$> r)
  end.

(** @src crates/desktop/src/commands.rs 196-203 [get_connectivity_state] *)
Definition get_connectivity_state app : Result string ConnectivityState :=
  Ok (state (offline_mode app)).

(** @src crates/desktop/src/commands.rs 205-218 [list_pending_commands] *)
Definition list_pending_commands app (tenant_text : string)
  : AppState N * option (Result string (list (QueuedCommand J))) :=
  match parse_arg "tenant_id" "TenantId" mkTenantId tenant_text with
  | Err e => (app, Some (Err e))
  | Ok tenant =>
    block_on driver app
      (let '(q, commands) := list_pending order_by_created (queue (client app)) tenant in
       (set_client app (set_queue (client app) q), Ok commands))
  end.

(** @src crates/desktop/src/commands.rs 220-276 [resolve_conflict] *)
Definition resolve_conflict app (ty aggregate_text : string) (r : ConflictResolution)
    (tenant_text : string) : AppState N * option (Result string unit) :=
  match parse_arg "tenant_id" "TenantId" mkTenantId tenant_text,
        parse_arg "aggregate_id" "AggregateId" mkAggregateId aggregate_text with
  | Err e, _ | Ok _, Err e => (app, Some (Err e))
  | Ok tenant, Ok aggregate =>
    match r with
    | UseRemote =>
      let '(c, result) := sync_read_model (J:=J) driver (sync_manager app) (client app) tenant ty
                            aggregate in
      (set_client app c,
       (fun result =>
          match result with
          | Err e => Err ("Failed to sync remote version: " +:+ show_sync_error e)
          | Ok (Some (ReadModelConflict _)) =>
              Err "Conflict still exists after resolution attempt"%string
          | Ok _ => Ok tt
          end) <$> result)
    | UseLocal => (app, Some (Ok tt))
    | Merge => (app, Some (Err "Merge resolution not yet implemented"%string))
    end
  end.

(** @src crates/desktop/src/sync_worker.rs 41-50 [SyncWorker::new] *)
Definition worker_new : SyncWorker :=
  {| active_tenants := []; consecutive_failures := 0; backoff_duration := 1; emitted := [];
     worker_running := true |}.

Definition set_tenants w (ts : list TenantId) : SyncWorker :=
  {| active_tenants := ts; consecutive_failures := consecutive_failures w;
     backoff_duration := backoff_duration w; emitted := emitted w;
     worker_running := worker_running w |}.
Definition set_backoff w (failures backoff : Z) : SyncWorker :=
  {| active_tenants := active_tenants w; consecutive_failures := failures;
     backoff_duration := backoff; emitted := emitted w; worker_running := worker_running w |}.
Definition emit w (e : WorkerEvent) : SyncWorker :=
  {| active_tenants := active_tenants w; consecutive_failures := consecutive_failures w;
     backoff_duration := backoff_duration w; emitted := emitted w ++ [e];
     worker_running := worker_running w |}.
Definition panicked w : SyncWorker :=
  {| active_tenants := active_tenants w; consecutive_failures := consecutive_failures w;
     backoff_duration := backoff_duration w; emitted := emitted w; worker_running := false |}.

(** @src crates/desktop/src/sync_worker.rs 52-59 [SyncWorker::add_tenant] *)
Definition add_tenant w (tenant : TenantId) : SyncWorker :=
  if decide (tenant ∈ active_tenants w) then w else set_tenants w (active_tenants w ++ [tenant]).

(** @src crates/desktop/src/sync_worker.rs 61-66 [SyncWorker::remove_tenant] *)
Definition remove_tenant w (tenant : TenantId) : SyncWorker :=
  set_tenants w (filter (fun t => t <> tenant) (active_tenants w)).

(** @src crates/desktop/src/sync_worker.rs 194-291 [SyncWorker::sync_tenant_internal] *)
Definition sync_tenant_internal app w (tenant : TenantId)
  : AppState N * SyncWorker * option (Result string unit) :=
  if is_offline (offline_mode app) then (app, w, Some (Err "Offline mode is active"%string)) else
  let '(app, online) := check_mode app in
  if negb online then (app, w, Some (Err "No connectivity"%string)) else
  let '(c, r) := sync_tenant (J:=J) order_by_created driver (sync_manager app) (client app) tenant in
  let app := set_client app c in
  match r with
  | None => (app, w, None)
  | Some (Ok result) =>
    if decide (conflicts result <> [])
    then (app, emit w (SyncConflict (conflicts result)), Some (Ok tt))
    else (app, emit w (SyncCompleted (length (synced_commands result))
                         (length (synced_read_models result)) (length (conflicts result))),
          Some (Ok tt))
  | Some (Err ErrOffline) =>
    (set_mode app (set_offline (offline_mode app)), w, Some (Err "Client is offline"%string))
  | Some (Err (ErrNetwork e)) =>
    (set_mode app (set_offline (offline_mode app)), emit w (SyncFailed e),
     Some (Err ("Network error: " +:+ e)))
  | Some (Err e) =>
    (app, emit w (SyncFailed (show_sync_error e)), Some (Err ("Sync failed: " +:+ show_sync_error e)))
  end.

(** The end of an iteration of [for tenant_id in tenants { .. }].

    @src crates/desktop/src/sync_worker.rs 155-184 [SyncWorker::start] *)
Definition after_sync w (r : Result string unit) : SyncWorker :=
  match r with
  | Ok _ => set_backoff w 0 1
  | Err _ =>
    let failures := wrapU 32 (consecutive_failures w + 1) in
    if (0 <? failures)%Z
    then set_backoff w failures
           (Z.min (backoff_duration w * Z.shiftl 1 (Z.min failures 5)) 300)
    else set_backoff w failures (backoff_duration w)
  end.

(** [for tenant_id in tenants { .. }].

    @src crates/desktop/src/sync_worker.rs 136-185 [SyncWorker::start] *)
Definition worker_tenant (acc : AppState N * SyncWorker) (tenant : TenantId) : AppState N * SyncWorker :=
  let '(app, w) := acc in
  if negb (worker_running w) then (app, w) else
  let '(app, pending) := block_on driver app
    (let '(q, pending) := list_pending (J:=J) order_by_created (queue (client app)) tenant in
     (set_client app (set_queue (client app) q), pending)) in
  match pending with
  | None => (app, panicked w)
  | Some [] => (app, w)
  | Some _ =>
    let '(app, w, r) := sync_tenant_internal app w tenant in
    (app, match r with None => panicked w | Some r => after_sync w r end)
  end.

(** A tick of the 30-second interval.

    @src crates/desktop/src/sync_worker.rs 96-186 [SyncWorker::start] *)
Definition worker_tick (acc : AppState N * SyncWorker) : AppState N * SyncWorker :=
  let '(app, w) := acc in
  if negb (worker_running w) then (app, w) else
  if is_offline (offline_mode app) then (app, w) else
  let '(app, online) := check_mode app in
  if negb online then (app, w) else
  foldl worker_tenant (app, w) (active_tenants w).

(** The rounds of [sync_tenant_with_backoff] from the attempts left on, with the
    delays slept.

    @src crates/desktop/src/sync_worker.rs 312-349 [sync_tenant_with_backoff] *)
Fixpoint backoff_attempts app w (tenant : TenantId) (max_retries : nat) (attempts : list nat)
    (delay : Z) (last_error : option string)
  : AppState N * SyncWorker * list Z * option (Result string unit) :=
  match attempts with
  | [] => (app, w, [], Some (Err (unwrap_or last_error "Unknown error"%string)))
  | attempt :: rest =>
    let '(app, w, r) := sync_tenant_internal app w tenant in
    match r with
    | None => (app, w, [], None)
    | Some (Ok _) => (app, w, [], Some (Ok tt))
    | Some (Err e) =>
      if decide (attempt < max_retries) then
        let '(app, w, slept, r) :=
          backoff_attempts app w tenant max_retries rest (Z.min (delay * 2) 60) (Some e) in
        (app, w, delay :: slept, r)
      else backoff_attempts app w tenant max_retries rest delay (Some e)
    end
  end.

(** @src crates/desktop/src/sync_worker.rs 306-350 [sync_tenant_with_backoff] *)
Definition sync_tenant_with_backoff app w (tenant : TenantId) (max_retries : nat)
  : AppState N * SyncWorker * list Z * option (Result string unit) :=
  backoff_attempts app w tenant max_retries (seq 0 (S max_retries)) 1%Z None.
End App.

(** ** What a synchronisation does to the queue *)
Section Theory.
Context {N J : Type} `{Texts} `{QueueCodec J} `{DesktopJson J} `{ApiServer N J}.
Context `{!TextsLaws} (order_by_created : list CommandRow -> list CommandRow).
Context `{!CreatedOrder order_by_created}.
Implicit Types (self : SyncManager) (s : Client N) (c : QueuedCommand J) (cmds : list (QueuedCommand J)).

(** The queue of a client holds these commands. *)
Definition holds (q : Sqlite (list CommandRow)) cmds : Prop :=
  table q = map command_row cmds /\ commands_ok cmds.

Definition clock_ok s : Prop := forall k, time_ok (clock s k).

(** The call that records the outcome of sending a command. *)
Definition outcome_call c (r : Result SyncError unit) (now : DateTime) : QueueCall (J:=J) :=
  match r with
  | Ok _ => CallMarkSynced (id c) now
  | Err (ErrNetwork _) | Err ErrOffline => CallMarkSyncing (id c)
  | Err e => CallMarkFailed (id c) (show_sync_error e)
  end.

(** The command with the outcome recorded. *)
Definition settle (reply : DateTime * Result SyncError unit) c : QueuedCommand J :=
  match reply.2 with
  | Ok _ => with_status c Synced (Some reply.1) (error c)
  | Err (ErrNetwork _) | Err ErrOffline => with_status c Syncing None (error c)
  | Err e => with_status c Failed (synced_at c) (Some (show_sync_error e))
  end.

Lemma commands_call_outcome cmds c r now :
  commands_call cmds (outcome_call c r now) = on_id (id c) (settle (now, r)) cmds.
Proof. by destruct r as [|[]]. Qed.

Lemma outcome_call_ok c r now : time_ok now -> call_ok (outcome_call c r now).
Proof. by destruct r as [|[]]. Qed.

(** Reading the server and the cache does not touch the queue or the clock. *)
Definition same_queue s s' : Prop := queue s' = queue s /\ clock s' = clock s.

#[local] Instance same_queue_preorder : PreOrder same_queue.
Proof. split; [by split | intros ???[][]; split; congruence]. Qed.

Lemma same_queue_now s : same_queue s (utc_now s).1.
Proof. done. Qed.

Lemma same_queue_version s body headers : same_queue s (extract_version_from_body (J:=J) s body headers).1.
Proof.
  unfold extract_version_from_body. do 2 (destruct (_ ≫= parse_uint 64); [done|]).
  by destruct (stream_version body).
Qed.

Lemma same_queue_body s tenant ty aggregate body v :
  same_queue s (cache_body (J:=J) s tenant ty aggregate body v).1.
Proof.
  unfold cache_body; simpl.
  by destruct (cache_read_model_with_version _ _ _ _ _ _ _).
Qed.

Lemma same_queue_read_model self s tenant ty aggregate :
  same_queue s (fetch_read_model (J:=J) self s tenant ty aggregate).1.
Proof.
  unfold fetch_read_model.
  destruct (get_read_model_version _ _ _ _) as [ca [local|e]]; [|by split].
  destruct (get _ _ _) as [n [resp|e]]; [|by split].
  destruct (negb _); [by split|]. destruct (resp_body resp ≫= parse_json) as [body|e]; [|by split].
  match goal with |- context [extract_version_from_body ?s1 body ?h] =>
    pose proof (same_queue_version s1 body h) as Hv;
    destruct (extract_version_from_body s1 body h) as [s2 v]; simpl in Hv
  end.
  pose proof (same_queue_body s2 tenant ty aggregate body v) as Hb.
  destruct (match local with Some _ => _ | None => _ end) as [cf|];
    [destruct (resolution cf); [exact Hv| |]|];
    destruct (cache_body s2 tenant ty aggregate body v) as [s3 r]; simpl in Hb |- *;
    etrans; [exact Hv | exact Hb | exact Hv | exact Hb | exact Hv | exact Hb].
Qed.

(** Recording the outcome of a command changes nothing else. *)
Lemma record_outcome_queue self tenant s result c r :
  let after := record_outcome self tenant (s, result) c r in
  queue after.1 = queue_call (queue s) (outcome_call c r (clock s (readings s)))
  /\ clock after.1 = clock s
  /\ synced_commands after.2 = synced_commands result ++ (if is_ok r then [id c] else []).
Proof.
  intros after. subst after. unfold record_outcome. destruct r as [[]|e].
  - simpl. match goal with |- context [fetch_read_model self ?s1 ?t ?ty ?a] =>
      pose proof (same_queue_read_model self s1 t ty a) as [Hq Hc];
      destruct (fetch_read_model self s1 t ty a) as [s2 m]; simpl in Hq, Hc |- *
    end.
    split_and!; [done..|]. by repeat case_match.
  - destruct e; simpl; by rewrite app_nil_r.
Qed.

(** One turn of the loop records the outcome of its command, and nothing else. *)
Lemma sync_one_queue self tenant s result c :
  let r := (sync_command self (net s) c).2 in
  let after := sync_one self tenant (s, result) c in
  queue after.1 = queue_call (queue s) (outcome_call c r (clock s (readings s)))
  /\ clock after.1 = clock s
  /\ synced_commands after.2 = synced_commands result ++ (if is_ok r then [id c] else []).
Proof.
  intros r after. subst r after. unfold sync_one.
  destruct (sync_command self (net s) c) as [[n slept] r].
  exact (record_outcome_queue self tenant (set_net s n) result c r).
Qed.

(** Commands with the clock reading and the outcome of sending each. *)
Abbreviation Replies := (list (QueuedCommand J * (DateTime * Result SyncError unit))).

Definition reply_call (x : QueuedCommand J * (DateTime * Result SyncError unit)) : QueueCall (J:=J) :=
  outcome_call x.1 x.2.2 x.2.1.

(** Each outcome is that of a [sync_command], the time a reading of the clock. *)
Definition reply_of self s (x : QueuedCommand J * (DateTime * Result SyncError unit)) : Prop :=
  (exists n, x.2.2 = (sync_command self n x.1).2) /\ exists k, x.2.1 = clock s k.

Definition acknowledged (replies : Replies) : list Uuid :=
  map (fun x => id x.1) (List.filter (fun x => is_ok x.2.2) replies).

Lemma sync_loop self tenant s result (pending : list (QueuedCommand J)) :
  let after := foldl (sync_one self tenant) (s, result) pending in
  exists replies : Replies,
    map fst replies = pending /\ Forall (reply_of self s) replies
    /\ queue after.1 = foldl queue_call (queue s) (map reply_call replies)
    /\ clock after.1 = clock s
    /\ synced_commands after.2 = synced_commands result ++ acknowledged replies.
Proof.
  revert s result. induction pending as [|c pending IH]; intros s result; cbn [foldl].
  - exists []. simpl. by rewrite app_nil_r.
  - destruct (sync_one_queue self tenant s result c) as (Hq & Hc & Hr).
    destruct (sync_one self tenant (s, result) c) as [s1 result1] eqn:E1; simpl in Hq, Hc, Hr.
    destruct (IH s1 result1) as (replies & Hf & Hall & Hq' & Hc' & Hr').
    exists ((c, (clock s (readings s), (sync_command self (net s) c).2)) :: replies).
    split_and!.
    + simpl. by rewrite Hf.
    + constructor; [by split; eexists|]. eapply Forall_impl; [exact Hall|].
      intros x [Hx [k Hk]]. split; [done|]. exists k. by rewrite <- Hc.
    + rewrite Hq', Hq. done.
    + by rewrite Hc', Hc.
    + rewrite Hr', Hr, <- app_assoc. f_equal. unfold acknowledged; simpl.
      by destruct (is_ok _).
Qed.

(** Two commands of the queue with one identifier are one. *)
Lemma commands_same_id cmds c c' : commands_ok cmds -> c ∈ cmds -> c' ∈ cmds -> id c' = id c -> c' = c.
Proof.
  intros [Hn _] Hc Hc' E. apply list_elem_of_lookup in Hc as [i Hi].
  apply list_elem_of_lookup in Hc' as [j Hj].
  assert (i = j) as <-; [|congruence].
  eapply (NoDup_lookup _ _ _ (id c) Hn); rewrite list_lookup_fmap, ?Hi, ?Hj; simpl; congruence.
Qed.

(** *** Marking commands one after the other *)
Lemma on_id_other i f cmds c : c ∈ cmds -> id c <> i -> c ∈ on_id i f cmds.
Proof.
  intros Hc Hi. apply list_elem_of_fmap. exists c. by rewrite decide_False.
Qed.

Lemma on_id_self f cmds c : c ∈ cmds -> f c ∈ on_id (id c) f cmds.
Proof. intros Hc. apply list_elem_of_fmap. exists c. by rewrite decide_True. Qed.

Lemma id_settle x c : id (settle x c) = id c.
Proof. by destruct x as [now [|[]]]. Qed.

Definition settle_all (replies : Replies) cmds : list (QueuedCommand J) :=
  foldl (fun cmds x => on_id (id x.1) (settle x.2) cmds) cmds replies.

Lemma settle_all_other replies cmds c :
  c ∈ cmds -> id c ∉ map (fun x => id x.1) replies -> c ∈ settle_all replies cmds.
Proof.
  revert cmds. induction replies as [|x replies IH]; intros cmds Hc Hi; simpl in *; [done|].
  apply not_elem_of_cons in Hi as [Hx Hi]. apply IH; [by apply on_id_other | done].
Qed.

Lemma settle_all_self replies cmds x :
  NoDup (map (fun x => id x.1) replies) -> Forall (fun x => x.1 ∈ cmds) replies ->
  x ∈ replies -> settle x.2 x.1 ∈ settle_all replies cmds.
Proof.
  revert cmds. induction replies as [|y replies IH]; intros cmds Hn Hin Hx;
    [by apply not_elem_of_nil in Hx|].
  simpl in Hn. apply NoDup_cons in Hn as [Hy Hn]. apply Forall_cons_1 in Hin as [Hyc Hin].
  apply elem_of_cons in Hx as [->|Hx]; simpl.
  - apply settle_all_other; [by apply on_id_self | by rewrite id_settle].
  - apply IH; [done| |done]. rewrite Forall_forall in Hin |- *. intros z Hz.
    apply on_id_other; [by apply Hin|]. intros E. apply Hy. rewrite <- E.
    apply list_elem_of_fmap. by exists z.
Qed.

Lemma settle_all_length replies cmds : length (settle_all replies cmds) = length cmds.
Proof.
  revert cmds. induction replies as [|x replies IH]; intros cmds; simpl; [done|].
  rewrite IH. unfold on_id. apply length_map.
Qed.

(** The calls of a synchronisation whose statements all run. *)
Lemma commands_after_replies out k replies cmds : (forall j, out j = None) ->
  commands_after out k cmds (map reply_call replies) = settle_all replies cmds.
Proof.
  intros Hout. revert k cmds. induction replies as [|x replies IH]; intros k cmds; simpl; [done|].
  rewrite Hout, IH. unfold reply_call. rewrite commands_call_outcome. by destruct x as [c [now r]].
Qed.

(** *** Reading the queue *)
Lemma list_pending_table q tenant :
  table (list_pending (J:=J) order_by_created q tenant).1 = table q
  /\ outcome (list_pending (J:=J) order_by_created q tenant).1 = outcome q.
Proof.
  unfold list_pending, execute. destruct (outcome q (calls q)); [done|].
  by destruct (mapM _ _).
Qed.

Lemma list_pending_sound q cmds tenant c : holds q cmds ->
  c ∈ (list_pending order_by_created q tenant).2 -> c ∈ cmds /\ awaits_sending tenant c = true.
Proof.
  intros [Ht [Hn Hr]] Hc. destruct (outcome q (calls q)) as [err|] eqn:Eo.
  - unfold list_pending, execute in Hc. rewrite Eo in Hc. by apply not_elem_of_nil in Hc.
  - destruct (list_pending_rows order_by_created q cmds tenant Ht Hr Eo) as [Hp _].
    rewrite Hp in Hc. by apply list_elem_of_In, filter_In in Hc as [?%list_elem_of_In ?].
Qed.

Lemma holds_read q cmds tenant :
  holds q cmds -> holds (list_pending (J:=J) order_by_created q tenant).1 cmds.
Proof. intros [Ht Hok]. split; [|done]. by rewrite (proj1 (list_pending_table q tenant)). Qed.

Lemma NoDup_sent q cmds tenant : holds q cmds -> outcome q (calls q) = None ->
  NoDup (map id (list_pending order_by_created q tenant).2).
Proof.
  intros [Ht Hok] Eo.
  destruct (list_pending_rows order_by_created q cmds tenant Ht (proj2 Hok) Eo) as [Hp _].
  rewrite Hp. by apply filter_ok.
Qed.

Lemma replies_ok self s replies : clock_ok s -> Forall (reply_of self s) replies ->
  Forall call_ok (map reply_call replies).
Proof.
  intros Hclock Hall. apply Forall_map. eapply Forall_impl; [exact Hall|].
  intros x [_ [k Hk]]. apply outcome_call_ok. rewrite Hk. apply Hclock.
Qed.

(** The calls of a loop on a queue that holds commands. *)
Lemma holds_calls q cmds (cs : list QueueCall) : holds q cmds -> Forall call_ok cs ->
  holds (foldl queue_call q cs) (commands_after (outcome q) (calls q) cmds cs).
Proof.
  intros [Ht Hok] Hcs. split; [by apply run_rows | by apply commands_after_ok].
Qed.

(** What a synchronisation that may block does, whatever fails. *)
Lemma sync_pending_queue self s tenant :
  let pending := list_pending order_by_created (queue s) tenant in
  let after := sync_pending order_by_created self s tenant in
  exists (replies : Replies) (result : SyncResult),
    after.2 = Ok result /\ map fst replies = pending.2 /\ Forall (reply_of self s) replies
    /\ queue after.1 = foldl queue_call pending.1 (map reply_call replies)
    /\ clock after.1 = clock s
    /\ synced_commands result = acknowledged replies.
Proof.
  intros pending after. subst after. unfold sync_pending. fold pending.
  destruct pending as [q sent]; cbn [fst snd].
  destruct (sync_loop self tenant (set_queue s q) (mkSyncResult [] [] []) sent)
    as (replies & Hf & Hall & Hq & Hc & Hr).
  destruct (foldl _ _ _) as [s1 result] eqn:E1; simpl in Hq, Hc, Hr |- *.
  by exists replies, result.
Qed.

(** C29: A synchronisation of the desktop settles every waiting command, or panics
    before it sends anything.  Run as a task of tokio, which is how the program
    runs it ([sync_now] and the worker), [sync_tenant] panics at its first call of
    the queue: no request is made, and queue, cache and clock stay as they are.
    Where its calls may block and the SQLite statements go through, it always
    returns a result; the commands of the tenant that are [Pending] or [Failed] are
    sent in the order of their creation, and each ends up [Synced] at some time when
    the API accepted it, [Syncing] when the network failed it, [Failed] with the
    error otherwise; no other command changes, none is lost, and the result lists
    exactly the accepted ones. *)
Theorem sync_settles_every_command driver self s tenant cmds :
  holds (queue s) cmds -> clock_ok s -> (forall k, outcome (queue s) k = None) ->
  let sent := (list_pending order_by_created (queue s) tenant).2 in
  let after := sync_tenant order_by_created driver self s tenant in
  match driver with
  | TokioTask => after = (s, None)
  | BlockingExecutor =>
    exists (replies : Replies) (result : SyncResult) cmds',
      after.2 = Some (Ok result) /\ map fst replies = sent /\ Forall (reply_of self s) replies
      /\ sent ≡ₚ List.filter (awaits_sending tenant) cmds
      /\ StronglySorted (fun c c' => created_text_le c c' = true) sent
      /\ holds (queue after.1) cmds' /\ length cmds' = length cmds
      /\ (forall x, x ∈ replies -> settle x.2 x.1 ∈ cmds')
      /\ (forall c, c ∈ cmds -> awaits_sending tenant c = false -> c ∈ cmds')
      /\ synced_commands result = acknowledged replies
  end.
Proof.
  intros Hh Hclock Hout sent after. destruct driver; [done|].
  destruct (sync_pending_queue self s tenant) as (replies & result & Hr & Hf & Hall & Hq & _ & Hs).
  destruct (list_pending_table (queue s) tenant) as [_ Eo].
  destruct (list_pending_rows order_by_created _ cmds tenant (proj1 Hh) (proj2 (proj2 Hh)) (Hout _))
    as [Hp Hsort].
  assert (Hids : map (fun x => id x.1) replies = map id sent)
    by (unfold sent; rewrite <- Hf, map_map; reflexivity).
  exists replies, result, (settle_all replies cmds). split_and!; try done.
  - subst after; simpl. by rewrite Hr.
  - pose proof (holds_calls _ _ _ (holds_read _ _ tenant Hh) (replies_ok self s replies Hclock Hall)) as Ha.
    rewrite commands_after_replies in Ha by (intros; rewrite Eo; apply Hout).
    subst after; simpl. by rewrite Hq.
  - apply settle_all_length.
  - intros x Hx. apply settle_all_self; [|apply Forall_forall; intros y Hy|done].
    + rewrite Hids. by eapply NoDup_sent.
    + eapply list_pending_sound; [exact Hh|]. rewrite <- Hf. by apply list_elem_of_fmap_2.
  - intros c Hc Ha. apply settle_all_other; [done|]. rewrite Hids.
    intros (c' & E & Hc')%list_elem_of_fmap.
    destruct (list_pending_sound _ _ _ _ Hh Hc') as [Hc'' Ha'].
    replace c with c' in Ha by (eapply commands_same_id; [exact (proj2 Hh) | done..]). congruence.
Qed.

(** *** Commands that are out of the queue's reach *)

(** A command that no synchronisation lists. *)
Definition settled c : Prop := status c = Syncing \/ status c = Synced.

Definition keeps c s : Prop := clock_ok s /\ exists cmds, holds (queue s) cmds /\ c ∈ cmds.

(** The calls that cannot change a command. *)
Definition spares c (call : QueueCall (J:=J)) : Prop :=
  match call with
  | CallEnqueue _ _ _ _ _ _ => True
  | CallMarkSyncing i | CallMarkSynced i _ | CallMarkFailed i _ | CallRetryFailed i => i <> id c
  | CallClearSynced _ => False
  end.

Lemma commands_call_spares cmds c call : c ∈ cmds -> spares c call -> c ∈ commands_call cmds call.
Proof.
  intros Hc Hs. destruct call; simpl in *; try (by apply on_id_other; [|naive_solver]); [|done].
  case_decide; [done|]. apply elem_of_app. by left.
Qed.

Lemma commands_after_spares out k cmds c cs : c ∈ cmds -> Forall (spares c) cs ->
  c ∈ commands_after out k cmds cs.
Proof.
  intros Hc Hcs. revert k cmds Hc. induction Hcs as [|call cs Hs _ IH]; intros k cmds Hc; simpl; [done|].
  apply IH. case_match; [done|]. by apply commands_call_spares.
Qed.

Lemma keeps_calls c s s' cs : keeps c s -> clock s' = clock s -> Forall call_ok cs ->
  Forall (spares c) cs -> queue s' = foldl queue_call (queue s) cs -> keeps c s'.
Proof.
  intros [Hclock (cmds & Hh & Hc)] Ec Hok Hcs Eq. split; [by intros k; rewrite Ec|].
  eexists. rewrite Eq. split; [by apply holds_calls | by apply commands_after_spares].
Qed.

Lemma keeps_same c s s' : keeps c s -> same_queue s s' -> keeps c s'.
Proof.
  intros Hk [Hq Hc]. by apply (keeps_calls c s s' []).
Qed.

Lemma settled_not_sent c s tenant : settled c -> keeps c s ->
  id c ∉ map id (list_pending order_by_created (queue s) tenant).2.
Proof.
  intros Hset [_ (cmds & Hh & Hc)] (c' & E & Hc')%list_elem_of_fmap.
  destruct (list_pending_sound _ _ _ _ Hh Hc') as [Hin Ha].
  replace c' with c in Ha by (symmetry; eapply commands_same_id; [exact (proj2 Hh) | done..]).
  unfold awaits_sending in Ha. apply andb_true_iff in Ha as [_ Ha%bool_decide_eq_true].
  destruct Hset, Ha; congruence.
Qed.

Lemma keeps_list_pending c s tenant : keeps c s ->
  keeps c (set_queue s (list_pending (J:=J) order_by_created (queue s) tenant).1).
Proof.
  intros [Hclock (cmds & Hh & Hc)]. split; [done|]. exists cmds. split; [by apply holds_read | done].
Qed.

Lemma keeps_sync_tenant c driver self s tenant : settled c -> keeps c s ->
  keeps c (sync_tenant order_by_created driver self s tenant).1.
Proof.
  intros Hset Hk. destruct driver; [done|]. unfold sync_tenant; simpl.
  destruct (sync_pending_queue self s tenant) as (replies & result & _ & Hf & Hall & Hq & Ec & _).
  pose proof (settled_not_sent c s tenant Hset Hk) as Hno.
  eapply (keeps_calls c (set_queue s (list_pending (J:=J) order_by_created (queue s) tenant).1));
    [by apply keeps_list_pending | exact Ec | by eapply replies_ok; [apply Hk | exact Hall] | | exact Hq].
  apply Forall_map, Forall_forall. intros x Hx.
  assert (id x.1 <> id c) as Hi.
  { intros E. apply Hno. rewrite <- E, <- Hf, map_map. apply list_elem_of_fmap. by exists x. }
  unfold spares, reply_call. by destruct x as [c' [now [|[]]]].
Qed.
End Theory.

(** ** The running application *)
Section Running.
Context {N J : Type} `{Texts} `{QueueCodec J} `{DesktopJson J} `{ApiServer N J}.
Context (order_by_created : list CommandRow -> list CommandRow).
Context (driver : Driver).

(** What the user, the worker's timer and the network do. *)
Inductive Action : Type :=
| DoAdjustStock (fresh : Uuid) (tenant item : string) (delta : Z)
| DoSyncNow (tenant : string)
| DoListPending (tenant : string)
| DoResolve (ty aggregate : string) (r : ConflictResolution) (tenant : string)
| DoTick
| DoAddTenant (tenant : TenantId)
| DoRemoveTenant (tenant : TenantId)
| DoSyncWithBackoff (tenant : TenantId) (max_retries : nat)
| NetworkChange (n : N).

Definition act (aw : AppState N * SyncWorker) (a : Action) : AppState N * SyncWorker :=
  let '(app, w) := aw in
  match a with
  | DoAdjustStock fresh tenant item delta => ((adjust_stock (J:=J) driver app fresh tenant item delta).1, w)
  | DoSyncNow tenant => ((sync_now (J:=J) order_by_created driver app tenant).1, w)
  | DoListPending tenant => ((list_pending_commands (J:=J) order_by_created driver app tenant).1, w)
  | DoResolve ty aggregate r tenant => ((resolve_conflict (J:=J) driver app ty aggregate r tenant).1, w)
  | DoTick => worker_tick (J:=J) order_by_created driver (app, w)
  | DoAddTenant tenant => (app, add_tenant w tenant)
  | DoRemoveTenant tenant => (app, remove_tenant w tenant)
  | DoSyncWithBackoff tenant max_retries =>
      let '(app, w, _, _) := sync_tenant_with_backoff (J:=J) order_by_created driver app w tenant max_retries in
      (app, w)
  | NetworkChange n => (set_client app (set_net (client app) n), w)
  end.

(** A new identifier is not that of an older command. *)
Definition introduces (a : Action) (i : Uuid) : Prop :=
  match a with DoAdjustStock fresh _ _ _ => fresh = i | _ => False end.

(** The amounts adjusted are printed and read back. *)
Definition payload_ok (a : Action) : Prop :=
  match a with
  | DoAdjustStock _ _ _ delta =>
      parse_json (J:=J) (show_json (delta_payload delta)) = Ok (delta_payload (J:=J) delta)
  | _ => True
  end.

Context `{!TextsLaws} `{!CreatedOrder order_by_created}.
Implicit Types (app : AppState N) (c : QueuedCommand J).

(** A call that blocks happens or leaves the state alone. *)
Lemma block_on_keeps {S A : Type} (P : S -> Prop) (s : S) (r : S * A) :
  P s -> P r.1 -> P (block_on driver s r).1.
Proof. by destruct driver. Qed.

Lemma keeps_check_mode c app : keeps c (client app) -> keeps c (client (check_mode (J:=J) app).1).
Proof.
  unfold check_mode, check_connectivity. destruct (get _ _ _) as [n r]; simpl.
  intros Hk. by eapply keeps_same.
Qed.

Lemma keeps_internal c app w tenant : settled c -> keeps c (client app) ->
  keeps c (client (sync_tenant_internal (J:=J) order_by_created driver app w tenant).1.1).
Proof.
  intros Hset Hk. unfold sync_tenant_internal. destruct (is_offline _); [done|].
  pose proof (keeps_check_mode c app Hk) as Hk1. destruct (check_mode app) as [app1 online]; simpl in Hk1 |- *.
  destruct (negb online); [done|].
  pose proof (keeps_sync_tenant order_by_created c driver (sync_manager app1) (client app1) tenant Hset Hk1) as Hk2.
  destruct (sync_tenant _ _ _ _ _) as [s r]; simpl in Hk2 |- *.
  destruct r as [[result|[]]|]; try done. by case_decide.
Qed.

(** The application with its queue read. *)
Lemma keeps_listed c app tenant : keeps c (client app) ->
  forall (A : Type) (f : list (QueuedCommand J) -> A),
  keeps c (client (block_on driver app
    (let '(q, pending) := list_pending (J:=J) order_by_created (queue (client app)) tenant in
     (set_client app (set_queue (client app) q), f pending))).1).
Proof.
  intros Hk A f. apply (block_on_keeps (fun app => keeps c (client app))); [done|].
  pose proof (keeps_list_pending order_by_created c (client app) tenant Hk) as Hk1.
  by destruct (list_pending order_by_created (queue (client app)) tenant).
Qed.

Lemma keeps_worker_tenant c app w tenant : settled c -> keeps c (client app) ->
  keeps c (client (worker_tenant (J:=J) order_by_created driver (app, w) tenant).1).
Proof.
  intros Hset Hk. unfold worker_tenant. destruct (negb _); [done|].
  pose proof (keeps_listed c app tenant Hk _ (fun x => x)) as Hk1.
  destruct (block_on _ _ _) as [app1 [[|c1 pending]|]]; [done| |done].
  pose proof (keeps_internal c app1 w tenant Hset Hk1) as Hk2.
  by destruct (sync_tenant_internal _ _ _ _ _) as [[app2 w2] r].
Qed.

Lemma keeps_worker_tick c app w : settled c -> keeps c (client app) ->
  keeps c (client (worker_tick (J:=J) order_by_created driver (app, w)).1).
Proof.
  intros Hset Hk. unfold worker_tick. destruct (negb _); [done|].
  destruct (is_offline _); [done|].
  pose proof (keeps_check_mode c app Hk) as Hk1. destruct (check_mode app) as [app1 online]; simpl in Hk1.
  destruct (negb online); [done|]. generalize (active_tenants w) as ts. intros ts.
  revert app1 w Hk1. induction ts as [|t ts IH]; intros app1 w Hk1; cbn [foldl]; [done|].
  pose proof (keeps_worker_tenant c app1 w t Hset Hk1) as Hk2.
  destruct (worker_tenant order_by_created driver (app1, w) t) as [app2 w2]. by apply IH.
Qed.

Lemma keeps_backoff c app w tenant max_retries attempts delay last : settled c ->
  keeps c (client app) ->
  keeps c (client (backoff_attempts (J:=J) order_by_created driver app w tenant max_retries attempts delay last).1.1.1).
Proof.
  intros Hset. revert app w delay last. induction attempts as [|a attempts IH];
    intros app w delay last Hk; cbn [backoff_attempts]; [done|].
  pose proof (keeps_internal c app w tenant Hset Hk) as Hk1.
  destruct (sync_tenant_internal _ _ _ _ _) as [[app1 w1] [[|e]|]]; simpl in Hk1; [done| |done].
  case_decide; [|by apply IH]. specialize (IH app1 w1 (Z.min (delay * 2) 60)%Z (Some e) Hk1).
  by destruct (backoff_attempts _ _ _ _ _ _ _ _) as [[[app2 w2] slept] r].
Qed.

Lemma keeps_adjust c app fresh tenant item delta :
  fresh <> id c -> payload_ok (DoAdjustStock fresh tenant item delta) -> keeps c (client app) ->
  keeps c (client (adjust_stock (J:=J) driver app fresh tenant item delta).1).
Proof.
  intros Hf Hp Hk. unfold adjust_stock.
  destruct (parse_arg "tenant_id" _ _ _) as [t|]; [|done].
  destruct (parse_arg "item_id" _ _ _) as [a|]; [|done].
  apply (block_on_keeps (fun app => keeps c (client app))); [by eapply keeps_same|]. simpl.
  set (s1 := set_queue _ _).
  assert (keeps c s1) as Hk1.
  { eapply (keeps_calls c (client app) s1 [CallEnqueue fresh _ t _ a (delta_payload delta)]);
      [done..| | |reflexivity]; repeat constructor; [exact Hp | apply Hk]. }
  destruct (is_offline _); [done|].
  destruct (sync_command _ _ _) as [[n slept] [|]]; simpl; [|by eapply keeps_same].
  eapply (keeps_calls c (set_net s1 n) _ [CallMarkSynced fresh _]);
    [by eapply keeps_same | done | | |reflexivity]; repeat constructor; [apply Hk1 | done].
Qed.

Lemma keeps_act c app w a : settled c -> payload_ok a -> ~ introduces a (id c) ->
  keeps c (client app) -> keeps c (client (act (app, w) a).1).
Proof.
  intros Hset Hp Hi Hk. destruct a; simpl; try done.
  - by apply keeps_adjust.
  - unfold sync_now. destruct (parse_arg _ _ _ _) as [t|]; [|done].
    pose proof (keeps_check_mode c app Hk) as Hk1. destruct (check_mode app) as [app1 online]; simpl in Hk1.
    destruct (negb online); [done|].
    pose proof (keeps_sync_tenant order_by_created c driver (sync_manager app1) (client app1) t Hset Hk1) as Hk2.
    by destruct (sync_tenant _ _ _ _ _).
  - unfold list_pending_commands. destruct (parse_arg _ _ _ _) as [t|]; [|done].
    by apply keeps_listed.
  - unfold resolve_conflict. destruct (parse_arg "tenant_id" _ _ _) as [t|]; [|done].
    destruct (parse_arg "aggregate_id" _ _ _) as [g|]; [|done]. destruct r; [done| |done].
    pose proof (block_on_keeps (keeps c) (client app)
                  (fetch_read_model (J:=J) (sync_manager app) (client app) t ty g) Hk) as Hk1.
    pose proof (same_queue_read_model (J:=J) (sync_manager app) (client app) t ty g) as Hq.
    unfold sync_read_model. destruct (block_on _ _ _) as [s r]. apply Hk1. by eapply keeps_same.
  - by apply keeps_worker_tick.
  - pose proof (keeps_backoff c app w tenant max_retries (seq 0 (S max_retries)) 1%Z None Hset Hk) as Hk1.
    unfold sync_tenant_with_backoff.
    by destruct (backoff_attempts _ _ _ _ _ _ _ _) as [[[app2 w2] slept] r].
Qed.

(** A command marked [Syncing] or [Synced] stays as it is and is never listed,
    whatever the application goes on to do. *)
Lemma keeps_acts c aw (acts : list Action) : settled c -> Forall payload_ok acts ->
  Forall (fun a => ~ introduces a (id c)) acts -> keeps c (client aw.1) ->
  keeps c (client (foldl act aw acts).1).
Proof.
  intros Hset Hp Hi. revert aw. induction acts as [|a acts IH]; intros [app w] Hk; simpl; [done|].
  apply Forall_cons_1 in Hp as [Hpa Hp]. apply Forall_cons_1 in Hi as [Hia Hi].
  apply IH; [done..|]. by apply (keeps_act c app w a).
Qed.

(** *** Outages *)

(** Marking a list of commands [Syncing]. *)
Lemma marked_syncing out k cmds (l : list (QueuedCommand J)) c :
  (forall j, out j = None) -> NoDup (map id l) -> Forall (fun c => c ∈ cmds) l -> c ∈ l ->
  with_status c Syncing None (error c)
  ∈ commands_after out k cmds (map (fun c => CallMarkSyncing (id c)) l).
Proof.
  intros Hout Hn Hin Hc.
  set (replies := map (fun c => (c, (0%Z, @Err SyncError unit ErrOffline))) l).
  replace (map _ l) with (map reply_call replies) by (unfold replies; by rewrite map_map).
  rewrite commands_after_replies by done.
  apply (settle_all_self replies cmds (c, (0%Z, Err ErrOffline))).
  - unfold replies. rewrite map_map. exact Hn.
  - unfold replies. by apply Forall_map.
  - apply list_elem_of_fmap. by exists c.
Qed.

(** In these states of the network every request fails, and leads to another. *)
Definition unreachable (down : N -> Prop) : Prop :=
  forall n url tok body, down n -> exists n' e, post n url tok body = (n', Err e) /\ down n'.

Lemma down_attempts (down : N -> Prop) self url body max attempts delay n :
  unreachable down -> down n ->
  let r := sync_attempts (J:=J) self url body max attempts delay n in
  down r.1.1 /\ exists e, r.2 = Err (ErrNetwork e).
Proof.
  intros Hdown. revert delay n. induction attempts as [|a attempts IH]; intros delay n Hn; simpl;
    [by split; [|eexists]|].
  destruct (try_clone url body); [|by split; [|eexists]].
  destruct (Hdown n url (token self) body Hn) as (n' & e & E & Hn'). rewrite E.
  case_decide; [|by split; [|eexists]].
  destruct (IH (delay * 2)%Z n' Hn') as [Hd [e' He']].
  destruct (sync_attempts _ _ _ _ _ _ _) as [[n2 slept] r]; simpl in *. by split; [|exists e'].
Qed.

Lemma down_loop (down : N -> Prop) self tenant s result (pending : list (QueuedCommand J)) :
  unreachable down -> down (net s) ->
  let after := foldl (sync_one self tenant) (s, result) pending in
  queue after.1 = foldl queue_call (queue s) (map (fun c => CallMarkSyncing (J:=J) (id c)) pending)
  /\ clock after.1 = clock s /\ after.2 = result.
Proof.
  intros Hdown. revert s. induction pending as [|c pending IH]; intros s Hn; cbn [foldl map]; [done|].
  unfold sync_one at 2 4 6. unfold sync_command.
  destruct (down_attempts down self (api_url self +:+ command_endpoint (command_type c) (aggregate_id c))
              (payload c) 3 (seq 0 4) 1%Z (net s) Hdown Hn) as [Hd [e He]].
  destruct (sync_attempts _ _ _ _ _ _ _) as [[n slept] r]; simpl in Hd, He. subst r.
  destruct (IH (set_queue (set_net s n) (mark_syncing (queue s) (id c))) Hd) as (Hq & Hc & Hr).
  split_and!; [exact Hq | exact Hc | exact Hr].
Qed.

(** A network outage takes commands out of the queue for good.  A
    synchronisation that may block, during which no request gets an answer reports success with
    nothing synced and marks every waiting command [Syncing]; from then on the
    command stays [Syncing] and is never listed for sending again, whatever the
    user, the background worker and the network do: manual synchronisations,
    retries with backoff, the network's return.  The loop's comment says the
    command will be retried. *)
Theorem outage_strands_commands (down : N -> Prop) app w tenant cmds c (acts : list Action) :
  unreachable down -> down (net (client app)) ->
  holds (queue (client app)) cmds -> clock_ok (client app) ->
  (forall k, outcome (queue (client app)) k = None) ->
  c ∈ cmds -> awaits_sending tenant c = true ->
  Forall payload_ok acts -> Forall (fun a => ~ introduces a (id c)) acts ->
  let '(s, r) := sync_tenant (J:=J) order_by_created BlockingExecutor (sync_manager app) (client app)
                   tenant in
  r = Some (Ok (mkSyncResult [] [] [])) /\
  let later := (foldl act (set_client app s, w) acts).1 in
  (exists cmds', holds (queue (client later)) cmds'
                 /\ with_status c Syncing None (error c) ∈ cmds') /\
  forall t, id c ∉ map id (list_pending (J:=J) order_by_created (queue (client later)) t).2.
Proof.
  intros Hdown Hn Hh Hclock Hout Hc Ha Hp Hi. unfold sync_tenant, sync_pending; cbn [block_on].
  set (pending := list_pending order_by_created (queue (client app)) tenant).
  destruct (list_pending_table (J:=J) order_by_created (queue (client app)) tenant) as [_ Eo].
  pose proof (holds_read order_by_created _ cmds tenant Hh) as Hh1.
  destruct (list_pending_rows order_by_created _ cmds tenant (proj1 Hh) (proj2 (proj2 Hh)) (Hout _))
    as [Hperm _].
  fold pending in Hh1, Hperm, Eo. destruct pending as [q sent]; simpl in Hh1, Hperm, Eo.
  pose proof (down_loop down (sync_manager app) tenant (set_queue (client app) q)
                (mkSyncResult [] [] []) sent Hdown Hn) as (Hq & Hcl & Hr).
  destruct (foldl _ _ sent) as [s result]; simpl in Hq, Hcl, Hr |- *. split; [by subst|].
  set (c' := with_status c Syncing None (error c)).
  assert (keeps c' (client (foldl act (set_client app s, w) acts).1)) as Hk.
  { apply keeps_acts; [by left | done | done |]. split; [by intros k; simpl; rewrite Hcl|].
    eexists. simpl. rewrite Hq. split; [apply holds_calls; [done|]; by apply Forall_map, Forall_true|].
    apply marked_syncing; [intros k; simpl; rewrite Eo; apply Hout | rewrite Hperm; by apply filter_ok, Hh | |];
      [apply Forall_forall; intros x Hx|]; rewrite Hperm in *.
    - by apply list_elem_of_In, filter_In in Hx as [?%list_elem_of_In _].
    - apply list_elem_of_In, filter_In. by rewrite <- list_elem_of_In. }
  split; [by destruct Hk as [_ ?]|]. intros t. by apply (settled_not_sent order_by_created c'); [left|].
Qed.
End Running.

(** ** The worker and connectivity *)
Section Worker.
Context {N J : Type} `{Texts} `{QueueCodec J} `{DesktopJson J} `{ApiServer N J}.
Context (order_by_created : list CommandRow -> list CommandRow).
Context (driver : Driver).
Implicit Types (app : AppState N).

(** What happens without the user. *)
Definition background (a : Action (N:=N)) : Prop :=
  match a with DoTick | DoAddTenant _ | DoRemoveTenant _ | NetworkChange _ => True | _ => False end.

Lemma offline_background app w (acts : list Action) :
  is_offline (offline_mode app) = true -> Forall background acts ->
  let later := (foldl (act (J:=J) order_by_created driver) (app, w) acts).1 in
  offline_mode later = offline_mode app /\ queue (client later) = queue (client app).
Proof.
  intros Hoff Hacts. revert app w Hoff. induction Hacts as [|a acts Ha _ IH]; intros app w Hoff;
    cbn [foldl]; [done|].
  destruct a; try done; cbn [act].
  - unfold worker_tick. rewrite Hoff. destruct (negb _); by apply IH.
  - by apply IH.
  - by apply IH.
  - destruct (IH (set_client app (set_net (client app) n)) w Hoff) as [Hm Hq]. by split.
Qed.

(** The worker goes offline by itself and never comes back: once a tick finds the
    API unreachable, later ticks do not look again, so that without the user
    nothing is sent when the network returns. *)
Theorem worker_never_reconnects app w (acts : list Action) n' e :
  worker_running w = true -> is_offline (offline_mode app) = false ->
  get (J:=J) (net (client app)) (client_api_url (sync_client app) +:+ "/health") None = (n', Err e) ->
  Forall background acts ->
  let later := (foldl (act (J:=J) order_by_created driver) (app, w) (DoTick :: acts)).1 in
  is_offline (offline_mode later) = true /\ queue (client later) = queue (client app).
Proof.
  intros Hrun Hon Hget Hacts. cbn [foldl act]. unfold worker_tick. rewrite Hrun, Hon; cbn [negb].
  unfold check_mode, check_connectivity. rewrite Hget. simpl.
  match goal with |- context [foldl _ (?app1, w) acts] =>
    destruct (offline_background app1 w acts eq_refl Hacts) as [Hm Hq]
  end.
  rewrite Hm, Hq. by split.
Qed.
End Worker.

(** ** The application as it is run *)
Section Tasks.
Context {N J : Type} `{Texts} `{QueueCodec J} `{DesktopJson J} `{ApiServer N J}.
Context (order_by_created : list CommandRow -> list CommandRow).
Implicit Types (app : AppState N).

Definition same_data app app' : Prop :=
  queue (client app') = queue (client app) /\ cache (client app') = cache (client app).

#[local] Instance same_data_preorder : PreOrder same_data.
Proof. split; [by split | intros ???[][]; split; congruence]. Qed.

Lemma same_data_check_mode app : same_data app (check_mode (J:=J) app).1.
Proof. unfold check_mode, check_connectivity. by destruct (get _ _ _). Qed.

Lemma same_data_internal app w tenant :
  same_data app (sync_tenant_internal (J:=J) order_by_created TokioTask app w tenant).1.1.
Proof.
  unfold sync_tenant_internal. destruct (is_offline _); [done|].
  pose proof (same_data_check_mode app). destruct (check_mode app) as [app1 online].
  by destruct (negb online).
Qed.

(** The worker's task, at the first tenant that is active. *)
Lemma worker_tenant_task app w tenant :
  worker_tenant (J:=J) order_by_created TokioTask (app, w) tenant
  = (app, if worker_running w then panicked w else w).
Proof. unfold worker_tenant. by destruct (worker_running w). Qed.

Lemma worker_tenants_task app w ts :
  foldl (worker_tenant (J:=J) order_by_created TokioTask) (app, w) ts
  = (app, if bool_decide (ts <> []) && worker_running w then panicked w else w).
Proof.
  revert w. induction ts as [|t ts IH]; intros w; cbn [foldl]; [done|].
  rewrite worker_tenant_task, IH. rewrite (bool_decide_true (t :: ts <> [])) by done.
  destruct (worker_running w) eqn:E; cbn [andb]; [by rewrite andb_false_r | by rewrite E, andb_false_r].
Qed.

Lemma same_data_tick app w : same_data app (worker_tick (J:=J) order_by_created TokioTask (app, w)).1.
Proof.
  unfold worker_tick. destruct (negb _); [done|]. destruct (is_offline _); [done|].
  pose proof (same_data_check_mode app) as Hs. destruct (check_mode app) as [app1 online].
  destruct (negb online); [done|]. by rewrite worker_tenants_task.
Qed.

Lemma same_data_act app w a : same_data app (act (J:=J) order_by_created TokioTask (app, w) a).1.
Proof.
  destruct a; simpl; try done.
  - unfold adjust_stock. destruct (parse_arg "tenant_id" _ _ _); [|done].
    by destruct (parse_arg "item_id" _ _ _).
  - unfold sync_now. destruct (parse_arg _ _ _ _); [|done].
    pose proof (same_data_check_mode app). destruct (check_mode app) as [app1 online].
    by destruct (negb online).
  - unfold list_pending_commands. by destruct (parse_arg _ _ _ _).
  - unfold resolve_conflict. destruct (parse_arg "tenant_id" _ _ _); [|done].
    destruct (parse_arg "aggregate_id" _ _ _); [|done]. by destruct r.
  - apply same_data_tick.
  - unfold sync_tenant_with_backoff. generalize (seq 0 (S max_retries)) as l.
    generalize 1%Z (@None string).
    intros z o l. revert app w z o. induction l as [|k l IH]; intros app w z o; [done|].
    cbn [backoff_attempts]. pose proof (same_data_internal app w tenant) as Hs.
    destruct (sync_tenant_internal _ _ _ _ _) as [[app1 w1] [[|e]|]]; [done| |done]. simpl in Hs.
    case_decide; [specialize (IH app1 w1 (Z.min (z * 2) 60)%Z (Some e))
                 |specialize (IH app1 w1 z (Some e))];
      destruct (backoff_attempts _ _ _ _ _ _ _ _) as [[[app2 w2] slept] r]; by etrans.
Qed.

(** The desktop as the program runs it, every command, tick and synchronisation a
    task of tokio's runtime, never uses its queue or its cache: whatever the user, the
    worker's timer and the network do, both stay as they were opened; adjusting the
    stock with well-formed arguments panics, and so does a synchronisation that finds
    the API online, for good if the worker ran it.  The queue's documentation says that
    it keeps the commands until connectivity returns. *)
Theorem desktop_tasks_panic app w (acts : list Action) :
  let later := (foldl (act (J:=J) order_by_created TokioTask) (app, w) acts).1 in
  queue (client later) = queue (client app) /\ cache (client later) = cache (client app)
  /\ (forall fresh tenant item delta tenant_text item_text,
        id_from_str "TenantId" mkTenantId tenant_text = Ok tenant ->
        id_from_str "AggregateId" mkAggregateId item_text = Ok item ->
        (adjust_stock (J:=J) TokioTask later fresh tenant_text item_text delta).2 = None)
  /\ (forall w' tenant, is_offline (offline_mode later) = false -> (check_mode (J:=J) later).2 = true ->
        worker_running w' = true -> active_tenants w' <> [] ->
        (sync_tenant_internal (J:=J) order_by_created TokioTask later w' tenant).2 = None
        /\ worker_running (worker_tick (J:=J) order_by_created TokioTask (later, w')).2 = false).
Proof.
  intros later. assert (same_data app later) as [Hq Hc].
  { subst later. revert app w. induction acts as [|a acts IH]; intros app w; cbn [foldl]; [done|].
    etrans; [apply (same_data_act app w a)|]. destruct (act _ _ (app, w) a) as [app1 w1]. apply IH. }
  split_and!; [done..| |].
  - intros fresh tenant item delta tt it Ht Hi. unfold adjust_stock, parse_arg. by rewrite Ht, Hi.
  - intros w' tenant Hoff Hon Hrun Hact. unfold sync_tenant_internal, worker_tick.
    rewrite Hrun, Hoff; cbn [negb]. destruct (check_mode later) as [app1 online]; simpl in Hon; subst.
    split; [done|]. cbn [negb]. by rewrite worker_tenants_task, bool_decide_true, Hrun.
Qed.
End Tasks.

(** ** Requests are bounded *)
Section Bounds.
Context {N J : Type} `{Texts} `{QueueCodec J} `{ApiServer N J}.

(** A server that lists the posts it is sent. *)
#[local] Instance logging : ApiServer (list (string * J) * N) J := {|
  try_clone := try_clone (N:=N);
  post ln url tok body := let '(n, r) := post ln.2 url tok body in ((ln.1 ++ [(url, body)], n), r);
  get ln url tok := let '(n, r) := get (J:=J) ln.2 url tok in ((ln.1, n), r)
|}.

(** One round: it posts once, and ends the loop or sleeps and goes on. *)
Lemma attempt_round self url body max a rest delay log n :
  try_clone (N:=N) url body = true ->
  exists n', let log' := log ++ [(url, body)] in
    (exists r, sync_attempts self url body max (a :: rest) delay (log, n) = ((log', n'), [], r))
    \/ (a < max /\ sync_attempts self url body max (a :: rest) delay (log, n)
         = let '(ln, slept, r) := sync_attempts self url body max rest (delay * 2)%Z (log', n') in
           (ln, delay :: slept, r)).
Proof.
  intros Ht. cbn [sync_attempts]. simpl. rewrite Ht.
  destruct (post n url (token self) body) as [n' [resp|e]]; exists n'; simpl.
  - destruct (is_success resp); [left; by eexists|].
    destruct (resp_status resp =? 409)%Z; [left; by eexists|].
    case_decide; [by right | left; by eexists].
  - case_decide; [by right | left; by eexists].
Qed.

(** Sending a command is bounded.  [sync_command] makes at most four posts,
    all of them the same request, sleeps one, two and four seconds between them
    and so at most seven in all, and always returns. *)
Theorem sync_command_bounded self (cmd : QueuedCommand J) log (n : N) :
  let request := (api_url self +:+ command_endpoint (command_type cmd) (aggregate_id cmd), payload cmd) in
  let '((log', _), slept, _) := sync_command self (log, n) cmd in
  exists k, k <= 4 /\ log' = log ++ replicate k request
            /\ slept = take (pred k) [1; 2; 4]%Z /\ (sumZ slept <= 7)%Z.
Proof.
  unfold sync_command. set (url := api_url self +:+ _). cbn [seq].
  destruct (try_clone (N:=N) url (payload cmd)) eqn:Ht;
    [|simpl; rewrite Ht; exists 0; rewrite app_nil_r; by split_and!; [lia|..]].
  destruct (attempt_round self url (payload cmd) 3 0 [1; 2; 3] 1%Z log n Ht) as (n1 & [[r ->]|[_ ->]]);
    [exists 1; by split_and!; [lia|..]|].
  destruct (attempt_round self url (payload cmd) 3 1 [2; 3] (1 * 2)%Z
              (log ++ [(url, payload cmd)]) n1 Ht) as (n2 & [[r ->]|[_ ->]]);
    [exists 2; rewrite <- app_assoc; by split_and!; [lia|..]|].
  destruct (attempt_round self url (payload cmd) 3 2 [3] (1 * 2 * 2)%Z
              ((log ++ [(url, payload cmd)]) ++ [(url, payload cmd)]) n2 Ht) as (n3 & [[r ->]|[_ ->]]);
    [exists 3; rewrite <- !app_assoc; by split_and!; [lia|..]|].
  destruct (attempt_round self url (payload cmd) 3 3 [] (1 * 2 * 2 * 2)%Z
              (((log ++ [(url, payload cmd)]) ++ [(url, payload cmd)]) ++ [(url, payload cmd)]) n3 Ht)
    as (n4 & [[r ->]|[Hlt _]]); [|lia].
  exists 4. rewrite <- !app_assoc. by split_and!; [lia|..].
Qed.
End Bounds.

(** ** Versions *)
Lemma wrapU_wrapS_id w x : (0 < w)%Z -> inU w x -> wrapU w (wrapS w x) = x.
Proof.
  intros Hw Hx. Transparent wrapU wrapS. unfold wrapU, wrapS. Opaque wrapU wrapS.
  rewrite Zminus_mod_idemp_l. replace (x + 2 ^ (w - 1) - 2 ^ (w - 1))%Z with x by lia.
  by apply Z.mod_small.
Qed.

Section Versions.
Context {N J : Type} `{Texts} `{QueueCodec J} `{DesktopJson J} `{ApiServer N J}.
Implicit Types (self : SyncManager) (s : Client N).

(** A version is cached and read back, also above the range of SQLite's integers. *)
Lemma cached_version_roundtrip db tenant ty aggregate text v now :
  is_u64 v -> (forall k, outcome db k = None) ->
  let db' := (cache_read_model_with_version db tenant ty (show_uuid (aggregate_uuid aggregate))
                (Ok text) (Some v) now).1 in
  (get_read_model_version db' tenant ty aggregate).2 = Ok (Some v).
Proof.
  intros Hv Ho. unfold get_read_model_version, cache_read_model_with_version, execute.
  rewrite Ho; simpl. rewrite Ho; simpl. rewrite lookup_insert_eq; simpl.
  by rewrite wrapU_wrapS_id.
Qed.

(** A reply without any version. *)
Definition versionless (resp : Response) (body : J) : Prop :=
  is_success resp = true /\ resp_body resp ≫= parse_json = Ok body
  /\ resp_header resp "ETag" = None /\ resp_header resp "X-Stream-Version" = None
  /\ stream_version body = None.

Definition seconds (t : DateTime) : Z := (t / 1000000000)%Z.

Lemma cache_body_version s tenant ty aggregate body v :
  is_u64 v -> (forall k, outcome (cache s) k = None) ->
  let after := cache_body (J:=J) s tenant ty aggregate body v in
  after.2 = Ok tt /\ clock after.1 = clock s /\ readings after.1 = S (readings s)
  /\ (forall k, outcome (cache after.1) k = None)
  /\ (get_read_model_version (cache after.1) tenant ty aggregate).2 = Ok (Some v).
Proof.
  intros Hv Ho. unfold cache_body. simpl.
  pose proof (cached_version_roundtrip (cache s) tenant ty aggregate (show_json body) v
                (clock s (readings s)) Hv Ho) as Hr.
  unfold cache_read_model_with_version, execute in *. rewrite Ho in *. by split_and!.
Qed.

(** The model is then cached under the time of the fetch, and a copy cached under
    an earlier time is a conflict. *)
Lemma versionless_fetch self s tenant ty aggregate resp body local :
  (forall n url tok, exists n', get n url tok = (n', Ok resp)) -> versionless resp body ->
  (forall k, outcome (cache s) k = None) -> is_u64 (seconds (clock s (readings s))) ->
  (get_read_model_version (cache s) tenant ty aggregate).2 = Ok local ->
  let v := seconds (clock s (readings s)) in
  let after := fetch_read_model self s tenant ty aggregate in
  clock after.1 = clock s /\ readings after.1 = S (S (readings s))
  /\ (forall k, outcome (cache after.1) k = None)
  /\ (get_read_model_version (cache after.1) tenant ty aggregate).2 = Ok (Some v)
  /\ after.2 = Ok (Some (match local with
       | Some l => if (l <? v)%Z then ReadModelConflict (mkConflict ty aggregate (Some l) v UseRemote)
                   else ReadModelSynced ty aggregate
       | None => ReadModelSynced ty aggregate
       end)).
Proof.
  intros Hget (Hok & Hbody & He & Hx & Hv) Ho Hsec Hl v after. subst after.
  pose proof (proj2 (execute_calls (cache s) (fun rows => Ok (rows,
    match rows !! cache_key tenant ty (show_uuid (aggregate_uuid aggregate)) with
    | Some row => wrapU 64 <$> version row | None => None end)))) as Eo.
  unfold fetch_read_model.
  change (outcome (get_read_model_version (cache s) tenant ty aggregate).1 = outcome (cache s)) in Eo.
  destruct (get_read_model_version (cache s) tenant ty aggregate) as [ca loc]; simpl in Hl, Eo.
  subst loc. match goal with |- context [get ?n ?u ?t] => destruct (Hget n u t) as [n' ->] end.
  rewrite Hok; cbn [negb]. rewrite Hbody. unfold extract_version_from_body. rewrite He, Hx, Hv. simpl.
  fold (seconds (clock s (readings s))). rewrite wrapU_id by done. fold v.
  match goal with |- context [cache_body ?s1 _ _ _ _ _] =>
    assert (forall k, outcome (cache s1) k = None) as Ho1 by (intros k; simpl; by rewrite Eo);
    destruct (cache_body_version s1 tenant ty aggregate body v Hsec Ho1) as (Er & Ec & En & Eo' & Ev);
    destruct (cache_body s1 tenant ty aggregate body v) as [s2 r]
  end.
  simpl in *. subst r. destruct local as [l|]; [destruct (l <? v)%Z|]; by split_and!.
Qed.

(** When the API names no version, every fetch that is a second or more after the
    last one is reported as a conflict, though nothing need have changed; the
    comment on the fallback says it avoids false conflicts. *)
Theorem versionless_refetch_conflicts self s tenant ty aggregate resp body local :
  (forall n url tok, exists n', get n url tok = (n', Ok resp)) -> versionless resp body ->
  (forall k, outcome (cache s) k = None) ->
  (get_read_model_version (cache s) tenant ty aggregate).2 = Ok local ->
  let first := seconds (clock s (readings s)) in
  let second := seconds (clock s (S (S (readings s)))) in
  is_u64 first -> is_u64 second -> (first < second)%Z ->
  let s' := (fetch_read_model self s tenant ty aggregate).1 in
  (fetch_read_model self s' tenant ty aggregate).2
  = Ok (Some (ReadModelConflict (mkConflict ty aggregate (Some first) second UseRemote))).
Proof.
  intros Hget Hv Ho Hl first second Hf Hs Hlt s'.
  destruct (versionless_fetch self s tenant ty aggregate resp body local Hget Hv Ho Hf Hl)
    as (Ec & En & Eo & Ev & _). fold s' in Ec, En, Eo, Ev.
  assert (seconds (clock s' (readings s')) = second) as Esec by by rewrite Ec, En.
  destruct (versionless_fetch self s' tenant ty aggregate resp body (Some first) Hget Hv Eo
              ltac:(by rewrite Esec) Ev) as (_ & _ & _ & _ & ->).
  rewrite Esec. by apply Z.ltb_lt in Hlt as ->.
Qed.
End Versions.

(** ** A concrete client *)
Module Sample.
Import OfflineQueue.Sample.

#[global] Instance sample_json : DesktopJson BinNums.N := {|
  stream_version _ := None; delta_payload d := Z.to_N d;
  show_item _ := Ok ""%string; parse_item _ := Err "unsupported"%string
|}.

(** The network is up or down. *)
Definition answer (up : bool) : Result string Response :=
  if up then Ok (mkResponse 200 (fun _ => None) (Ok "7"%string)) else Err "unreachable"%string.
#[global] Instance sample_api : ApiServer bool BinNums.N := {|
  try_clone _ _ := true; post up _ _ _ := (up, answer up); get up _ _ := (up, answer up)
|}.

Definition waiting : QueuedCommand BinNums.N :=
  mkQueuedCommand 10%N tenant "inventory.adjust_stock" item 7%N Pending 100%Z None None.
Definition older : QueuedCommand BinNums.N :=
  mkQueuedCommand 9%N tenant "inventory.adjust_stock" item 3%N Synced 50%Z (Some 60%Z) None.

Definition start (up : bool) : Client bool :=
  mkClient (mkSqlite (map command_row [older; waiting]) (fun _ => None) 0)
    (mkSqlite ∅ (fun _ => None) 0) up (fun _ => 5000000000%Z) 0.

Definition application (up : bool) : AppState bool := app_state_new "http://api" None (start up).
Definition manager : SyncManager := mkSyncManager "http://api" None.

Lemma start_holds up : holds (queue (start up)) [older; waiting].
Proof.
  split; [reflexivity|]. split; [apply (bool_decide_unpack _); vm_compute; exact I|].
  constructor; [|constructor; [|constructor]].
  - split_and!; [vm_compute; reflexivity..|]. intros t [= <-]. vm_compute. reflexivity.
  - split_and!; [vm_compute; reflexivity..|]. intros t [=].
Qed.

Lemma start_clock up : clock_ok (start up).
Proof. intros k. vm_compute. reflexivity. Qed.

Lemma sync_settles_every_command_witness :
  exists replies (result : SyncResult),
    map fst replies = [waiting]
    /\ (sync_tenant (J:=BinNums.N) (sort_by created_le) BlockingExecutor manager (start true) tenant).2
       = Some (Ok result)
    /\ synced_commands result = acknowledged replies.
Proof.
  destruct (sync_settles_every_command (sort_by created_le) BlockingExecutor manager (start true) tenant
              [older; waiting] (start_holds true) (start_clock true) (fun _ => eq_refl))
    as (replies & result & cmds' & Hr & Hf & _ & _ & _ & _ & _ & _ & _ & Hs).
  exists replies, result. split; [|by split]. rewrite Hf. vm_compute. reflexivity.
Defined.

Definition aftermath : list (Action (N:=bool)) :=
  [NetworkChange true; DoAddTenant tenant; DoTick; DoSyncNow "1"; DoSyncWithBackoff tenant 2;
   DoAdjustStock 11%N "1" "2" 4; DoTick].

Lemma outage_strands_commands_witness :
  10%N ∉ map id (list_pending (J:=BinNums.N) (sort_by created_le)
    (queue (client (foldl (act (J:=BinNums.N) (sort_by created_le) BlockingExecutor)
       (set_client (application false)
          (sync_tenant (J:=BinNums.N) (sort_by created_le) BlockingExecutor manager (start false) tenant).1, worker_new)
       aftermath).1)) tenant).2.
Proof.
  assert (unreachable (J:=BinNums.N) (fun up : bool => up = false)) as Hdown.
  { intros n url tok body ->. exists false. eexists. by split. }
  assert (Forall (payload_ok (N:=bool) (J:=BinNums.N)) aftermath) as Hp
    by (repeat constructor; vm_compute; reflexivity).
  assert (Forall (fun a => ~ introduces (N:=bool) a (id waiting)) aftermath) as Hi
    by (repeat constructor; vm_compute; intros H; discriminate H || destruct H).
  pose proof (outage_strands_commands (sort_by created_le) BlockingExecutor (fun up : bool => up = false)
    (application false) worker_new tenant [older; waiting] waiting aftermath Hdown eq_refl
    (start_holds false) (start_clock false) (fun _ => eq_refl)
    ltac:(apply list_elem_of_further, list_elem_of_here) ltac:(vm_compute; reflexivity) Hp Hi) as Ho.
  change (sync_manager (application false)) with manager in Ho.
  change (client (application false)) with (start false) in Ho.
  destruct (sync_tenant (J:=BinNums.N) (sort_by created_le) BlockingExecutor manager (start false) tenant) as [s r].
  exact (proj2 (proj2 Ho) tenant).
Defined.

(** One second apart, the second fetch of an unchanged, versionless model. *)
Example versionless_conflict :
  let s := mkClient (mkSqlite [] (fun _ => None) 0) (mkSqlite ∅ (fun _ => None) 0) true
             (fun k => if decide (k < 2) then 5000000000%Z else 6000000000%Z) 0 in
  let s' := (fetch_read_model (J:=BinNums.N) manager s tenant "product" item).1 in
  (fetch_read_model (J:=BinNums.N) manager s' tenant "product" item).2
  = Ok (Some (ReadModelConflict (mkConflict "product" item (Some 5%Z) 6%Z UseRemote))).
Proof. vm_compute. reflexivity. Qed.
End Sample.
