(* ===== verification/CustomerBalances.v ===== *)
(** * Customer balances: [projections/customer_balances.rs]

    The one projection whose entries are not the aggregates: it charges each
    invoice to a customer and keeps a balance per customer.  Beside the store it
    holds the mappings from invoices to customers, so its state is the pair
    [Balances]; the cursor discipline is the common one ([project]).

    The theorem runs the projection behind any number of invoices, commanded in any
    interleaving, with redeliveries: every balance is the sum over the invoices
    charged to the customer.  Voiding a paid invoice takes it from the count of
    open invoices a second time. *)

From S2P Require Import Prelude Core Events Bus EventStore ReadModel Projection.
From S2P Require Import Parties Invoicing.
From S2P Require Sales.
Import Sales (so_aggregate).

(** @src crates/infra/src/projections/customer_balances.rs 23-38 [CustomerBalance] *)
Record CustomerBalance := mkCustomerBalance {
  cb_customer_id : PartyId;
  cb_customer_name : option string;
  cb_total_invoiced : Z;
  cb_total_paid : Z;
  cb_outstanding_balance : Z;
  cb_open_invoice_count : Z
}.

(** @src crates/infra/src/projections/customer_balances.rs 40-51 [CustomerBalance::new] *)
Definition customer_balance_new (customer_id : PartyId) : CustomerBalance :=
  {| cb_customer_id := customer_id; cb_customer_name := None; cb_total_invoiced := 0;
     cb_total_paid := 0; cb_outstanding_balance := 0; cb_open_invoice_count := 0 |}.

(** @src crates/infra/src/projections/customer_balances.rs 100-110 [InvoiceCustomerMapping] *)
Record InvoiceCustomerMapping := mkInvoiceCustomerMapping {
  im_customer_id : PartyId;
  im_total_amount : Z;
  im_total_paid : Z;
  im_status : InvoiceStatus
}.

Abbreviation Mappings := (gmap (TenantId * AggregateId) InvoiceCustomerMapping).

(** The state beside the cursors.

    @src crates/infra/src/projections/customer_balances.rs 112-126 [CustomerBalancesProjection] *)
Record Balances (S : Type) := mkBalances { b_store : S; b_mappings : Mappings }.
Arguments mkBalances {S}.
Arguments b_store {S}.
Arguments b_mappings {S}.

Section Projection.
Context {S J CS : Type} `{TenantStore S PartyId CustomerBalance} `{Serde InvoiceEvent J}.
Context `{!ProjectionCursorStore CS}.
Implicit Types (b : Balances S) (self : Projector (Balances S) CS).

(** @src crates/infra/src/projections/customer_balances.rs 226-247 [CustomerBalancesProjection::register_invoice_customer] *)
Definition register_invoice_customer b (t : TenantId) (a : AggregateId) (customer : PartyId)
  : Balances S :=
  mkBalances (b_store b) (<[(t, a) := mkInvoiceCustomerMapping customer 0 0 Open]> (b_mappings b)).

(** @src crates/infra/src/projections/customer_balances.rs 282-293 [CustomerBalancesProjection::apply_envelope] *)
Definition balances_isolation (t : TenantId) (_ : AggregateId) (ev : InvoiceEvent) : option string :=
  let event_tenant := match ev with
                      | EvInvoiceIssued e => iss_tenant_id e
                      | EvPaymentRegistered e => pay_tenant_id e
                      | EvInvoiceVoided e => voi_tenant_id e
                      end in
  if decide (event_tenant <> t)
  then Some "event tenant_id does not match envelope tenant_id"%string else None.

(** An invoice without a registered customer is charged to its sales order.

    @src crates/infra/src/projections/customer_balances.rs 294-339 [CustomerBalancesProjection::apply_envelope] *)
Definition balances_issued b (t : TenantId) (a : AggregateId) (e : InvoiceIssued) : Balances S :=
  let customer_id := match b_mappings b !! (t, a) with
                     | Some im => im_customer_id im
                     | None => mkPartyId (so_aggregate (iss_sales_order_id e))
                     end in
  let mappings := <[(t, a) := mkInvoiceCustomerMapping customer_id (iss_total_amount e) 0 Open]>
                    (b_mappings b) in
  let balance := unwrap_or (ts_get (b_store b) t customer_id) (customer_balance_new customer_id) in
  mkBalances
    (ts_upsert (b_store b) t customer_id
       {| cb_customer_id := cb_customer_id balance; cb_customer_name := cb_customer_name balance;
          cb_total_invoiced := wrapU 64 (cb_total_invoiced balance + iss_total_amount e);
          cb_total_paid := cb_total_paid balance;
          cb_outstanding_balance := wrapU 64 (cb_outstanding_balance balance + iss_total_amount e);
          cb_open_invoice_count := wrapU 32 (cb_open_invoice_count balance + 1) |})
    mappings.

(** @src crates/infra/src/projections/customer_balances.rs 340-370 [CustomerBalancesProjection::apply_envelope] *)
Definition balances_payment b (t : TenantId) (a : AggregateId) (e : PaymentRegistered) : Balances S :=
  match b_mappings b !! (t, a) with
  | None => b
  | Some mapping =>
    let cid := im_customer_id mapping in
    let settled := decide (im_total_amount mapping <= pay_new_total_paid e)%Z in
    let mappings :=
      <[(t, a) := mkInvoiceCustomerMapping cid (im_total_amount mapping) (pay_new_total_paid e)
                    (if settled then Paid else im_status mapping)]> (b_mappings b) in
    mkBalances
      match ts_get (b_store b) t cid with
      | Some balance =>
        ts_upsert (b_store b) t cid
          {| cb_customer_id := cb_customer_id balance; cb_customer_name := cb_customer_name balance;
             cb_total_invoiced := cb_total_invoiced balance;
             cb_total_paid := wrapU 64 (cb_total_paid balance + pay_amount e);
             cb_outstanding_balance :=
               saturating_subU (cb_outstanding_balance balance) (pay_amount e);
             cb_open_invoice_count :=
               if settled then saturating_subU (cb_open_invoice_count balance) 1
               else cb_open_invoice_count balance |}
      | None => b_store b
      end mappings
  end.

(** @src crates/infra/src/projections/customer_balances.rs 371-395 [CustomerBalancesProjection::apply_envelope] *)
Definition balances_voided b (t : TenantId) (a : AggregateId) : Balances S :=
  match b_mappings b !! (t, a) with
  | None => b
  | Some m =>
    let mappings := <[(t, a) := mkInvoiceCustomerMapping (im_customer_id m) (im_total_amount m)
                                  (im_total_paid m) Void]> (b_mappings b) in
    mkBalances
      match ts_get (b_store b) t (im_customer_id m) with
      | Some balance =>
        let outstanding := saturating_subU (im_total_amount m) (im_total_paid m) in
        ts_upsert (b_store b) t (im_customer_id m)
          {| cb_customer_id := cb_customer_id balance; cb_customer_name := cb_customer_name balance;
             cb_total_invoiced := cb_total_invoiced balance; cb_total_paid := cb_total_paid balance;
             cb_outstanding_balance := saturating_subU (cb_outstanding_balance balance) outstanding;
             cb_open_invoice_count := saturating_subU (cb_open_invoice_count balance) 1 |}
      | None => b_store b
      end mappings
  end.

(** @src crates/infra/src/projections/customer_balances.rs 317-396 [CustomerBalancesProjection::apply_envelope] *)
Definition balances_update b (t : TenantId) (a : AggregateId) (ev : InvoiceEvent) : Balances S :=
  match ev with
  | EvInvoiceIssued e => balances_issued b t a e
  | EvPaymentRegistered e => balances_payment b t a e
  | EvInvoiceVoided _ => balances_voided b t a
  end.

(** @src crates/infra/src/projections/customer_balances.rs 253-400 [CustomerBalancesProjection::apply_envelope] *)
Definition balances_apply_envelope self (env : EventEnvelope J)
  : Projector (Balances S) CS * Result ProjectionFailure unit :=
  project "invoicing.invoice" from_value balances_isolation balances_update self env.

(** The mappings of every tenant are cleared, whatever tenants are rebuilt.

    @src crates/infra/src/projections/customer_balances.rs 402-437 [CustomerBalancesProjection::rebuild_from_scratch] *)
Definition balances_rebuild self (envs : list (EventEnvelope J))
  : Projector (Balances S) CS * Result ProjectionFailure unit :=
  rebuild_from_scratch balances_apply_envelope
    (fun b t => mkBalances (ts_clear_tenant (b_store b) t) (b_mappings b))
    (with_store self (mkBalances (b_store (p_store self)) ∅)) envs.

(** @src crates/infra/src/projections/customer_balances.rs 207-210 [CustomerBalancesProjection::get] *)
Definition balance_get self (t : TenantId) (k : PartyId) : option CustomerBalance :=
  ts_get (b_store (p_store self)) t k.

(** @src crates/infra/src/projections/customer_balances.rs 212-215 [CustomerBalancesProjection::list] *)
Definition balance_list self (t : TenantId) : list CustomerBalance :=
  ts_list (b_store (p_store self)) t.

(** @src crates/infra/src/projections/customer_balances.rs 217-224 [CustomerBalancesProjection::list_with_outstanding] *)
Definition list_with_outstanding self (t : TenantId) : list CustomerBalance :=
  List.filter (fun v => 0 <? cb_outstanding_balance v)%Z (balance_list self t).
End Projection.

(** ** Balances as sums over the mappings *)
Section Tallies.
Context {S : Type} `{TenantStoreLaws S PartyId CustomerBalance}.
Local Open Scope Z_scope.
Implicit Types (b : Balances S) (m : Mappings) (im : InvoiceCustomerMapping) (g : InvoiceCustomerMapping -> Z).

(** What an invoice adds to a customer of a tenant. *)
Definition share (t : TenantId) (k : PartyId) g (ta : TenantId * AggregateId) im : Z :=
  if decide (ta.1 = t /\ im_customer_id im = k) then g im else 0.

Definition total (t : TenantId) (k : PartyId) g m : Z := sum_map (share t k g) m.

Definition owed im : Z :=
  if decide (im_status im = Void) then 0 else im_total_amount im - im_total_paid im.
Definition open_one im : Z := if decide (im_status im = Open) then 1 else 0.

Definition mapping_ok im : Prop := 0 <= im_total_paid im <= im_total_amount im.

(** The sums fit their types. *)
Definition small m : Prop := forall t k,
  total t k im_total_amount m < 2 ^ 64 /\ total t k (fun _ => 1) m < 2 ^ 32.

Definition balance_of b (t : TenantId) (k : PartyId) : CustomerBalance :=
  unwrap_or (ts_get (b_store b) t k) (customer_balance_new k).

(** The balances are the sums; the count of open invoices too, as long as no paid
    invoice was voided. *)
Definition adds_up (clean : bool) b : Prop := forall t k,
  let v := balance_of b t k in let m := b_mappings b in
  cb_total_invoiced v = total t k im_total_amount m
  /\ cb_total_paid v = total t k im_total_paid m
  /\ cb_outstanding_balance v = total t k owed m
  /\ (clean = true -> cb_open_invoice_count v = total t k open_one m).

Definition mappings_ok b : Prop := forall t a im, b_mappings b !! (t, a) = Some im ->
  mapping_ok im /\ is_Some (ts_get (b_store b) t (im_customer_id im)).

Lemma total_insert t k g m ta im :
  total t k g (<[ta := im]> m)
  = total t k g m - match m !! ta with Some im0 => share t k g ta im0 | None => 0 end
    + share t k g ta im.
Proof. apply sum_map_insert. Qed.

Lemma total_le t k g g' m :
  (forall ta im, m !! ta = Some im -> g im <= g' im) -> total t k g m <= total t k g' m.
Proof. intros Hg. apply sum_map_le. intros ta im E. unfold share. case_decide; [by eapply Hg | done]. Qed.

Lemma total_nonneg t k g m :
  (forall ta im, m !! ta = Some im -> 0 <= g im) -> 0 <= total t k g m.
Proof. intros Hg. apply sum_map_nonneg. intros ta im E. unfold share. case_decide; [by eapply Hg | done]. Qed.

Lemma total_elem t a k g m im :
  (forall ta im, m !! ta = Some im -> 0 <= g im) -> m !! (t, a) = Some im ->
  im_customer_id im = k -> g im <= total t k g m.
Proof.
  intros Hg E Hk. replace (g im) with (share t k g (t, a) im) by (unfold share; by rewrite decide_True).
  apply sum_map_elem; [|done]. intros ta im' E'. unfold share. case_decide; [by eapply Hg | done].
Qed.

Lemma balance_upsert s m t0 k0 v t k :
  balance_of (mkBalances (ts_upsert s t0 k0 v) m) t k
  = if decide (t0 = t /\ k0 = k) then v else balance_of (mkBalances s m) t k.
Proof. unfold balance_of; simpl. rewrite get_upsert_dec. by destruct (decide _). Qed.

(** *** One event *)

(** What the entry of an invoice had before. *)
Definition was (m : Mappings) (ta : TenantId * AggregateId) g : Z :=
  match m !! ta with Some im0 => g im0 | None => 0 end.

Lemma total_insert_same t a k g m im t' k' :
  im_customer_id im = k -> (forall im0, m !! (t, a) = Some im0 -> im_customer_id im0 = k) ->
  total t' k' g (<[(t, a) := im]> m)
  = total t' k' g m + if decide (t = t' /\ k = k') then g im - was m (t, a) g else 0.
Proof.
  intros Hk Hk0. rewrite total_insert. unfold was, share; simpl. rewrite Hk.
  destruct (m !! (t, a)) as [im0|]; [rewrite (Hk0 im0) by done|];
    repeat case_decide; (lia || tauto).
Qed.

(** An event that moves each figure of its customer's balance as it moves the
    entry of its invoice. *)
Lemma adds_up_step clean b t a k im v :
  adds_up clean b -> im_customer_id im = k ->
  (forall im0, b_mappings b !! (t, a) = Some im0 -> im_customer_id im0 = k) ->
  let v0 := balance_of b t k in
  let moves g := g im - was (b_mappings b) (t, a) g in
  cb_total_invoiced v = cb_total_invoiced v0 + moves im_total_amount ->
  cb_total_paid v = cb_total_paid v0 + moves im_total_paid ->
  cb_outstanding_balance v = cb_outstanding_balance v0 + moves owed ->
  (clean = true -> cb_open_invoice_count v = cb_open_invoice_count v0 + moves open_one) ->
  adds_up clean (mkBalances (ts_upsert (b_store b) t k v) (<[(t, a) := im]> (b_mappings b))).
Proof.
  intros Hadds Hk Hk0 v0 moves Hi Hp Ho Hc t' k'. cbn [b_mappings]. rewrite balance_upsert.
  rewrite !(total_insert_same t a k) by done. destruct (Hadds t' k') as (Ai & Ap & Ao & Ac).
  destruct (decide (t = t' /\ k = k')) as [[<- <-]|Hne].
  - unfold v0, moves in *. rewrite Hi, Hp, Ho, Ai, Ap, Ao. split_and!; [done..|]. intros Hcl.
    by rewrite (Hc Hcl), (Ac Hcl).
  - change (balance_of (mkBalances (b_store b) _) t' k') with (balance_of b t' k').
    split_and!; [lia..|]. intros Hcl. rewrite Ac by done. lia.
Qed.

Lemma mappings_ok_step b t a im v :
  mappings_ok b -> mapping_ok im ->
  mappings_ok (mkBalances (ts_upsert (b_store b) t (im_customer_id im) v)
                 (<[(t, a) := im]> (b_mappings b))).
Proof.
  intros Hok Him t' a' im'. cbn [b_mappings b_store]. rewrite get_upsert_dec.
  destruct (decide ((t, a) = (t', a'))) as [[= <- <-]|Hne].
  - rewrite lookup_insert_eq. intros [= <-]. by rewrite decide_True.
  - rewrite lookup_insert_ne by done. intros E. destruct (Hok t' a' im' E) as [Hm Hs].
    split; [done|]. by case_decide.
Qed.

Lemma mapping_fields b ta im : mappings_ok b -> b_mappings b !! ta = Some im -> mapping_ok im.
Proof. destruct ta. intros Hok E. by apply (Hok _ _ _ E). Qed.

Lemma owed_range im : mapping_ok im -> 0 <= owed im <= im_total_amount im.
Proof. unfold mapping_ok, owed. case_decide; lia. Qed.

Lemma open_one_range im : 0 <= open_one im <= 1.
Proof. unfold open_one. case_decide; lia. Qed.

Lemma total_bounds b t k : mappings_ok b ->
  let m := b_mappings b in
  0 <= total t k im_total_amount m
  /\ 0 <= total t k im_total_paid m <= total t k im_total_amount m
  /\ 0 <= total t k owed m <= total t k im_total_amount m
  /\ 0 <= total t k open_one m <= total t k (fun _ => 1) m.
Proof.
  intros Hok m.
  pose proof (fun ta im (E : m !! ta = Some im) => mapping_fields b ta im Hok E) as Hm.
  split_and!; (apply total_nonneg || apply total_le); intros ta im E; pose proof (Hm ta im E) as Hi;
    pose proof (owed_range im Hi); pose proof (open_one_range im); unfold mapping_ok in Hi; lia.
Qed.

(** The figures of the customer of a mapping bound those of the mapping. *)
Lemma customer_bounds b t a im0 : mappings_ok b -> b_mappings b !! (t, a) = Some im0 ->
  let k := im_customer_id im0 in let m := b_mappings b in
  owed im0 <= total t k owed m /\ open_one im0 <= total t k open_one m.
Proof.
  intros Hok E k m.
  split; eapply (total_elem t a); try done; intros ta im Ei.
  - by apply owed_range, (mapping_fields b ta).
  - apply open_one_range.
Qed.

Lemma was_Some m ta im0 g : m !! ta = Some im0 -> was m ta g = g im0.
Proof. unfold was. by intros ->. Qed.

Lemma issued_adds_up clean b t a e :
  adds_up clean b -> mappings_ok b -> b_mappings b !! (t, a) = None -> is_u64 (iss_total_amount e) ->
  small (b_mappings (balances_issued b t a e)) ->
  adds_up clean (balances_issued b t a e) /\ mappings_ok (balances_issued b t a e).
Proof.
  intros Hadds Hok Hnone Ha. unfold balances_issued. rewrite Hnone.
  set (c := mkPartyId _). set (im := mkInvoiceCustomerMapping c _ _ _). fold (balance_of b t c).
  cbn [b_mappings]. intros Hsmall. split.
  - destruct (Hsmall t c) as [Ht Hn]. destruct (Hadds t c) as (Ai & Ap & Ao & Ac).
    destruct (total_bounds b t c Hok) as (Bi & Bp & Bo & Bc).
    rewrite !(total_insert_same t a c) in Ht, Hn by (done || by rewrite Hnone).
    rewrite !decide_True in Ht, Hn by done.
    unfold was in Ht, Hn. rewrite Hnone in Ht, Hn. simpl in Ht.
    apply adds_up_step; try done; [by rewrite Hnone|..]; unfold was; rewrite Hnone; cbn [cb_total_invoiced
      cb_total_paid cb_outstanding_balance cb_open_invoice_count]; unfold owed, open_one; simpl.
    + rewrite wrapU_id by ilia. lia.
    + lia.
    + rewrite wrapU_id by ilia. lia.
    + intros Hcl. specialize (Ac Hcl). rewrite wrapU_id by ilia. lia.
  - apply (mappings_ok_step b t a im); [done|]. unfold mapping_ok; simpl. ilia.
Qed.

Lemma payment_adds_up clean b t a e im0 :
  adds_up clean b -> mappings_ok b -> b_mappings b !! (t, a) = Some im0 -> im_status im0 = Open ->
  0 < pay_amount e -> pay_new_total_paid e = im_total_paid im0 + pay_amount e ->
  pay_new_total_paid e <= im_total_amount im0 -> small (b_mappings b) ->
  adds_up clean (balances_payment b t a e) /\ mappings_ok (balances_payment b t a e).
Proof.
  intros Hadds Hok E0 Hst Hpos Hnew Hle Hsmall. unfold balances_payment. rewrite E0.
  set (k := im_customer_id im0). set (settled := decide _).
  set (im := mkInvoiceCustomerMapping k _ _ _).
  destruct (Hok t a im0 E0) as [Him [v0 Ev]]. fold k in Ev. rewrite Ev.
  assert (balance_of b t k = v0) as Ebal by (unfold balance_of; by rewrite Ev).
  assert (mapping_ok im) as Him' by (unfold mapping_ok, im in *; simpl; lia).
  match goal with |- adds_up _ (mkBalances (ts_upsert _ _ _ ?v) _) /\ _ =>
    pose proof (mappings_ok_step b t a im v Hok Him') as Hok' end.
  split; [|exact Hok'].
  destruct (total_bounds _ t k Hok') as (_ & Bp' & _). cbn [b_mappings] in Bp'.
  destruct (Hadds t k) as (Ai & Ap & Ao & Ac). destruct (customer_bounds b t a im0 Hok E0) as [Co Cc].
  fold k in Co, Cc. destruct (Hsmall t k) as [Ht _]. destruct (total_bounds b t k Hok) as (_ & Bp & _).
  rewrite !(total_insert_same t a k), !decide_True in Bp'
    by (done || (intros im1; rewrite E0; by intros [= <-])).
  rewrite !(was_Some _ _ im0) in Bp' by done. simpl in Bp'. rewrite Ebal in *.
  assert (open_one im0 = 1) as Eopen by (unfold open_one; by rewrite Hst).
  assert (owed im0 = im_total_amount im0 - im_total_paid im0) as Eowed by (unfold owed; by rewrite Hst).
  apply adds_up_step; try done; [intros im1; rewrite E0; by intros [= <-]|..];
    rewrite ?(was_Some _ _ im0), Ebal by done; cbn [cb_total_invoiced cb_total_paid
      cb_outstanding_balance cb_open_invoice_count im_total_amount im_total_paid im].
  - lia.
  - rewrite wrapU_id by ilia. lia.
  - replace (owed im) with (im_total_amount im0 - pay_new_total_paid e)
      by (unfold owed, im; simpl; rewrite Hst; by destruct settled).
    unfold saturating_subU. lia.
  - intros Hcl. specialize (Ac Hcl). unfold open_one at 1, im; simpl. rewrite Hst, Eopen.
    unfold saturating_subU. destruct settled; simpl; lia.
Qed.

Lemma voided_adds_up clean b t a im0 :
  adds_up clean b -> mappings_ok b -> b_mappings b !! (t, a) = Some im0 -> im_status im0 <> Void ->
  (clean = true -> im_status im0 = Open) ->
  adds_up clean (balances_voided b t a) /\ mappings_ok (balances_voided b t a).
Proof.
  intros Hadds Hok E0 Hst Hcl. unfold balances_voided. rewrite E0.
  set (k := im_customer_id im0). set (im := mkInvoiceCustomerMapping k _ _ _).
  destruct (Hok t a im0 E0) as [Him [v0 Ev]]. fold k in Ev. rewrite Ev.
  assert (balance_of b t k = v0) as Ebal by (unfold balance_of; by rewrite Ev).
  split; [|by apply (mappings_ok_step b t a im)].
  destruct (Hadds t k) as (Ai & Ap & Ao & Ac). destruct (customer_bounds b t a im0 Hok E0) as [Co Cc].
  fold k in Co, Cc. rewrite Ebal in *.
  assert (owed im0 = im_total_amount im0 - im_total_paid im0) as Eowed
    by (unfold owed; by rewrite decide_False).
  unfold mapping_ok in Him.
  apply adds_up_step; try done; [intros im1; rewrite E0; by intros [= <-]|..];
    rewrite ?(was_Some _ _ im0), Ebal by done; cbn [cb_total_invoiced cb_total_paid
      cb_outstanding_balance cb_open_invoice_count im_total_amount im_total_paid im].
  - lia.
  - lia.
  - change (owed im) with 0. unfold saturating_subU. lia.
  - intros Hc. specialize (Ac Hc). specialize (Hcl Hc). change (open_one im) with 0.
    assert (open_one im0 = 1) by (unfold open_one; by rewrite Hcl). unfold saturating_subU. lia.
Qed.
End Tallies.

(** ** The projection behind the invoices *)
Section Run.
Context {S J CS : Type} `{TenantStoreLaws S PartyId CustomerBalance}.
Context `{HJ : Serde InvoiceEvent J} `{!SerdeLaws InvoiceEvent J} `{!ProjectionCursorStore CS}.

(** The invoices, the envelopes published so far, and the projection. *)
Record World := mkWorld {
  w_invoices : gmap (TenantId * AggregateId) Invoice;
  w_log : list (EventEnvelope J);
  w_projection : Projector (Balances S) CS
}.
Implicit Types (w : World) (p : Projector (Balances S) CS).

Definition invoice_at w (t : TenantId) (a : AggregateId) : Invoice :=
  default (empty (mkInvoiceId a)) (w_invoices w !! (t, a)).

(** A command to one invoice, or the bus repeats an envelope. *)
Inductive Move : Type :=
| Command (t : TenantId) (a : AggregateId) (c : InvoiceCommand)
| Redeliver (i : nat).

Definition publish_event (t : TenantId) (a : AggregateId) w (e : InvoiceEvent) : World :=
  match to_value e with
  | Ok j =>
    let invoice := apply (invoice_at w t a) e in
    let env := mkEnvelope 0%N t a "invoicing.invoice" (inv_version invoice) j in
    mkWorld (<[(t, a) := invoice]> (w_invoices w)) (w_log w ++ [env])
      (balances_apply_envelope (w_projection w) env).1
  | Err _ => w
  end.

Definition make_move w (m : Move) : World :=
  match m with
  | Command t a c =>
    match handle (invoice_at w t a) c with
    | Ok es => foldl (publish_event t a) w es
    | Err _ => w
    end
  | Redeliver i =>
    match w_log w !! i with
    | Some env => mkWorld (w_invoices w) (w_log w) (balances_apply_envelope (w_projection w) env).1
    | None => w
    end
  end.

Definition command_to (t : TenantId) (a : AggregateId) (c : InvoiceCommand) : Prop :=
  match c with
  | CmdIssueInvoice c => ii_tenant_id c = t /\ ii_invoice_id c = mkInvoiceId a
  | CmdRegisterPayment c => rpay_tenant_id c = t /\ rpay_invoice_id c = mkInvoiceId a
  | CmdVoidInvoice c => vi_tenant_id c = t /\ vi_invoice_id c = mkInvoiceId a
  end.

Definition move_ok (m : Move) : Prop :=
  match m with Command t a c => command_to t a c /\ command_ok c | Redeliver _ => True end.

(** The move does not void a paid invoice. *)
Definition clean_move w (m : Move) : bool :=
  match m with
  | Command t a (CmdVoidInvoice _) => bool_decide (inv_status (invoice_at w t a) <> Paid)
  | _ => true
  end.

Fixpoint clean_run w (ms : list Move) : bool :=
  match ms with [] => true | m :: ms => clean_move w m && clean_run (make_move w m) ms end.

Definition world_start (name : string) (s0 : S) : World :=
  mkWorld ∅ [] (projector_new name (mkBalances s0 ∅)).

(** What an accepted command says. *)
Definition event_fits (t : TenantId) (s : Invoice) (e : InvoiceEvent) : Prop :=
  match e with
  | EvInvoiceIssued e => inv_created s = false /\ is_u64 (iss_total_amount e)
  | EvPaymentRegistered e =>
      inv_created s = true /\ inv_status s = Open /\ (0 < pay_amount e)%Z
      /\ pay_new_total_paid e = (inv_total_paid s + pay_amount e)%Z
      /\ (pay_new_total_paid e <= inv_total_amount s)%Z
  | EvInvoiceVoided _ => inv_created s = true /\ inv_status s <> Void
  end.

Lemma handle_fits t a s c es :
  inv s -> command_ok c -> command_to t a c -> handle s c = Ok es ->
  exists e, es = [e] /\ balances_isolation t a e = None /\ event_fits t s e
    /\ (match e with EvInvoiceVoided _ => exists v, c = CmdVoidInvoice v | _ => True end).
Proof.
  intros Hi Hok Ht Hh. pose proof (invoice_handle_sound s c es Hi Hok Hh) as [Ha Hr].
  assert (forall t' : TenantId, t' = t ->
    (if decide (t' <> t) then Some "event tenant_id does not match envelope tenant_id"%string else None)
    = None) as Hiso by (intros t' ->; by rewrite decide_False by (intros Hn; by apply Hn)).
  destruct c as [c|c|c]; simpl in Hh, Ht; destruct Ht as [Ht _]; simpl in Ha.
  - unfold handle_issue in Hh. guards Hh. eexists. split; [done|]. unfold balances_isolation; simpl.
    split_and!; [by apply Hiso|done| |done].
    apply (f_equal inv_total_amount) in Hr. simpl in Hr. rewrite Hr. by apply Ha.
  - unfold handle_register_payment in Hh. guards Hh. eexists. split; [done|].
    unfold balances_isolation; simpl.
    apply can_accept_payment_spec in Heqb0 as [Hv Hlt].
    apply ok_or_Ok, checked_addU_Some in Ha2 as [_ ->].
    destruct Ha as (_ & _ & Hpos & Hle). destruct Hi as (_ & _ & _ & _ & Hp & _).
    split_and!; [by apply Hiso|done| |done|done|lia|done].
    destruct (inv_status s); [done | specialize (Hp eq_refl); lia | done].
  - unfold handle_void in Hh. guards Hh. eexists. split; [done|]. unfold balances_isolation; simpl.
    split_and!; [by apply Hiso|done|done|by eexists].
Qed.

(** *** Delivery *)
Lemma deliver_next p env e :
  env_aggregate_type env = "invoicing.invoice" -> is_u64 (env_sequence_number env) ->
  (0 < env_sequence_number env)%Z ->
  get_cursor p (env_tenant_id env) (env_aggregate_id env) = (env_sequence_number env - 1)%Z ->
  from_value (env_payload env) = Ok e ->
  balances_isolation (env_tenant_id env) (env_aggregate_id env) e = None ->
  (balances_apply_envelope p env).1
  = update_cursor (with_store p (balances_update (p_store p) (env_tenant_id env) (env_aggregate_id env) e))
      (env_tenant_id env) (env_aggregate_id env) (env_sequence_number env).
Proof.
  intros Hm Hu Hpos Hc Hd Hi. unfold balances_apply_envelope, project. rewrite Hm.
  rewrite decide_False by (intros Hn; by apply Hn). rewrite Hc, decide_False by lia.
  rewrite decide_False by lia. rewrite decide_False; [by rewrite Hd, Hi|].
  intros [Hn _]. apply Hn. rewrite wrapU_id by ilia. lia.
Qed.

Lemma deliver_known p env :
  (0 < env_sequence_number env)%Z ->
  (env_sequence_number env <= get_cursor p (env_tenant_id env) (env_aggregate_id env))%Z ->
  (balances_apply_envelope p env).1 = p.
Proof.
  intros Hpos Hc. unfold balances_apply_envelope, project.
  case_decide; [done|]. case_decide; [done|]. by rewrite decide_True.
Qed.

(** *** The invariant *)

(** Each issued invoice is charged to one customer, with its own amounts. *)
Definition charged w : Prop := forall t a, let s := invoice_at w t a in
  match b_mappings (p_store (w_projection w)) !! (t, a) with
  | Some im => inv_created s = true /\ im_total_amount im = inv_total_amount s
               /\ im_total_paid im = inv_total_paid s /\ im_status im = inv_status s
  | None => inv_created s = false
  end.

Definition logged w : Prop := forall env, env ∈ w_log w ->
  (0 < env_sequence_number env
   <= inv_version (invoice_at w (env_tenant_id env) (env_aggregate_id env)))%Z.

Definition cursors_follow w : Prop := forall t a,
  get_cursor (w_projection w) t a = inv_version (invoice_at w t a)
  /\ (0 <= inv_version (invoice_at w t a) <= Z.of_nat (length (w_log w)))%Z.

Definition world_ok (clean : bool) w : Prop :=
  (forall t a, inv (invoice_at w t a)) /\ charged w /\ logged w /\ cursors_follow w
  /\ p_cursor_store (w_projection w) = None
  /\ (small (b_mappings (p_store (w_projection w))) ->
      adds_up clean (p_store (w_projection w)) /\ mappings_ok (p_store (w_projection w))).

Lemma invoice_at_insert (t : TenantId) (a : AggregateId) (s : Invoice) (log : list (EventEnvelope J)) p (m : gmap (TenantId * AggregateId) Invoice) t' a' :
  invoice_at (mkWorld (<[(t, a) := s]> m) log p) t' a'
  = if decide (t = t' /\ a = a') then s else default (empty (mkInvoiceId a')) (m !! (t', a')).
Proof.
  unfold invoice_at; simpl. destruct (decide _) as [[<- <-]|Hne].
  - by rewrite lookup_insert_eq.
  - rewrite lookup_insert_ne; [done|]. intros [= -> ->]. by apply Hne.
Qed.

Lemma small_insert m t a im :
  im_total_amount im = match m !! (t, a) with Some im0 => im_total_amount im0 | None => im_total_amount im end ->
  (forall im0, m !! (t, a) = Some im0 -> im_customer_id im0 = im_customer_id im) ->
  (0 <= im_total_amount im)%Z -> small (<[(t, a) := im]> m) -> small m.
Proof.
  intros He Hk Hpos Hs t' k'. specialize (Hs t' k'). unfold was in Hs.
  rewrite !(total_insert_same t a (im_customer_id im)) in Hs by done. unfold was in Hs.
  destruct (m !! (t, a)); case_decide; lia.
Qed.

(** The balances after the event, in the terms of its invoice. *)
Lemma update_fits clean t a (b : Balances S) s e :
  inv s -> event_fits t s e ->
  match b_mappings b !! (t, a) with
  | Some im => inv_created s = true /\ im_total_amount im = inv_total_amount s
               /\ im_total_paid im = inv_total_paid s /\ im_status im = inv_status s
  | None => inv_created s = false
  end ->
  (small (b_mappings b) -> adds_up clean b /\ mappings_ok b) ->
  (match e with EvInvoiceVoided _ => clean = true -> inv_status s <> Paid | _ => True end) ->
  let b' := balances_update b t a e in
  (small (b_mappings b') -> adds_up clean b' /\ mappings_ok b')
  /\ (exists im, b_mappings b' = <[(t, a) := im]> (b_mappings b)
       /\ im_total_amount im = inv_total_amount (apply s e)
       /\ im_total_paid im = inv_total_paid (apply s e) /\ im_status im = inv_status (apply s e))
  /\ inv_created (apply s e) = true.
Proof.
  intros Hi Hf Hm Hadds Hcl. cbv zeta. destruct e as [e|e|e]; cbn [event_fits balances_update] in *.
  - destruct Hf as [Hc Hu]. destruct (b_mappings b !! (t, a)) as [im|] eqn:E; [destruct Hm; congruence|].
    split_and!; [|unfold balances_issued; rewrite E; by eexists|done].
    intros Hs. assert (small (b_mappings b)) as Hs0.
    { unfold balances_issued in Hs. rewrite E in Hs. simpl in Hs.
      eapply small_insert; [..|exact Hs]; rewrite ?E; simpl; [done..|ilia]. }
    destruct (Hadds Hs0). by apply issued_adds_up.
  - destruct Hf as (Hc & Hst & Hpos & Hnew & Hle).
    destruct (b_mappings b !! (t, a)) as [im|] eqn:E; [|congruence].
    destruct Hm as (_ & Ea & Ep & Es).
    split_and!; [|unfold balances_payment; rewrite E; eexists; simpl; split_and!; [done..|]|done].
    + intros Hs. assert (small (b_mappings b)) as Hs0.
      { unfold balances_payment in Hs. rewrite E in Hs. simpl in Hs.
        eapply small_insert; [..|exact Hs]; rewrite ?E; simpl; [done|by intros im0 [= <-]|].
        rewrite Ea. apply Hi. }
      destruct (Hadds Hs0). apply (payment_adds_up clean b t a e im); rewrite ?Ea, ?Ep, ?Es; done.
    + rewrite Es, Ea. done.
  - destruct Hf as [Hc Hst]. destruct (b_mappings b !! (t, a)) as [im|] eqn:E; [|congruence].
    destruct Hm as (_ & Ea & Ep & Es).
    split_and!; [|unfold balances_voided; rewrite E; by eexists|done].
    intros Hs. assert (small (b_mappings b)) as Hs0.
    { unfold balances_voided in Hs. rewrite E in Hs. simpl in Hs.
      eapply small_insert; [..|exact Hs]; rewrite ?E; simpl; [done|by intros im0 [= <-]|].
      rewrite Ea. apply Hi. }
    destruct (Hadds Hs0). apply (voided_adds_up clean b t a im); try done; [congruence|].
    intros Hclean. specialize (Hcl Hclean). rewrite Es. by destruct (inv_status s).
Qed.

Lemma publish_ok clean w t a e :
  world_ok clean w -> inv (apply (invoice_at w t a) e) -> balances_isolation t a e = None ->
  event_fits t (invoice_at w t a) e ->
  (match e with EvInvoiceVoided _ => clean = true -> inv_status (invoice_at w t a) <> Paid | _ => True end) ->
  (Z.of_nat (length (w_log w)) < 2 ^ 64 - 1)%Z ->
  world_ok clean (publish_event t a w e)
  /\ length (w_log (publish_event t a w e)) = Datatypes.S (length (w_log w)).
Proof.
  intros (Hinv & Hch & Hlog & Hcur & Hmem & Hadds) Hi' Hiso Hfit Hcl Hlen.
  unfold publish_event. destruct (to_value_total e) as (j & Ej & Ev). rewrite Ej.
  destruct (Hcur t a) as [Hc Hv].
  assert (inv_version (apply (invoice_at w t a) e) = inv_version (invoice_at w t a) + 1)%Z as Hver
    by (destruct e; simpl; rewrite wrapU_id; (done || ilia)).
  set (s := apply (invoice_at w t a) e) in *. cbv zeta. set (env := mkEnvelope _ _ _ _ _ _).
  assert ((balances_apply_envelope (w_projection w) env).1
    = update_cursor (with_store (w_projection w) (balances_update (p_store (w_projection w)) t a e)) t a (inv_version s))
    as Ep by (apply (deliver_next (w_projection w) env e); simpl; try done; ilia).
  rewrite Ep. split; [|simpl; rewrite length_app; simpl; lia].
  pose proof (update_fits clean t a (p_store (w_projection w)) (invoice_at w t a) e (Hinv t a) Hfit (Hch t a) Hadds Hcl)
    as (Hadds' & (im & Em & Ea & Epd & Es) & Hcr).
  split_and!; [intros t' a'|intros t' a'|intros env' Hin|intros t' a'|by simpl; rewrite Hmem|done];
    rewrite ?invoice_at_insert.
  - case_decide; [done | apply Hinv].
  - cbn [w_projection p_store update_cursor with_store]. rewrite Em. destruct (decide _) as [[<- <-]|Hne].
    + by rewrite lookup_insert_eq.
    + rewrite lookup_insert_ne; [apply Hch|]. intros [= -> ->]. by apply Hne.
  - apply elem_of_app in Hin as [Hin| ->%list_elem_of_singleton].
    + specialize (Hlog env' Hin). destruct (decide _) as [[E1 E2]|Hne];
        [rewrite <- E1, <- E2 in Hlog; lia | exact Hlog].
    + rewrite decide_True by done. simpl. lia.
  - cbn [w_projection w_log]. rewrite get_update_cursor by by left. rewrite length_app; simpl.
    destruct (Hcur t' a') as [Hc' Hv'].
    destruct (decide (t = t' /\ a = a')) as [[<- <-]|Hne].
    + rewrite decide_True by done. split; [done|lia].
    + rewrite decide_False by (intros [= -> ->]; by apply Hne). split; [exact Hc'|].
      unfold invoice_at in Hv'. lia.
Qed.

Lemma move_keeps clean w m :
  world_ok clean w -> move_ok m -> (clean = true -> clean_move w m = true) ->
  (Z.of_nat (length (w_log w)) < 2 ^ 64 - 1)%Z ->
  world_ok clean (make_move w m) /\ length (w_log (make_move w m)) <= Datatypes.S (length (w_log w)).
Proof.
  intros Hw Hm Hcl Hlen. destruct m as [t a c|i]; simpl.
  - destruct Hm as [Ht Hok]. destruct (handle (invoice_at w t a) c) as [es|] eqn:Eh; [|split; [done|lia]].
    destruct (handle_fits t a _ c es (proj1 Hw t a) Hok Ht Eh) as (e & -> & Hiso & Hfit & Hvoid). simpl.
    destruct (publish_ok clean w t a e) as [Hw' Hl]; try done; [| |by rewrite Hl].
    + exact (handle_inv (invoice_at w t a) c [e] (proj1 Hw t a) Hok Eh).
    + destruct e as [e|e|e]; try done. destruct Hvoid as [v ->]. intros Hc. specialize (Hcl Hc).
      by apply bool_decide_eq_true in Hcl.
  - destruct (w_log w !! i) as [env|] eqn:Ei; [|split; [done|lia]]. split; [|simpl; lia].
    destruct Hw as (Hinv & Hch & Hlog & Hcur & Hrest).
    specialize (Hlog env (list_elem_of_lookup_2 _ _ _ Ei)) as Hl. rewrite deliver_known; [done|lia|].
    rewrite (proj1 (Hcur _ _)). lia.
Qed.

Lemma world_start_ok clean name s0 : (forall t k, ts_get s0 t k = None) -> world_ok clean (world_start name s0).
Proof.
  intros Hempty. split_and!.
  - intros t a. unfold invoice_at; simpl. rewrite lookup_empty. apply invoice_empty_inv.
  - intros t a. simpl. by rewrite lookup_empty.
  - intros env Hin. by apply not_elem_of_nil in Hin.
  - intros t a. unfold invoice_at, get_cursor; simpl. by rewrite !lookup_empty.
  - done.
  - intros _. split; [|intros t a im; simpl; by rewrite lookup_empty].
    intros t k. unfold balance_of; simpl. rewrite Hempty; simpl. unfold total.
    by rewrite !sum_map_empty.
Qed.

Lemma moves_keep clean w ms :
  world_ok clean w -> Forall move_ok ms -> (clean = true -> clean_run w ms = true) ->
  (Z.of_nat (length (w_log w) + length ms) < 2 ^ 64 - 1)%Z -> world_ok clean (foldl make_move w ms).
Proof.
  intros Hw Hms. revert w Hw. induction Hms as [|m ms Hm _ IH]; intros w Hw Hcl Hlen; simpl in *; [done|].
  destruct (move_keeps clean w m Hw Hm) as [Hw' Hl]; [|lia|].
  - intros Hc. by apply andb_true_iff in Hcl as [? _].
  - apply IH; [done| |lia]. intros Hc. by apply andb_true_iff in Hcl as [_ ?].
Qed.

(** C27: Customer balances add up.  Let any commands reach any invoices in any
    interleaving, the projection apply each event as it is published and any
    envelope be repeated at any time.  Then every issued invoice is charged to one
    customer with the aggregate's amounts and status, and, as long as the sums fit
    their types, the balance of each customer of each tenant is made of the sums
    over the invoices charged to it: what was invoiced, what was paid, and what is
    owed on invoices that are not void; and, when no paid invoice was voided, the
    number of open ones. *)
Theorem customer_balances_add_up (name : string) (s0 : S) (ms : list Move) :
  (forall t k, ts_get s0 t k = None) -> Forall move_ok ms ->
  (Z.of_nat (length ms) < 2 ^ 64 - 1)%Z ->
  let w := foldl make_move (world_start name s0) ms in
  let b := p_store (w_projection w) in
  charged w
  /\ (small (b_mappings b) -> adds_up (clean_run (world_start name s0) ms) b).
Proof.
  intros Hempty Hms Hlen w b.
  destruct (moves_keep (clean_run (world_start name s0) ms) (world_start name s0) ms)
    as (_ & Hch & _ & _ & _ & Hadds); [by apply world_start_ok | done.. |].
  split; [done|]. intros Hs. by apply Hadds.
Qed.
End Run.

(** ** Two invoices of one sales order *)
Module Sample.
#[local] Instance sample_serde : Serde InvoiceEvent InvoiceEvent :=
  {| to_value e := Ok e; from_value j := Ok j |}.
#[local] Instance sample_serde_laws : SerdeLaws InvoiceEvent InvoiceEvent.
Proof. constructor. intros e. by exists e. Qed.

Definition tenant : TenantId := mkTenantId 1.
Definition order : Sales.SalesOrderId := Sales.mkSalesOrderId (mkAggregateId 7).
Definition first : AggregateId := mkAggregateId 2.
Definition second : AggregateId := mkAggregateId 3.
Definition customer : PartyId := mkPartyId (mkAggregateId 7).

Definition issue (a : AggregateId) (amount : Z) : Move :=
  Command tenant a (CmdIssueInvoice (mkIssueInvoice tenant (mkInvoiceId a) order
    [mkInvoiceLine 1 order (Products.mkProductId (mkAggregateId 9)) 1 amount] 0 0)).
Definition pay (a : AggregateId) (amount : Z) : Move :=
  Command tenant a (CmdRegisterPayment (mkRegisterPayment tenant (mkInvoiceId a) amount 0)).
Definition cancel (a : AggregateId) : Move :=
  Command tenant a (CmdVoidInvoice (mkVoidInvoice tenant (mkInvoiceId a) None 0)).

Abbreviation SampleWorld := (World (S:=InMemoryTenantStore PartyId CustomerBalance) (J:=InvoiceEvent) (CS:=InMemoryCursorStore)).
Definition start : SampleWorld := world_start "customers.balances" ∅.

Definition moves : list Move := [issue first 100; issue second 40; pay first 60; Redeliver 0; cancel second].
Definition after : SampleWorld := foldl make_move start moves.
Definition balances : Balances (InMemoryTenantStore PartyId CustomerBalance) :=
  p_store (w_projection after).

Lemma sample_small : small (b_mappings balances).
Proof.
  assert (forall t k g, (total t k g (b_mappings balances)
            <= sum_map (fun _ im => Z.max 0 (g im)) (b_mappings balances))%Z) as Hle.
  { intros t k g. apply sum_map_le. intros ta im _. unfold share. case_decide; lia. }
  intros t k. split; (eapply Z.le_lt_trans; [apply Hle|]); vm_compute; reflexivity.
Qed.

Lemma moves_ok : Forall move_ok moves.
Proof. repeat constructor; vm_compute; congruence. Qed.

Lemma customer_balances_add_up_witness :
  charged after
  /\ cb_outstanding_balance (balance_of balances tenant customer)
     = total tenant customer owed (b_mappings balances)
  /\ balance_get (w_projection after) tenant customer
     = Some (mkCustomerBalance customer None 140 60 40 1).
Proof.
  destruct (customer_balances_add_up (CS:=InMemoryCursorStore) "customers.balances"
    (∅ : InMemoryTenantStore PartyId CustomerBalance) moves (fun t k => lookup_empty _) moves_ok
    ltac:(vm_compute; reflexivity)) as [Hch Hadds].
  destruct (Hadds sample_small tenant customer) as (_ & _ & Ho & _).
  split; [exact Hch|]. split; [exact Ho|]. vm_compute. reflexivity.
Defined.

(** The first invoice is paid and then voided: the second one is still open, but
    the customer's count of open invoices is zero. *)
Example voided_paid_invoice_counted_twice :
  let w := foldl make_move start [issue first 100; issue second 40; pay first 100; cancel first] in
  balance_get (w_projection w) tenant customer = Some (mkCustomerBalance customer None 140 100 40 0)
  /\ inv_status (invoice_at w tenant second) = Open.
Proof. split; vm_compute; reflexivity. Qed.
End Sample.
