(* ===== verification/Valuation.v ===== *)
(** * Inventory valuation: [projections/inventory_valuation.rs]

    A keyed projection of the inventory events that also holds what no event says:
    the unit cost set by hand.  An entry's value is its stock times its cost, below
    the top of [u64]; a rebuild, which knows only the events, forgets the costs. *)

From S2P Require Import Prelude Core Events Bus EventStore ReadModel Projection Stock.
From S2P Require Inventory.
Import Inventory (InventoryItemId, mkInventoryItemId, item_aggregate, InventoryEvent,
  EvItemCreated, EvStockAdjusted, ic_tenant_id, ic_item_id, ic_name, sa_tenant_id,
  sa_item_id, sa_delta, InventoryItem, item_id, item_name, item_stock).

(** @src crates/infra/src/projections/inventory_valuation.rs 25-42 [InventoryValuation] *)
Record InventoryValuation := mkInventoryValuation {
  iv_item_id : InventoryItemId;
  iv_name : string;
  iv_quantity : Z;
  iv_unit_cost : option Z;
  iv_total_value : option Z
}.

(** @src crates/infra/src/projections/inventory_valuation.rs 45-53 [InventoryValuation::new] *)
Definition valuation_new (i : InventoryItemId) (name : string) : InventoryValuation :=
  {| iv_item_id := i; iv_name := name; iv_quantity := 0; iv_unit_cost := None;
     iv_total_value := None |}.

(** The quantity is an [i64] cast to [u64] where it is positive.

    @src crates/infra/src/projections/inventory_valuation.rs 55-63 [InventoryValuation::recalculate_value] *)
Definition recalculate_value (self : InventoryValuation) : InventoryValuation :=
  {| iv_item_id := iv_item_id self; iv_name := iv_name self; iv_quantity := iv_quantity self;
     iv_unit_cost := iv_unit_cost self;
     iv_total_value :=
       (fun cost => if (0 <? iv_quantity self)%Z
                    then saturating_mulU 64 (wrapU 64 (iv_quantity self)) cost else 0%Z)
       <$> iv_unit_cost self |}.

Definition with_quantity (self : InventoryValuation) (q : Z) : InventoryValuation :=
  {| iv_item_id := iv_item_id self; iv_name := iv_name self; iv_quantity := q;
     iv_unit_cost := iv_unit_cost self; iv_total_value := iv_total_value self |}.

Definition with_unit_cost (self : InventoryValuation) (cost : Z) : InventoryValuation :=
  {| iv_item_id := iv_item_id self; iv_name := iv_name self; iv_quantity := iv_quantity self;
     iv_unit_cost := Some cost; iv_total_value := iv_total_value self |}.

(** @src crates/infra/src/projections/inventory_valuation.rs 318-332 [InventoryValuationProjection::apply_envelope] *)
Definition valuation_entry (o : option InventoryValuation) (ev : InventoryEvent)
  : option InventoryValuation :=
  match ev with
  | EvItemCreated e => Some (valuation_new (ic_item_id e) (ic_name e))
  | EvStockAdjusted e =>
    let val := unwrap_or o (valuation_new (sa_item_id e) "") in
    Some (recalculate_value (with_quantity val (wrapS 64 (iv_quantity val + sa_delta e))))
  end.

Lemma item_key_agg a k : item_aggregate k = a <-> k = mkInventoryItemId a.
Proof. destruct k. simpl. split; congruence. Qed.

Lemma item_key_inj a a' : mkInventoryItemId a = mkInventoryItemId a' -> a = a'.
Proof. congruence. Qed.

(** @src crates/infra/src/projections/inventory_valuation.rs 271-335 [InventoryValuationProjection::apply_envelope] *)
Definition valuation_projection {S J} `{TenantStoreLaws S InventoryItemId InventoryValuation}
    `{Serde InventoryEvent J} : Keyed S InventoryItemId InventoryValuation J InventoryEvent.
Proof.
  refine (entry_keyed "inventory.item" "item_id" mkInventoryItemId item_aggregate
            item_key_agg item_key_inj event_owner valuation_entry _).
  by intros o [].
Defined.

Section Valuation.
Context {S J CS : Type} `{TenantStoreLaws S InventoryItemId InventoryValuation}.
Context `{Serde InventoryEvent J} `{!ProjectionCursorStore CS}.
Implicit Types (self : Projector S CS).

#[local] Abbreviation val_k := (valuation_projection (S:=S) (J:=J)).

(** @src crates/infra/src/projections/inventory_valuation.rs 337-367 [InventoryValuationProjection::rebuild_from_scratch] *)
Definition valuation_rebuild self (envs : list (EventEnvelope J))
  : Projector S CS * Result ProjectionFailure unit :=
  rebuild (HK:=val_k) self envs.

(** @src crates/infra/src/projections/inventory_valuation.rs 214-217 [InventoryValuationProjection::get] *)
Definition valuation_get self (t : TenantId) (i : InventoryItemId) : option InventoryValuation :=
  ts_get (p_store self) t i.

(** @src crates/infra/src/projections/inventory_valuation.rs 219-222 [InventoryValuationProjection::list] *)
Definition valuation_list self (t : TenantId) : list InventoryValuation := ts_list (p_store self) t.

(** @src crates/infra/src/projections/inventory_valuation.rs 260-269 [InventoryValuationProjection::set_unit_cost] *)
Definition set_unit_cost self (t : TenantId) (i : InventoryItemId) (cost : Z) : Projector S CS :=
  match ts_get (p_store self) t i with
  | Some val =>
    with_store self (ts_upsert (p_store self) t i (recalculate_value (with_unit_cost val cost)))
  | None => self
  end.

(** @src crates/infra/src/projections/inventory_valuation.rs 66-74 [InventoryValuationSummary] *)
Record InventoryValuationSummary := mkInventoryValuationSummary {
  total_items : nat;
  valued_items : nat;
  unvalued_items : nat;
  total_value : Z;
  total_quantity : Z
}.

(** [iter().sum()] wraps in a release build.

    @src crates/infra/src/projections/inventory_valuation.rs 224-240 [InventoryValuationProjection::get_summary] *)
Definition get_summary self (t : TenantId) : InventoryValuationSummary :=
  let items := valuation_list self t in
  let valued := length (List.filter (fun v => bool_decide (is_Some (iv_unit_cost v))) items) in
  {| total_items := length items; valued_items := valued; unvalued_items := length items - valued;
     total_value := foldl (fun acc x => wrapU 64 (acc + x)) 0%Z (omap iv_total_value items);
     total_quantity := foldl (fun acc v => wrapS 64 (acc + iv_quantity v)) 0%Z items |}.

(** @src crates/infra/src/projections/inventory_valuation.rs 242-249 [InventoryValuationProjection::list_unvalued] *)
Definition list_unvalued self (t : TenantId) : list InventoryValuation :=
  List.filter (fun v => bool_decide (iv_unit_cost v = None)) (valuation_list self t).

(** @src crates/infra/src/projections/inventory_valuation.rs 251-258 [InventoryValuationProjection::list_valued] *)
Definition list_valued self (t : TenantId) : list InventoryValuation :=
  List.filter (fun v => (0 <? unwrap_or (iv_total_value v) 0)%Z) (valuation_list self t).

(** ** One entry through events and cost settings *)

(** What changes an item's entry. *)
Inductive Change : Type :=
| Happened (e : InventoryEvent)
| Costed (cost : Z).

Definition change_entry (o : option InventoryValuation) (c : Change) : option InventoryValuation :=
  match c with
  | Happened e => valuation_entry o e
  | Costed cost => (fun val => recalculate_value (with_unit_cost val cost)) <$> o
  end.

(** Setting a cost changes the item's entry so, and no other. *)
Lemma set_unit_cost_get self t i cost t' i' :
  valuation_get (set_unit_cost self t i cost) t' i'
  = if decide (t = t' /\ i = i') then change_entry (valuation_get self t' i') (Costed cost)
    else valuation_get self t' i'.
Proof.
  unfold valuation_get, set_unit_cost. destruct (ts_get (p_store self) t i) as [val|] eqn:E; simpl.
  - rewrite get_upsert_dec. destruct (decide _) as [[-> ->]|]; [by rewrite E | done].
  - destruct (decide _) as [[-> ->]|]; [by rewrite E | done].
Qed.
End Valuation.

(** The value of a stock at a cost. *)
Definition worth (stock cost : Z) : Z := Z.min (2 ^ 64 - 1) (Z.max 0 stock * cost).

(** The entry shows the item, and is worth its stock at the cost last set. *)
Definition values (v : InventoryValuation) (s : InventoryItem) : Prop :=
  iv_item_id v = item_id s /\ iv_name v = item_name s /\ iv_quantity v = item_stock s
  /\ iv_total_value v = worth (item_stock s) <$> iv_unit_cost v.

Lemma recalculated v s :
  iv_item_id v = item_id s -> iv_name v = item_name s -> iv_quantity v = item_stock s ->
  is_i64 (item_stock s) -> values (recalculate_value v) s.
Proof.
  intros Hi Hn Hq Hs. unfold values; simpl. split_and!; [done..|]. rewrite Hq.
  destruct (iv_unit_cost v) as [cost|]; simpl; [|done]. f_equal. unfold worth, saturating_mulU.
  destruct (0 <? item_stock s)%Z eqn:E; [apply Z.ltb_lt in E|apply Z.ltb_ge in E].
  - rewrite wrapU_id by ilia. by rewrite Z.max_r by lia.
  - rewrite Z.max_l by lia. lia.
Qed.

Definition events_of (cs : list Change) : list InventoryEvent :=
  omap (fun c => match c with Happened e => Some e | Costed _ => None end) cs.

(** Whatever costs are set between the events of an item's stream, its entry shows
    the rehydrated item and the value of its stock at the cost last set (none
    before that), at most the top of [u64]. *)
Theorem valuation_is_stock_at_cost (t : TenantId) (a : AggregateId) (cs : list Change) :
  (forall e, e ∈ events_of cs -> event_owner e = (t, mkInventoryItemId a)) ->
  match foldl change_entry None cs with
  | Some v => values v (replay (item_at a) (events_of cs))
              /\ is_i64 (item_stock (replay (item_at a) (events_of cs)))
  | None => events_of cs = []
  end.
Proof.
  unfold events_of. induction cs as [|c cs IH] using rev_ind; intros Hown; [done|].
  rewrite foldl_snoc, omap_app in *.
  assert (forall e, e ∈ omap (fun c => match c with Happened e => Some e | Costed _ => None end) cs ->
    event_owner e = (t, mkInventoryItemId a)) as Hown' by (intros e He; apply Hown; set_solver).
  specialize (IH Hown'). set (es := omap _ cs) in *.
  destruct c as [e|cost]; simpl; [|rewrite app_nil_r].
  - assert (event_owner e = (t, mkInventoryItemId a)) as He by (apply Hown; set_solver).
    rewrite replay_snoc. destruct e as [e|e]; simpl in *; injection He as _ Hi.
    + unfold values; simpl. rewrite Hi. split; [done|ilia].
    + assert (is_i64 (wrapS 64 (item_stock (replay (item_at a) es) + sa_delta e)))
        as Hr by (apply wrapS_range; lia).
      destruct (foldl change_entry None cs) as [v|]; simpl.
      * destruct IH as [(Hid & Hn & Hq & _) _]. rewrite Hq. split; [by apply recalculated | done].
      * rewrite IH in *. simpl in *. split; [|done].
        apply recalculated; simpl; done.
  - destruct (foldl change_entry None cs) as [v|]; simpl; [|done].
    destruct IH as [(Hid & Hn & Hq & _) Hs]. split; [by apply recalculated | done].
Qed.

(** Events alone give no entry a cost: a rebuild forgets those set by hand. *)
Lemma events_set_no_cost (es : list InventoryEvent) v :
  foldl valuation_entry None es = Some v -> iv_unit_cost v = None.
Proof.
  enough (forall o : option InventoryValuation, (forall v, o = Some v -> iv_unit_cost v = None) ->
    forall v, foldl valuation_entry o es = Some v -> iv_unit_cost v = None) as H
    by (apply H; intros ? [=]).
  induction es as [|e es IH]; intros o Ho w; simpl; [apply Ho|].
  apply IH. destruct e as [e|e]; intros u [= <-]; simpl; [done|].
  destruct o as [x|]; simpl; [by apply Ho | done].
Qed.

Section Rebuild.
Context {S J CS : Type} `{TenantStoreLaws S InventoryItemId InventoryValuation}.
Context `{Serde InventoryEvent J} `{!ProjectionCursorStore CS}.

(** A rebuild from the tenants' whole histories leaves no item of those tenants
    with a unit cost or a value. *)
Theorem rebuild_forgets_costs (self : Projector S CS)
    (hist : TenantId -> AggregateId -> list InventoryEvent) (envs : list (EventEnvelope J)) t a v :
  (forall t a e, e ∈ hist t a -> event_owner e = (t, mkInventoryItemId a)) ->
  (forall t a, (Z.of_nat (length (hist t a)) < 2 ^ 64)%Z) -> cursors_work self ->
  (forall env, env ∈ envs -> from_history (HK:=valuation_projection) hist env) ->
  (forall t a i, (exists env, env ∈ envs /\ env_tenant_id env = t) -> i < length (hist t a) ->
     exists env, env ∈ envs /\ about "inventory.item" t a env = true
                 /\ env_sequence_number env = (Z.of_nat i + 1)%Z) ->
  (exists env, env ∈ envs /\ env_tenant_id env = t) ->
  valuation_get (valuation_rebuild self envs).1 t (mkInventoryItemId a) = Some v ->
  iv_unit_cost v = None.
Proof.
  intros Hown Hshort Hw Hf Hall Ht Hg.
  destruct (rebuild_tracks (HK:=valuation_projection) hist ltac:(intros t1 a1 e1 He1;
      apply (entry_isolation_None _ _ _ item_key_agg); by apply Hown) Hshort self envs Hw Hf Hall)
    as (_ & Hin & _).
  eapply events_set_no_cost. rewrite <- Hg. symmetry. exact (Hin t a Ht).
Qed.
End Rebuild.
