(* ===== verification/PgStore.v ===== *)
(** * The Postgres event store: [crates/infra/src/event_store/postgres.rs]

    The tables [events] and [snapshots] are the lists of their rows
    ([docker/migrations/001] and [002]: columns, constraints, keys); each
    statement of the store is the function its SQL denotes on them.  What the
    server and the [sqlx] driver decide is class [Driver]: how a column keeps a
    time and a JSON value, which values it refuses, the texts of its errors, the
    collation of [MAX].  Whether each round trip succeeds is read from a schedule
    of outcomes, so every failure branch of the methods is there.

    The pieces of [append_events] ([admission], [event_row], [insert_event]) are
    separate definitions: [PgTransactions] interleaves them.  The theorems here
    relate the store to the in-memory one. *)

From S2P Require Import Prelude Core Events Bus EventStore EventQuery Dispatcher.

(** ** The driver *)

(** [sqlx::Error], as far as the store looks. *)
Inductive SqlxError : Type :=
| Database (code : option string) (message : string)
| PoolClosed
| RowNotFound
| OtherSqlx (text : string).

(** @src crates/infra/src/event_store/postgres.rs 482-520 [map_sqlx_error] *)
Definition map_sqlx_error (operation : string) (err : SqlxError) : EventStoreError :=
  match err with
  | Database code message =>
    let msg := "database error in " +:+ operation +:+ ": " +:+ message in
    match code with
    | Some code =>
      if String.eqb code "23505" then Concurrency msg
      else if String.eqb code "23503" then InvalidAppend msg
      else if String.eqb code "23514" then InvalidAppend msg
      else InvalidAppend msg
    | None => InvalidAppend msg
    end
  | PoolClosed => InvalidAppend ("connection pool closed in " +:+ operation)
  | RowNotFound => InvalidAppend ("unexpected row not found in " +:+ operation)
  | OtherSqlx text => InvalidAppend ("sqlx error in " +:+ operation +:+ ": " +:+ text)
  end.

(** @src crates/infra/src/event_store/postgres.rs 523-530 [is_unique_violation] *)
Definition is_unique_violation (err : SqlxError) : bool :=
  match err with
  | Database (Some code) _ => String.eqb code "23505"
  | _ => false
  end.

(** ** Rows *)
Section Rows.
Context (J : Type).

(** @src crates/infra/src/event_store/postgres.rs 534-547 [StoredEventRow] *)
Record StoredEventRow := mkEventRow {
  row_event_id : Uuid;
  row_tenant_id : Uuid;
  row_aggregate_id : Uuid;
  row_aggregate_type : string;
  row_sequence_number : Z;
  row_event_type : string;
  row_event_version : Z;
  row_occurred_at : DateTime;
  row_payload : J;
  row_created_at : DateTime
}.

(** @src crates/infra/src/event_store/postgres.rs 582-590 [SnapshotRow] *)
Record SnapshotRow := mkSnapshotRow {
  srow_tenant_id : Uuid;
  srow_aggregate_id : Uuid;
  srow_aggregate_type : string;
  srow_version : Z;
  srow_state : J;
  srow_created_at : DateTime
}.

(** @src crates/infra/src/event_store/postgres.rs 435-444 [Snapshot] *)
Record Snapshot := mkSnapshot {
  snap_tenant_id : TenantId;
  snap_aggregate_id : AggregateId;
  snap_aggregate_type : string;
  snap_version : Z;
  snap_state : J;
  snap_created_at : DateTime
}.
End Rows.
Arguments mkEventRow {J}.
Arguments row_event_id {J}.
Arguments row_tenant_id {J}.
Arguments row_aggregate_id {J}.
Arguments row_aggregate_type {J}.
Arguments row_sequence_number {J}.
Arguments row_event_type {J}.
Arguments row_event_version {J}.
Arguments row_occurred_at {J}.
Arguments row_payload {J}.
Arguments row_created_at {J}.
Arguments mkSnapshotRow {J}.
Arguments srow_tenant_id {J}.
Arguments srow_aggregate_id {J}.
Arguments srow_aggregate_type {J}.
Arguments srow_version {J}.
Arguments srow_state {J}.
Arguments srow_created_at {J}.
Arguments mkSnapshot {J}.
Arguments snap_tenant_id {J}.
Arguments snap_aggregate_id {J}.
Arguments snap_aggregate_type {J}.
Arguments snap_version {J}.
Arguments snap_state {J}.
Arguments snap_created_at {J}.

(** What the server and the driver decide. *)
Class Driver (J : Type) := {
  (** a [TIMESTAMPTZ] and a [JSONB] column, as read after the write *)
  column_time : DateTime -> DateTime;
  column_json : J -> J;
  (** a value no column takes, such as a text with a NUL *)
  refused : StoredEventRow J -> option SqlxError;
  refused_snapshot : SnapshotRow J -> option SqlxError;
  (** a row the driver cannot decode *)
  undecodable : StoredEventRow J -> option string;
  undecodable_snapshot : SnapshotRow J -> option string;
  (** the message of a violated constraint *)
  violated : string -> string;
  (** the collation of texts *)
  text_le : string -> string -> bool;
  (** an [ORDER BY] that leaves rows tied *)
  order_rows : list (StoredEventRow J) -> list (StoredEventRow J)
}.

(** The connection pool: the tables, and for each coming round trip its
    failure, if it fails; [applied] tells whether a commit whose reply was lost
    took effect. *)
Record PgPool (J : Type) := mkPgPool {
  events : list (StoredEventRow J);
  snapshots : list (SnapshotRow J);
  outcome : nat -> option SqlxError;
  applied : nat -> bool;
  trips : nat
}.
Arguments mkPgPool {J}.
Arguments events {J}.
Arguments snapshots {J}.
Arguments outcome {J}.
Arguments applied {J}.
Arguments trips {J}.

Definition with_events {J} (db : PgPool J) (rows : list (StoredEventRow J)) : PgPool J :=
  {| events := rows; snapshots := snapshots db; outcome := outcome db; applied := applied db;
     trips := trips db |}.
Definition with_snapshots {J} (db : PgPool J) (rows : list (SnapshotRow J)) : PgPool J :=
  {| events := events db; snapshots := rows; outcome := outcome db; applied := applied db;
     trips := trips db |}.

(** One round trip, and the error it is mapped to. *)
Definition trip {J} (db : PgPool J) (operation : string)
  : PgPool J * Result EventStoreError unit :=
  ({| events := events db; snapshots := snapshots db; outcome := outcome db;
      applied := applied db; trips := S (trips db) |},
   match outcome db (trips db) with
   | Some err => Err (map_sqlx_error operation err)
   | None => Ok tt
   end).

(** ** The statements on [events] *)
Section Statements.
Context {J : Type} `{Texts} `{Driver J}.
Implicit Types (rows : list (StoredEventRow J)) (row : StoredEventRow J).

(** [WHERE tenant_id = $1 AND aggregate_id = $2]. *)
Definition in_stream (t : TenantId) (a : AggregateId) row : bool :=
  bool_decide (row_tenant_id row = tenant_uuid t)
  && bool_decide (row_aggregate_id row = aggregate_uuid a).

Definition by_number row row' : bool := (row_sequence_number row <=? row_sequence_number row')%Z.

(** @src crates/infra/src/event_store/postgres.rs 95-114 [PostgresEventStore::load_stream] *)
Definition select_stream rows t a : list (StoredEventRow J) :=
  sort_by by_number (List.filter (in_stream t a) rows).

Definition max_text (x y : string) : string := if text_le x y then y else x.

(** [COALESCE(MAX(sequence_number), 0), MAX(aggregate_type)].

    @src crates/infra/src/event_store/postgres.rs 455-468 [check_stream_version] *)
Definition select_version rows t a : Z * option string :=
  match List.filter (in_stream t a) rows with
  | [] => (0%Z, None)
  | row :: rest =>
    (foldl (fun m r => Z.max m (row_sequence_number r)) (row_sequence_number row) rest,
     Some (foldl (fun m r => max_text m (row_aggregate_type r)) (row_aggregate_type row) rest))
  end.

(** @src crates/infra/src/event_store/postgres.rs 450-479 [check_stream_version] *)
Definition check_stream_version rows t a : Z * option string :=
  let '(current_version, aggregate_type) := select_version rows t a in
  (wrapU 64 current_version, aggregate_type).

(** The key of the stream, and the primary key. *)
Definition same_position row row' : bool :=
  bool_decide (row_tenant_id row = row_tenant_id row')
  && bool_decide (row_aggregate_id row = row_aggregate_id row')
  && bool_decide (row_sequence_number row = row_sequence_number row').
Definition same_event row row' : bool := bool_decide (row_event_id row = row_event_id row').

Definition collides rows row : bool :=
  existsb (fun r => same_event r row) rows || existsb (fun r => same_position r row) rows.

(** The row as its columns keep it. *)
Definition kept_row row : StoredEventRow J :=
  {| row_event_id := row_event_id row; row_tenant_id := row_tenant_id row;
     row_aggregate_id := row_aggregate_id row; row_aggregate_type := row_aggregate_type row;
     row_sequence_number := row_sequence_number row; row_event_type := row_event_type row;
     row_event_version := row_event_version row;
     row_occurred_at := column_time (row_occurred_at row);
     row_payload := column_json (row_payload row);
     row_created_at := column_time (row_created_at row) |}.

Definition constraint_error (code name : string) : SqlxError :=
  Database (Some code) (violated name).

(** The [CHECK] constraints, then the keys.

    @src docker/migrations/001_create_events_table.sql 12-43 [events] *)
Definition insert_row rows row : Result SqlxError (StoredEventRow J) :=
  match refused row with
  | Some err => Err err
  | None =>
    if String.eqb (row_aggregate_type row) ""
    then Err (constraint_error "23514" "events_aggregate_type_not_empty")
    else if String.eqb (row_event_type row) ""
    then Err (constraint_error "23514" "events_event_type_not_empty")
    else if (row_sequence_number row <=? 0)%Z
    then Err (constraint_error "23514" "events_sequence_positive")
    else if existsb (fun r => same_event r row) rows
    then Err (constraint_error "23505" "events_pkey")
    else if existsb (fun r => same_position r row) rows
    then Err (constraint_error "23505" "events_stream_unique")
    else Ok (kept_row row)
  end.

(** ** Reading rows *)

(** @src crates/infra/src/event_store/postgres.rs 566-580 [From<StoredEventRow> for StoredEvent] *)
Definition from_event_row row : StoredEvent J :=
  {| se_event_id := row_event_id row; se_tenant_id := mkTenantId (row_tenant_id row);
     se_aggregate_id := mkAggregateId (row_aggregate_id row);
     se_aggregate_type := row_aggregate_type row;
     se_sequence_number := wrapU 64 (row_sequence_number row);
     se_event_type := row_event_type row;
     se_event_version := wrapU 32 (row_event_version row);
     se_occurred_at := row_occurred_at row; se_payload := row_payload row |}.

(** [from_row] and the conversion, row by row.

    @src crates/infra/src/event_store/postgres.rs 119-124 [PostgresEventStore::load_stream] *)
Fixpoint decode_rows rows : Result EventStoreError (list (StoredEvent J)) :=
  match rows with
  | [] => Ok []
  | row :: rest =>
    match undecodable row with
    | Some e => Err (InvalidAppend ("failed to deserialize event row: " +:+ e))
    | None => match decode_rows rest with
              | Ok l => Ok (from_event_row row :: l)
              | Err e => Err e
              end
    end
  end.

(** @src crates/infra/src/event_store/postgres.rs 87-128 [PostgresEventStore::load_stream] *)
Definition load_stream (self : PgPool J) (tenant_id : TenantId) (aggregate_id : AggregateId)
  : PgPool J * Result EventStoreError (list (StoredEvent J)) :=
  let '(db, r) := trip self "load_stream" in
  (db, match r with
       | Err e => Err e
       | Ok _ => decode_rows (select_stream (events self) tenant_id aggregate_id)
       end).

(** ** Appending *)

(** @src crates/infra/src/event_store/postgres.rs 182-194 [PostgresEventStore::append_events] *)
Fixpoint check_keys (t : TenantId) (a : AggregateId) (idx : nat)
    (evs : list (UncommittedEvent J)) : Result EventStoreError unit :=
  match evs with
  | [] => Ok tt
  | e :: rest =>
    if decide (ue_tenant_id e <> t)
    then Err (TenantIsolation (idx_msg "batch contains multiple tenant_ids" idx))
    else if decide (ue_aggregate_id e <> a)
    then Err (InvalidAppend (idx_msg "batch contains multiple aggregate_ids" idx))
    else check_keys t a (S idx) rest
  end.

(** The two checks on what [check_stream_version] read; each is followed by a
    rollback, whose failure is reported instead.

    @src crates/infra/src/event_store/postgres.rs 213-235 [PostgresEventStore::append_events] *)
Definition admission rows (t : TenantId) (a : AggregateId) (aggregate_type : string)
    (expected_version : ExpectedVersion) : Result EventStoreError Z :=
  let '(current_version, existing_aggregate_type) := check_stream_version rows t a in
  let versions :=
    if matches expected_version current_version then Ok current_version
    else Err (Concurrency ("optimistic concurrency check failed: expected "
                +:+ show_expected expected_version +:+ ", found " +:+ pretty current_version)) in
  match existing_aggregate_type with
  | Some existing_type =>
    if decide (existing_type <> aggregate_type)
    then Err (AggregateTypeMismatch ("stream aggregate_type is '" +:+ existing_type
                +:+ "', attempted append with '" +:+ aggregate_type +:+ "'"))
    else versions
  | None => versions
  end.

(** The bindings of the [INSERT]; [now] is the server's [NOW()].

    @src crates/infra/src/event_store/postgres.rs 251-276 [PostgresEventStore::append_events] *)
Definition event_row (t : TenantId) (a : AggregateId) (aggregate_type : string)
    (next_sequence : Z) (now : DateTime) (e : UncommittedEvent J) : StoredEventRow J :=
  {| row_event_id := ue_event_id e; row_tenant_id := tenant_uuid t;
     row_aggregate_id := aggregate_uuid a; row_aggregate_type := aggregate_type;
     row_sequence_number := wrapS 64 next_sequence; row_event_type := ue_event_type e;
     row_event_version := wrapS 32 (ue_event_version e);
     row_occurred_at := ue_occurred_at e; row_payload := ue_payload e;
     row_created_at := now |}.

(** @src crates/infra/src/event_store/postgres.rs 279-290 [PostgresEventStore::append_events] *)
Definition insert_error (next_sequence : Z) (err : SqlxError) : EventStoreError :=
  if is_unique_violation err
  then Concurrency ("concurrent append detected: sequence_number " +:+ pretty next_sequence
                    +:+ " already exists")
  else map_sqlx_error "insert_event" err.

(** The loop over the batch inside the transaction: [mine] are the rows it has
    inserted.  An error drops the transaction, which rolls it back.

    @src crates/infra/src/event_store/postgres.rs 237-305 [PostgresEventStore::append_events] *)
Fixpoint insert_all (db : PgPool J) (now : DateTime) (t : TenantId) (a : AggregateId)
    (aggregate_type : string) (next_sequence : Z) (mine : list (StoredEventRow J))
    (evs : list (UncommittedEvent J))
  : PgPool J * Result EventStoreError (list (StoredEventRow J) * list (StoredEvent J)) :=
  match evs with
  | [] => (db, Ok (mine, []))
  | e :: rest =>
    if decide (ue_tenant_id e <> t \/ ue_aggregate_id e <> a)
    then let '(db, r) := trip db "rollback" in
         (db, Err match r with
                  | Err err => err
                  | Ok _ => TenantIsolation "event tenant/aggregate mismatch in batch"
                  end)
    else
      let sent := outcome db (trips db) in
      let db := (trip db "insert_event").1 in
      match sent with
      | Some err => (db, Err (insert_error next_sequence err))
      | None =>
        match insert_row (events db ++ mine) (event_row t a aggregate_type next_sequence now e) with
        | Err err => (db, Err (insert_error next_sequence err))
        | Ok row =>
          let '(db, r) := insert_all db now t a aggregate_type (wrapU 64 (next_sequence + 1))
                            (mine ++ [row]) rest in
          (db, match r with
               | Ok (rows, stored) => Ok (rows, store_event next_sequence e :: stored)
               | Err err => Err err
               end)
        end
      end
  end.

(** A commit that fails may have been applied.

    @src crates/infra/src/event_store/postgres.rs 307-311 [PostgresEventStore::append_events] *)
Definition commit (db : PgPool J) (mine : list (StoredEventRow J))
  : PgPool J * Result EventStoreError unit :=
  let done := match outcome db (trips db) with
              | None => true | Some _ => applied db (trips db) end in
  let '(db, r) := trip db "commit_transaction" in
  (if done then with_events db (events db ++ mine) else db, r).

Definition mismatch (what : string) (expected got : Uuid) : string :=
  "event " +:+ what +:+ " mismatch: expected " +:+ show_uuid expected +:+ ", got "
  +:+ show_uuid got.

(** @src crates/infra/src/event_store/postgres.rs 151-314 [PostgresEventStore::append_events] *)
Definition append_events (self : PgPool J) (now : DateTime) (tenant_id : TenantId)
    (aggregate_id : AggregateId) (evs : list (UncommittedEvent J))
    (expected_version : ExpectedVersion)
  : PgPool J * Result EventStoreError (list (StoredEvent J)) :=
  match evs with
  | [] => (self, Ok [])
  | first_event :: _ =>
    if decide (ue_tenant_id first_event <> tenant_id)
    then (self, Err (TenantIsolation (mismatch "tenant_id" (tenant_uuid tenant_id)
                                     (tenant_uuid (ue_tenant_id first_event)))))
    else if decide (ue_aggregate_id first_event <> aggregate_id)
    then (self, Err (InvalidAppend (mismatch "aggregate_id" (aggregate_uuid aggregate_id)
                                   (aggregate_uuid (ue_aggregate_id first_event)))))
    else match check_keys tenant_id aggregate_id 0 evs with
    | Err e => (self, Err e)
    | Ok _ =>
      let aggregate_type := ue_aggregate_type first_event in
      let '(db, r) := trip self "begin_transaction" in
      match r with
      | Err e => (db, Err e)
      | Ok _ =>
        let '(db, r) := trip db "check_stream_version" in
        match r with
        | Err e => (db, Err e)
        | Ok _ =>
          match admission (events db) tenant_id aggregate_id aggregate_type expected_version with
          | Err e =>
            let '(db, r) := trip db "rollback" in
            (db, Err match r with Err err => err | Ok _ => e end)
          | Ok current_version =>
            let '(db, r) := insert_all db now tenant_id aggregate_id aggregate_type
                              (wrapU 64 (current_version + 1)) [] evs in
            match r with
            | Err e => (db, Err e)
            | Ok (mine, stored) =>
              let '(db, r) := commit db mine in
              (db, match r with Err e => Err e | Ok _ => Ok stored end)
            end
          end
        end
      end
    end
  end.
End Statements.

(** ** Snapshots *)
Section Snapshots.
Context {J : Type} `{Texts} `{Driver J}.
Implicit Types (rows : list (SnapshotRow J)) (self : PgPool J).

(** @src crates/infra/src/event_store/postgres.rs 605-616 [From<SnapshotRow> for Snapshot] *)
Definition from_snapshot_row (row : SnapshotRow J) : Snapshot J :=
  {| snap_tenant_id := mkTenantId (srow_tenant_id row);
     snap_aggregate_id := mkAggregateId (srow_aggregate_id row);
     snap_aggregate_type := srow_aggregate_type row;
     snap_version := wrapU 64 (srow_version row);
     snap_state := srow_state row; snap_created_at := srow_created_at row |}.

Definition snapshot_of (t : TenantId) (a : AggregateId) (row : SnapshotRow J) : bool :=
  bool_decide (srow_tenant_id row = tenant_uuid t)
  && bool_decide (srow_aggregate_id row = aggregate_uuid a).

Definition newest_version (row row' : SnapshotRow J) : bool :=
  (srow_version row' <=? srow_version row)%Z.

(** [ORDER BY version DESC LIMIT 1].

    @src crates/infra/src/event_store/postgres.rs 335-347 [PostgresEventStore::load_snapshot] *)
Definition select_snapshot rows t a : option (SnapshotRow J) :=
  head (sort_by newest_version (List.filter (snapshot_of t a) rows)).

(** @src crates/infra/src/event_store/postgres.rs 327-364 [PostgresEventStore::load_snapshot] *)
Definition load_snapshot self (tenant_id : TenantId) (aggregate_id : AggregateId)
  : PgPool J * Result EventStoreError (option (Snapshot J)) :=
  let '(db, r) := trip self "load_snapshot" in
  (db, match r with
       | Err e => Err e
       | Ok _ =>
         match select_snapshot (snapshots self) tenant_id aggregate_id with
         | None => Ok None
         | Some row =>
           match undecodable_snapshot row with
           | Some e => Err (InvalidAppend ("failed to deserialize snapshot row: " +:+ e))
           | None => Ok (Some (from_snapshot_row row))
           end
         end
       end).

Definition same_snapshot (row row' : SnapshotRow J) : bool :=
  bool_decide (srow_tenant_id row = srow_tenant_id row')
  && bool_decide (srow_aggregate_id row = srow_aggregate_id row')
  && bool_decide (srow_version row = srow_version row').

Definition kept_snapshot (row : SnapshotRow J) : SnapshotRow J :=
  {| srow_tenant_id := srow_tenant_id row; srow_aggregate_id := srow_aggregate_id row;
     srow_aggregate_type := srow_aggregate_type row; srow_version := srow_version row;
     srow_state := column_json (srow_state row);
     srow_created_at := column_time (srow_created_at row) |}.

(** The [INSERT ... ON CONFLICT (tenant_id, aggregate_id, version) DO UPDATE],
    which leaves the type of the row in place.

    @src crates/infra/src/event_store/postgres.rs 406-426 [PostgresEventStore::store_snapshot] *)
Definition upsert_snapshot rows (row : SnapshotRow J) : Result SqlxError (list (SnapshotRow J)) :=
  match refused_snapshot row with
  | Some err => Err err
  | None =>
    if String.eqb (srow_aggregate_type row) ""
    then Err (constraint_error "23514" "snapshots_aggregate_type_not_empty")
    else if (srow_version row <=? 0)%Z
    then Err (constraint_error "23514" "snapshots_version_positive")
    else if existsb (same_snapshot row) rows
    then Ok (map (fun r => if same_snapshot row r
                           then {| srow_tenant_id := srow_tenant_id r;
                                   srow_aggregate_id := srow_aggregate_id r;
                                   srow_aggregate_type := srow_aggregate_type r;
                                   srow_version := srow_version r;
                                   srow_state := srow_state (kept_snapshot row);
                                   srow_created_at := srow_created_at (kept_snapshot row) |}
                           else r) rows)
    else Ok (rows ++ [kept_snapshot row])
  end.

Definition snapshot_mismatch (what : string) (expected got : Uuid) : string :=
  "snapshot " +:+ what +:+ " mismatch: expected " +:+ show_uuid expected +:+ ", got "
  +:+ show_uuid got.

(** [now] is the server's clock.

    @src crates/infra/src/event_store/postgres.rs 381-430 [PostgresEventStore::store_snapshot] *)
Definition store_snapshot self (now : DateTime) (tenant_id : TenantId)
    (aggregate_id : AggregateId) (snapshot : Snapshot J)
  : PgPool J * Result EventStoreError unit :=
  if decide (snap_tenant_id snapshot <> tenant_id)
  then (self, Err (TenantIsolation (snapshot_mismatch "tenant_id" (tenant_uuid tenant_id)
                                      (tenant_uuid (snap_tenant_id snapshot)))))
  else if decide (snap_aggregate_id snapshot <> aggregate_id)
  then (self, Err (InvalidAppend (snapshot_mismatch "aggregate_id" (aggregate_uuid aggregate_id)
                                    (aggregate_uuid (snap_aggregate_id snapshot)))))
  else
    let '(db, r) := trip self "store_snapshot" in
    match r with
    | Err e => (db, Err e)
    | Ok _ =>
      let row := {| srow_tenant_id := tenant_uuid tenant_id;
                    srow_aggregate_id := aggregate_uuid aggregate_id;
                    srow_aggregate_type := snap_aggregate_type snapshot;
                    srow_version := wrapS 64 (snap_version snapshot);
                    srow_state := snap_state snapshot; srow_created_at := now |} in
      match upsert_snapshot (snapshots db) row with
      | Err err => (db, Err (map_sqlx_error "store_snapshot" err))
      | Ok rows => (with_snapshots db rows, Ok tt)
      end
    end.
End Snapshots.

(** ** The traits *)

(** Where a call comes from: a thread with no tokio runtime, a blocking thread of
    a runtime, or a task that the runtime polls. *)
Inductive Thread : Type := OutsideRuntime | BlockingThread | AsyncTask.

(** The text is the code's. *)
Definition requires_runtime : EventStoreError :=
  InvalidAppend "PostgresEventStore requires async runtime (tokio). Ensure you're calling from within a tokio runtime context.".

Section Traits.
Context {J : Type} `{Texts} `{Driver J}.
Implicit Types (self : PgPool J).

(** [Handle::block_on] panics in a task ([None]).

    @src crates/infra/src/event_store/postgres.rs 621-646 [EventStore for PostgresEventStore] *)
Definition trait_append (thread : Thread) self (now : DateTime)
    (evs : list (UncommittedEvent J)) (expected_version : ExpectedVersion)
  : PgPool J * option (Result EventStoreError (list (StoredEvent J))) :=
  match thread with
  | OutsideRuntime => (self, Some (Err requires_runtime))
  | _ =>
    match evs with
    | [] => (self, Some (Ok []))
    | e :: _ =>
      match thread with
      | AsyncTask => (self, None)
      | _ => let '(db, r) := append_events self now (ue_tenant_id e) (ue_aggregate_id e) evs
                               expected_version in (db, Some r)
      end
    end
  end.

(** @src crates/infra/src/event_store/postgres.rs 648-659 [EventStore for PostgresEventStore] *)
Definition trait_load_stream (thread : Thread) self (tenant_id : TenantId)
    (aggregate_id : AggregateId)
  : PgPool J * option (Result EventStoreError (list (StoredEvent J))) :=
  match thread with
  | OutsideRuntime => (self, Some (Err requires_runtime))
  | AsyncTask => (self, None)
  | BlockingThread =>
    let '(db, r) := load_stream self tenant_id aggregate_id in (db, Some r)
  end.

(** ** Queries *)

(** The [WHERE] clause with its optional parameters.

    @src crates/infra/src/event_store/postgres.rs 682-691 [PostgresEventStore::query_events] *)
Definition row_matches (t : TenantId) (filter : EventFilter) (row : StoredEventRow J) : bool :=
  bool_decide (row_tenant_id row = tenant_uuid t)
  && match flt_aggregate_id filter with
     | Some a => bool_decide (row_aggregate_id row = aggregate_uuid a) | None => true end
  && match flt_aggregate_type filter with
     | Some ty => bool_decide (row_aggregate_type row = ty) | None => true end
  && match flt_event_type filter with
     | Some ty => bool_decide (row_event_type row = ty) | None => true end
  && match flt_occurred_after filter with
     | Some after => (column_time after <=? row_occurred_at row)%Z | None => true end
  && match flt_occurred_before filter with
     | Some before => (row_occurred_at row <=? column_time before)%Z | None => true end.

Definition row_newest_first (row row' : StoredEventRow J) : bool :=
  match (row_occurred_at row' ?= row_occurred_at row)%Z with
  | Eq => by_number row row' | Lt => true | Gt => false
  end.

(** [LIMIT] and [OFFSET]. *)
Definition limit_offset (rows : list (StoredEventRow J)) (pagination : Pagination)
  : list (StoredEventRow J) :=
  take (Z.to_nat (limit pagination)) (drop (Z.to_nat (offset pagination)) rows).

(** The count, then the page: the tail the two listings share. *)
Definition counted_page (self : PgPool J) (count_op rows_op : string)
    (rows : list (StoredEventRow J)) (pagination : Pagination)
  : PgPool J * Result EventStoreError (EventQueryResult J) :=
  let '(db, r) := trip self count_op in
  match r with
  | Err e => (db, Err e)
  | Ok _ =>
    let total := Z.of_nat (length rows) in
    let '(db, r) := trip db rows_op in
    (db, match r with
         | Err e => Err e
         | Ok _ =>
           match decode_rows (limit_offset rows pagination) with
           | Err e => Err e
           | Ok evs =>
             Ok {| qr_events := evs; qr_total := total; qr_pagination := pagination;
                   qr_has_more :=
                     bool_decide (total > wrapU 32 (offset pagination + limit pagination))%Z |}
           end
         end)
  end.

(** @src crates/infra/src/event_store/postgres.rs 664-755 [PostgresEventStore::query_events] *)
Definition query_events self (tenant_id : TenantId) (filter : EventFilter)
    (pagination : Pagination) : PgPool J * Result EventStoreError (EventQueryResult J) :=
  counted_page self "count_events" "query_events"
    (order_rows (List.filter (row_matches tenant_id filter) (events self))) pagination.

(** @src crates/infra/src/event_store/postgres.rs 757-823 [PostgresEventStore::get_aggregate_events] *)
Definition get_aggregate_events self (tenant_id : TenantId) (aggregate_id : AggregateId)
    (pagination : option Pagination) : PgPool J * Result EventStoreError (EventQueryResult J) :=
  counted_page self "count_aggregate_events" "get_aggregate_events"
    (select_stream (events self) tenant_id aggregate_id)
    (unwrap_or pagination pagination_default).

(** @src crates/infra/src/event_store/postgres.rs 825-861 [PostgresEventStore::get_event_by_id] *)
Definition get_event_by_id self (tenant_id : TenantId) (event_id : Uuid)
  : PgPool J * Result EventStoreError (option (StoredEvent J)) :=
  let '(db, r) := trip self "get_event_by_id" in
  (db, match r with
       | Err e => Err e
       | Ok _ =>
         match head (List.filter (fun row => bool_decide (row_tenant_id row = tenant_uuid tenant_id)
                                     && bool_decide (row_event_id row = event_id)) (events self)) with
         | None => Ok None
         | Some row =>
           match undecodable row with
           | Some e => Err (InvalidAppend ("failed to deserialize event row: " +:+ e))
           | None => Ok (Some (from_event_row row))
           end
         end
       end).
End Traits.

(** ** Streams in the table *)

(** What the crates and the server document. *)
Class DriverLaws (J : Type) `{Driver J} : Prop := {
  order_rows_perm rows : order_rows rows ≡ₚ rows;
  order_rows_sorted rows :
    StronglySorted (fun r r' => row_newest_first r r' = true) (order_rows rows);
  (** [JSONB] keeps the value *)
  json_kept j : column_json j = j;
  (** what was written can be read *)
  kept_decodable row : refused row = None -> undecodable (kept_row row) = None
}.

Section Streams.
Context {J : Type} `{Driver J}.
Implicit Types (rows : list (StoredEventRow J)) (row : StoredEventRow J).

(** A stream of the table: one type, numbered from 1 within the column. *)
Definition rows_ok rows : Prop :=
  (exists ty, Forall (fun r => row_aggregate_type r = ty) rows)
  /\ (forall i r, rows !! i = Some r -> row_sequence_number r = (Z.of_nat i + 1)%Z)
  /\ (Z.of_nat (length rows) < 2 ^ 63)%Z.

Definition table_ok rows : Prop := forall t a, rows_ok (List.filter (in_stream t a) rows).

(** What a load of the stream returns. *)
Definition pg_stream rows t a : list (StoredEvent J) :=
  map from_event_row (select_stream rows t a).

(** An event as the columns keep it. *)
Definition kept_event (e : StoredEvent J) : StoredEvent J :=
  {| se_event_id := se_event_id e; se_tenant_id := se_tenant_id e;
     se_aggregate_id := se_aggregate_id e; se_aggregate_type := se_aggregate_type e;
     se_sequence_number := se_sequence_number e; se_event_type := se_event_type e;
     se_event_version := se_event_version e; se_occurred_at := column_time (se_occurred_at e);
     se_payload := column_json (se_payload e) |}.

Lemma in_stream_true t a row :
  in_stream t a row = true
  <-> row_tenant_id row = tenant_uuid t /\ row_aggregate_id row = aggregate_uuid a.
Proof. unfold in_stream. by rewrite andb_true_iff, !bool_decide_eq_true. Qed.

Lemma select_stream_filter rows t a :
  table_ok rows -> select_stream rows t a = List.filter (in_stream t a) rows.
Proof.
  intros Hok. destruct (Hok t a) as (_ & Hseq & _).
  apply sort_by_sorted_id, sorted_by_lookup. intros i j x y Hij Hi Hj.
  apply Hseq in Hi, Hj. apply Z.leb_le. lia.
Qed.

Lemma pg_stream_length rows t a :
  table_ok rows -> (Z.of_nat (length (pg_stream rows t a)) < 2 ^ 63)%Z.
Proof.
  intros Hok. unfold pg_stream. rewrite length_map, (select_stream_filter rows t a Hok).
  apply (Hok t a).
Qed.

Lemma pg_stream_ok rows t a : table_ok rows -> stream_ok t a (pg_stream rows t a).
Proof.
  intros Hok. unfold pg_stream. rewrite (select_stream_filter rows t a Hok).
  destruct (Hok t a) as ([ty Hty] & Hseq & Hlt). split.
  - exists ty. apply Forall_map, Forall_forall. intros r Hr. simpl.
    rewrite Forall_forall in Hty. specialize (Hty r Hr).
    apply list_elem_of_In, filter_In in Hr as [_ (Ht & Ha)%in_stream_true].
    rewrite Ht, Ha. by destruct t, a.
  - intros i e Hi. rewrite list_lookup_fmap in Hi.
    destruct (_ !! i) as [r|] eqn:Er; [|done]. injection Hi as <-. simpl.
    by rewrite (Hseq i r Er).
Qed.

Lemma pg_version rows t a :
  table_ok rows -> current_version (pg_stream rows t a) = Z.of_nat (length (pg_stream rows t a)).
Proof.
  intros Hok. apply (stream_version _ t a (pg_stream_ok rows t a Hok)).
  pose proof (pg_stream_length rows t a Hok). lia.
Qed.

(** [MAX] over a stream of the table. *)
Lemma max_numbers (l : list (StoredEventRow J)) : forall k,
  (forall i r, l !! i = Some r -> row_sequence_number r = (k + Z.of_nat i + 1)%Z) ->
  foldl (fun m r => Z.max m (row_sequence_number r)) k l = (k + Z.of_nat (length l))%Z.
Proof.
  induction l as [|r l IH]; intros k Hl; simpl; [lia|].
  rewrite (Hl 0 r eq_refl). replace (Z.max k (k + Z.of_nat 0 + 1)) with (k + 1)%Z by lia.
  rewrite IH; [lia|]. intros i r' Hi. rewrite (Hl (S i) r' Hi). lia.
Qed.

Lemma max_types (l : list (StoredEventRow J)) ty :
  Forall (fun r => row_aggregate_type r = ty) l ->
  foldl (fun m r => max_text m (row_aggregate_type r)) ty l = ty.
Proof.
  induction 1 as [|r l Hr _ IH]; simpl; [done|].
  rewrite Hr. unfold max_text at 2. by destruct (text_le ty ty).
Qed.

Lemma check_stream_version_exact rows t a :
  table_ok rows ->
  check_stream_version rows t a
  = (current_version (pg_stream rows t a),
     match pg_stream rows t a with [] => None | e :: _ => Some (se_aggregate_type e) end).
Proof.
  intros Hok. pose proof (pg_version rows t a Hok) as Hv.
  pose proof (pg_stream_length rows t a Hok) as Hlt. rewrite Hv. clear Hv.
  unfold check_stream_version, select_version. unfold pg_stream in *.
  rewrite (select_stream_filter rows t a Hok) in *. rewrite length_map in *.
  destruct (Hok t a) as ([ty Hty] & Hseq & _).
  destruct (List.filter _ rows) as [|r l]; [done|].
  apply Forall_cons_1 in Hty as [Hr Hl]. simpl in *.
  rewrite (max_numbers l (row_sequence_number r)).
  - rewrite <- Hr in Hl. rewrite (max_types l (row_aggregate_type r) Hl).
    rewrite (Hseq 0 r eq_refl). f_equal. rewrite wrapU_id; ilia.
  - intros i r' Hi. rewrite (Hseq 0 r eq_refl), (Hseq (S i) r' Hi). lia.
Qed.

#[global] Instance type_stable_dec (st : list (StoredEvent J)) ty : Decision (type_stable st ty).
Proof. destruct st; simpl; apply _. Defined.

(** The checks of an append on a well-formed table are the contract's. *)
Lemma admission_exact rows t a ty v :
  table_ok rows ->
  let st := pg_stream rows t a in
  if decide (type_stable st ty)
  then if matches v (current_version st)
       then admission rows t a ty v = Ok (current_version st)
       else exists msg, admission rows t a ty v = Err (Concurrency msg)
  else match st with
       | [] => False
       | e :: _ => admission rows t a ty v = Err (AggregateTypeMismatch ("stream aggregate_type is '"
           +:+ se_aggregate_type e +:+ "', attempted append with '" +:+ ty +:+ "'"))
       end.
Proof.
  intros Hok st. unfold admission. rewrite (check_stream_version_exact rows t a Hok). fold st.
  destruct (decide (type_stable st ty)) as [Hty|Hty]; destruct st as [|e st]; simpl in *.
  - destruct (matches v _); eauto.
  - rewrite decide_False by auto. destruct (matches v _); eauto.
  - by destruct Hty.
  - by rewrite decide_True.
Qed.
End Streams.

(** ** Batches in the table *)
Section Batches.
Context {J : Type} `{Driver J}.
Implicit Types (rows mine : list (StoredEventRow J)) (row : StoredEventRow J)
  (evs : list (UncommittedEvent J)).

(** The rows a batch becomes. *)
Fixpoint batch_of (t : TenantId) (a : AggregateId) (ty : string) (next : Z) (now : DateTime)
    evs : list (StoredEventRow J) :=
  match evs with
  | [] => []
  | e :: rest => kept_row (event_row t a ty next now e)
                 :: batch_of t a ty (wrapU 64 (next + 1)) now rest
  end.

(** The event with the type its row gets: that of the first event of the batch. *)
Definition retyped (ty : string) (e : UncommittedEvent J) : UncommittedEvent J :=
  {| ue_event_id := ue_event_id e; ue_tenant_id := ue_tenant_id e;
     ue_aggregate_id := ue_aggregate_id e; ue_aggregate_type := ty;
     ue_event_type := ue_event_type e; ue_event_version := ue_event_version e;
     ue_occurred_at := ue_occurred_at e; ue_payload := ue_payload e |}.

(** Addressed to the stream, with versions of the field's width. *)
Definition addressed (t : TenantId) (a : AggregateId) evs : Prop :=
  Forall (fun e => ue_tenant_id e = t /\ ue_aggregate_id e = a /\ is_u32 (ue_event_version e)) evs.

Lemma batch_of_length t a ty n now evs : length (batch_of t a ty n now evs) = length evs.
Proof. revert n; induction evs; intros n; simpl; auto. Qed.

Lemma batch_of_snoc t a ty n now evs e :
  is_u64 n ->
  batch_of t a ty n now (evs ++ [e])
  = batch_of t a ty n now evs
    ++ [kept_row (event_row t a ty (wrapU 64 (n + Z.of_nat (length evs))) now e)].
Proof.
  revert n; induction evs as [|u evs IH]; intros n Hn; simpl.
  - by rewrite Z.add_0_r, wrapU_id.
  - rewrite IH by (by apply wrapU_range). do 4 f_equal. rewrite wrapU_add_l. do 2 f_equal. lia.
Qed.

Lemma batch_of_lookup t a ty n now evs i r :
  is_u64 n -> batch_of t a ty n now evs !! i = Some r ->
  row_tenant_id r = tenant_uuid t /\ row_aggregate_id r = aggregate_uuid a
  /\ row_aggregate_type r = ty
  /\ row_sequence_number r = wrapS 64 (wrapU 64 (n + Z.of_nat i)).
Proof.
  revert n i; induction evs as [|e evs IH]; intros n [|i] Hn; simpl; intros Hi; try done.
  - injection Hi as <-. simpl. by rewrite Z.add_0_r, (wrapU_id 64 n).
  - apply IH in Hi as (? & ? & ? & Hs); [|by apply wrapU_range].
    split_and!; [done..|]. rewrite Hs, wrapU_add_l. do 2 f_equal. lia.
Qed.

Lemma from_batch t a ty n now evs :
  addressed t a evs -> (0 < n)%Z -> (n + Z.of_nat (length evs) <= 2 ^ 63)%Z ->
  map from_event_row (batch_of t a ty n now evs)
  = map kept_event (number_batch n (map (retyped ty) evs)).
Proof.
  intros Hb. revert n. induction Hb as [|e evs (Ht & Ha & Hv) _ IH]; intros n Hn Hlt; [done|].
  simpl in *. rewrite (wrapU_id 64 (n + 1)) by ilia. rewrite IH by lia. f_equal.
  unfold from_event_row, kept_event. simpl. f_equal.
  - by rewrite Ht; destruct t.
  - by rewrite Ha; destruct a.
  - apply wrapU_wrapS. ilia.
  - by apply wrapU_wrapS.
Qed.

Lemma retyped_id ty evs :
  Forall (fun e => ue_aggregate_type e = ty) evs -> map (retyped ty) evs = evs.
Proof. induction 1 as [|[] evs He _ IH]; simpl in *; [done|]. by rewrite IH, <- He. Qed.

(** A row that was inserted. *)
Lemma insert_row_Ok rows row row' :
  insert_row rows row = Ok row' ->
  row' = kept_row row /\ (0 < row_sequence_number row)%Z /\ collides rows row = false.
Proof.
  unfold insert_row, collides. destruct (refused row); [done|].
  repeat (destruct (String.eqb _ _); [done|]).
  destruct (Z.leb_spec (row_sequence_number row) 0); [done|].
  destruct (existsb (fun r => same_event r row) rows) eqn:E1; [done|].
  destruct (existsb (fun r => same_position r row) rows) eqn:E2; [done|].
  by intros [= <-].
Qed.

Definition no_row_of (t : TenantId) (a : AggregateId) mine : Prop :=
  List.filter (in_stream t a) mine = [].

Lemma filter_stream_batch t a ty n now evs :
  is_u64 n ->
  List.filter (in_stream t a) (batch_of t a ty n now evs) = batch_of t a ty n now evs
  /\ forall t' a', (t', a') <> (t, a) -> no_row_of t' a' (batch_of t a ty n now evs).
Proof.
  unfold no_row_of. revert n.
  induction evs as [|e evs IH]; intros n Hn; [done|]. cbn [batch_of List.filter].
  destruct (IH (wrapU 64 (n + 1))) as [-> Ho]; [by apply wrapU_range|].
  unfold in_stream at 1. simpl. rewrite !bool_decide_true by done. split; [done|].
  intros t' a' Hne. rewrite Ho by done. unfold in_stream. simpl.
  destruct t as [t], a as [a], t' as [t'], a' as [a']. simpl.
  destruct (decide (t = t')) as [->|]; [rewrite (bool_decide_false (a = a')) by congruence|
    rewrite (bool_decide_false (t = t')) by done]; by rewrite ?andb_false_r.
Qed.

(** A batch numbered on from the version of its stream extends the stream. *)
Lemma table_ok_app rows t a ty cur now evs :
  table_ok rows -> addressed t a evs -> (0 <= cur)%Z ->
  (cur + Z.of_nat (length evs) < 2 ^ 63)%Z ->
  (evs <> [] -> cur = current_version (pg_stream rows t a)
                /\ type_stable (pg_stream rows t a) ty) ->
  let rows' := rows ++ batch_of t a ty (cur + 1) now evs in
  table_ok rows'
  /\ pg_stream rows' t a
     = pg_stream rows t a ++ map kept_event (number_batch (cur + 1) (map (retyped ty) evs))
  /\ forall t' a', (t', a') <> (t, a) -> pg_stream rows' t' a' = pg_stream rows t' a'.
Proof.
  intros Hok Hb Hpos Hlt Hcur rows'.
  destruct (filter_stream_batch t a ty (cur + 1) now evs) as [Hmine Hothers]; [ilia|].
  assert (Hf : forall t' a', List.filter (in_stream t' a') rows'
    = List.filter (in_stream t' a') rows
      ++ if decide ((t', a') = (t, a)) then batch_of t a ty (cur + 1) now evs else []).
  { intros t' a'. unfold rows'. rewrite List.filter_app. f_equal.
    destruct (decide _) as [[= -> ->]|Hne]; [done | by apply Hothers]. }
  assert (Hok' : table_ok rows').
  { intros t' a'. rewrite Hf. destruct (decide _) as [[= -> ->]|Hne];
      [|rewrite app_nil_r; apply Hok].
    destruct (decide (evs = [])) as [->|Hne]; [simpl; rewrite app_nil_r; apply Hok|].
    destruct (Hcur Hne) as [Hc Hty]. rewrite (pg_version rows t a Hok) in Hc.
    unfold pg_stream in Hc, Hty. rewrite (select_stream_filter rows t a Hok) in Hc, Hty.
    rewrite length_map in Hc. destruct (Hok t a) as ([ty' Hty'] & Hseq & _). split_and!.
    - exists ty. apply Forall_app. split.
      + destruct (List.filter _ rows) as [|r l]; [done|]. simpl in Hty.
        apply Forall_cons_1 in Hty' as [Hr Hl]. rewrite <- Hty, Hr. by constructor.
      + apply Forall_lookup. intros i r Hi. by apply batch_of_lookup in Hi as (_ & _ & -> & _); [|ilia].
    - intros i r [Hi|[Hle Hi]]%lookup_app_Some; [by apply Hseq|].
      pose proof (lookup_lt_Some _ _ _ Hi) as Hil. rewrite batch_of_length in Hil.
      apply batch_of_lookup in Hi as (_ & _ & _ & ->); [|ilia].
      rewrite wrapU_id, wrapS_id by ilia. lia.
    - rewrite length_app, batch_of_length. lia. }
  unfold pg_stream in *. split_and!; [done| |intros t' a' Hne];
    rewrite !(select_stream_filter rows' _ _ Hok'), !(select_stream_filter rows _ _ Hok), Hf.
  - rewrite decide_True, map_app by done. f_equal. apply from_batch; [done | lia | lia].
  - by rewrite decide_False, app_nil_r.
Qed.
End Batches.

(** ** An append that nothing disturbs *)

(** Only the schedule moved. *)
Definition same_tables {J} (db db' : PgPool J) : Prop :=
  events db' = events db /\ snapshots db' = snapshots db /\ outcome db' = outcome db
  /\ applied db' = applied db.

Definition healthy {J} (db : PgPool J) : Prop := forall k, outcome db k = None.

Lemma trip_tables {J} (db : PgPool J) op : same_tables db (trip db op).1.
Proof. done. Qed.

Lemma trip_healthy {J} (db : PgPool J) op :
  healthy db -> exists db', trip db op = (db', Ok tt) /\ same_tables db db' /\ healthy db'.
Proof. intros Hh. unfold trip. rewrite Hh. eexists. by split; [reflexivity | split]. Qed.

Lemma same_tables_trans {J} (db1 db2 db3 : PgPool J) :
  same_tables db1 db2 -> same_tables db2 db3 -> same_tables db1 db3.
Proof. unfold same_tables. intuition congruence. Qed.

Section Append.
Context {J : Type} `{Texts} `{Driver J}.
Implicit Types (rows mine : list (StoredEventRow J)) (evs : list (UncommittedEvent J))
  (db : PgPool J).

(** What the columns and the keys accept. *)
Record insertable rows t a ty now (cur : Z) evs : Prop := {
  ins_type : ty <> ""%string;
  ins_events : Forall (fun e => ue_event_type e <> ""%string) evs;
  ins_fresh : Forall (fun e => Forall (fun r => row_event_id r <> ue_event_id e) rows) evs;
  ins_distinct : NoDup (map ue_event_id evs);
  ins_values : Forall (fun e => forall n, refused (event_row t a ty n now e) = None) evs;
  ins_room : (cur + Z.of_nat (length evs) < 2 ^ 63)%Z
}.

Lemma existsb_false {A} (f : A -> bool) l :
  (forall i x, l !! i = Some x -> f x = false) -> existsb f l = false.
Proof.
  intros Hl. induction l as [|x l IH]; [done|]. simpl. rewrite (Hl 0 x eq_refl). simpl.
  apply IH. intros i y. apply (Hl (S i)).
Qed.

Lemma batch_ids t a ty n now evs :
  map row_event_id (batch_of t a ty n now evs) = map ue_event_id evs.
Proof. revert n; induction evs as [|e evs IH]; intros n; simpl; [done|]. by rewrite IH. Qed.

(** One insertion of such a batch. *)
Lemma insert_next rows t a ty now before e after :
  table_ok rows ->
  let cur := current_version (pg_stream rows t a) in
  insertable rows t a ty now cur (before ++ e :: after) ->
  let n := (cur + 1 + Z.of_nat (length before))%Z in
  insert_row (rows ++ batch_of t a ty (cur + 1) now before) (event_row t a ty n now e)
  = Ok (kept_row (event_row t a ty n now e)).
Proof.
  intros Hok cur Hins n. destruct Hins as [Hty Hev Hfr Hnd Hval Hroom].
  assert (Hcur : cur = Z.of_nat (length (List.filter (in_stream t a) rows))).
  { unfold cur. rewrite (pg_version rows t a Hok). unfold pg_stream.
    by rewrite length_map, (select_stream_filter rows t a Hok). }
  rewrite length_app in Hroom. simpl in Hroom.
  assert (Hn : wrapS 64 n = n) by (apply wrapS_id; [lia | unfold n; ilia]).
  unfold insert_row. rewrite Forall_app, Forall_cons in Hval, Hev, Hfr.
  destruct Hval as (_ & Hval & _), Hev as (_ & Hev & _), Hfr as (_ & Hfr & _). rewrite Hval.
  cbn [row_aggregate_type row_event_type row_sequence_number event_row].
  rewrite (proj2 (String.eqb_neq ty _)) by done.
  rewrite (proj2 (String.eqb_neq (ue_event_type e) _)) by done. rewrite Hn.
  destruct (Z.leb_spec n 0) as [|_]; [unfold n in *; lia|].
  rewrite map_app in Hnd. apply NoDup_app in Hnd as (_ & Hnd & _).
  rewrite !existsb_false; [done| |].
  - intros i r [Hi|[_ Hi]]%lookup_app_Some; unfold same_position; simpl; rewrite Hn.
    + destruct (in_stream t a r) eqn:Er; [|unfold in_stream in Er; by rewrite Er].
      rewrite (bool_decide_false (row_sequence_number r = n)); [apply andb_false_r|].
      assert (Hr : r ∈ List.filter (in_stream t a) rows).
      { apply list_elem_of_In, filter_In. split; [|done].
        by apply list_elem_of_In, list_elem_of_lookup; exists i. }
      apply list_elem_of_lookup in Hr as [j Hj]. pose proof (lookup_lt_Some _ _ _ Hj).
      destruct (Hok t a) as (_ & Hseq & _). rewrite (Hseq j r Hj). unfold n. lia.
    + pose proof (lookup_lt_Some _ _ _ Hi) as Hil. rewrite batch_of_length in Hil.
      apply batch_of_lookup in Hi as (_ & _ & _ & Hs); [|ilia].
      rewrite wrapU_id, wrapS_id in Hs by ilia.
      rewrite (bool_decide_false (row_sequence_number r = n)) by (unfold n; lia).
      apply andb_false_r.
  - intros i r [Hi|[_ Hi]]%lookup_app_Some; unfold same_event; simpl;
      apply bool_decide_eq_false.
    + rewrite Forall_lookup in Hfr. by apply (Hfr i).
    + intros Heq. apply (Hnd (ue_event_id e)); [|simpl; by left]. rewrite <- Heq.
      rewrite <- (batch_ids t a ty (cur + 1) now before).
      apply list_elem_of_In, in_map, list_elem_of_In, list_elem_of_lookup. eauto.
Qed.

Lemma insert_all_exact t a ty now rows : forall after before db,
  healthy db -> events db = rows -> table_ok rows ->
  let cur := current_version (pg_stream rows t a) in
  addressed t a after -> insertable rows t a ty now cur (before ++ after) ->
  let n := (cur + 1 + Z.of_nat (length before))%Z in
  exists db', insert_all db now t a ty n (batch_of t a ty (cur + 1) now before) after
    = (db', Ok (batch_of t a ty (cur + 1) now (before ++ after), number_batch n after))
    /\ same_tables db db' /\ healthy db'.
Proof.
  induction after as [|e after IH]; intros before db Hh Hev Hok cur Hadd Hins n.
  { exists db. by rewrite app_nil_r. }
  apply Forall_cons_1 in Hadd as [(Ht & Ha & _) Hadd].
  pose proof (ins_room _ _ _ _ _ _ _ Hins) as Hroom. rewrite length_app in Hroom.
  pose proof (pg_version rows t a Hok) as Hc. fold cur in Hc. simpl in Hroom.
  cbn [insert_all]. rewrite decide_False by (intros []; congruence). rewrite Hh.
  pose proof (insert_next rows t a ty now before e after Hok Hins) as Hrow.
  cbv zeta in Hrow. fold cur n in Hrow.
  change (events (trip db "insert_event").1) with (events db). rewrite Hev, Hrow.
  pose proof (trip_tables db "insert_event") as Hstep.
  destruct (IH (before ++ [e]) (trip db "insert_event").1) as (db' & Hall & Hs & Hh');
    [done | exact Hev | done | done | by rewrite <- app_assoc |].
  revert Hall Hs Hstep. generalize (trip db "insert_event").1. intros db1 Hall Hs Hstep.
  fold cur in Hall. rewrite batch_of_snoc in Hall by (unfold cur in *; ilia).
  rewrite (wrapU_id 64 (n + 1)) by (unfold n; ilia).
  rewrite length_app in Hall. simpl in Hall.
  replace (cur + 1 + Z.of_nat (length before + 1))%Z with (n + 1)%Z in Hall by (unfold n; lia).
  rewrite (wrapU_id 64 (cur + 1 + _)) in Hall by (unfold n in *; ilia).
  fold n in Hall. rewrite Hall, <- app_assoc. simpl.
  exists db'. split_and!; [|by eapply same_tables_trans, Hs | done].
  by rewrite (wrapU_id 64 (n + 1)) by (unfold n; ilia).
Qed.
End Append.

Section Exact.
Context {J : Type} `{Texts} `{Driver J}.
Implicit Types (rows : list (StoredEventRow J)) (evs : list (UncommittedEvent J))
  (db : PgPool J).

Definition versions_fit evs : Prop := Forall (fun e => is_u32 (ue_event_version e)) evs.

Lemma batch_addressed t a ty evs :
  batch_for t a ty evs -> versions_fit evs -> addressed t a evs.
Proof.
  intros [_ Hb] Hv. unfold versions_fit, addressed in *. rewrite Forall_forall in *.
  intros e He. destruct (Hb e He) as (? & ? & _). auto.
Qed.

Lemma check_keys_batch t a evs : forall idx, addressed t a evs -> check_keys t a idx evs = Ok tt.
Proof.
  induction evs as [|e evs IH]; intros idx Hb; simpl; [done|].
  apply Forall_cons_1 in Hb as [(-> & -> & _) Hb].
  rewrite !decide_False by auto. by apply IH.
Qed.

(** What follows the checks of the batch and the two round trips that open the
    transaction. *)
Definition transact db now (t : TenantId) (a : AggregateId) (ty : string) evs v
  : PgPool J * Result EventStoreError (list (StoredEvent J)) :=
  match admission (events db) t a ty v with
  | Err e => let '(db, r) := trip db "rollback" in
             (db, Err match r with Err err => err | Ok _ => e end)
  | Ok current_version =>
    let '(db, r) := insert_all db now t a ty (wrapU 64 (current_version + 1)) [] evs in
    match r with
    | Err e => (db, Err e)
    | Ok (mine, stored) =>
      let '(db, r) := commit db mine in (db, match r with Err e => Err e | Ok _ => Ok stored end)
    end
  end.

Lemma append_transacts db now t a ty evs v :
  healthy db -> batch_for t a ty evs -> versions_fit evs ->
  exists db', same_tables db db' /\ healthy db'
    /\ append_events db now t a evs v = transact db' now t a ty evs v.
Proof.
  intros Hh Hb Hv. pose proof (check_keys_batch t a evs 0 (batch_addressed _ _ _ _ Hb Hv)) as Hk.
  destruct Hb as [Hne Hb]. destruct evs as [|e evs]; [done|].
  apply Forall_cons_1 in Hb as [(Ht & Ha & Hty) _].
  unfold append_events. rewrite !decide_False by (intros []; done). rewrite Hk, Hty.
  destruct (trip_healthy db "begin_transaction" Hh) as (db1 & -> & Hs1 & Hh1).
  destruct (trip_healthy db1 "check_stream_version" Hh1) as (db2 & -> & Hs2 & Hh2).
  exists db2. split_and!; [by eapply same_tables_trans | done | done].
Qed.

(** The outcome of an append over a healthy pool: refused, *)
Lemma append_refused db now t a ty evs v :
  healthy db -> table_ok (events db) -> batch_for t a ty evs -> versions_fit evs ->
  let st := pg_stream (events db) t a in
  ~ (matches v (current_version st) = true /\ type_stable st ty) ->
  exists db' e, append_events db now t a evs v = (db', Err e)
    /\ same_tables db db' /\ healthy db'
    /\ if decide (type_stable st ty) then exists msg, e = Concurrency msg
       else match st with
            | [] => False
            | s :: _ => e = AggregateTypeMismatch ("stream aggregate_type is '"
                +:+ se_aggregate_type s +:+ "', attempted append with '" +:+ ty +:+ "'")
            end.
Proof.
  intros Hh Hok Hb Hv st Hno.
  destruct (append_transacts db now t a ty evs v Hh Hb Hv) as (db1 & Hs1 & Hh1 & ->).
  pose proof (admission_exact (events db) t a ty v Hok) as Had. cbv zeta in Had. fold st in Had.
  destruct (trip_healthy db1 "rollback" Hh1) as (db2 & Ht & Hs2 & Hh2).
  pose proof (same_tables_trans _ _ _ Hs1 Hs2) as Hs. unfold transact.
  rewrite (proj1 Hs1), Ht.
  destruct (decide (type_stable st ty)) as [Hty|Hty].
  - destruct (matches v _) eqn:Em; [by destruct Hno|]. destruct Had as [msg ->]. eauto 8.
  - destruct st; [done|]. rewrite Had. eauto 8.
Qed.

(** or committed. *)
Lemma append_accepted db now t a ty evs v :
  healthy db -> table_ok (events db) -> batch_for t a ty evs -> versions_fit evs ->
  let st := pg_stream (events db) t a in
  let c := number_batch (current_version st + 1) evs in
  insertable (events db) t a ty now (current_version st) evs ->
  matches v (current_version st) = true -> type_stable st ty ->
  exists db', append_events db now t a evs v = (db', Ok c)
    /\ healthy db' /\ events db' = events db ++ batch_of t a ty (current_version st + 1) now evs
    /\ table_ok (events db') /\ pg_stream (events db') t a = st ++ map kept_event c
    /\ forall t' a', (t', a') <> (t, a) ->
         pg_stream (events db') t' a' = pg_stream (events db) t' a'.
Proof.
  intros Hh Hok Hb Hv st c Hins Hm Hty. pose proof (batch_addressed _ _ _ _ Hb Hv) as Hadd.
  pose proof (admission_exact (events db) t a ty v Hok) as Had. cbv zeta in Had. fold st in Had.
  rewrite decide_True, Hm in Had by done.
  pose proof (pg_version (events db) t a Hok) as Hc. fold st in Hc.
  pose proof (ins_room _ _ _ _ _ _ _ Hins) as Hroom.
  destruct (append_transacts db now t a ty evs v Hh Hb Hv) as (db1 & Hs1 & Hh1 & ->).
  destruct Hs1 as (He1 & _). unfold transact. rewrite He1, Had.
  destruct (insert_all_exact t a ty now (events db) evs [] db1 Hh1 He1 Hok Hadd Hins)
    as (db2 & Hall & (He2 & _) & Hh2).
  fold st in Hall. simpl in Hall. rewrite Z.add_0_r in Hall.
  rewrite (wrapU_id 64 (current_version st + 1)), Hall by ilia.
  unfold commit. rewrite Hh2.
  destruct (trip_healthy db2 "commit_transaction" Hh2) as (db3 & -> & (He3 & _) & Hh3).
  destruct (table_ok_app (events db) t a ty (current_version st) now evs)
    as (Hok' & Hst & Ho); [done | done | lia | lia | done |].
  rewrite retyped_id in Hst by (eapply Forall_impl; [apply Hb|]; by intros e (_ & _ & ?)).
  eexists. split_and!; [reflexivity|..]; simpl; rewrite ?He3, ?He2, ?He1; done.
Qed.
End Exact.
