(* ===== verification/PgRefinement.v ===== *)
(** * The Postgres event store refines the in-memory one

    Over a pool without failures, appends and loads of [PgStore] answer like those
    of [EventStore]'s in-memory store, up to what the columns keep of a time; so a
    command dispatched on Postgres has the result it has in memory, and everything
    proved of the in-memory system holds there, one command after the other.
    [PgTransactions] treats commands that overlap. *)

From S2P Require Import Prelude Core Events Bus EventStore EventQuery Dispatcher PgStore.

(** ** The refinement relation *)
Section Mirror.
Context {J : Type} `{Texts} `{HD : Driver J} `{HL : !DriverLaws J}.
Implicit Types (mem : InMemoryEventStore J) (db : PgPool J) (evs : list (UncommittedEvent J))
  (st : list (StoredEvent J)).

Record mirrors mem db : Prop := {
  mir_unlocked : lock_poisoned mem = false;
  mir_mem_ok : mem_ok mem;
  mir_healthy : healthy db;
  mir_table : table_ok (events db);
  mir_readable : Forall (fun row => undecodable row = None) (events db);
  mir_streams t a : pg_stream (events db) t a = map kept_event (mem_stream mem t a)
}.

Lemma kept_version st : current_version (map kept_event st) = current_version st.
Proof.
  unfold current_version. destruct st as [|e st _] using rev_ind; [done|].
  rewrite map_app. simpl. by rewrite !last_snoc.
Qed.

Lemma kept_type_stable st ty : type_stable (map kept_event st) ty <-> type_stable st ty.
Proof. by destruct st. Qed.

(** What a batch must be for its columns and keys. *)
Definition fits mem db now (t : TenantId) (a : AggregateId) (ty : string) evs : Prop :=
  versions_fit evs
  /\ insertable (events db) t a ty now (current_version (mem_stream mem t a)) evs.

Lemma batch_readable t a ty now evs : forall n,
  Forall (fun e => forall n, refused (event_row t a ty n now e) = None) evs ->
  Forall (fun row => undecodable row = None) (batch_of t a ty n now evs).
Proof.
  intros n Hr. revert n. induction Hr as [|e evs He _ IH]; intros n; constructor; [|apply IH].
  apply kept_decodable, He.
Qed.

Lemma decode_readable rows :
  Forall (fun row => undecodable row = None) rows ->
  decode_rows rows = Ok (map from_event_row rows).
Proof. induction 1 as [|row rows Hr _ IH]; simpl; [done|]. by rewrite Hr, IH. Qed.

Lemma load_mirrors mem db t a :
  mirrors mem db ->
  (load_stream db t a).2 = Ok (map kept_event (mem_stream mem t a)).
Proof.
  intros [_ _ Hh _ Hr Hst]. unfold load_stream.
  destruct (trip_healthy db "load_stream" Hh) as (db' & -> & _ & _). simpl.
  rewrite decode_readable; [by rewrite <- Hst|].
  unfold select_stream. rewrite Forall_forall in *. intros row Hrow. apply Hr.
  rewrite sort_by_perm in Hrow. by apply list_elem_of_In, filter_In in Hrow as [?%list_elem_of_In _].
Qed.

(** The stores after an append of the same batch. *)
Lemma append_mirrors mem db now t a ty evs v :
  mirrors mem db -> batch_for t a ty evs -> fits mem db now t a ty evs ->
  let '(mem', r) := append mem evs v in
  let '(db', r') := append_events db now t a evs v in
  mirrors mem' db'
  /\ match r, r' with
     | Ok c, Ok c' => c' = c
     | Err e, Err e' =>
       matches v (current_version (mem_stream mem t a)) = true -> e' = e
     | _, _ => False
     end.
Proof.
  intros [Hp Hm Hh Hok Hr Hst] Hb [Hv Hins].
  pose proof (append_cases mem t a ty evs v Hb Hp) as Hcase.
  assert (Hver : current_version (pg_stream (events db) t a)
                 = current_version (mem_stream mem t a)) by (by rewrite Hst, kept_version).
  assert (Hty : type_stable (pg_stream (events db) t a) ty <-> type_stable (mem_stream mem t a) ty)
    by (rewrite Hst; apply kept_type_stable).
  assert (Href : forall db' e, append_events db now t a evs v = (db', Err e) ->
    same_tables db db' -> healthy db' -> forall s', lock_poisoned s' = false ->
    (forall t' a', mem_stream s' t' a' = mem_stream mem t' a') -> mirrors s' db').
  { intros db' e _ (He & _) Hh' s' Hp' Hs'. constructor; rewrite ?He; try done.
    - intros t' a'. rewrite Hs'. apply Hm.
    - intros t' a'. by rewrite Hs'. }
  assert (Hsame : forall b t' a', mem_stream {| streams :=
      <[{| key_tenant_id := t; key_aggregate_id := a |} := mem_stream mem t a]> (streams mem);
      lock_poisoned := b |} t' a' = mem_stream mem t' a').
  { intros b t' a'. rewrite mem_stream_insert. by destruct (decide _) as [[= -> ->]|]. }
  destruct (mem_append_keeps mem evs v Hm) as [Hkeep _]. revert Hkeep.
  destruct Hcase as [st' Hmatch Hstab c ->|msg Hmatch|e1 rest Hmatch Hmem Hne]; intros Hkeep.
  - rewrite <- Hver in Hins. destruct (append_accepted db now t a ty evs v Hh Hok Hb Hv Hins)
      as (db' & -> & Hh' & He & Hok' & Hst' & Ho); [by rewrite Hver | by apply Hty |].
    assert (Hc : number_batch (current_version (pg_stream (events db) t a) + 1) evs = c).
    { unfold c. rewrite Hver. f_equal. symmetry. apply wrapU_id.
      pose proof (ins_room _ _ _ _ _ _ _ Hins). rewrite (pg_version _ _ _ Hok) in *. ilia. }
    rewrite Hc in *. split; [|done]. constructor; try done.
    + rewrite He. apply Forall_app. split; [done|]. apply batch_readable. apply Hins.
    + intros t' a'. rewrite mem_stream_insert. destruct (decide _) as [[= -> ->]|Hne].
      * by rewrite Hst', Hst, map_app.
      * by rewrite Ho.
  - destruct (append_refused db now t a ty evs v Hh Hok Hb Hv) as (db' & e & E & Hs & Hh' & _).
    { rewrite Hver, Hmatch. by intros []. }
    rewrite E. split; [by eapply Href | congruence].
  - destruct (append_refused db now t a ty evs v Hh Hok Hb Hv) as (db' & e & E & Hs & Hh' & He).
    { rewrite Hver, Hty, Hmem. by intros [_ ?]. }
    rewrite E. split; [by eapply Href|]. intros _.
    rewrite decide_False in He by (rewrite Hty, Hmem; done). by rewrite Hst, Hmem in He.
Qed.

(** C10: refinement of the in-memory store, where the store may block: over a pool
    without failures, an append of a batch that the columns and keys accept, called
    from a blocking thread of a runtime, returns what the in-memory store returns:
    the same events, or the same refusal (an append at a version the stream does not
    have may name it in other words); afterwards every stream loaded from there is
    the in-memory one, up to what a column keeps.  Called from a thread without a
    runtime, append and load report that they need one; called from a task that the
    runtime polls, which is where the API's handlers call them, both panic; and
    then nothing is stored. *)
Theorem postgres_append_refines thread mem db now t a ty evs v :
  mirrors mem db -> batch_for t a ty evs -> fits mem db now t a ty evs ->
  let '(mem', r) := append mem evs v in
  let '(db', r') := trait_append thread db now evs v in
  match thread with
  | BlockingThread =>
    mirrors mem' db'
    /\ match r, r' with
       | Ok c, Some (Ok c') => c' = c
       | Err e, Some (Err e') =>
         matches v (current_version (mem_stream mem t a)) = true -> e' = e
       | _, _ => False
       end
    /\ forall t' a', (trait_load_stream BlockingThread db' t' a').2
                     = Some (Ok (map kept_event (mem_stream mem' t' a')))
  | OutsideRuntime =>
    db' = db /\ r' = Some (Err requires_runtime)
    /\ forall t' a', trait_load_stream OutsideRuntime db t' a' = (db, Some (Err requires_runtime))
  | AsyncTask =>
    db' = db /\ r' = None
    /\ forall t' a', trait_load_stream AsyncTask db t' a' = (db, None)
  end.
Proof.
  intros Hmir Hb Hfit. pose proof (append_mirrors mem db now t a ty evs v Hmir Hb Hfit) as Hm.
  destruct Hb as [Hne Hb]. destruct evs as [|e evs]; [done|].
  apply Forall_cons_1 in Hb as [(Ht & Ha & _) _]. unfold trait_append. rewrite Ht, Ha.
  destruct (append mem _ v) as [mem' r]. destruct thread; [done| |done].
  destruct (append_events db now t a _ v) as [db' r'].
  destruct Hm as [Hm Hr]. split_and!; [done | destruct r, r'; done |].
  intros t' a'. pose proof (load_mirrors mem' db' t' a' Hm) as Hl. unfold trait_load_stream.
  destruct (load_stream db' t' a') as [db'' rl]. simpl in *. by rewrite Hl.
Qed.
End Mirror.

(** ** Commands on Postgres *)
Section Commands.
Context {A C E J B : Type} `{HA : Aggregate A C E} `{HE : Event E} `{HJ : Serde E J}.
Context `{HB : EventBus B (EventEnvelope J)} `{Texts} `{HD : Driver J} `{HL : !DriverLaws J}.
Implicit Types (mem : InMemoryEventStore J) (db : PgPool J) (st : list (StoredEvent J)).

(** The store as the dispatcher calls it, from a blocking thread, at the server's
    time [now]; a load moves no table. *)
Definition blocking_store (now : DateTime) : EventStore (PgPool J) J := {|
  es_append db evs v :=
    match evs with
    | [] => (db, Ok [])
    | e :: _ => append_events db now (ue_tenant_id e) (ue_aggregate_id e) evs v
    end;
  es_load db t a := (load_stream db t a).2
|}.

Lemma validate_kept t a st : forall idx last,
  validate_loaded_stream t a idx last (map kept_event st)
  = validate_loaded_stream t a idx last st.
Proof. induction st as [|e st IH]; intros idx last; simpl; [done|]. by rewrite IH. Qed.

Lemma apply_history_kept (g : A) st :
  apply_history g (map kept_event st) = apply_history g st.
Proof.
  unfold apply_history. rewrite <- (map_sort_by by_sequence) by done.
  revert g. induction (sort_by by_sequence st) as [|e l IH]; intros g; simpl; [done|].
  unfold apply_stored at 1 3. simpl. rewrite json_kept.
  destruct (from_value _); [apply IH | done].
Qed.

(** The decision is the one made in memory. *)
Lemma decide_mirrors mem db now t a ty (cmd : C) (make : TenantId -> AggregateId -> A) new_id :
  mirrors mem db ->
  decide_events (HS := blocking_store now) db t a ty cmd make new_id
  = decide_events mem t a ty cmd make new_id.
Proof.
  intros Hmir. unfold decide_events.
  cbn [es_load blocking_store InMemoryEventStore_store]. rewrite (load_mirrors mem db t a Hmir).
  unfold EventStore.load_stream. rewrite (mir_unlocked _ _ Hmir). fold (mem_stream mem t a).
  simpl. unfold mbind, Result_bind. rewrite validate_kept, kept_version.
  destruct (validate_loaded_stream _ _ _ _ _); [|done]. by rewrite apply_history_kept.
Qed.

(** A command dispatched on Postgres has exactly the result it has in memory,
    publishes the same envelopes, and leaves every stream as the in-memory one (up
    to what a column keeps of a time), as long as what it decides fits the
    columns and the keys. *)
Theorem dispatch_on_postgres mem db (bus : B) now t a ty (cmd : C)
    (make : TenantId -> AggregateId -> A) new_id :
  mirrors mem db ->
  (forall us v, decide_events mem t a ty cmd make new_id = Ok (Some (us, v)) ->
     fits mem db now t a ty us) ->
  let '(m', r) := dispatch (mkDispatcher mem bus) t a ty cmd make new_id in
  let '(p', r') :=
    dispatch (HS := blocking_store now) (mkDispatcher db bus) t a ty cmd make new_id in
  r' = r /\ d_bus p' = d_bus m' /\ mirrors (d_store m') (d_store p').
Proof.
  intros Hmir Hfit. unfold dispatch. simpl d_store. rewrite decide_mirrors with (mem := mem) by done.
  destruct (decide_events mem t a ty cmd make new_id) as [[[us v]|]|e] eqn:Ed; [|done..].
  pose proof (Hfit us v eq_refl) as Hf.
  apply (decide_Some (HSL := InMemoryEventStore_laws)) in Ed as (_ & Hv & Hb). simpl in Hv.
  pose proof (append_mirrors mem db now t a ty us v Hmir Hb Hf) as Hm.
  unfold commit_events. simpl.
  destruct Hb as [Hne Hb]. destruct us as [|u us]; [done|].
  apply Forall_cons_1 in Hb as [(Ht & Ha & _) _]. rewrite Ht, Ha.
  destruct (append mem _ v) as [mem' r]. destruct (append_events db now t a _ v) as [db' r'].
  destruct Hm as [Hm Hr]. destruct r as [c|e], r' as [c'|e']; try done.
  - subst c'. by destruct (publish_all bus c) as [b' [[]|err]].
  - rewrite Hr; [done|]. subst v. by apply bool_decide_eq_true.
Qed.
End Commands.

(** ** All or nothing, whatever fails *)
Section Atomic.
Context {J : Type} `{Texts} `{HD : Driver J}.
Implicit Types (db : PgPool J) (evs : list (UncommittedEvent J)).

Lemma insert_all_tables now t a ty evs : forall db n mine,
  same_tables db (insert_all db now t a ty n mine evs).1.
Proof.
  induction evs as [|e evs IH]; intros db n mine; cbn [insert_all]; [by split|].
  destruct (decide _); [exact (trip_tables db "rollback")|].
  pose proof (trip_tables db "insert_event") as Hs. revert Hs. generalize (trip db "insert_event").1.
  intros db1 Hs. destruct (outcome db (trips db)); [done|].
  destruct (insert_row _ _) as [row|err]; [|done].
  specialize (IH db1 (wrapU 64 (n + 1)) (mine ++ [row])).
  destruct (insert_all _ _ _ _ _ _ _ _) as [db2 r]. exact (same_tables_trans _ _ _ Hs IH).
Qed.

(** A batch that went in whole is the batch. *)
Lemma insert_all_Ok now t a ty evs : forall db n mine db' rows stored,
  insert_all db now t a ty n mine evs = (db', Ok (rows, stored)) ->
  rows = mine ++ batch_of t a ty n now evs /\ stored = number_batch n evs.
Proof.
  induction evs as [|e evs IH]; intros db n mine db' rows stored; cbn [insert_all].
  { intros [= _ <- <-]. by rewrite app_nil_r. }
  destruct (decide _); [by intros [=]|]. destruct (outcome db (trips db)); [done|].
  destruct (insert_row _ _) as [row|err] eqn:Ei; [|done].
  apply insert_row_Ok in Ei as (-> & _ & _).
  destruct (insert_all _ _ _ _ _ _ _ _) as [db2 [[rows' stored']|err]] eqn:Ea; [|done].
  intros [= <- <- <-]. apply IH in Ea as [-> ->]. by rewrite <- app_assoc.
Qed.

(** The commit took effect at the server and its round trip failed: the caller is
    told of an error. *)
Definition commit_reply_lost db (r : Result EventStoreError (list (StoredEvent J))) : Prop :=
  exists k err, outcome db k = Some err /\ applied db k = true
                /\ r = Err (map_sqlx_error "commit_transaction" err).

(** An append that changed the table passed its checks, inserted all its rows and
    committed. *)
Lemma append_outcomes db now t a evs v db' r :
  evs <> [] -> append_events db now t a evs v = (db', r) ->
  (events db' = events db /\ is_ok r = false)
  \/ exists e rest cur db1 db2 stored,
       let rows := batch_of t a (ue_aggregate_type e) (wrapU 64 (cur + 1)) now evs in
       evs = e :: rest /\ check_keys t a 0 evs = Ok tt
       /\ admission (events db) t a (ue_aggregate_type e) v = Ok cur
       /\ events db1 = events db
       /\ insert_all db1 now t a (ue_aggregate_type e) (wrapU 64 (cur + 1)) [] evs
          = (db2, Ok (rows, stored))
       /\ events db' = events db ++ rows
       /\ (r = Ok (number_batch (wrapU 64 (cur + 1)) evs)
           \/ commit_reply_lost db r).
Proof.
  intros Hne. destruct evs as [|e0 evs0]; [done|]. unfold append_events.
  destruct (decide (ue_tenant_id e0 <> t)); [intros [= <- <-]; auto|].
  destruct (decide (ue_aggregate_id e0 <> a)); [intros [= <- <-]; auto|].
  destruct (check_keys _ _ _ _) as [[]|] eqn:Ek; [|intros [= <- <-]; auto].
  pose proof (trip_tables db "begin_transaction") as H1.
  destruct (trip db "begin_transaction") as [db1 [[]|]]; [|intros [= <- <-]; left; split; [apply H1 | done]].
  pose proof (same_tables_trans _ _ _ H1 (trip_tables db1 "check_stream_version")) as H2. clear H1.
  destruct (trip db1 "check_stream_version") as [db2 [[]|]];
    [|intros [= <- <-]; left; split; [apply H2 | done]]. simpl in H2.
  destruct (admission (events db2) t a (ue_aggregate_type e0) v) as [cur|err] eqn:Ead.
  2: { pose proof (same_tables_trans _ _ _ H2 (trip_tables db2 "rollback")) as H3.
       destruct (trip db2 "rollback") as [db3 r3]. intros [= <- <-]. left. split; [apply H3 | done]. }
  pose proof (insert_all_tables now t a (ue_aggregate_type e0) (e0 :: evs0) db2 (wrapU 64 (cur + 1)) []) as H3.
  destruct (insert_all db2 _ _ _ _ _ _ _) as [db3 [[mine stored]|err]] eqn:Ei;
    [|intros [= <- <-]; left; split; [apply (same_tables_trans _ _ _ H2 H3) | done]].
  pose proof Ei as [Hm Hst]%insert_all_Ok. cbn [fst app] in *.
  pose proof (same_tables_trans _ _ _ H2 H3) as (He & _ & Ho & Ha).
  rewrite (proj1 H2) in Ead. unfold commit.
  destruct (trip db3 "commit_transaction") as [db4 r4] eqn:Et. unfold trip in Et.
  injection Et as <- <-. rewrite Ho, Ha. cbn -[batch_of number_batch].
  destruct (outcome db (trips db3)) as [err|] eqn:Eo;
    [destruct (applied db (trips db3)) eqn:Eap|]; intros [= <- <-]; [|by left; rewrite <- He|];
    right; exists e0, evs0, cur, db2, db3, stored; cbv zeta; rewrite <- Hm;
    (split_and!; [done | done | done | apply H2 | exact Ei | by rewrite <- He |]);
    [right; unfold commit_reply_lost; eauto | left; by rewrite Hst].
Qed.

(** C11: atomicity: an append of any batch, with any round trip failing, leaves the
    table as it was and reports an error, or adds the whole batch, numbered on from
    a version that met the expectation.  It reports an error after adding the
    batch only when the commit took effect and its reply was lost. *)
Theorem postgres_append_atomic db now t a evs v db' r :
  evs <> [] -> append_events db now t a evs v = (db', r) ->
  (events db' = events db /\ is_ok r = false)
  \/ exists cur ty, admission (events db) t a ty v = Ok cur
     /\ events db' = events db ++ batch_of t a ty (wrapU 64 (cur + 1)) now evs
     /\ (r = Ok (number_batch (wrapU 64 (cur + 1)) evs) \/ commit_reply_lost db r).
Proof.
  intros Hne Happ. destruct (append_outcomes db now t a evs v db' r Hne Happ)
    as [?|(e & rest & cur & _ & _ & _ & _ & _ & Had & _ & _ & He & Hr)]; [by left|].
  right. by exists cur, (ue_aggregate_type e).
Qed.
End Atomic.

(** ** Queries *)
Section Queries.
Context {J : Type} `{Texts} `{HD : Driver J} `{HL : !DriverLaws J}.
Implicit Types (mem : InMemoryEventStore J) (db : PgPool J) (row : StoredEventRow J)
  (rows : list (StoredEventRow J)).

(** A filter, its times as they are bound. *)
Definition bound_filter (f : EventFilter) : EventFilter :=
  {| flt_aggregate_id := flt_aggregate_id f; flt_aggregate_type := flt_aggregate_type f;
     flt_event_type := flt_event_type f;
     flt_occurred_after := option_map column_time (flt_occurred_after f);
     flt_occurred_before := option_map column_time (flt_occurred_before f) |}.

Lemma id_uuid_eq (a b : AggregateId) :
  bool_decide (aggregate_uuid a = aggregate_uuid b) = bool_decide (a = b).
Proof. destruct a, b. apply bool_decide_ext. naive_solver. Qed.

(** The [WHERE] clause is the in-memory filter on the events the rows hold. *)
Lemma row_matches_event t f (row : StoredEventRow J) :
  row_matches t f row = true
  <-> row_tenant_id row = tenant_uuid t
      /\ event_matches (bound_filter f) (from_event_row row) = true.
Proof.
  unfold row_matches, event_matches. rewrite !andb_true_iff, bool_decide_eq_true. simpl.
  destruct f as [fa fty fev faft fbef]; simpl.
  assert (Ha : match fa with
    | Some a => bool_decide (row_aggregate_id row = aggregate_uuid a) | None => true end
    = match fa with
      | Some a => bool_decide (mkAggregateId (row_aggregate_id row) = a) | None => true end).
  { destruct fa as [a|]; [|done]. by rewrite <- id_uuid_eq. }
  assert (Haf : match faft with
    | Some x => (column_time x <=? row_occurred_at row)%Z | None => true end
    = match option_map column_time faft with
      | Some x => negb (bool_decide (row_occurred_at row < x)%Z) | None => true end).
  { destruct faft as [x|]; [simpl|done].
    case_bool_decide; destruct (Z.leb_spec x (row_occurred_at row)); done || lia. }
  assert (Hbf : match fbef with
    | Some x => (row_occurred_at row <=? column_time x)%Z | None => true end
    = match option_map column_time fbef with
      | Some x => negb (bool_decide (row_occurred_at row > x)%Z) | None => true end).
  { destruct fbef as [x|]; [simpl|done].
    case_bool_decide; destruct (Z.leb_spec (row_occurred_at row) x); done || lia. }
  rewrite Ha, Haf, Hbf. tauto.
Qed.

Lemma counted_page_exact db op1 op2 rows p :
  healthy db -> Forall (fun row => undecodable row = None) rows ->
  (counted_page db op1 op2 rows p).2 = Ok (page_of (map from_event_row rows) p).
Proof.
  intros Hh Hr. unfold counted_page.
  destruct (trip_healthy db op1 Hh) as (db1 & -> & _ & Hh1).
  destruct (trip_healthy db1 op2 Hh1) as (db2 & -> & _ & _). simpl.
  rewrite decode_readable by (by apply Forall_take, Forall_drop).
  unfold limit_offset, page_of. by rewrite length_map, skipn_map, firstn_map.
Qed.

Lemma matching_rows t f rows :
  map from_event_row (List.filter (row_matches t f) rows)
  = List.filter (event_matches (bound_filter f))
      (map from_event_row
         (List.filter (fun row => bool_decide (row_tenant_id row = tenant_uuid t)) rows)).
Proof.
  induction rows as [|row rows IH]; simpl; [done|].
  pose proof (row_matches_event t f row) as Hm.
  destruct (row_matches t f row) eqn:Er.
  - destruct Hm as [[Ht Hf] _]; [done|]. rewrite bool_decide_true by done.
    simpl. by rewrite Hf, IH.
  - case_bool_decide as Ht; [|done]. simpl.
    destruct (event_matches _ _) eqn:Ef; [|done]. by destruct Hm as [_ Hm]; discriminate Hm.
Qed.

Lemma table_numbers rows row :
  table_ok rows -> row ∈ rows -> (0 < row_sequence_number row < 2 ^ 63)%Z.
Proof.
  intros Hok Hrow.
  destruct (Hok (mkTenantId (row_tenant_id row)) (mkAggregateId (row_aggregate_id row)))
    as (_ & Hseq & Hlt).
  assert (Hin : row ∈ List.filter (in_stream (mkTenantId (row_tenant_id row))
                                     (mkAggregateId (row_aggregate_id row))) rows).
  { apply list_elem_of_In, filter_In. split; [by apply list_elem_of_In | by apply in_stream_true]. }
  apply list_elem_of_lookup in Hin as [i Hi]. pose proof (lookup_lt_Some _ _ _ Hi).
  rewrite (Hseq i row Hi). lia.
Qed.

Lemma newest_rows rows :
  Forall (fun row => 0 < row_sequence_number row < 2 ^ 63)%Z rows ->
  StronglySorted (fun r r' => row_newest_first r r' = true) rows ->
  StronglySorted (fun e e' => newest_first e e' = true) (map from_event_row rows).
Proof.
  intros Hn Hs. induction Hs as [|row rows _ IH Hrow]; [constructor|].
  apply Forall_cons_1 in Hn as [Hr Hn]. constructor; [by apply IH|].
  apply Forall_map. rewrite Forall_forall in *. intros row' Hin. specialize (Hrow _ Hin).
  specialize (Hn _ Hin). unfold newest_first, row_newest_first, by_number in *. simpl.
  rewrite !wrapU_id by ilia. done.
Qed.

(** The rows of a stream are read in order; those of a tenant that match a filter,
    from the newest to the oldest, page by page. *)
Theorem postgres_queries_exact mem db t f :
  mirrors mem db ->
  (forall a p, (get_aggregate_events db t a p).2
     = Ok (page_of (map kept_event (mem_stream mem t a)) (unwrap_or p pagination_default)))
  /\ exists all,
       StronglySorted (fun e e' => newest_first e e' = true) all
       /\ all ≡ₚ List.filter (event_matches (bound_filter f))
                  (map from_event_row
                     (List.filter (fun row => bool_decide (row_tenant_id row = tenant_uuid t))
                        (events db)))
       /\ forall p, (query_events db t f p).2 = Ok (page_of all p).
Proof.
  intros [_ _ Hh Hok Hr Hst].
  assert (Hsub : forall g, Forall (fun row => undecodable row = None) (List.filter g (events db))).
  { intros g. rewrite Forall_forall in *. intros row Hrow. apply Hr.
    by apply list_elem_of_In, filter_In in Hrow as [?%list_elem_of_In _]. }
  split.
  - intros a p. unfold get_aggregate_events. rewrite counted_page_exact; [|done|].
    + by rewrite <- Hst.
    + unfold select_stream. rewrite sort_by_perm. apply Hsub.
  - exists (map from_event_row (order_rows (List.filter (row_matches t f) (events db)))).
    assert (Hord : Forall (fun row => undecodable row = None)
                     (order_rows (List.filter (row_matches t f) (events db)))).
    { rewrite order_rows_perm. apply Hsub. }
    split_and!.
    + apply newest_rows; [|apply order_rows_sorted]. rewrite order_rows_perm.
      apply Forall_forall. intros row [Hrow%list_elem_of_In _]%list_elem_of_In%filter_In.
      by apply (table_numbers (events db)).
    + by rewrite order_rows_perm, matching_rows.
    + intros p. by apply counted_page_exact.
Qed.
End Queries.

(** ** Snapshots *)
Section SnapshotTheory.
Context {J : Type} `{Texts} `{HD : Driver J} `{HL : !DriverLaws J}.
Implicit Types (db : PgPool J).

Lemma newest_version_total (r r' : SnapshotRow J) :
  newest_version r r' = true \/ newest_version r' r = true.
Proof. unfold newest_version. rewrite !Z.leb_le. lia. Qed.
Lemma newest_version_trans (r1 r2 r3 : SnapshotRow J) :
  newest_version r1 r2 = true -> newest_version r2 r3 = true -> newest_version r1 r3 = true.
Proof. unfold newest_version. rewrite !Z.leb_le. lia. Qed.

(** A row above all others of its aggregate is the one that is selected. *)
Lemma select_newest (rows : list (SnapshotRow J)) t a row :
  snapshot_of t a row = true ->
  Forall (fun r => snapshot_of t a r = true -> srow_version r < srow_version row)%Z rows ->
  select_snapshot (rows ++ [row]) t a = Some row.
Proof.
  intros Hrow Hmax. unfold select_snapshot. rewrite List.filter_app. simpl. rewrite Hrow.
  set (l := List.filter _ rows).
  pose proof (sort_by_sorted _ newest_version_total newest_version_trans (l ++ [row])) as Hs.
  pose proof (sort_by_perm newest_version (l ++ [row])) as Hp.
  destruct (sort_by newest_version (l ++ [row])) as [|r rest].
  { apply Permutation_nil_l in Hp. by destruct l. }
  simpl. apply StronglySorted_inv in Hs as [_ Hs]. f_equal.
  assert (Hr : r ∈ l ++ [row]) by (rewrite <- Hp; left).
  apply elem_of_app in Hr as [Hr|Hr%list_elem_of_singleton]; [|done]. exfalso.
  assert (Hin : row ∈ r :: rest) by (rewrite Hp; apply elem_of_app; right; by left).
  apply list_elem_of_In, filter_In in Hr as [Hr%list_elem_of_In Hof].
  rewrite Forall_forall in Hmax, Hs. specialize (Hmax r Hr Hof).
  apply elem_of_cons in Hin as [->|Hin]; [lia|]. specialize (Hs row Hin).
  unfold newest_version in Hs. apply Z.leb_le in Hs. lia.
Qed.

(** A snapshot of a version above the stored ones is what the next load returns,
    its state as it was, its time the server's. *)
Theorem snapshot_roundtrip db now t a (s : Snapshot J) :
  healthy db ->
  snap_tenant_id s = t -> snap_aggregate_id s = a -> snap_aggregate_type s <> ""%string ->
  (0 < snap_version s < 2 ^ 63)%Z ->
  Forall (fun r => snapshot_of t a r = true -> srow_version r < snap_version s)%Z (snapshots db) ->
  (forall row, refused_snapshot row = None /\ undecodable_snapshot row = None) ->
  let '(db', r) := store_snapshot db now t a s in
  r = Ok tt /\ events db' = events db
  /\ (load_snapshot db' t a).2
     = Ok (Some (mkSnapshot t a (snap_aggregate_type s) (snap_version s) (snap_state s)
                   (column_time now))).
Proof.
  intros Hh Ht Ha Hty Hv Hmax Hok. unfold store_snapshot.
  rewrite !decide_False by auto.
  destruct (trip_healthy db "store_snapshot" Hh) as (db1 & -> & (He & Hsn & _) & Hh1).
  unfold upsert_snapshot. rewrite (proj1 (Hok _)). cbn [srow_aggregate_type srow_version].
  rewrite (proj2 (String.eqb_neq (snap_aggregate_type s) _)) by done.
  rewrite wrapS_id by ilia. destruct (Z.leb_spec (snap_version s) 0); [lia|].
  rewrite Hsn, existsb_false; cbn [with_snapshots].
  - split_and!; [done | exact He |]. unfold load_snapshot, trip.
    cbn [with_snapshots outcome trips snapshots]. rewrite Hh1. cbn [snd].
    rewrite select_newest; [|unfold snapshot_of; simpl; by rewrite !bool_decide_true|done].
    rewrite (proj2 (Hok _)). unfold from_snapshot_row. simpl.
    rewrite json_kept, wrapU_id by ilia. by destruct t, a.
  - intros i r Hi. rewrite Forall_lookup in Hmax. specialize (Hmax i r Hi).
    unfold same_snapshot, snapshot_of in *. simpl.
    destruct (bool_decide (tenant_uuid t = srow_tenant_id r)) eqn:E1; [|done].
    destruct (bool_decide (aggregate_uuid a = srow_aggregate_id r)) eqn:E2; [|done].
    apply bool_decide_eq_true in E1, E2. simpl. apply bool_decide_eq_false.
    rewrite !bool_decide_true in Hmax by done. specialize (Hmax eq_refl). lia.
Qed.
End SnapshotTheory.

(** ** A sample database *)
Module Sample.
Import Inventory Dispatcher.Sample.

#[local] Existing Instances inventory_serde.

(** The documented precision of a [TIMESTAMPTZ]; rows tied by [ORDER BY] in table
    order. *)
#[local] Instance driver : Driver InventoryEvent := {|
  column_time n := (n / 1000 * 1000)%Z;
  column_json j := j;
  refused _ := None;
  refused_snapshot _ := None;
  undecodable _ := None;
  undecodable_snapshot _ := None;
  violated name := "violates constraint " +:+ name;
  text_le := String.leb;
  order_rows := sort_by row_newest_first
|}.

#[local] Instance driver_laws : DriverLaws InventoryEvent.
Proof.
  constructor; try done.
  - intros rows. apply sort_by_perm.
  - intros rows. apply sort_by_sorted; unfold row_newest_first, by_number.
    + intros x y. destruct (Z.compare_spec (row_occurred_at y) (row_occurred_at x)),
        (Z.compare_spec (row_occurred_at x) (row_occurred_at y)); rewrite ?Z.leb_le; lia || auto.
    + intros x y z. destruct (Z.compare_spec (row_occurred_at y) (row_occurred_at x)),
        (Z.compare_spec (row_occurred_at z) (row_occurred_at y)),
        (Z.compare_spec (row_occurred_at z) (row_occurred_at x)); rewrite ?Z.leb_le; done || lia.
Qed.

Import SampleTexts.

Definition empty_pool (outcome : nat -> option SqlxError) (applied : nat -> bool)
  : PgPool InventoryEvent :=
  {| events := []; snapshots := []; outcome := outcome; applied := applied; trips := 0 |}.
Definition pool : PgPool InventoryEvent := empty_pool (fun _ => None) (fun _ => false).

Lemma start_mirrors : mirrors store_new pool.
Proof.
  constructor; [done | apply store_new_ok | done | | constructor | done].
  intros t a. split_and!; [by exists ""%string | done | done].
Qed.

Definition created : UncommittedEvent InventoryEvent :=
  {| ue_event_id := 7%N; ue_tenant_id := mkTenantId 1; ue_aggregate_id := mkAggregateId 2;
     ue_aggregate_type := "inventory.item"; ue_event_type := "inventory.item.created";
     ue_event_version := 1; ue_occurred_at := 1234567;
     ue_payload := EvItemCreated {| ic_tenant_id := mkTenantId 1; ic_item_id := the_item;
                                    ic_name := "bolt"; ic_occurred_at := 1234567 |} |}.

Lemma single_fits u :
  ue_aggregate_type u <> ""%string -> ue_event_type u <> ""%string ->
  is_u32 (ue_event_version u) ->
  fits store_new pool 99 (ue_tenant_id u) (ue_aggregate_id u) (ue_aggregate_type u) [u].
Proof.
  intros Hty Hev Hv. unfold fits, versions_fit. rewrite Forall_singleton. split; [done|].
  constructor; rewrite ?Forall_singleton; try done. apply NoDup_singleton.
Qed.

Lemma postgres_append_refines_witness :
  exists db', trait_append BlockingThread pool 99 [created] (Exact 0)
    = (db', Some (Ok [store_event 1 created]))
  /\ (trait_load_stream BlockingThread db' (mkTenantId 1) (mkAggregateId 2)).2
     = Some (Ok [kept_event (store_event 1 created)])
  /\ se_occurred_at (kept_event (store_event 1 created)) = 1234000%Z.
Proof.
  pose proof (postgres_append_refines BlockingThread store_new pool 99 (mkTenantId 1) (mkAggregateId 2)
    "inventory.item" [created] (Exact 0) start_mirrors
    ltac:(split; [done | by repeat constructor]) (single_fits created ltac:(done) ltac:(done) ltac:(done))) as H.
  eexists. split; [reflexivity|]. split; [|reflexivity].
  destruct H as (_ & _ & H). exact (H (mkTenantId 1) (mkAggregateId 2)).
Defined.

(** A batch of two types: stored with the first's, reported with their own. *)
Example mixed_types_accepted :
  let other := retyped "products.product" created in
  let other := {| ue_event_id := 8%N; ue_tenant_id := ue_tenant_id other;
                  ue_aggregate_id := ue_aggregate_id other;
                  ue_aggregate_type := ue_aggregate_type other;
                  ue_event_type := ue_event_type other; ue_event_version := 1;
                  ue_occurred_at := 0; ue_payload := ue_payload other |} in
  let '(db', r) := append_events pool 99 (mkTenantId 1) (mkAggregateId 2) [created; other] (Exact 0) in
  map row_aggregate_type (events db') = ["inventory.item"; "inventory.item"]%string
  /\ match r with
     | Ok c => map se_aggregate_type c = ["inventory.item"; "products.product"]%string
     | Err _ => False
     end
  /\ is_ok (append store_new [created; other] (Exact 0)).2 = false.
Proof. vm_compute. auto. Qed.

Lemma dispatch_on_postgres_witness :
  let '(p', r) := dispatch (HS := blocking_store 99) (mkDispatcher pool bus_new) (mkTenantId 1)
                    (mkAggregateId 2) "inventory.item" create_cmd make N.of_nat in
  r = (dispatch start (mkTenantId 1) (mkAggregateId 2) "inventory.item" create_cmd make
         N.of_nat).2
  /\ is_ok r = true /\ length (events (d_store p')) = 1.
Proof.
  pose proof (dispatch_on_postgres store_new pool (bus_new (M := EventEnvelope InventoryEvent)) 99
    (mkTenantId 1) (mkAggregateId 2) "inventory.item" create_cmd make N.of_nat start_mirrors) as H.
  split; [|split; reflexivity].
  apply H. intros us v Hd. vm_compute in Hd. injection Hd as <- <-.
  match goal with |- fits _ _ _ _ _ _ [?u] => apply (single_fits u); done end.
Defined.

(** The reply to the commit is lost: the batch is there, the caller sees an error. *)
Definition lossy : PgPool InventoryEvent :=
  empty_pool (fun k => if Nat.eqb k 3 then Some (OtherSqlx "connection reset") else None)
    (fun _ => true).

Lemma postgres_append_atomic_witness :
  let '(db', r) := append_events lossy 99 (mkTenantId 1) (mkAggregateId 2) [created] (Exact 0) in
  length (events db') = 1 /\ is_ok r = false.
Proof.
  destruct (append_events lossy 99 (mkTenantId 1) (mkAggregateId 2) [created] (Exact 0))
    as [db' r] eqn:E.
  destruct (postgres_append_atomic lossy 99 (mkTenantId 1) (mkAggregateId 2) [created] (Exact 0)
              db' r ltac:(done) E) as [[He _]|(cur & ty & _ & He & _)].
  - exfalso. vm_compute in E. injection E as <- <-. discriminate He.
  - split; [by rewrite He|]. vm_compute in E. by injection E as _ <-.
Defined.

(** From a task of the runtime, where the API's handlers call it, the store
    panics. *)
Example task_panics v :
  (trait_append AsyncTask pool 99 [created] v).2 = None
  /\ (trait_load_stream AsyncTask pool (mkTenantId 1) (mkAggregateId 2)).2 = None.
Proof. done. Qed.
End Sample.
