(* ===== verification/PgTransactions.v ===== *)
(** * Overlapping appends on Postgres

    [append_events] of [PgStore] opens a transaction, reads the version of the
    stream, inserts its batch row by row and commits.  Here transactions of any
    number of callers interleave at those statements, under the documented rules
    of [READ COMMITTED]: a [SELECT] reads what is committed, an [INSERT] is checked
    against the committed rows and the transaction's own, and waits while another
    open transaction holds one of its keys.  Nothing else orders them.

    The theorem: the key on [(tenant_id, aggregate_id, sequence_number)] makes
    every commit the append of the contract at the moment of the commit, although
    the version was checked earlier and on an older table. *)

From S2P Require Import Prelude Core Events Bus EventStore EventQuery PgStore PgRefinement.
From stdpp Require Import relations.

Section Transactions.
Context {J : Type} `{HD : Driver J}.
Implicit Types (rows : list (StoredEventRow J)) (evs : list (UncommittedEvent J)).

(** A call of [append_events] between its version check and its commit: what it
    was called with, the version it read, what it has inserted and what is left.
    [NOW()] is one instant per transaction.

    @src crates/infra/src/event_store/postgres.rs 197-249 [PostgresEventStore::append_events] *)
Record Tx := mkTx {
  tx_tenant : TenantId;
  tx_aggregate : AggregateId;
  tx_type : string;
  tx_expected : ExpectedVersion;
  tx_current : Z;
  tx_now : DateTime;
  tx_before : list (UncommittedEvent J);
  tx_after : list (UncommittedEvent J)
}.

(** The rows only the transaction sees. *)
Definition tx_rows (tx : Tx) : list (StoredEventRow J) :=
  batch_of (tx_tenant tx) (tx_aggregate tx) (tx_type tx) (wrapU 64 (tx_current tx + 1))
    (tx_now tx) (tx_before tx).

(** The sequence number of the next row. *)
Definition tx_next (tx : Tx) : Z :=
  wrapU 64 (tx_current tx + 1 + Z.of_nat (length (tx_before tx))).

Definition inserted (tx : Tx) (e : UncommittedEvent J) rest : Tx :=
  {| tx_tenant := tx_tenant tx; tx_aggregate := tx_aggregate tx; tx_type := tx_type tx;
     tx_expected := tx_expected tx; tx_current := tx_current tx; tx_now := tx_now tx;
     tx_before := tx_before tx ++ [e]; tx_after := rest |}.

Record Db := mkDb {
  committed : list (StoredEventRow J);
  opened : gmap nat Tx
}.
Implicit Types (db : Db) (tx : Tx).

(** The statements of the transactions. *)
Inductive step : Db -> Db -> Prop :=
| Step_check db i t a e rest v cur now :
    opened db !! i = None -> addressed t a (e :: rest) ->
    admission (committed db) t a (ue_aggregate_type e) v = Ok cur ->
    step db (mkDb (committed db)
               (<[i := mkTx t a (ue_aggregate_type e) v cur now [] (e :: rest)]> (opened db)))
| Step_insert db i tx e rest row :
    opened db !! i = Some tx -> tx_after tx = e :: rest ->
    insert_row (committed db ++ tx_rows tx)
      (event_row (tx_tenant tx) (tx_aggregate tx) (tx_type tx) (tx_next tx) (tx_now tx) e)
    = Ok row ->
    (forall j tx', j <> i -> opened db !! j = Some tx' -> collides (tx_rows tx') row = false) ->
    step db (mkDb (committed db) (<[i := inserted tx e rest]> (opened db)))
| Step_commit db i tx :
    opened db !! i = Some tx -> tx_after tx = [] ->
    step db (mkDb (committed db ++ tx_rows tx) (delete i (opened db)))
| Step_abort db i :
    step db (mkDb (committed db) (delete i (opened db))).

(** ** The invariant *)

(** What an open transaction may rely on: until its first row is in, only that the
    stream has at least the version it read; from then on, that the stream is as it
    read it. *)
Record tx_ok rows tx : Prop := {
  tok_addressed : addressed (tx_tenant tx) (tx_aggregate tx) (tx_before tx ++ tx_after tx);
  tok_events : tx_before tx ++ tx_after tx <> [];
  tok_expected : matches (tx_expected tx) (tx_current tx) = true;
  tok_behind : (0 <= tx_current tx
                <= current_version (pg_stream rows (tx_tenant tx) (tx_aggregate tx)))%Z;
  tok_type : (0 < tx_current tx)%Z ->
             type_stable (pg_stream rows (tx_tenant tx) (tx_aggregate tx)) (tx_type tx);
  tok_holds : tx_before tx <> [] ->
              tx_current tx = current_version (pg_stream rows (tx_tenant tx) (tx_aggregate tx))
              /\ type_stable (pg_stream rows (tx_tenant tx) (tx_aggregate tx)) (tx_type tx);
  tok_room : (tx_current tx + Z.of_nat (length (tx_before tx)) < 2 ^ 63)%Z
}.

Definition same_stream tx tx' : Prop :=
  tx_tenant tx = tx_tenant tx' /\ tx_aggregate tx = tx_aggregate tx'.

(** At most one transaction has rows of a stream. *)
Record db_ok db : Prop := {
  dok_table : table_ok (committed db);
  dok_open i tx : opened db !! i = Some tx -> tx_ok (committed db) tx;
  dok_alone i j tx tx' :
    opened db !! i = Some tx -> opened db !! j = Some tx' -> i <> j ->
    tx_before tx <> [] -> tx_before tx' <> [] -> ~ same_stream tx tx'
}.

Lemma tx_next_eq rows tx : tx_ok rows tx -> tx_next tx = (tx_current tx + 1 + Z.of_nat (length (tx_before tx)))%Z.
Proof. intros Hok. destruct (tok_behind _ _ Hok), Hok. apply wrapU_id. ilia. Qed.

Lemma tx_rows_eq rows tx : tx_ok rows tx ->
  tx_rows tx = batch_of (tx_tenant tx) (tx_aggregate tx) (tx_type tx) (tx_current tx + 1)
                 (tx_now tx) (tx_before tx).
Proof. intros Hok. unfold tx_rows. rewrite wrapU_id; [done|]. destruct (tok_behind _ _ Hok), Hok. ilia. Qed.

(** A committed row at each number up to the version. *)
Lemma committed_row rows t a n :
  table_ok rows -> (0 < n <= current_version (pg_stream rows t a))%Z ->
  exists r, r ∈ rows /\ row_tenant_id r = tenant_uuid t
            /\ row_aggregate_id r = aggregate_uuid a /\ row_sequence_number r = n.
Proof.
  intros Hok Hn. rewrite (pg_version rows t a Hok) in Hn. unfold pg_stream in Hn.
  rewrite length_map, (select_stream_filter rows t a Hok) in Hn.
  destruct (Hok t a) as (_ & Hseq & _).
  destruct (lookup_lt_is_Some_2 (List.filter (in_stream t a) rows) (Z.to_nat (n - 1)))
    as [r Hr]; [lia|].
  exists r. rewrite (Hseq _ _ Hr). apply list_elem_of_lookup_2, list_elem_of_In, filter_In in Hr.
  destruct Hr as [Hr%list_elem_of_In [Ht Ha]%in_stream_true]. split_and!; [done..|lia].
Qed.

Lemma no_collision rows row r :
  collides rows row = false -> r ∈ rows ->
  ~ (row_tenant_id r = row_tenant_id row /\ row_aggregate_id r = row_aggregate_id row
     /\ row_sequence_number r = row_sequence_number row).
Proof.
  unfold collides. intros [_ Hc]%orb_false_iff Hr (Ht & Ha & Hs).
  assert (Hex : existsb (fun r => same_position r row) rows = true).
  { apply existsb_exists. exists r. split; [by apply list_elem_of_In|].
    unfold same_position. by rewrite Ht, Ha, Hs, !bool_decide_true. }
  congruence.
Qed.
Lemma check_keys_addressed t a evs : forall idx,
  check_keys t a idx evs = Ok tt -> versions_fit evs -> addressed t a evs.
Proof.
  induction evs as [|e evs IH]; intros idx Hk Hv; [constructor|]. simpl in Hk.
  destruct (decide _) as [|Ht%dec_stable]; [done|].
  destruct (decide _) as [|Ha%dec_stable]; [done|].
  apply Forall_cons_1 in Hv as [He Hv]. constructor; [done | by eapply IH].
Qed.

Lemma admission_version rows t a ty v cur :
  table_ok rows -> admission rows t a ty v = Ok cur ->
  cur = current_version (pg_stream rows t a) /\ matches v cur = true
  /\ type_stable (pg_stream rows t a) ty.
Proof.
  intros Htab Hadm. pose proof (admission_exact rows t a ty v Htab) as Hx. cbv zeta in Hx.
  destruct (decide (type_stable _ _)) as [Hty|Hty].
  - destruct (matches v _) eqn:Em; [|destruct Hx; congruence].
    rewrite Hadm in Hx. injection Hx as ->. done.
  - destruct (pg_stream rows t a); [done | congruence].
Qed.

(** An insertion that goes through finds the stream as the check read it. *)
Lemma insert_finds_version db tx e rest row :
  table_ok (committed db) -> tx_ok (committed db) tx -> tx_after tx = e :: rest ->
  insert_row (committed db ++ tx_rows tx)
    (event_row (tx_tenant tx) (tx_aggregate tx) (tx_type tx) (tx_next tx) (tx_now tx) e) = Ok row ->
  let st := pg_stream (committed db) (tx_tenant tx) (tx_aggregate tx) in
  tx_current tx = current_version st /\ type_stable st (tx_type tx)
  /\ (tx_current tx + Z.of_nat (length (tx_before tx)) + 1 < 2 ^ 63)%Z
  /\ row_tenant_id row = tenant_uuid (tx_tenant tx)
  /\ row_aggregate_id row = aggregate_uuid (tx_aggregate tx)
  /\ row_sequence_number row = (tx_current tx + 1 + Z.of_nat (length (tx_before tx)))%Z.
Proof.
  intros Htab Hok Hafter Hins st. pose proof (tx_next_eq _ _ Hok) as Hn.
  apply insert_row_Ok in Hins as (-> & Hpos & Hfree).
  pose proof (tok_behind _ _ Hok) as Hb. pose proof (tok_room _ _ Hok) as Hr.
  simpl in Hpos. rewrite Hn in *.
  assert (Hlt : (tx_current tx + 1 + Z.of_nat (length (tx_before tx)) < 2 ^ 63)%Z).
  { apply Z.lt_nge. intros Hge.
    replace (tx_current tx + 1 + Z.of_nat (length (tx_before tx)))%Z with (2 ^ 63)%Z in Hpos by lia.
    vm_compute in Hpos. discriminate Hpos. }
  simpl. rewrite wrapS_id by ilia. 
  assert (Hst : tx_current tx = current_version st /\ type_stable st (tx_type tx)).
  { destruct (decide (tx_before tx = [])) as [Hnil|Hne]; [|by apply Hok].
    fold st in Hb. assert (Heq : tx_current tx = current_version st).
    { apply Z.le_antisymm; [lia|]. apply Z.nlt_ge. intros Hgt.
      destruct (committed_row (committed db) (tx_tenant tx) (tx_aggregate tx) (tx_current tx + 1))
        as (r & Hin & Ht & Ha & Hs); [done | fold st; lia |].
      eapply no_collision; [exact Hfree | apply elem_of_app; left; exact Hin |].
      simpl. rewrite wrapS_id by ilia. rewrite Hnil. simpl. split_and!; [done..|lia]. }
    split; [done|]. destruct (decide (0 < tx_current tx)%Z) as [Hpos'|Hz]; [by apply Hok|].
    pose proof (pg_version _ (tx_tenant tx) (tx_aggregate tx) Htab) as Hv. fold st in Hv.
    destruct st; [done|]. simpl in Hv. lia. }
  destruct Hst. split_and!; [done..|lia|done|done|done].
Qed.

(** The first row of a transaction holds the position after the version it read. *)
Lemma first_row rows tx : tx_ok rows tx -> tx_before tx <> [] ->
  exists r, r ∈ tx_rows tx /\ row_tenant_id r = tenant_uuid (tx_tenant tx)
    /\ row_aggregate_id r = aggregate_uuid (tx_aggregate tx)
    /\ row_sequence_number r = (tx_current tx + 1)%Z.
Proof.
  intros Hok Hne. rewrite (tx_rows_eq _ _ Hok).
  pose proof (tok_behind _ _ Hok). pose proof (tok_room _ _ Hok) as Hr.
  destruct (tx_before tx) as [|e l]; [done|]. simpl in *. eexists. split; [by left|].
  simpl. split_and!; [done..|]. apply wrapS_id; [lia|ilia].
Qed.

Lemma step_insert_ok db i tx e rest row :
  db_ok db -> opened db !! i = Some tx -> tx_after tx = e :: rest ->
  insert_row (committed db ++ tx_rows tx)
    (event_row (tx_tenant tx) (tx_aggregate tx) (tx_type tx) (tx_next tx) (tx_now tx) e) = Ok row ->
  (forall j tx', j <> i -> opened db !! j = Some tx' -> collides (tx_rows tx') row = false) ->
  db_ok (mkDb (committed db) (<[i := inserted tx e rest]> (opened db))).
Proof.
  intros [Htab Hopen Halone] Hi Hafter Hins Hfree. pose proof (Hopen i tx Hi) as Hok.
  destruct (insert_finds_version db tx e rest row Htab Hok Hafter Hins)
    as (Hcur & Hty & Hroom & Ht & Ha & Hs).
  assert (Hother : forall j tx', j <> i -> opened db !! j = Some tx' -> tx_before tx' <> [] ->
            ~ same_stream tx tx').
  { intros j tx' Hj Htx' Hne' [Et Ea].
    destruct (decide (tx_before tx = [])) as [Hnil|Hne]; [|by eapply (Halone i j tx tx')].
    pose proof (Hopen j tx' Htx') as Hok'. destruct (first_row _ _ Hok' Hne') as (r & Hr & Hrt & Hra & Hrs).
    eapply no_collision; [exact (Hfree j tx' Hj Htx') | exact Hr |].
    destruct (tok_holds _ _ Hok' Hne') as [Hcur' _].
    rewrite Ht, Ha, Hs, Hrt, Hra, Hrs, Hcur', <- Et, <- Ea, Hnil, Hcur. simpl.
    split_and!; [done..|lia]. }
  constructor; simpl; [done| |].
  - intros j tx' [[<- <-]|[Hj Hj']]%lookup_insert_Some; [|by apply (Hopen j)].
    destruct Hok as [Had _ Hexp Hb Ht0 _ _]. constructor; simpl; try done.
    + rewrite <- app_assoc. simpl. by rewrite <- Hafter.
    + by destruct (tx_before tx).
    + rewrite length_app. simpl. lia.
  - intros j k tx1 tx2 [[<- <-]|[Hj Hj']]%lookup_insert_Some
      [[<- <-]|[Hk Hk']]%lookup_insert_Some Hne H1 H2; try done.
    + by apply (Hother k tx2).
    + intros [Et Ea]. by apply (Hother j tx1).
    + by apply (Halone j k).
Qed.

(** A commit extends its stream from the version read, and no other. *)
Lemma commit_exact db i tx :
  db_ok db -> opened db !! i = Some tx -> tx_after tx = [] ->
  let st := pg_stream (committed db) (tx_tenant tx) (tx_aggregate tx) in
  let rows := committed db ++ tx_rows tx in
  tx_current tx = current_version st /\ type_stable st (tx_type tx)
  /\ table_ok rows
  /\ pg_stream rows (tx_tenant tx) (tx_aggregate tx)
     = st ++ map kept_event (number_batch (current_version st + 1)
                               (map (retyped (tx_type tx)) (tx_before tx)))
  /\ forall t a, (t, a) <> (tx_tenant tx, tx_aggregate tx) ->
       pg_stream rows t a = pg_stream (committed db) t a.
Proof.
  intros [Htab Hopen _] Hi Hafter st rows. pose proof (Hopen i tx Hi) as Hok.
  pose proof (tok_events _ _ Hok) as Hne. pose proof (tok_addressed _ _ Hok) as Had.
  rewrite Hafter, app_nil_r in Hne, Had. destruct (tok_holds _ _ Hok Hne) as [Hcur Hty].
  destruct (table_ok_app (committed db) (tx_tenant tx) (tx_aggregate tx) (tx_type tx)
              (tx_current tx) (tx_now tx) (tx_before tx)) as (Htab' & Hst & Ho);
    [done | done | apply Hok | apply Hok | done |].
  unfold rows. rewrite (tx_rows_eq _ _ Hok). fold st in Hcur, Hst. by rewrite <- Hcur.
Qed.

Lemma step_commit_ok db i tx :
  db_ok db -> opened db !! i = Some tx -> tx_after tx = [] ->
  db_ok (mkDb (committed db ++ tx_rows tx) (delete i (opened db))).
Proof.
  intros Hdb Hi Hafter. destruct (commit_exact db i tx Hdb Hi Hafter) as (_ & _ & Htab' & Hst & Ho).
  destruct Hdb as [Htab Hopen Halone]. constructor; simpl; [done| |].
  - intros j tx' [Hne Hj]%lookup_delete_Some. pose proof (Hopen j tx' Hj) as Hok'.
    destruct (decide ((tx_tenant tx', tx_aggregate tx') = (tx_tenant tx, tx_aggregate tx)))
      as [[= Et Ea]|Hd]; [|destruct Hok'; constructor; by rewrite ?(Ho _ _ Hd)].
    assert (Hnil : tx_before tx' = []).
    { destruct (decide (tx_before tx' = [])) as [|Hne']; [done|]. exfalso.
      pose proof (tok_events _ _ (Hopen i tx Hi)) as Hne0. rewrite Hafter, app_nil_r in Hne0.
      by apply (Halone j i tx' tx). }
    rewrite <- Et, <- Ea in Hst.
    pose proof (pg_version _ (tx_tenant tx') (tx_aggregate tx') Htab) as Hv.
    pose proof (pg_version _ (tx_tenant tx') (tx_aggregate tx') Htab') as Hv'.
    rewrite Hst, length_app in Hv'. destruct Hok' as [Had Hev Hexp Hb Ht0 _ Hroom].
    constructor; try done; rewrite ?Hst.
    + rewrite <- Hst in Hv'. rewrite <- Hst at 1. lia.
    + intros Hpos. specialize (Ht0 Hpos). destruct (pg_stream (committed db) _ _); [|done].
      simpl in Hv. lia.
  - intros j k tx1 tx2 [_ Hj]%lookup_delete_Some [_ Hk]%lookup_delete_Some. by apply Halone.
Qed.

Lemma step_check_ok db i t a e rest v cur now :
  db_ok db -> opened db !! i = None -> addressed t a (e :: rest) ->
  admission (committed db) t a (ue_aggregate_type e) v = Ok cur ->
  db_ok (mkDb (committed db)
           (<[i := mkTx t a (ue_aggregate_type e) v cur now [] (e :: rest)]> (opened db))).
Proof.
  intros [Htab Hopen Halone] Hi Had Hadm.
  pose proof (pg_version _ t a Htab) as Hv. pose proof (pg_stream_length _ t a Htab) as Hlt.
  destruct (admission_version _ _ _ _ _ _ Htab Hadm) as (-> & Hm & Hty). constructor; simpl; [done| |].
  - intros j tx' [[<- <-]|[_ Hj]]%lookup_insert_Some; [|by apply (Hopen j)].
    constructor; simpl; try done; lia.
  - intros j k tx1 tx2 [[<- <-]|[_ Hj]]%lookup_insert_Some
      [[<- <-]|[_ Hk]]%lookup_insert_Some; try done; by apply Halone.
Qed.

Lemma step_ok db db' : step db db' -> db_ok db -> db_ok db'.
Proof.
  intros [db0 i t a e rest v cur now Hi Had Hadm|db0 i tx e rest row Hi Haf Hins Hfree
         |db0 i tx Hi Haf|db0 i] Hdb.
  - by apply step_check_ok.
  - by eapply step_insert_ok.
  - by apply step_commit_ok.
  - destruct Hdb as [Htab Hopen Halone]. constructor; simpl; [done| |].
    + intros j tx' [_ Hj]%lookup_delete_Some. by apply (Hopen j).
    + intros j k tx1 tx2 [_ Hj]%lookup_delete_Some [_ Hk]%lookup_delete_Some. by apply Halone.
Qed.

Lemma run_ok rows db : table_ok rows -> rtc step (mkDb rows ∅) db -> db_ok db.
Proof.
  intros Htab Hrun. assert (Hstart : db_ok (mkDb rows ∅)) by (by constructor).
  revert Hstart. induction Hrun as [|x y z Hxy _ IH]; [done|]. eauto using step_ok.
Qed.

(** ** [append_events] is such a transaction *)

Lemma insert_all_runs now t a ty v cur : forall evs (pool : PgPool J) before pool' rows' stored,
  (0 <= cur < 2 ^ 63)%Z ->
  insert_all pool now t a ty (wrapU 64 (cur + 1 + Z.of_nat (length before)))
    (batch_of t a ty (wrapU 64 (cur + 1)) now before) evs = (pool', Ok (rows', stored)) ->
  rtc step (mkDb (events pool) {[0 := mkTx t a ty v cur now before evs]})
           (mkDb (events pool) {[0 := mkTx t a ty v cur now (before ++ evs) []]}).
Proof.
  induction evs as [|e rest IH]; intros pool before pool' rows' stored Hcur Hall.
  { by rewrite app_nil_r. }
  cbn [insert_all] in Hall. destruct (decide _); [by destruct (trip pool "rollback")|].
  pose proof (trip_tables pool "insert_event") as (He & _). revert He Hall.
  generalize (trip pool "insert_event").1. intros pool1 He Hall.
  destruct (outcome pool (trips pool)); [done|].
  destruct (insert_row _ _) as [row|err] eqn:Ei; [|done].
  destruct (insert_all pool1 _ _ _ _ _ _ _) as [pool2 [[rows2 stored2]|err]] eqn:Ea; [|done].
  rewrite He in Ei. eapply rtc_l.
  - eapply (Step_insert _ 0 (mkTx t a ty v cur now before (e :: rest)) e rest row);
      [apply lookup_singleton_eq | done | exact Ei |].
    intros j tx' Hj. simpl. by rewrite lookup_singleton_ne.
  - simpl. rewrite insert_singleton_eq. unfold inserted. simpl.
    apply insert_row_Ok in Ei as (-> & _ & _).
    replace (before ++ e :: rest) with ((before ++ [e]) ++ rest) by (by rewrite <- app_assoc).
    rewrite <- He. eapply IH; [done|].
    rewrite batch_of_snoc by (apply wrapU_range; lia). rewrite wrapU_add_l in *.
    rewrite length_app. simpl. rewrite Nat2Z.inj_add, Z.add_assoc. exact Ea.
Qed.

(** What an append does to the table, whatever fails, the steps of one transaction
    do. *)
Lemma append_runs `{Texts} (pool pool' : PgPool J) now t a evs v r :
  table_ok (events pool) -> versions_fit evs ->
  append_events pool now t a evs v = (pool', r) ->
  rtc step (mkDb (events pool) ∅) (mkDb (events pool') ∅).
Proof.
  intros Htab Hv Happ. destruct (decide (evs = [])) as [->|Hne].
  { simpl in Happ. by injection Happ as <- <-. }
  destruct (append_outcomes pool now t a evs v pool' r Hne Happ)
    as [[-> _]|(e & rest & cur & db1 & db2 & stored & -> & Hk & Had & He1 & Hall & He & _)]; [done|].
  pose proof (admission_version _ _ _ _ _ _ Htab Had) as (Hcur & _ & _).
  pose proof (Step_check (mkDb (events pool) ∅) 0 t a e rest v cur now (lookup_empty 0)
    (check_keys_addressed t a _ 0 Hk Hv) Had) as H1.
  simpl in H1. rewrite insert_empty in H1.
  pose proof (insert_all_runs now t a (ue_aggregate_type e) v cur (e :: rest) db1 [] db2) as H2.
  simpl length in H2. rewrite Z.add_0_r, He1 in H2.
  pose proof (Step_commit (mkDb (events pool)
    {[0 := mkTx t a (ue_aggregate_type e) v cur now (e :: rest) []]}) 0 _
    (lookup_singleton_eq _ _) eq_refl) as H3.
  simpl in H3. rewrite delete_singleton_eq in H3.
  eapply rtc_l; [exact H1|]. eapply rtc_r; [|rewrite He; exact H3]. eapply H2; [|exact Hall].
  rewrite Hcur, pg_version by done. pose proof (pg_stream_length _ t a Htab). lia.
Qed.

(** ** Every commit is an append *)

(** C9: concurrency on Postgres: whatever appends overlap, and wherever they fail,
    the table stays well formed; and a transaction that is about to commit finds
    its stream at the version it read at the start, which meets its expectation,
    and of its aggregate type, so that the commit adds the whole batch numbered on
    from the current version of its stream, and leaves every other stream alone:
    the contract's append at the moment of the commit. *)
Theorem postgres_commits_are_appends rows db :
  table_ok rows -> rtc step (mkDb rows ∅) db ->
  table_ok (committed db)
  /\ forall i tx, opened db !! i = Some tx -> tx_after tx = [] ->
       let st := pg_stream (committed db) (tx_tenant tx) (tx_aggregate tx) in
       let rows' := committed db ++ tx_rows tx in
       matches (tx_expected tx) (current_version st) = true
       /\ type_stable st (tx_type tx)
       /\ pg_stream rows' (tx_tenant tx) (tx_aggregate tx)
          = st ++ map kept_event (number_batch (current_version st + 1)
                                    (map (retyped (tx_type tx)) (tx_before tx)))
       /\ forall t a, (t, a) <> (tx_tenant tx, tx_aggregate tx) ->
            pg_stream rows' t a = pg_stream (committed db) t a.
Proof.
  intros Htab Hrun. assert (Hok : db_ok db) by (by eapply run_ok).
  split; [apply Hok|]. intros i tx Hi Hafter st rows'.
  destruct (commit_exact db i tx Hok Hi Hafter) as (Hcur & Hty & _ & Hst & Ho).
  split_and!; [|done..]. fold st in Hcur. rewrite <- Hcur. apply (dok_open _ Hok i tx Hi).
Qed.
End Transactions.
Arguments Tx : clear implicits.
Arguments Db : clear implicits.

(** ** Two callers race *)
Module Race.
Import PgRefinement.Sample.
#[local] Existing Instances driver driver_laws.

(** Both read an empty stream; the first inserts. *)
Definition the_tx (evs done : list (UncommittedEvent Inventory.InventoryEvent))
  : Tx Inventory.InventoryEvent :=
  {| tx_tenant := mkTenantId 1; tx_aggregate := mkAggregateId 2; tx_type := "inventory.item";
     tx_expected := Exact 0; tx_current := 0; tx_now := 99; tx_before := done; tx_after := evs |}.
Definition one_open : Db Inventory.InventoryEvent :=
  mkDb [] (<[0 := the_tx [created] []]> ∅).
Definition both_open : Db Inventory.InventoryEvent :=
  mkDb [] (<[1 := the_tx [created] []]> (opened one_open)).
Definition race : Db Inventory.InventoryEvent :=
  mkDb [] (<[0 := the_tx [] [created]]> (opened both_open)).

Lemma race_reachable : rtc step (mkDb [] ∅) race.
Proof.
  assert (Had : addressed (mkTenantId 1) (mkAggregateId 2) [created])
    by (unfold addressed; by rewrite Forall_singleton).
  apply rtc_l with one_open; [|apply rtc_l with both_open; [|apply rtc_once]].
  - exact (Step_check (mkDb [] ∅) 0 (mkTenantId 1) (mkAggregateId 2) created [] (Exact 0) 0 99
             eq_refl Had eq_refl).
  - exact (Step_check one_open 1 (mkTenantId 1) (mkAggregateId 2) created [] (Exact 0) 0 99
             eq_refl Had eq_refl).
  - eapply (Step_insert both_open 0 (the_tx [created] []) created []); [done..|].
    intros j tx' Hj. unfold both_open, one_open. simpl.
    rewrite !lookup_insert_Some. by intros [[<- <-]|[_ [[<- _]|[_ Hx]]]].
Qed.

Lemma postgres_commits_are_appends_witness :
  pg_stream (committed race ++ tx_rows (the_tx [] [created])) (mkTenantId 1) (mkAggregateId 2)
  = [kept_event (store_event 1 created)].
Proof.
  destruct (postgres_commits_are_appends [] race) as [_ H].
  - intros t a. split_and!; [by exists ""%string | done | done].
  - exact race_reachable.
  - destruct (H 0 (the_tx [] [created]) eq_refl eq_refl) as (_ & _ & Hst & _). exact Hst.
Defined.

(** The second waits; once the first has committed its insertion is the unique
    violation that [append_events] reports as a concurrency error. *)
Example the_other_waits :
  collides (tx_rows (the_tx [] [created]))
    (event_row (mkTenantId 1) (mkAggregateId 2) "inventory.item" 1 99 created) = true.
Proof. reflexivity. Qed.

Example then_conflicts :
  match insert_row (tx_rows (the_tx [] [created]))
          (event_row (mkTenantId 1) (mkAggregateId 2) "inventory.item" 1 99 created) with
  | Err err => is_unique_violation err
               && match insert_error 1 err with Concurrency _ => true | _ => false end
  | Ok _ => false
  end = true.
Proof. reflexivity. Qed.
End Race.
