(* ===== verification/PgReadModel.v ===== *)
(** * Read models and cursors on Postgres: [read_model/postgres.rs] and the
      Postgres half of [projections/cursor_store.rs]

    The tables [inventory_stock] and [projection_offsets]
    ([docker/migrations/004]) are the lists of their rows.  The stores answer
    [None], an empty list or nothing at all when the database does not: the record
    of a table says whether it can be reached at the moment, and a step of the
    surroundings may change that.

    The theorems: while the database answers, the stock projection over Postgres
    updates an entry as it does in memory; when it does not, the projection reports
    success and moves its cursor past an event whose update is lost, and over
    persistent cursors it applies an event again. *)

From S2P Require Import Prelude Core Events Bus EventStore ReadModel Projection Stock PgStore.
From S2P Require Inventory.
Import Inventory (InventoryItemId, mkInventoryItemId, item_aggregate, InventoryEvent,
  EvItemCreated, EvStockAdjusted, ic_tenant_id, ic_item_id, ic_name, sa_tenant_id,
  sa_item_id, sa_delta).

(** ** The table [inventory_stock] *)

Record StockRow := mkStockRow {
  st_tenant : Uuid;
  st_item : Uuid;
  st_name : string;
  st_quantity : Z;
  st_updated_at : DateTime
}.

(** What the server decides: the texts it refuses, and the order of rows that
    [ORDER BY updated_at DESC] leaves tied. *)
Class StockDriver := {
  refused_text : string -> bool;
  order_stock : list StockRow -> list StockRow
}.

Class StockDriverLaws `{StockDriver} : Prop := {
  order_stock_perm rows : order_stock rows ≡ₚ rows;
  empty_text_taken : refused_text "" = false
}.

(** [now] is the server's clock. *)
Record PostgresInventoryStore := mkStock {
  stock_rows : list StockRow;
  stock_up : bool;
  stock_now : DateTime
}.

Section Store.
Context `{StockDriver}.
Implicit Types (self : PostgresInventoryStore) (row : StockRow) (key : InventoryItemId).

Definition stock_key (t : TenantId) key row : bool :=
  bool_decide (st_tenant row = tenant_uuid t)
  && bool_decide (st_item row = aggregate_uuid (item_aggregate key)).

(** @src crates/infra/src/read_model/postgres.rs 133-141 [PostgresInventoryStore::get] *)
Definition from_stock_row row : InventoryReadModel :=
  {| rm_item_id := mkInventoryItemId (mkAggregateId (st_item row)); rm_name := st_name row;
     rm_quantity := st_quantity row |}.

(** @src crates/infra/src/read_model/postgres.rs 107-148 [PostgresInventoryStore::get] *)
Definition inventory_get self (tenant_id : TenantId) key : option InventoryReadModel :=
  if stock_up self
  then from_stock_row <$> head (List.filter (stock_key tenant_id key) (stock_rows self))
  else None.

(** The [INSERT ... ON CONFLICT DO UPDATE], whose result is ignored: a violated
    [CHECK (name != '')] leaves the table as it is.

    @src crates/infra/src/read_model/postgres.rs 150-187 [PostgresInventoryStore::upsert] *)
Definition inventory_upsert self (tenant_id : TenantId) key (value : InventoryReadModel)
  : PostgresInventoryStore :=
  if negb (stock_up self) || refused_text (rm_name value) || String.eqb (rm_name value) ""
  then self
  else
    let row := {| st_tenant := tenant_uuid tenant_id;
                  st_item := aggregate_uuid (item_aggregate key); st_name := rm_name value;
                  st_quantity := rm_quantity value; st_updated_at := stock_now self |} in
    {| stock_rows :=
         if existsb (stock_key tenant_id key) (stock_rows self)
         then map (fun r => if stock_key tenant_id key r then row else r) (stock_rows self)
         else stock_rows self ++ [row];
       stock_up := stock_up self; stock_now := stock_now self |}.

(** @src crates/infra/src/read_model/postgres.rs 189-234 [PostgresInventoryStore::list] *)
Definition inventory_list self (tenant_id : TenantId) : list InventoryReadModel :=
  if stock_up self
  then map from_stock_row
         (order_stock (List.filter (fun row => bool_decide (st_tenant row = tenant_uuid tenant_id))
                         (stock_rows self)))
  else [].

(** [clear_tenant_read_models], a function of the schema.

    @src crates/infra/src/read_model/postgres.rs 236-254 [PostgresInventoryStore::clear_tenant] *)
Definition inventory_clear_tenant self (tenant_id : TenantId) : PostgresInventoryStore :=
  if stock_up self
  then {| stock_rows := List.filter (fun row => negb (bool_decide (st_tenant row = tenant_uuid tenant_id)))
                          (stock_rows self);
          stock_up := stock_up self; stock_now := stock_now self |}
  else self.

(** @src crates/infra/src/read_model/postgres.rs 106-255 [TenantStore for PostgresInventoryStore] *)
#[global] Instance PostgresInventoryStore_store
  : TenantStore PostgresInventoryStore InventoryItemId InventoryReadModel := {|
  ts_get := inventory_get; ts_upsert := inventory_upsert; ts_list := inventory_list;
  ts_clear_tenant := inventory_clear_tenant
|}.

(** The call as it comes from a thread: outside a runtime it does nothing, in a task
    of the runtime [block_on] panics ([None]). *)
Definition on_thread {A} (thread : Thread) (outside inside : A) : option A :=
  match thread with
  | OutsideRuntime => Some outside | BlockingThread => Some inside | AsyncTask => None
  end.

(** The generic store has no table: every read and write panics ([None]).

    @src crates/infra/src/read_model/postgres.rs 57-70 [PostgresTenantStore] *)
Definition generic_get {V} (_ : TenantId) : option (option V) := None.
End Store.

(** ** The table [projection_offsets] *)

Record OffsetRow := mkOffsetRow {
  of_tenant : Uuid;
  of_aggregate : Uuid;
  of_projection : string;
  of_sequence : Z
}.

Record PostgresCursorStore := mkOffsets {
  offset_rows : list OffsetRow;
  offsets_up : bool
}.

Section Cursors.
Context `{StockDriver}.
Implicit Types (self : PostgresCursorStore) (row : OffsetRow).

Definition offset_key (t : TenantId) (a : AggregateId) (name : string) row : bool :=
  bool_decide (of_tenant row = tenant_uuid t)
  && bool_decide (of_aggregate row = aggregate_uuid a)
  && bool_decide (of_projection row = name).

(** @src crates/infra/src/projections/cursor_store.rs 51-87 [PostgresCursorStore::get_cursor] *)
Definition pg_get_cursor self (t : TenantId) (a : AggregateId) (name : string) : option Z :=
  if offsets_up self
  then (fun row => wrapU 64 (of_sequence row)) <$>
       head (List.filter (offset_key t a name) (offset_rows self))
  else None.

(** [CHECK (last_sequence_number >= 0)] and [CHECK (projection_name != '')].

    @src crates/infra/src/projections/cursor_store.rs 89-129 [PostgresCursorStore::update_cursor] *)
Definition pg_update_cursor self (t : TenantId) (a : AggregateId) (name : string)
    (sequence_number : Z) : PostgresCursorStore :=
  let seq := wrapS 64 sequence_number in
  if negb (offsets_up self) || refused_text name || String.eqb name "" || (seq <? 0)%Z
  then self
  else
    let row := {| of_tenant := tenant_uuid t; of_aggregate := aggregate_uuid a;
                  of_projection := name; of_sequence := seq |} in
    {| offset_rows :=
         if existsb (offset_key t a name) (offset_rows self)
         then map (fun r => if offset_key t a name r then row else r) (offset_rows self)
         else offset_rows self ++ [row];
       offsets_up := offsets_up self |}.

(** [clear_tenant_offsets], a function of the schema.

    @src crates/infra/src/projections/cursor_store.rs 131-152 [PostgresCursorStore::clear_cursors] *)
Definition pg_clear_cursors self (t : TenantId) (name : string) : PostgresCursorStore :=
  if offsets_up self
  then {| offset_rows := List.filter (fun row => negb (bool_decide (of_tenant row = tenant_uuid t)
                                        && bool_decide (of_projection row = name)))
                           (offset_rows self);
          offsets_up := offsets_up self |}
  else self.

(** @src crates/infra/src/projections/cursor_store.rs 50-153 [ProjectionCursorStore for PostgresCursorStore] *)
#[global] Instance PostgresCursorStore_store : ProjectionCursorStore PostgresCursorStore := {|
  pcs_get := pg_get_cursor; pcs_update := pg_update_cursor; pcs_clear := pg_clear_cursors
|}.
End Cursors.

(** ** While the database answers *)
Section Reachable.
Context `{StockDriver}.
Implicit Types (db : PostgresInventoryStore) (k : InventoryItemId).

(** What the columns take. *)
Definition storable (v : InventoryReadModel) : Prop :=
  rm_name v <> ""%string /\ refused_text (rm_name v) = false.

Lemma stock_key_true t k row :
  stock_key t k row = true
  <-> st_tenant row = tenant_uuid t /\ st_item row = aggregate_uuid (item_aggregate k).
Proof. unfold stock_key. by rewrite andb_true_iff, !bool_decide_eq_true. Qed.

Lemma stock_key_inj t k t' k' row :
  stock_key t k row = true -> stock_key t' k' row = true -> (t', k') = (t, k).
Proof.
  rewrite !stock_key_true. destruct t as [t], t' as [t'], k as [[k]], k' as [[k']]. simpl.
  intros [-> ->] [-> ->]. done.
Qed.

Lemma filter_map_other {A} (f g : A -> bool) (h : A) l :
  (forall x, f x = true -> g x = false) -> g h = false ->
  List.filter g (map (fun x => if f x then h else x) l) = List.filter g l.
Proof.
  intros Hfg Hh. induction l as [|x l IH]; simpl; [done|].
  destruct (f x) eqn:Ef; [by rewrite Hh, Hfg|]. by rewrite IH.
Qed.

Lemma filter_map_same {A} (f : A -> bool) (h : A) l :
  f h = true -> head (List.filter f (map (fun x => if f x then h else x) l))
                = if existsb f l then Some h else None.
Proof.
  intros Hh. induction l as [|x l IH]; simpl; [done|].
  destruct (f x) eqn:Ef; simpl; [by rewrite Hh | by rewrite Ef].
Qed.

(** The table is a map of its entries. *)
Lemma inventory_get_upsert db t k v t' k' :
  stock_up db = true -> storable v -> rm_item_id v = k ->
  inventory_get (inventory_upsert db t k v) t' k'
  = if decide ((t', k') = (t, k)) then Some v else inventory_get db t' k'.
Proof.
  intros Hup [Hne Href] Hk. unfold inventory_upsert, inventory_get.
  rewrite Hup, Href, (proj2 (String.eqb_neq _ _) Hne). cbn [negb orb stock_up stock_rows].
  set (row := mkStockRow _ _ _ _ _).
  assert (Hrow : stock_key t k row = true) by (by apply stock_key_true).
  assert (Hv : from_stock_row row = v).
  { unfold row, from_stock_row. simpl. rewrite <- Hk. by destruct v as [[[]]]. }
  destruct (decide _) as [[= -> ->]|Hne'].
  - destruct (existsb (stock_key t k) (stock_rows db)) eqn:Ex.
    + by rewrite filter_map_same, Ex, <- Hv.
    + rewrite List.filter_app. simpl. rewrite Hrow.
      replace (List.filter (stock_key t k) (stock_rows db)) with ([] : list StockRow); [by rewrite <- Hv|].
      symmetry. induction (stock_rows db) as [|r l IH]; simpl in *; [done|].
      destruct (stock_key t k r); [done | by apply IH].
  - assert (Hother : stock_key t' k' row = false).
    { destruct (stock_key t' k' row) eqn:E; [|done]. by destruct Hne', (stock_key_inj t k t' k' row). }
    destruct (existsb _ _).
    + rewrite filter_map_other; [done| |done]. intros r Hr.
      destruct (stock_key t' k' r) eqn:E; [|done]. by destruct Hne', (stock_key_inj t k t' k' r).
    + rewrite List.filter_app. simpl. by rewrite Hother, app_nil_r.
Qed.
End Reachable.

(** ** The stock projection over Postgres *)
Section Projection.
Context {J CS : Type} `{StockDriver} `{HJ : Serde InventoryEvent J} `{!ProjectionCursorStore CS}.
Implicit Types (db : PostgresInventoryStore) (env : EventEnvelope J)
  (p : Projector (InMemoryTenantStore InventoryItemId InventoryReadModel) CS)
  (q : Projector PostgresInventoryStore CS).

(** The same entries and the same cursors. *)
Record stock_mirrors p q : Prop := {
  sm_up : stock_up (p_store q) = true;
  sm_entries t k : inventory_get (p_store q) t k = ts_get (p_store p) t k;
  sm_items t k v : ts_get (p_store p) t k = Some v -> rm_item_id v = k /\ storable v;
  sm_cursors : p_cursors q = p_cursors p;
  sm_cursor_store : p_cursor_store q = p_cursor_store p;
  sm_name : p_name q = p_name p
}.

(** An event the table takes: an item with a name, or a change of a known item. *)
Definition acceptable p env : Prop :=
  match from_value (env_payload env) with
  | Ok (EvItemCreated e) => ic_name e <> ""%string /\ refused_text (ic_name e) = false
  | Ok (EvStockAdjusted e) => is_Some (ts_get (p_store p) (env_tenant_id env) (sa_item_id e))
  | Err _ => True
  end.

Lemma upsert_mirrors p q t k v :
  stock_mirrors p q -> storable v -> rm_item_id v = k ->
  stock_mirrors (with_store p (ts_upsert (p_store p) t k v))
    (with_store q (ts_upsert (p_store q) t k v)).
Proof.
  intros [Hup He Hi Hc Hcs Hn] Hs Hk. constructor; simpl; try done.
  - unfold inventory_upsert. by destruct (_ || _).
  - intros t' k'. rewrite inventory_get_upsert by done. simpl in He. rewrite He.
    destruct (decide _) as [[= -> ->]|Hne]; symmetry;
      [exact (get_upsert_eq (p_store p) t k v) | exact (get_upsert_ne (p_store p) t k v t' k' Hne)].
  - intros t' k' v' Hv. pose proof (get_upsert_dec (p_store p) t k v t' k') as Hd. simpl in Hd.
    rewrite Hd in Hv. destruct (decide _) as [[<- <-]|_]; [by injection Hv as <- | by apply (Hi t')].
Qed.

(** The stock on Postgres: while the database answers, the projection over the
    table [inventory_stock] gives every envelope the answer it gives over the
    in-memory store, and leaves the same entries and cursors. *)
Theorem postgres_stock_mirrors p q env :
  stock_mirrors p q -> acceptable p env ->
  let '(p', r) := apply_envelope p env in
  let '(q', r') := apply_envelope q env in
  r' = r /\ stock_mirrors p' q'.
Proof.
  intros Hm Hacc. unfold apply_envelope, project.
  assert (Hcur : forall t a, get_cursor q t a = get_cursor p t a).
  { intros t a. unfold get_cursor. by rewrite (sm_cursor_store _ _ Hm), (sm_cursors _ _ Hm), (sm_name _ _ Hm). }
  assert (Hadv : forall p1 q1 t a n, stock_mirrors p1 q1 ->
            stock_mirrors (update_cursor p1 t a n) (update_cursor q1 t a n)).
  { intros p1 q1 t a n [Hup He Hi Hc Hcs Hn]. constructor; simpl; try done;
      by rewrite ?Hc, ?Hcs, ?Hn. }
  rewrite Hcur. repeat (destruct (decide _); [done|]). unfold acceptable in Hacc.
  destruct (from_value (env_payload env)) as [ev|]; [|done].
  destruct (isolation _ _ _) eqn:Hiso; [done|]. split; [done|]. apply Hadv.
  apply isolation_None in Hiso.
  destruct ev as [e|e]; simpl in Hiso; injection Hiso as _ Hitem.
  - by apply upsert_mirrors.
  - destruct Hacc as [v Hv]. unfold update. pose proof (sm_entries _ _ Hm) as He.
    change (ts_get (p_store q) (env_tenant_id env) (sa_item_id e))
      with (inventory_get (p_store q) (env_tenant_id env) (sa_item_id e)).
    rewrite He, Hv. destruct (sm_items _ _ Hm _ _ _ Hv) as [Hk [Hn Ht]]. simpl.
    by apply upsert_mirrors.
Qed.

(** An outage loses updates: an envelope that arrives while the database does
    not answer is reported as applied and moves the cursor, and its update is never
    made: over any table there is later, the envelope delivered again is ignored. *)
Theorem outage_loses_stock_update q env ev :
  stock_up (p_store q) = false -> p_cursor_store q = None ->
  env_aggregate_type env = "inventory.item"%string ->
  from_value (env_payload env) = Ok ev ->
  isolation (env_tenant_id env) (env_aggregate_id env) ev = None ->
  let last := get_cursor q (env_tenant_id env) (env_aggregate_id env) in
  (0 < env_sequence_number env)%Z -> (last < env_sequence_number env)%Z ->
  (last = 0%Z \/ env_sequence_number env = wrapU 64 (last + 1)) ->
  let '(q', r) := apply_envelope q env in
  r = Ok tt /\ p_store q' = p_store q
  /\ forall db, apply_envelope (with_store q' db) env = (with_store q' db, Ok tt).
Proof.
  intros Hdown Hcs Hty Hev Hiso last Hpos Hlast Hnext.
  assert (Hsame : update (p_store q) (env_tenant_id env) (env_aggregate_id env) ev = p_store q).
  { destruct ev; simpl; unfold inventory_upsert; by rewrite Hdown. }
  unfold apply_envelope at 1, project. rewrite decide_False by auto.
  fold last. rewrite decide_False by lia. rewrite decide_False by lia.
  rewrite decide_False by tauto. rewrite Hev, Hiso, Hsame. split_and!; [done..|].
  intros db. unfold apply_envelope, project. rewrite decide_False by auto.
  rewrite decide_False by lia. rewrite decide_True; [done|].
  unfold get_cursor. simpl. rewrite Hcs. simpl. by rewrite lookup_insert_eq.
Qed.

(** Over a projector without a cursor for the stream, a change is applied whatever
    its number: again, when it had been applied before.  So is every projector
    [new] makes over a table that has outlived the process, and every one whose
    cursors are in a database that does not answer. *)
Theorem forgotten_cursor_reapplies q env e v :
  stock_up (p_store q) = true ->
  get_cursor q (env_tenant_id env) (env_aggregate_id env) = 0%Z ->
  env_aggregate_type env = "inventory.item"%string ->
  from_value (env_payload env) = Ok (EvStockAdjusted e) ->
  isolation (env_tenant_id env) (env_aggregate_id env) (EvStockAdjusted e) = None ->
  (0 < env_sequence_number env)%Z ->
  inventory_get (p_store q) (env_tenant_id env) (sa_item_id e) = Some v -> storable v ->
  let '(q', r) := apply_envelope q env in
  r = Ok tt
  /\ rm_quantity <$> inventory_get (p_store q') (env_tenant_id env) (sa_item_id e)
     = Some (wrapS 64 (rm_quantity v + sa_delta e)).
Proof.
  intros Hup Hcur Hty Hev Hiso Hpos Hget Hst. unfold apply_envelope, project.
  rewrite decide_False by auto. rewrite Hcur, decide_False by lia. rewrite decide_False by lia.
  rewrite decide_False by (intros []; done). rewrite Hev, Hiso. split; [done|].
  cbn [p_store update_cursor with_store update ts_get ts_upsert PostgresInventoryStore_store].
  rewrite Hget. simpl unwrap_or. rewrite inventory_get_upsert; [by rewrite decide_True|done..|].
  unfold inventory_get in Hget. rewrite Hup in Hget.
  destruct (List.filter _ _) as [|r rest] eqn:Ef; [done|]. injection Hget as <-. simpl.
  assert (Hr : r ∈ r :: rest) by left. rewrite <- Ef, list_elem_of_In, filter_In in Hr.
  destruct Hr as [_ [_ Hi]%stock_key_true]. rewrite Hi. by destruct (sa_item_id e) as [[]].
Qed.

Lemma new_projector_forgets name db t a :
  get_cursor (projector_new (CS := CS) name db) t a = 0%Z.
Proof. done. Qed.
End Projection.

Lemma unreachable_offsets_forget `{StockDriver}
    (q : Projector PostgresInventoryStore PostgresCursorStore) cs t a :
  p_cursor_store q = Some cs -> offsets_up cs = false -> get_cursor q t a = 0%Z.
Proof. intros Hcs Hdown. unfold get_cursor. rewrite Hcs. simpl. unfold pg_get_cursor. by rewrite Hdown. Qed.

(** ** Sample runs *)
Module Sample.
Import Inventory Dispatcher.Sample.
#[local] Existing Instances inventory_serde.

#[local] Instance driver : StockDriver := {|
  refused_text _ := false;
  order_stock := sort_by (fun r r' => (st_updated_at r' <=? st_updated_at r)%Z)
|}.
#[local] Instance driver_laws : StockDriverLaws.
Proof. constructor; [intros rows; apply sort_by_perm | done]. Qed.

Definition table (up : bool) : PostgresInventoryStore :=
  {| stock_rows := []; stock_up := up; stock_now := 5 |}.
Definition in_memory : Projector (InMemoryTenantStore InventoryItemId InventoryReadModel)
    InMemoryCursorStore := projector_new "inventory.stock" ∅.
Definition on_postgres (db : PostgresInventoryStore)
  : Projector PostgresInventoryStore InMemoryCursorStore := projector_new "inventory.stock" db.

Definition envelope (n : Z) (ev : InventoryEvent) : EventEnvelope InventoryEvent :=
  {| env_event_id := 0%N; env_tenant_id := mkTenantId 1; env_aggregate_id := mkAggregateId 2;
     env_aggregate_type := "inventory.item"; env_sequence_number := n; env_payload := ev |}.
Definition bolt : InventoryEvent :=
  EvItemCreated {| ic_tenant_id := mkTenantId 1; ic_item_id := the_item; ic_name := "bolt";
                   ic_occurred_at := 0 |}.
Definition five : InventoryEvent :=
  EvStockAdjusted {| sa_tenant_id := mkTenantId 1; sa_item_id := the_item; sa_delta := 5;
                     sa_occurred_at := 0 |}.

Lemma postgres_stock_mirrors_witness :
  inventory_get (p_store (apply_envelope (on_postgres (table true)) (envelope 1 bolt)).1)
    (mkTenantId 1) the_item
  = Some (mkInventoryReadModel the_item "bolt" 0).
Proof.
  pose proof (postgres_stock_mirrors in_memory (on_postgres (table true)) (envelope 1 bolt)) as H.
  destruct H as [_ H]; [by constructor | by split |].
  exact (sm_entries _ _ H (mkTenantId 1) the_item).
Defined.

Lemma outage_loses_stock_update_witness :
  let q' := (apply_envelope (on_postgres (table false)) (envelope 1 bolt)).1 in
  apply_envelope (with_store q' (table true)) (envelope 1 bolt)
  = (with_store q' (table true), Ok tt).
Proof.
  pose proof (outage_loses_stock_update (on_postgres (table false)) (envelope 1 bolt) bolt
    eq_refl eq_refl eq_refl eq_refl eq_refl ltac:(done) ltac:(done) ltac:(by left)) as H.
  exact (proj2 (proj2 H) (table true)).
Defined.

(** The process stops after both events; its successor, over the same table, is
    handed the change again. *)
Example restart_counts_twice :
  let before := (project_all apply_envelope (on_postgres (table true))
                   [envelope 1 bolt; envelope 2 five]).1 in
  let after := (apply_envelope (on_postgres (p_store before)) (envelope 2 five)).1 in
  rm_quantity <$> inventory_get (p_store before) (mkTenantId 1) the_item = Some 5%Z
  /\ rm_quantity <$> inventory_get (p_store after) (mkTenantId 1) the_item = Some 10%Z.
Proof. split; reflexivity. Qed.
End Sample.
