(* ===== verification/Float.v ===== *)
(** * [f64]: IEEE 754 binary64

    The operations the program applies to floating-point numbers, each rounded to
    nearest, ties to even, as the Standard Library's executable specification of
    floats defines them; conversions, comparison, the bits of a number, and its
    [{:.2}] text.  The shortest text that [Display] prints is a parameter
    ([FloatText]). *)

From Stdlib Require Import SpecFloat.
From S2P Require Import Prelude.

Abbreviation f64 := spec_float.

Definition prec : Z := 53.
Definition emax : Z := 1024.

Definition f64_add : f64 -> f64 -> f64 := SFadd prec emax.
Definition f64_sub : f64 -> f64 -> f64 := SFsub prec emax.
Definition f64_mul : f64 -> f64 -> f64 := SFmul prec emax.
Definition f64_div : f64 -> f64 -> f64 := SFdiv prec emax.
Definition f64_sqrt : f64 -> f64 := SFsqrt prec emax.
Definition f64_abs : f64 -> f64 := SFabs.

(** [<], [<=], [>]: false when a number is missing. *)
Definition f64_lt : f64 -> f64 -> bool := SFltb.
Definition f64_le : f64 -> f64 -> bool := SFleb.
Definition f64_gt (x y : f64) : bool := SFltb y x.

Definition is_finite (x : f64) : bool :=
  match x with S754_zero _ | S754_finite _ _ _ => true | _ => false end.

(** [n as f64] for an integer, and [m * 2^e]. *)
Definition f64_scaled (m e : Z) : f64 := binary_normalize prec emax m e false.
Definition of_int (n : Z) : f64 := f64_scaled n 0.

Definition f64_zero : f64 := S754_zero false.
Definition f64_one : f64 := of_int 1.
(** [f64::EPSILON]. *)
Definition f64_epsilon : f64 := f64_scaled 1 (-52).

(** [iter().sum::<f64>()]. *)
Definition f64_sum (xs : list f64) : f64 := foldl f64_add f64_zero xs.

(** [f64::to_bits]. *)
Definition f64_bits (x : f64) : Z :=
  let sign (s : bool) := (if s then 2 ^ 63 else 0)%Z in
  match x with
  | S754_zero s => sign s
  | S754_infinity s => sign s + 2047 * 2 ^ 52
  | S754_nan => 4095 * 2 ^ 51
  | S754_finite s m e =>
    if Z.pos m <? 2 ^ 52 then sign s + Z.pos m
    else sign s + (e + 1075) * 2 ^ 52 + (Z.pos m - 2 ^ 52)
  end%Z.

(** [f64::from_bits]. *)
Definition f64_of_bits (b : Z) : f64 :=
  let sign := Z.testbit b 63 in
  let expo := ((b / 2 ^ 52) mod 2048)%Z in
  let frac := (b mod 2 ^ 52)%Z in
  if (expo =? 2047)%Z then (if (frac =? 0)%Z then S754_infinity sign else S754_nan)
  else
    let '(m, e) := if (expo =? 0)%Z then (frac, (-1074)%Z)
                   else ((frac + 2 ^ 52)%Z, (expo - 1075)%Z) in
    binary_normalize prec emax (if sign then - m else m)%Z e sign.

(** [f64::min] and [f64::max]: a missing number is passed over. *)
Definition f64_min (x y : f64) : f64 :=
  match x, y with
  | S754_nan, _ => y
  | _, S754_nan => x
  | _, _ => if f64_lt y x then y else x
  end.
Definition f64_max (x y : f64) : f64 :=
  match x, y with
  | S754_nan, _ => y
  | _, S754_nan => x
  | _, _ => if f64_lt x y then y else x
  end.

(** [x % y]: the exact remainder, with the sign of [x]. *)
Definition f64_rem (x y : f64) : f64 :=
  match x, y with
  | S754_nan, _ | _, S754_nan | S754_infinity _, _ | _, S754_zero _ => S754_nan
  | S754_zero _, _ | _, S754_infinity _ => x
  | S754_finite s m e, S754_finite _ m' e' =>
    let low := Z.min e e' in
    let r := ((Z.pos m * 2 ^ (e - low)) mod (Z.pos m' * 2 ^ (e' - low)))%Z in
    binary_normalize prec emax (if s then - r else r)%Z low s
  end.

(** [2_f64.powi(n)]: powers of two are exact. *)
Definition f64_pow2 (n : Z) : f64 := f64_scaled 1 n.

(** [x as u64]: towards zero, clamped; a missing number is zero. *)
Definition f64_to_u64 (x : f64) : Z :=
  match x with
  | S754_finite false m e =>
    Z.min (2 ^ 64 - 1) (if (0 <=? e)%Z then Z.pos m * 2 ^ e else Z.pos m / 2 ^ (- e))
  | S754_infinity false => 2 ^ 64 - 1
  | _ => 0
  end%Z.

(** The quotient rounded to nearest, ties to even. *)
Definition round_div (n d : Z) : Z :=
  let q := (n / d)%Z in
  match (2 * (n mod d) ?= d)%Z with
  | Lt => q
  | Gt => (q + 1)%Z
  | Eq => if Z.even q then q else (q + 1)%Z
  end.

(** The text of [{:.2}]. *)
Definition fixed2 (x : f64) : string :=
  let sign (s : bool) := if s then "-"%string else ""%string in
  match x with
  | S754_nan => "NaN"
  | S754_infinity s => sign s +:+ "inf"
  | S754_zero s => sign s +:+ "0.00"
  | S754_finite s m e =>
    let hundredths :=
      if (0 <=? e)%Z then (Z.pos m * 2 ^ e * 100)%Z else round_div (Z.pos m * 100) (2 ^ (- e)) in
    let cents := (hundredths mod 100)%Z in
    sign s +:+ pretty (hundredths / 100)%Z +:+ "."
    +:+ (if (cents <? 10)%Z then "0" else "") +:+ pretty cents
  end.

(** [Display]: the shortest decimal that reads back as the number. *)
Class FloatText := show_f64 : f64 -> string.

Example fixed2_tie : map fixed2 [f64_div f64_one (of_int 8); f64_div (of_int (-3)) (of_int 8);
  of_int 5; f64_div (of_int 1) (of_int 3)] = ["0.12"; "-0.38"; "5.00"; "0.33"]%string.
Proof. vm_compute. reflexivity. Qed.

Example bits_of_one : f64_bits f64_one = 0x3FF0000000000000%Z.
Proof. reflexivity. Qed.

Example bits_of_eighty_percent : f64_bits (f64_div (of_int 4) (of_int 5)) = 0x3FE999999999999A%Z.
Proof. vm_compute. reflexivity. Qed.

Example bits_read_back : map (fun x => f64_bits (f64_of_bits x))
  [0x3FB999999999999A; 0x3FF0000000000000; 0; 1; 0x8000000000000001; 0x7FF0000000000000]%Z
  = [0x3FB999999999999A; 0x3FF0000000000000; 0; 1; 0x8000000000000001; 0x7FF0000000000000]%Z.
Proof. vm_compute. reflexivity. Qed.

Example remainders : map (fun n => f64_to_u64 (f64_rem (of_int n) (of_int 100))) [17; 100; 153; 1700]%Z
  = [17; 0; 53; 0]%Z.
Proof. vm_compute. reflexivity. Qed.
