(* ===== verification/Anomaly.v ===== *)
(** * Anomaly detection: [crates/ai]

    [scheduler.rs], [job.rs], [result.rs] and [inventory_anomaly.rs]: the snapshot
    of a tenant's stock, the rolling z-score over each item's movements, the job
    and the scheduler that runs it for its own tenant only.  The arithmetic is
    that of [Float]. *)

From Stdlib Require Import SpecFloat.
From S2P Require Import Prelude Core Float Http.

(** ** Snapshots and scopes *)

(** @src crates/ai/src/scheduler.rs 26-31 [InventoryItemSnapshot] *)
Record InventoryItemSnapshot := mkItemSnapshot {
  is_item_id : string;
  is_quantity : Z;
  is_historical_trend : list Z
}.

(** @src crates/ai/src/scheduler.rs 20-24 [InventorySnapshot] *)
Record InventorySnapshot := mkSnapshot {
  isn_tenant_id : TenantId;
  isn_items : list InventoryItemSnapshot
}.

(** @src crates/ai/src/scheduler.rs 37-41 [TenantScope] *)
Inductive TenantScope : Type := AnyTenant | ForTenant (t : TenantId).

(** @src crates/ai/src/scheduler.rs 44-49 [TenantScope::allows] *)
Definition allows (self : TenantScope) (tenant_id : TenantId) : bool :=
  match self with AnyTenant => true | ForTenant t => bool_decide (t = tenant_id) end.

(** @src crates/ai/src/result.rs 45-55 [AiError] *)
Inductive AiError : Type :=
| InvalidInput (msg : string)
| InferenceFailed (msg : string)
| Internal (msg : string).

(** @src crates/ai/src/result.rs 25-32 [AiResult::new] *)
Definition result_new (score confidence : f64) : AiResult :=
  {| air_score := f64_bits score; air_confidence := f64_bits confidence;
     air_explanation := None; air_metadata := JNull |}.

(** @src crates/ai/src/result.rs 34-37 [AiResult::with_explanation] *)
Definition with_explanation (explanation : string) (self : AiResult) : AiResult :=
  {| air_score := air_score self; air_confidence := air_confidence self;
     air_explanation := Some explanation; air_metadata := air_metadata self |}.

(** @src crates/ai/src/result.rs 39-42 [AiResult::with_metadata] *)
Definition with_metadata (metadata : Json) (self : AiResult) : AiResult :=
  {| air_score := air_score self; air_confidence := air_confidence self;
     air_explanation := air_explanation self; air_metadata := metadata |}.

(** A job of some tenant; [None] when it panics.

    @src crates/ai/src/job.rs 9-22 [AiJob] *)
Class AiJob (A : Type) := {
  job_tenant_id : A -> TenantId;
  job_run : A -> option (Result AiError AiResult)
}.

(** @src crates/ai/src/scheduler.rs 58-65 [AiScheduler::run] *)
Definition scheduler_run {A} `{AiJob A} (scope : TenantScope) (job : A)
  : option (Result AiError AiResult) :=
  if negb (allows scope (job_tenant_id job))
  then Some (Err (InvalidInput "tenant scope violation (job tenant not allowed by scheduler)"))
  else job_run job.

(** ** The z-score *)

(** @src crates/ai/src/inventory_anomaly.rs 13-18 [AnomalyDetected] *)
Record AnomalyDetected := mkAnomaly {
  an_item_id : string;
  an_severity : f64;
  an_explanation : string
}.

(** @src crates/ai/src/inventory_anomaly.rs 184-189 [mean] *)
Definition mean (xs : list f64) : f64 :=
  match xs with
  | [] => f64_zero
  | _ => f64_div (f64_sum xs) (of_int (Z.of_nat (length xs)))
  end.

(** @src crates/ai/src/inventory_anomaly.rs 192-205 [stddev_sample] *)
Definition stddev_sample (xs : list f64) (m : f64) : f64 :=
  if decide (length xs < 2) then f64_zero
  else
    let var := f64_div
      (f64_sum (map (fun x => let d := f64_sub x m in f64_mul d d) xs))
      (of_int (Z.of_nat (length xs - 1))) in
    f64_sqrt var.

(** @src crates/ai/src/inventory_anomaly.rs 128-134 [detect_item_anomaly] *)
Fixpoint deltas_of (trend : list Z) : list f64 :=
  match trend with
  | prev :: ((cur :: _) as rest) => f64_sub (of_int cur) (of_int prev) :: deltas_of rest
  | _ => []
  end.

(** [&deltas[start..end]] panics ([None]) when the range is reversed or too long. *)
Definition slice {A} (xs : list A) (first last : nat) : option (list A) :=
  if decide (first <= last /\ last <= length xs)
  then Some (take (last - first) (drop first xs)) else None.

Section Detection.
Context `{FloatText} `{Texts}.

(** The verdict on a movement against its baseline.

    @src crates/ai/src/inventory_anomaly.rs 144-181 [detect_item_anomaly] *)
Definition judge (item_id : string) (last_delta : f64) (baseline : list f64) (z_threshold : f64)
  : option AnomalyDetected :=
  let m := mean baseline in
  let std := stddev_sample baseline m in
  if f64_le std f64_epsilon
  then
    if f64_gt (f64_abs (f64_sub last_delta m)) f64_zero
    then Some {| an_item_id := item_id; an_severity := f64_one;
                 an_explanation := "item " +:+ item_id +:+ " moved by " +:+ fixed2 last_delta
                   +:+ " units; baseline movement is constant at " +:+ fixed2 m
                   +:+ " (std≈0)" |}
    else None
  else
    let z := f64_div (f64_sub last_delta m) std in
    let az := f64_abs z in
    if f64_lt az z_threshold then None
    else Some {| an_item_id := item_id; an_severity := f64_div az z_threshold;
                 an_explanation := "item " +:+ item_id +:+ " moved by " +:+ fixed2 last_delta
                   +:+ " units; baseline mean=" +:+ fixed2 m +:+ ", std=" +:+ fixed2 std
                   +:+ ", z=" +:+ fixed2 z +:+ " (threshold=" +:+ fixed2 z_threshold +:+ ")" |}.

(** [window] is a [usize]; the sums wrap.  [None] is a panic.

    @src crates/ai/src/inventory_anomaly.rs 117-182 [detect_item_anomaly] *)
Definition detect_item_anomaly (item : InventoryItemSnapshot) (window : Z) (z_threshold : f64)
  : option (option AnomalyDetected) :=
  if (Z.of_nat (length (is_historical_trend item)) <? wrapU 64 (window + 2))%Z
  then Some None
  else
    let deltas := deltas_of (is_historical_trend item) in
    let last_delta := unwrap_or (last deltas) f64_zero in
    let start := length deltas - Z.to_nat (wrapU 64 (window + 1)) in
    let end_ := length deltas - 1 in
    match slice deltas start end_ with
    | None => None
    | Some baseline => Some (judge (is_item_id item) last_delta baseline z_threshold)
    end.

(** ** The job *)

(** @src crates/ai/src/inventory_anomaly.rs 26-34 [InventoryAnomalyJob] *)
Record InventoryAnomalyJob := mkAnomalyJob {
  aj_tenant_id : TenantId;
  aj_input : InventorySnapshot;
  aj_window : Z;
  aj_z_threshold : f64
}.

(** @src crates/ai/src/inventory_anomaly.rs 37-44 [InventoryAnomalyJob::new] *)
Definition job_new (tenant_id : TenantId) (input : InventorySnapshot) : InventoryAnomalyJob :=
  {| aj_tenant_id := tenant_id; aj_input := input; aj_window := 10; aj_z_threshold := of_int 3 |}.

(** @src crates/ai/src/inventory_anomaly.rs 46-49 [InventoryAnomalyJob::with_window] *)
Definition with_window (window : Z) (self : InventoryAnomalyJob) : InventoryAnomalyJob :=
  {| aj_tenant_id := aj_tenant_id self; aj_input := aj_input self; aj_window := window;
     aj_z_threshold := aj_z_threshold self |}.

(** @src crates/ai/src/inventory_anomaly.rs 51-54 [InventoryAnomalyJob::with_z_threshold] *)
Definition with_z_threshold (z : f64) (self : InventoryAnomalyJob) : InventoryAnomalyJob :=
  {| aj_tenant_id := aj_tenant_id self; aj_input := aj_input self; aj_window := aj_window self;
     aj_z_threshold := z |}.

(** The loop over the items.

    @src crates/ai/src/inventory_anomaly.rs 87-93 [InventoryAnomalyJob::run] *)
Fixpoint detect_all (items : list InventoryItemSnapshot) (window : Z) (z : f64)
  : option (list AnomalyDetected) :=
  match items with
  | [] => Some []
  | item :: rest =>
    match detect_item_anomaly item window z with
    | None => None
    | Some found =>
      match detect_all rest window z with
      | None => None
      | Some l => Some (option_list found ++ l)
      end
    end
  end.

(** The serde form of [AnomalyDetected].

    @src crates/ai/src/inventory_anomaly.rs 13-18 [AnomalyDetected] *)
Definition anomaly_json (a : AnomalyDetected) : Json :=
  JObj [("item_id", JStr (an_item_id a)); ("severity", JFloat (f64_bits (an_severity a)));
        ("explanation", JStr (an_explanation a))].

(** @src crates/ai/src/inventory_anomaly.rs 95-114 [InventoryAnomalyJob::run] *)
Definition report (self : InventoryAnomalyJob) (anomalies : list AnomalyDetected) : AiResult :=
  let n := Z.of_nat (length anomalies) in
  let confidence := match anomalies with
                    | [] => f64_one | _ => f64_div (of_int 4) (of_int 5) end in
  with_metadata
    (JObj [("kind", JStr "inventory.anomaly_detection");
           ("tenant_id", JStr (show_uuid (tenant_uuid (aj_tenant_id self))));
           ("window", JInt (aj_window self));
           ("z_threshold", JFloat (f64_bits (aj_z_threshold self)));
           ("anomalies", JArr (map anomaly_json anomalies))])
    (with_explanation
       ("detected " +:+ pretty n
        +:+ " anomalous inventory movement(s) using rolling z-score (window="
        +:+ pretty (aj_window self) +:+ ", threshold=" +:+ show_f64 (aj_z_threshold self) +:+ ")")
       (result_new (of_int n) confidence)).

(** @src crates/ai/src/inventory_anomaly.rs 68-114 [InventoryAnomalyJob::run] *)
Definition anomaly_run (self : InventoryAnomalyJob) : option (Result AiError AiResult) :=
  if decide (isn_tenant_id (aj_input self) <> aj_tenant_id self)
  then Some (Err (InvalidInput "tenant_id mismatch between job and snapshot"))
  else if (aj_window self <? 2)%Z
  then Some (Err (InvalidInput "window must be >= 2 to compute standard deviation"))
  else if negb (is_finite (aj_z_threshold self) && f64_gt (aj_z_threshold self) f64_zero)
  then Some (Err (InvalidInput "z_threshold must be a finite positive number"))
  else
    match detect_all (isn_items (aj_input self)) (aj_window self) (aj_z_threshold self) with
    | None => None
    | Some anomalies => Some (Ok (report self anomalies))
    end.

(** @src crates/ai/src/inventory_anomaly.rs 57-115 [AiJob for InventoryAnomalyJob] *)
#[global] Instance InventoryAnomalyJob_job : AiJob InventoryAnomalyJob := {|
  job_tenant_id := aj_tenant_id; job_run := anomaly_run |}.
End Detection.

(** ** The window *)
Section Window.
Context `{FloatText} `{Texts}.

Lemma deltas_length trend : length (deltas_of trend) = length trend - 1.
Proof.
  induction trend as [|x [|y l] IH]; [done..|]. simpl in *. rewrite IH. lia.
Qed.

(** The movements of a longer history end with those of its end. *)
Lemma deltas_app before x recent :
  deltas_of (before ++ x :: recent) = deltas_of (before ++ [x]) ++ deltas_of (x :: recent).
Proof.
  induction before as [|y [|z l] IH]; [done | done |].
  change ((y :: z :: l) ++ x :: recent) with (y :: (z :: l) ++ x :: recent).
  change ((y :: z :: l) ++ [x]) with (y :: (z :: l) ++ [x]).
  cbn [deltas_of app] in *. by rewrite IH.
Qed.

Definition window_ok (window : Z) : Prop := (0 <= window < 2 ^ 64 - 2)%Z.

(** What is judged is the last movement, against the [window] movements before it;
    the rest of the history has no influence, and nothing panics. *)
Lemma detect_exact item window z :
  window_ok window ->
  let w := Z.to_nat window in
  let trend := is_historical_trend item in
  if decide (length trend < w + 2) then detect_item_anomaly item window z = Some None
  else exists baseline d,
    deltas_of (drop (length trend - (w + 2)) trend) = baseline ++ [d] /\ length baseline = w
    /\ detect_item_anomaly item window z = Some (judge (is_item_id item) d baseline z).
Proof.
  intros Hw w trend. unfold window_ok in Hw. unfold detect_item_anomaly. fold trend.
  rewrite !(wrapU_id 64) by ilia. destruct (decide (length trend < w + 2)) as [Hlt|Hge].
  { by destruct (Z.ltb_spec (Z.of_nat (length trend)) (window + 2)); [|lia]. }
  destruct (Z.ltb_spec (Z.of_nat (length trend)) (window + 2)); [lia|].
  set (recent := drop (length trend - (w + 2)) trend).
  assert (Hlen : length recent = w + 2) by (unfold recent; rewrite length_drop; lia).
  assert (Hall : exists before, deltas_of trend = before ++ deltas_of recent).
  { rewrite <- (take_drop (length trend - (w + 2)) trend). fold recent.
    destruct recent as [|x l]; [simpl in Hlen; lia|]. eexists. apply deltas_app. }
  destruct Hall as [before Hall].
  pose proof (deltas_length recent) as Hdl. pose proof (deltas_length trend) as Htl.
  destruct (deltas_of recent) as [|d l _] using rev_ind; [simpl in Hdl; lia|].
  rewrite length_app in Hdl. simpl in Hdl. exists l, d. split_and!; [done | lia |].
  rewrite Hall, app_assoc, last_snoc. rewrite Hall, !length_app in Htl. simpl in Htl.
  unfold slice. rewrite !length_app. simpl. rewrite decide_True by lia.
  do 3 f_equal. rewrite <- app_assoc, drop_app_length'; [|lia].
  apply take_app_length'. lia.
Qed.

(** The verdict on an item. *)
Definition verdict (window : Z) (z : f64) (item : InventoryItemSnapshot) : option AnomalyDetected :=
  default None (detect_item_anomaly item window z).

Lemma detect_all_exact items window z :
  window_ok window -> detect_all items window z = Some (omap (verdict window z) items).
Proof.
  intros Hw. induction items as [|item items IH]; simpl; [done|].
  assert (Hd : detect_item_anomaly item window z = Some (verdict window z item)).
  { unfold verdict. pose proof (detect_exact item window z Hw) as Hx. cbv zeta in Hx.
    destruct (decide _); [by rewrite Hx|]. by destruct Hx as (b & d & _ & _ & ->). }
  rewrite Hd, IH. by destruct (verdict window z item).
Qed.

(** Too short a history is never judged. *)
Lemma short_histories items window z :
  window_ok window ->
  Forall (fun item => length (is_historical_trend item) < Z.to_nat window + 2) items ->
  omap (verdict window z) items = [].
Proof.
  intros Hw. induction 1 as [|item items Hlt _ IH]; [done|]. simpl. unfold verdict at 1.
  pose proof (detect_exact item window z Hw) as Hx. cbv zeta in Hx.
  rewrite decide_True in Hx by done. by rewrite Hx.
Qed.

(** An anomaly is of its item, and at the threshold or above it: a movement off a
    constant baseline, or one whose z-score is not below the threshold. *)
Lemma judge_Some item_id d baseline z a :
  judge item_id d baseline z = Some a ->
  an_item_id a = item_id
  /\ let m := mean baseline in
     let std := stddev_sample baseline m in
     let az := f64_abs (f64_div (f64_sub d m) std) in
     (f64_le std f64_epsilon = true /\ an_severity a = f64_one
      /\ f64_gt (f64_abs (f64_sub d m)) f64_zero = true)
     \/ (f64_le std f64_epsilon = false /\ f64_lt az z = false /\ an_severity a = f64_div az z).
Proof.
  unfold judge. cbv zeta. destruct (f64_le _ _); [destruct (f64_gt _ _) eqn:Eg|destruct (f64_lt _ _) eqn:El];
    intros [= <-]; simpl; auto 6.
Qed.

Definition runnable (job : InventoryAnomalyJob) : Prop :=
  isn_tenant_id (aj_input job) = aj_tenant_id job /\ (2 <= aj_window job)%Z
  /\ is_finite (aj_z_threshold job) = true /\ f64_gt (aj_z_threshold job) f64_zero = true.

Lemma anomaly_run_total (job : InventoryAnomalyJob) :
  window_ok (aj_window job) ->
  exists r, anomaly_run job = Some r
  /\ (runnable job -> r = Ok (report job
        (omap (verdict (aj_window job) (aj_z_threshold job)) (isn_items (aj_input job))))).
Proof.
  intros Hw. unfold anomaly_run, runnable.
  destruct (decide _) as [Hne|_]; [eexists; split; [done|]; intros [? _]; congruence|].
  destruct (Z.ltb_spec (aj_window job) 2); [eexists; split; [done|]; lia|].
  destruct (is_finite _), (f64_gt _ _); simpl; try (by eexists; split; [|intros (_ & _ & [=] & [=])]).
  rewrite detect_all_exact by done. eauto.
Qed.

(** C19: anomaly detection: for every window that a [usize] plus two can hold, the
    scheduler of a tenant runs a job without a panic, succeeds exactly on that
    tenant's jobs over its own snapshot with a window of at least two and a finite
    positive threshold, and then reports, in the order of the items, exactly those
    whose last movement is judged anomalous against the [window] movements before
    it; items with a shorter history are never reported. *)
Theorem anomaly_job_exact t (job : InventoryAnomalyJob) :
  window_ok (aj_window job) ->
  exists r, scheduler_run (ForTenant t) job = Some r
  /\ (is_ok r = true <-> aj_tenant_id job = t /\ runnable job)
  /\ forall result, r = Ok result ->
     exists found, result = report job found
     /\ found = omap (verdict (aj_window job) (aj_z_threshold job)) (isn_items (aj_input job))
     /\ forall item a, item ∈ isn_items (aj_input job) ->
          verdict (aj_window job) (aj_z_threshold job) item = Some a <->
          let w := Z.to_nat (aj_window job) in
          let trend := is_historical_trend item in
          w + 2 <= length trend
          /\ exists baseline d,
               deltas_of (drop (length trend - (w + 2)) trend) = baseline ++ [d]
               /\ judge (is_item_id item) d baseline (aj_z_threshold job) = Some a.
Proof.
  intros Hw. unfold scheduler_run, allows. simpl.
  destruct (decide (t = aj_tenant_id job)) as [->|Hne].
  2: { rewrite bool_decide_false by done. simpl. eexists. split; [done|]. split; [|done].
       split; [done | by intros [<-]]. }
  rewrite bool_decide_true by done. simpl. unfold anomaly_run, runnable.
  destruct (decide _) as [Ht|Ht%dec_stable]; [eexists; split; [done|]; simpl; split; [|done]; split; [done | tauto]|].
  destruct (Z.ltb_spec (aj_window job) 2);
    [eexists; split; [done|]; simpl; split; [|done]; split; [done | lia]|].
  destruct (_ && _) eqn:Ez; simpl; apply andb_true_iff in Ez || apply andb_false_iff in Ez.
  2: { eexists. split; [done|]. simpl. split; [|done]. split; [done|].
       intros (_ & _ & _ & Hf & Hg). destruct Ez; congruence. }
  rewrite detect_all_exact by done. eexists. split; [done|]. simpl. split; [tauto|].
  intros result [= <-]. eexists. split_and!; [done..|]. intros item a _.
  pose proof (detect_exact item (aj_window job) (aj_z_threshold job) Hw) as Hx. cbv zeta in Hx.
  unfold verdict. destruct (decide _) as [Hlt|Hge].
  - rewrite Hx. simpl. split; [done|]. lia.
  - destruct Hx as (b & d & Hb & _ & ->). simpl. split; [intros Hj; split; [lia | eauto]|].
    intros (_ & b' & d' & Hb' & Hj). rewrite Hb in Hb'. by apply app_inj_tail in Hb' as [-> ->].
Qed.
End Window.

(** ** Samples *)
Module Sample.
Import SampleTexts.
#[local] Instance float_text : FloatText := fixed2.

Definition item (trend : list Z) : InventoryItemSnapshot := mkItemSnapshot "bolt" 0 trend.
Definition job (trends : list (list Z)) : InventoryAnomalyJob :=
  with_window 4 (job_new (mkTenantId 1) (mkSnapshot (mkTenantId 1) (map item trends))).

(** Movements of 1, 2, 1, 2 and then of 40. *)
Definition spike : list Z := [10; 11; 13; 14; 16; 56]%Z.
Definition calm : list Z := [10; 11; 13; 14; 16; 17]%Z.

Lemma anomaly_job_exact_witness :
  exists result, scheduler_run (ForTenant (mkTenantId 1)) (job [calm; spike; [1; 2]%Z])
    = Some (Ok result)
  /\ air_score result = f64_bits f64_one.
Proof.
  destruct (anomaly_job_exact (mkTenantId 1) (job [calm; spike; [1; 2]%Z]))
    as (r & Hr & Hok & Hres); [done|].
  destruct r as [result|e].
  - exists result. split; [exact Hr|]. destruct (Hres result eq_refl) as (found & -> & -> & _).
    vm_compute. reflexivity.
  - exfalso. assert (Hbad : is_ok (Err e : Result AiError AiResult) = true).
    { apply Hok. split; [reflexivity|]. split_and!; vm_compute; done. }
    discriminate Hbad.
Defined.

Example spike_explained :
  option_map an_explanation (verdict 4 (of_int 3) (item spike))
  = Some "item bolt moved by 40.00 units; baseline mean=1.50, std=0.58, z=66.68 (threshold=3.00)"%string.
Proof. vm_compute. reflexivity. Qed.

(** A constant baseline: any other movement is reported, with severity 1. *)
Example constant_baseline :
  option_map (fun a => f64_bits (an_severity a)) (verdict 4 (of_int 3) (item [0; 5; 10; 15; 20; 26]%Z))
  = Some (f64_bits f64_one)
  /\ verdict 4 (of_int 3) (item [0; 5; 10; 15; 20; 25]%Z) = None.
Proof. split; vm_compute; reflexivity. Qed.

(** The sum [window + 1] wraps at the largest window, and the slice is reversed. *)
Example largest_window_panics :
  detect_item_anomaly (item [1; 2]%Z) (2 ^ 64 - 1) (of_int 3) = None.
Proof. vm_compute. reflexivity. Qed.
End Sample.
