(* ===== verification/AnomalyRunner.v ===== *)
(** * The anomaly runner: [infra/src/ai/inventory_anomaly_runner.rs]

    The thread that runs the anomaly job of a tenant on a schedule and whenever
    its read model was updated: the body of its loop, the channels of its handle,
    and the steps of the thread and of the others around it.  Durations and
    instants are whole nanoseconds; an [Instant] that overflows is not modelled. *)

From S2P Require Import Prelude Core Events EventStore ReadModel Projection Float Http Anomaly.
From S2P Require Inventory Stock.

Local Open Scope Z_scope.

Definition from_millis (ms : Z) : Z := ms * 1000000.
Definition as_millis (d : Z) : Z := d / 1000000.

(** ** Configuration *)

(** @src crates/infra/src/ai/inventory_anomaly_runner.rs 44-51 [InventoryAnomalyRunner] *)
Record InventoryAnomalyRunner := mkRunner {
  rc_interval : Z;
  rc_max_retries : Z;
  rc_base_backoff : Z;
  rc_window : Z;
  rc_z_threshold : f64
}.

(** @src crates/infra/src/ai/inventory_anomaly_runner.rs 53-63 [InventoryAnomalyRunner::default] *)
Definition runner_default : InventoryAnomalyRunner :=
  {| rc_interval := from_millis 60000; rc_max_retries := 5; rc_base_backoff := from_millis 250;
     rc_window := 10; rc_z_threshold := of_int 3 |}.

(** @src crates/infra/src/ai/inventory_anomaly_runner.rs 239-244 [backoff] *)
Definition backoff (base attempt : Z) : Z :=
  let pow := Z.shiftl 1 (Z.min (saturating_subU attempt 1) 10) in
  let ms := saturating_mulU 128 (as_millis base) pow in
  from_millis (Z.min ms 10000).

(** ** Reading the stock *)

(** @src crates/ai/src/scheduler.rs 11-13 [ReadModelReader] *)
Class ReadModelReader (R S : Type) := {
  get_snapshot : R -> TenantId -> Result AiError S
}.

Section StockReader.
Context {S CS : Type} `{Texts}.
Context `{TenantStore S Inventory.InventoryItemId Stock.InventoryReadModel}.

(** @src crates/infra/src/projections/inventory_stock.rs 305-314 [ReadModelReader for InventoryStockProjection] *)
Definition item_snapshot (rm : Stock.InventoryReadModel) : InventoryItemSnapshot :=
  {| is_item_id := show_uuid (aggregate_uuid (Inventory.item_aggregate (Stock.rm_item_id rm)));
     is_quantity := Stock.rm_quantity rm;
     is_historical_trend := [Stock.rm_quantity rm] |}.

(** @src crates/infra/src/projections/inventory_stock.rs 298-318 [ReadModelReader for InventoryStockProjection] *)
#[global] Instance stock_reader : ReadModelReader (Projector S CS) InventorySnapshot := {|
  get_snapshot self tenant_id :=
    Ok {| isn_tenant_id := tenant_id;
          isn_items := map item_snapshot (ts_list (p_store self) tenant_id) |} |}.
End StockReader.

(** ** The loop *)

(** The local variables of the loop.

    @src crates/infra/src/ai/inventory_anomaly_runner.rs 149-152 [runner_loop] *)
Record Loop := mkLoop {
  next_tick : Z;
  pending : bool;
  failures : Z;
  backoff_until : option Z
}.

(** What the top of the loop leads to: out of it, to a sleep and the next turn, or
    to an attempt. *)
Inductive Next : Type := Break | Sleep (d : Z) | Attempt.

(** @src crates/infra/src/ai/inventory_anomaly_runner.rs 149-152 [runner_loop] *)
Definition loop_start (cfg : InventoryAnomalyRunner) (now : Z) : Loop :=
  {| next_tick := now + rc_interval cfg; pending := true; failures := 0; backoff_until := None |}.

(** [None] when the fuel is spent.

    @src crates/infra/src/ai/inventory_anomaly_runner.rs 164-166 [runner_loop] *)
Fixpoint catch_up (fuel : nat) (interval now tick : Z) : option Z :=
  if tick <=? now then
    match fuel with
    | O => None
    | S fuel => catch_up fuel interval now (tick + interval)
    end
  else Some tick.

(** The loop up to the attempt.  [now], [gate] and [wait] are its three readings
    of the clock; [queued] says that the trigger channel holds a message when it
    is drained.

    @src crates/infra/src/ai/inventory_anomaly_runner.rs 154-195 [runner_loop] *)
Definition loop_top (fuel : nat) (cfg : InventoryAnomalyRunner) (shutdown queued : bool)
    (now gate wait : Z) (l : Loop) : option (Loop * Next) :=
  if shutdown then Some (l, Break)
  else
    tick ← (if next_tick l <=? now then catch_up fuel (rc_interval cfg) now (next_tick l)
            else Some (next_tick l));
    let pending1 := pending l || (next_tick l <=? now) || queued in
    let l1 := {| next_tick := tick; pending := pending1; failures := failures l;
                 backoff_until := backoff_until l |} in
    let l2 := {| next_tick := tick; pending := pending1; failures := failures l;
                 backoff_until := None |} in
    let idle_or_attempt :=
      if negb pending1 then (l2, Sleep (Z.min (saturating_subU tick wait) (from_millis 250)))
      else ({| next_tick := tick; pending := false; failures := failures l;
               backoff_until := None |}, Attempt) in
    match backoff_until l with
    | Some until => if gate <? until then Some (l1, Sleep (from_millis 50)) else Some idle_or_attempt
    | None => Some idle_or_attempt
    end.

(** A failed attempt.

    @src crates/infra/src/ai/inventory_anomaly_runner.rs 202-208 [runner_loop] *)
Definition fail (cfg : InventoryAnomalyRunner) (now : Z) (l : Loop) : Loop :=
  let n := wrapU 32 (failures l + 1) in
  if n <=? rc_max_retries cfg
  then {| next_tick := next_tick l; pending := true; failures := n;
          backoff_until := Some (now + backoff (rc_base_backoff cfg) n) |}
  else {| next_tick := next_tick l; pending := pending l; failures := 0;
          backoff_until := backoff_until l |}.

(** @src crates/infra/src/ai/inventory_anomaly_runner.rs 219-219 [runner_loop] *)
Definition succeed (l : Loop) : Loop :=
  {| next_tick := next_tick l; pending := pending l; failures := 0;
     backoff_until := backoff_until l |}.

(** @src crates/infra/src/ai/inventory_anomaly_runner.rs 214-216 [runner_loop] *)
Definition runner_job (cfg : InventoryAnomalyRunner) (tenant_id : TenantId)
    (snapshot : InventorySnapshot) : InventoryAnomalyJob :=
  with_z_threshold (rc_z_threshold cfg) (with_window (rc_window cfg) (job_new tenant_id snapshot)).

(** The in-memory sink.

    @src crates/infra/src/ai/inventory_anomaly_runner.rs 37-41 [InMemoryAiInsightSink::emit] *)
Definition emit (sink : list (TenantId * AiResult)) (tenant_id : TenantId) (result : AiResult)
  : list (TenantId * AiResult) := sink ++ [(tenant_id, result)].

(** The end of an attempt: the job is run over the snapshot; [None] is a panic.

    @src crates/infra/src/ai/inventory_anomaly_runner.rs 213-233 [runner_loop] *)
Definition infer `{FloatText} `{Texts} (cfg : InventoryAnomalyRunner) (tenant_id : TenantId)
    (now : Z) (snapshot : InventorySnapshot) (l : Loop) (sink : list (TenantId * AiResult))
  : option (Loop * list (TenantId * AiResult)) :=
  match scheduler_run (ForTenant tenant_id) (runner_job cfg tenant_id snapshot) with
  | None => None
  | Some (Ok result) => Some (succeed l, emit sink tenant_id result)
  | Some (Err _) => Some (fail cfg now l, sink)
  end.

(** [try_send] on the trigger channel, which holds one message: a full channel
    stays as it is.

    @src crates/infra/src/ai/inventory_anomaly_runner.rs 78-81 [InventoryAnomalyRunnerHandle::trigger] *)
Definition trigger (queued : bool) : bool := if queued then queued else true.

(** ** The thread among the others

    The read model goes through the snapshots of [w_history], the last of which a
    reader is given.  [w_announced] is the number of them there were at the last
    trigger, [w_shown] the number at the reading behind each emitted result,
    [w_abandoned] what was announced when an attempt was given up, and [w_outcomes]
    how each attempt ended: with a result, with the request of another attempt, or
    without. *)
Inductive Outcome : Type := Succeeded | Retried | GaveUp.
Inductive Pc : Type :=
| Top
| Reading
| Inferring (version : nat) (snapshot : InventorySnapshot)
| Stopped
| Panicked.

Record World := mkWorld {
  w_now : Z;
  w_history : list InventorySnapshot;
  w_announced : nat;
  w_queued : bool;
  w_shutdown : bool;
  w_pc : Pc;
  w_loop : Loop;
  w_sink : list (TenantId * AiResult);
  w_shown : list nat;
  w_abandoned : nat;
  w_outcomes : list Outcome
}.

Section Runner.
Context `{FloatText} `{Texts}.
Context (cfg : InventoryAnomalyRunner) (tenant_id : TenantId).

(** @src crates/infra/src/ai/inventory_anomaly_runner.rs 98-132 [InventoryAnomalyRunner::spawn_for_tenant] *)
Definition spawn_for_tenant (now : Z) (s : InventorySnapshot) : World :=
  {| w_now := now; w_history := [s]; w_announced := 1; w_queued := false; w_shutdown := false;
     w_pc := Top; w_loop := loop_start cfg now; w_sink := []; w_shown := []; w_abandoned := 0;
     w_outcomes := [] |}.

Definition next_pc (n : Next) : Pc :=
  match n with Break => Stopped | Sleep _ => Top | Attempt => Reading end.
Definition sleep_time (n : Next) : Z := match n with Sleep d => d | _ => 0 end.
Definition drained (n : Next) (queued : bool) : bool :=
  match n with Break => queued | _ => false end.

(** How an attempt ended that emitted nothing: the loop asks for another or not. *)
Definition failed_outcome (l : Loop) : Outcome := if pending l then Retried else GaveUp.

(** The steps of the thread ([runner_loop] between its waits) and of its
    surroundings: the read model changes, a subscriber triggers the runner, its
    owner asks it to stop, time passes. *)
Inductive runner_step : World -> World -> Prop :=
| step_update w s :
    runner_step w
      (mkWorld (w_now w) (w_history w ++ [s]) (w_announced w) (w_queued w) (w_shutdown w)
         (w_pc w) (w_loop w) (w_sink w) (w_shown w) (w_abandoned w)
         (w_outcomes w))
| step_trigger w :
    runner_step w
      (mkWorld (w_now w) (w_history w) (length (w_history w)) (trigger (w_queued w))
         (w_shutdown w) (w_pc w) (w_loop w) (w_sink w) (w_shown w) (w_abandoned w)
         (w_outcomes w))
| step_shutdown w :
    runner_step w
      (mkWorld (w_now w) (w_history w) (w_announced w) (w_queued w) true
         (w_pc w) (w_loop w) (w_sink w) (w_shown w) (w_abandoned w)
         (w_outcomes w))
| step_top w fuel now gate wait l next :
    w_pc w = Top -> w_now w <= now -> now <= gate -> gate <= wait ->
    loop_top fuel cfg (w_shutdown w) (w_queued w) now gate wait (w_loop w) = Some (l, next) ->
    runner_step w
      (mkWorld (wait + sleep_time next) (w_history w) (w_announced w)
         (drained next (w_queued w)) (w_shutdown w) (next_pc next) l (w_sink w) (w_shown w)
         (w_abandoned w) (w_outcomes w))
| step_read w s :
    w_pc w = Reading -> last (w_history w) = Some s ->
    runner_step w
      (mkWorld (w_now w) (w_history w) (w_announced w) (w_queued w) (w_shutdown w)
         (Inferring (length (w_history w)) s) (w_loop w) (w_sink w) (w_shown w) (w_abandoned w)
         (w_outcomes w))
| step_read_fails w now :
    w_pc w = Reading -> w_now w <= now ->
    runner_step w
      (mkWorld now (w_history w) (w_announced w) (w_queued w) (w_shutdown w)
         Top (fail cfg now (w_loop w)) (w_sink w) (w_shown w)
         (if pending (fail cfg now (w_loop w)) then w_abandoned w else w_announced w)
         (w_outcomes w ++ [failed_outcome (fail cfg now (w_loop w))]))
| step_infer w now v s l sink :
    w_pc w = Inferring v s -> w_now w <= now ->
    infer cfg tenant_id now s (w_loop w) (w_sink w) = Some (l, sink) ->
    runner_step w
      (mkWorld now (w_history w) (w_announced w) (w_queued w) (w_shutdown w) Top l sink
         (if decide (length sink = length (w_sink w)) then w_shown w else w_shown w ++ [v])
         (if decide (length sink = length (w_sink w))
          then (if pending l then w_abandoned w else w_announced w) else w_abandoned w)
         (w_outcomes w
          ++ [if decide (length sink = length (w_sink w)) then failed_outcome l else Succeeded]))
| step_panic w now v s :
    w_pc w = Inferring v s ->
    infer cfg tenant_id now s (w_loop w) (w_sink w) = None ->
    runner_step w
      (mkWorld (w_now w) (w_history w) (w_announced w) (w_queued w) (w_shutdown w) Panicked
         (w_loop w) (w_sink w) (w_shown w) (w_abandoned w)
         (w_outcomes w)).

Definition reachable (w : World) : Prop :=
  exists now s, rtc runner_step (spawn_for_tenant now s) w.

(** ** The cadence *)

(** Ticks keep their distance: the next one is the first multiple of the interval
    after [now], and the loop finds it. *)
Lemma catch_up_exact fuel interval now tick :
  0 < interval -> tick <= now -> (Z.to_nat ((now - tick) / interval) < fuel)%nat ->
  catch_up fuel interval now tick = Some (tick + interval * ((now - tick) / interval + 1)).
Proof.
  intros Hi. revert tick. induction fuel as [|fuel IH]; intros tick Ht Hf; [lia|].
  simpl. destruct (Z.leb_spec tick now); [|lia].
  destruct (Z.le_gt_cases (tick + interval) now) as [Hle|Hgt].
  - assert (Hd : (now - (tick + interval)) / interval = (now - tick) / interval - 1).
    { replace (now - (tick + interval)) with (now - tick + (-1) * interval) by lia.
      rewrite Z.div_add by lia. lia. }
    assert (0 <= (now - (tick + interval)) / interval) by (apply Z.div_pos; lia).
    rewrite IH by (try rewrite Hd; lia). f_equal. rewrite Hd. lia.
  - rewrite (Z.div_small (now - tick)) by lia. destruct fuel; simpl;
      (destruct (Z.leb_spec (tick + interval) now); [lia|]); f_equal; lia.
Qed.

(** Whatever the fuel, an answer is the first tick after [now]. *)
Lemma catch_up_bounds fuel interval now tick tick' :
  0 < interval -> catch_up fuel interval now tick = Some tick' ->
  now < tick' /\ (tick' = tick \/ tick' <= now + interval).
Proof.
  intros Hi. revert tick. induction fuel as [|fuel IH]; intros tick; simpl;
    destruct (Z.leb_spec tick now); try done; [intros [= <-]; lia | | intros [= <-]; lia].
  intros Hc. destruct (IH _ Hc) as [? [->|?]]; lia.
Qed.

(** With an interval of zero the loop never leaves its first due tick. *)
Lemma zero_interval_hangs fuel now tick : tick <= now -> catch_up fuel 0 now tick = None.
Proof.
  intros Ht. revert tick Ht. induction fuel as [|fuel IH]; intros tick Ht; simpl;
    (destruct (Z.leb_spec tick now); [|lia]); [done | apply IH; lia].
Qed.

Lemma backoff_range base attempt : 0 <= base -> 0 <= backoff base attempt <= from_millis 10000.
Proof.
  intros Hb. unfold backoff, from_millis, saturating_mulU, as_millis.
  assert (0 <= base / 1000000) by (apply Z.div_pos; lia).
  assert (0 <= Z.shiftl 1 (Z.min (saturating_subU attempt 1) 10))
    by (apply Z.shiftl_nonneg; lia).
  assert (0 <= base / 1000000 * Z.shiftl 1 (Z.min (saturating_subU attempt 1) 10)) by nia.
  lia.
Qed.

(** ** The configuration a runner needs *)
Definition cfg_ok : Prop :=
  0 < rc_interval cfg /\ is_u32 (rc_max_retries cfg) /\ 0 <= rc_base_backoff cfg
  /\ 2 <= rc_window cfg /\ window_ok (rc_window cfg)
  /\ is_finite (rc_z_threshold cfg) = true /\ f64_gt (rc_z_threshold cfg) f64_zero = true.

(** The job over a snapshot of the tenant succeeds; over another it is refused. *)
Lemma runner_job_result s :
  cfg_ok ->
  exists r, scheduler_run (ForTenant tenant_id) (runner_job cfg tenant_id s) = Some r
  /\ (isn_tenant_id s = tenant_id -> exists result, r = Ok result).
Proof.
  intros (_ & _ & _ & Hw2 & Hw & Hz). unfold scheduler_run, allows. simpl.
  rewrite bool_decide_true by done. cbn [negb].
  destruct (anomaly_run_total (runner_job cfg tenant_id s) Hw) as (r & Hr & Hok).
  exists r. split; [exact Hr|]. intros Ht. eexists. by apply Hok.
Qed.

(** ** What holds in every reachable state *)

(** The result [e] is that of the job over the snapshot [v]. *)
Definition shows (w : World) (v : nat) (e : TenantId * AiResult) : Prop :=
  exists s, w_history w !! (v - 1)%nat = Some s /\ (1 <= v)%nat /\ e.1 = tenant_id
  /\ scheduler_run (ForTenant tenant_id) (runner_job cfg tenant_id s) = Some (Ok e.2).

(** What was announced has been shown, was given up, or will be attempted. *)
Definition attended (w : World) : Prop :=
  (exists v, v ∈ w_shown w /\ (w_announced w <= v)%nat) \/ (w_announced w <= w_abandoned w)%nat
  \/ w_queued w = true \/ pending (w_loop w) = true \/ w_pc w = Reading
  \/ exists v s, w_pc w = Inferring v s /\ (w_announced w <= v)%nat.

Definition at_attempt (w : World) : Prop :=
  match w_pc w with
  | Reading => pending (w_loop w) = false /\ backoff_until (w_loop w) = None
  | Inferring v s => pending (w_loop w) = false /\ backoff_until (w_loop w) = None
      /\ (1 <= v <= length (w_history w))%nat /\ w_history w !! (v - 1)%nat = Some s
      /\ (forall v', v' ∈ w_shown w -> (v' <= v)%nat)
  | Stopped => w_shutdown w = true
  | _ => True
  end.

(** The attempts end with exactly [n] that were to be repeated. *)
Definition retried_exactly (n : nat) (outcomes : list Outcome) : Prop :=
  exists before, outcomes = before ++ replicate n Retried /\ last before <> Some Retried.

(** An attempt is given up after [max_retries] repetitions, no fewer and no more. *)
Definition gives_up_late (outcomes : list Outcome) : Prop :=
  forall before after, outcomes = before ++ GaveUp :: after ->
  retried_exactly (Z.to_nat (rc_max_retries cfg)) before.

(** The counter of failures counts the repetitions. *)
Definition counted (w : World) : Prop :=
  retried_exactly (Z.to_nat (failures (w_loop w))) (w_outcomes w)
  /\ gives_up_late (w_outcomes w).

(** The [u32] counter can pass [max_retries]. *)
Definition countable : Prop := rc_max_retries cfg < 2 ^ 32 - 1.

Record runner_inv (w : World) : Prop := {
  ri_failures : 0 <= failures (w_loop w) <= rc_max_retries cfg;
  ri_history : (1 <= length (w_history w))%nat /\ (w_announced w <= length (w_history w))%nat;
  ri_shown : Forall2 (shows w) (w_shown w) (w_sink w);
  ri_sorted : StronglySorted le (w_shown w);
  ri_shown_le v : v ∈ w_shown w -> (v <= length (w_history w))%nat;
  ri_attended : w_pc w <> Stopped -> attended w;
  ri_attempt : at_attempt w;
  ri_no_panic : w_pc w <> Panicked;
  ri_tick : next_tick (w_loop w) <= w_now w + rc_interval cfg;
  ri_backoff u : backoff_until (w_loop w) = Some u ->
    exists t, t <= w_now w /\ u = t + backoff (rc_base_backoff cfg) (failures (w_loop w));
  ri_counted : countable -> counted w
}.

Lemma retried_snoc n l : retried_exactly n l -> retried_exactly (S n) (l ++ [Retried]).
Proof.
  intros (before & -> & Hb). exists before. split; [|done]. by rewrite <- app_assoc, replicate_S_end.
Qed.

Lemma retried_none l o : o <> Retried -> retried_exactly 0 (l ++ [o]).
Proof.
  intros Ho. exists (l ++ [o]). rewrite app_nil_r, last_snoc. split; [done | by intros [= ->]].
Qed.

Lemma gives_up_snoc l o :
  gives_up_late l -> (o = GaveUp -> retried_exactly (Z.to_nat (rc_max_retries cfg)) l) ->
  gives_up_late (l ++ [o]).
Proof.
  intros Hl Ho before after E. destruct after as [|x after _] using rev_ind.
  - apply app_inj_tail in E as [-> ->]. by apply Ho.
  - rewrite app_comm_cons, app_assoc in E. apply app_inj_tail in E as [-> _]. by eapply Hl.
Qed.

Lemma inv_start now s : cfg_ok -> runner_inv (spawn_for_tenant now s).
Proof.
  intros (Hi & Hm & Hcfg). unfold inU in *.
  split; cbn -[Z.add]; try done; try lia; try by constructor.
  - by intros v ?%elem_of_nil.
  - intros _. do 3 right. by left.
  - intros _. split; [by exists [] | by intros [] ?].
Qed.

Lemma shows_mono w w' v e :
  (exists tl, w_history w' = w_history w ++ tl) -> shows w v e -> shows w' v e.
Proof.
  intros [tl Htl] (s & Hs & Hr). exists s. split; [|done]. rewrite Htl.
  by apply lookup_app_l_Some.
Qed.

Lemma loop_top_spec fuel shutdown queued now gate wait l l' next :
  0 < rc_interval cfg -> now <= gate -> gate <= wait ->
  loop_top fuel cfg shutdown queued now gate wait l = Some (l', next) ->
  failures l' = failures l
  /\ (next_tick l' = next_tick l \/ next_tick l' <= now + rc_interval cfg)
  /\ (backoff_until l' = backoff_until l \/ backoff_until l' = None)
  /\ 0 <= sleep_time next
  /\ match next with
     | Break => shutdown = true /\ l' = l
     | Attempt => shutdown = false /\ pending l' = false /\ backoff_until l' = None
     | Sleep _ => shutdown = false /\ (pending l || queued = true -> pending l' = true)
     end.
Proof.
  intros Hi Hg Hw. unfold loop_top. destruct shutdown; [intros [= <- <-]; simpl; split_and!; auto; lia|].
  intros (tick & Ht & Hx)%bind_Some.
  assert (Hb : tick = next_tick l \/ tick <= now + rc_interval cfg).
  { destruct (next_tick l <=? now); [|injection Ht as <-; auto].
    destruct (catch_up_bounds _ _ _ _ _ Hi Ht) as [_ [->|?]]; auto. }
  clear Ht.
  assert (Hs : 0 <= Z.min (saturating_subU tick wait) (from_millis 250))
    by (unfold saturating_subU, from_millis; lia).
  assert (0 <= from_millis 50) by (unfold from_millis; lia).
  destruct (pending l); destruct queued; destruct (next_tick l <=? now);
    destruct (backoff_until l) as [u|]; try destruct (gate <? u);
    injection Hx as <- <-; simpl; split_and!; auto 8; lia.
Qed.

Lemma fail_spec now l :
  is_u32 (rc_max_retries cfg) ->
  0 <= failures l <= rc_max_retries cfg -> 0 <= rc_base_backoff cfg ->
  let l' := fail cfg now l in
  0 <= failures l' <= rc_max_retries cfg /\ next_tick l' = next_tick l
  /\ ((pending l' = true
       /\ backoff_until l' = Some (now + backoff (rc_base_backoff cfg) (failures l'))
       /\ (countable -> failures l' = failures l + 1))
      \/ (pending l' = pending l /\ backoff_until l' = backoff_until l /\ failures l' = 0
          /\ (countable -> failures l = rc_max_retries cfg))).
Proof.
  intros Hm Hf Hb. unfold fail, countable. cbv zeta.
  assert (0 <= wrapU 32 (failures l + 1)) by (apply (wrapU_range 32); lia).
  assert (Hc : rc_max_retries cfg < 2 ^ 32 - 1 -> wrapU 32 (failures l + 1) = failures l + 1)
    by (intros; apply wrapU_id; unfold inU; lia).
  destruct (Z.leb_spec (wrapU 32 (failures l + 1)) (rc_max_retries cfg)); simpl;
    (split_and!; [lia..|done|]).
  - left. by split_and!.
  - right. split_and!; try done. intros Hcount. rewrite (Hc Hcount) in *. lia.
Qed.

Lemma shown_snoc (w : World) v :
  StronglySorted le (w_shown w) -> (forall v', v' ∈ w_shown w -> (v' <= v)%nat) ->
  StronglySorted le (w_shown w ++ [v]).
Proof.
  intros Hs Hle. apply StronglySorted_app. split_and!; [|done | by repeat constructor].
  intros x y Hx ->%list_elem_of_singleton. auto.
Qed.

Lemma inv_update w s :
  runner_inv w ->
  runner_inv (mkWorld (w_now w) (w_history w ++ [s]) (w_announced w) (w_queued w) (w_shutdown w)
    (w_pc w) (w_loop w) (w_sink w) (w_shown w) (w_abandoned w)
    (w_outcomes w)).
Proof.
  intros [Hf Hh Hsh Hso Hle Hat Hpc Hnp Htk Hbo Hco]. split; cbn -[Z.add]; auto.
  - rewrite length_app. lia.
  - eapply Forall2_impl; [done|]. intros v e. apply shows_mono. by eexists.
  - intros v Hv. apply Hle in Hv. rewrite length_app. lia.
  - unfold at_attempt in *. simpl. destruct (w_pc w); auto.
    destruct Hpc as (? & ? & ? & ? & ?). rewrite length_app. split_and!; auto; try lia.
    by apply lookup_app_l_Some.
Qed.

Lemma inv_top w fuel now gate wait l next :
  cfg_ok -> runner_inv w ->
  w_pc w = Top -> w_now w <= now -> now <= gate -> gate <= wait ->
  loop_top fuel cfg (w_shutdown w) (w_queued w) now gate wait (w_loop w) = Some (l, next) ->
  runner_inv (mkWorld (wait + sleep_time next) (w_history w) (w_announced w)
    (drained next (w_queued w)) (w_shutdown w) (next_pc next) l (w_sink w) (w_shown w)
    (w_abandoned w) (w_outcomes w)).
Proof.
  intros (Hi & _) [Hf Hh Hsh Hso Hle Hat _ _ Htk Hbo Hco] Hp Hn Hg Hw Hl.
  destruct (loop_top_spec _ _ _ _ _ _ _ _ _ Hi Hg Hw Hl) as (Ef & Et & Eb & Hs & Hx).
  split; cbn -[Z.add]; auto.
  - by rewrite Ef.
  - intros Hne. specialize (Hat ltac:(congruence)). unfold attended in *. simpl.
    destruct next; [done | |by do 4 right; left]. simpl. destruct Hx as [_ Hx].
    destruct Hat as [?|[?|[Hq|[Hq|[?|(? & ? & ? & _)]]]]]; auto; try congruence;
      do 3 right; left; apply Hx; rewrite Hq; auto using orb_true_r.
  - unfold at_attempt. simpl. destruct next; simpl; [by destruct Hx | done | by destruct Hx].
  - by destruct next.
  - lia.
  - intros u Hu. destruct Eb as [Eb|Eb]; rewrite Eb in Hu; [|done].
    destruct (Hbo u Hu) as (t & Ht & ->). exists t. rewrite Ef. split; [lia | done].
  - unfold counted in *. simpl. by rewrite Ef.
Qed.

Lemma inv_read w s :
  runner_inv w -> w_pc w = Reading -> last (w_history w) = Some s ->
  runner_inv (mkWorld (w_now w) (w_history w) (w_announced w) (w_queued w) (w_shutdown w)
    (Inferring (length (w_history w)) s) (w_loop w) (w_sink w) (w_shown w) (w_abandoned w)
    (w_outcomes w)).
Proof.
  intros [Hf Hh Hsh Hso Hle Hat Hpc _ Htk Hbo Hco] Hp Hs. split; cbn -[Z.add]; auto.
  - intros _. unfold attended. simpl. do 5 right. eexists _, _. split; [done | lia].
  - unfold at_attempt in *. rewrite Hp in Hpc. simpl. destruct Hpc. split_and!; auto; try lia.
    rewrite last_lookup in Hs. by rewrite Nat.sub_1_r.
Qed.

(** An attempt that failed: it is retried, or what was announced is given up. *)
Lemma inv_fail w now :
  cfg_ok -> runner_inv w -> w_now w <= now ->
  pending (w_loop w) = false -> backoff_until (w_loop w) = None ->
  runner_inv (mkWorld now (w_history w) (w_announced w) (w_queued w) (w_shutdown w)
    Top (fail cfg now (w_loop w)) (w_sink w) (w_shown w)
    (if pending (fail cfg now (w_loop w)) then w_abandoned w else w_announced w)
    (w_outcomes w ++ [failed_outcome (fail cfg now (w_loop w))])).
Proof.
  intros (_ & Hm & Hb & _) [Hf Hh Hsh Hso Hle _ _ _ Htk Hbo Hco] Hn Hp Hu.
  destruct (fail_spec now (w_loop w) Hm Hf Hb) as (Hf' & Ht' & Hx).
  split; cbn -[Z.add fail]; auto.
  - intros _. unfold attended. cbn -[fail].
    destruct (pending (fail cfg now (w_loop w))) eqn:Ep; [by do 3 right; left | auto].
  - rewrite Ht'. lia.
  - intros u Hu'. destruct Hx as [(_ & Hu2 & _)|(_ & Hnone & _)]; [|congruence].
    exists now. split; [lia | congruence].
  - intros Hc. destruct (Hco Hc) as [Hr Hg]. unfold counted, failed_outcome. cbn -[fail].
    destruct Hx as [(-> & _ & Hn1)|(Hp1 & _ & -> & Hn1)].
    + rewrite (Hn1 Hc), Z2Nat.inj_add, Nat.add_1_r by lia.
      split; [by apply retried_snoc | by apply gives_up_snoc].
    + rewrite Hp1, Hp. split; [by apply retried_none|]. apply gives_up_snoc; [done|].
      intros _. by rewrite <- (Hn1 Hc).
Qed.

Lemma inv_infer w now v s l sink :
  cfg_ok -> runner_inv w -> w_pc w = Inferring v s -> w_now w <= now ->
  infer cfg tenant_id now s (w_loop w) (w_sink w) = Some (l, sink) ->
  runner_inv (mkWorld now (w_history w) (w_announced w) (w_queued w) (w_shutdown w) Top l sink
    (if decide (length sink = length (w_sink w)) then w_shown w else w_shown w ++ [v])
    (if decide (length sink = length (w_sink w))
     then (if pending l then w_abandoned w else w_announced w) else w_abandoned w)
    (w_outcomes w
     ++ [if decide (length sink = length (w_sink w)) then failed_outcome l else Succeeded])).
Proof.
  intros Hc Hinv Hp Hn Hi. pose proof (ri_attempt w Hinv) as Hpc. unfold at_attempt in Hpc.
  rewrite Hp in Hpc. destruct Hpc as (Hpend & Hbk & Hv & Hlk & Hle').
  unfold infer in Hi. destruct (scheduler_run _ _) as [[result|e]|] eqn:Er; [| |done];
    injection Hi as <- <-.
  2: { rewrite !decide_True by done. by apply inv_fail. }
  unfold emit. rewrite !decide_False by (rewrite length_app; simpl; lia).
  destruct Hc as (_ & Hm & _), Hinv as [Hf Hh Hsh Hso Hle Hat _ _ Htk Hbo Hco]. unfold inU in *.
  split; cbn -[Z.add]; auto; try lia.
  - apply Forall2_app; [done|]. constructor; [|constructor]. exists s. split_and!; auto. lia.
  - by apply shown_snoc.
  - intros v' [Hv'|Hv'%list_elem_of_singleton]%elem_of_app; [auto | subst; lia].
  - intros _. specialize (Hat ltac:(congruence)). unfold attended in *. cbn -[elem_of].
    destruct Hat as [(v' & Hv' & Ha)|[?|[?|[?|[?|(v' & s' & Hp' & Ha)]]]]]; auto; try congruence.
    + left. exists v'. rewrite elem_of_app. auto.
    + left. exists v. rewrite elem_of_app, list_elem_of_singleton. split; [auto | congruence].
  - intros u Hu. simpl in Hu. congruence.
  - intros Hc. destruct (Hco Hc) as [_ Hg].
    split; [by apply retried_none | by apply gives_up_snoc].
Qed.

Lemma inv_step w w' : cfg_ok -> runner_step w w' -> runner_inv w -> runner_inv w'.
Proof.
  intros Hc Hst Hinv. destruct Hst as [w s|w|w|w fuel now gate wait l next|w s|w now Hp Hn
    |w now v s l sink|w now v s Hp Hi].
  - by apply inv_update.
  - destruct Hinv as [Hf Hh Hsh Hso Hle Hat Hpc Hnp Htk Hbo Hco]. split; cbn -[Z.add]; auto; [lia|].
    intros _. do 2 right. left. unfold trigger. simpl. by destruct (w_queued w).
  - destruct Hinv as [Hf Hh Hsh Hso Hle Hat Hpc Hnp Htk Hbo Hco]. split; cbn -[Z.add]; auto.
    unfold at_attempt in *. simpl. by destruct (w_pc w).
  - by eapply inv_top.
  - by eapply inv_read.
  - pose proof (ri_attempt w Hinv) as Hpc. unfold at_attempt in Hpc. rewrite Hp in Hpc.
    destruct Hpc. by apply inv_fail.
  - by eapply inv_infer.
  - exfalso. destruct (runner_job_result s Hc) as (r & Hr & _). unfold infer in Hi.
    rewrite Hr in Hi. by destruct r.
Qed.

Lemma inv_reachable w : cfg_ok -> reachable w -> runner_inv w.
Proof.
  intros Hc (now & s & Hr). pose proof (inv_start now s Hc) as Hinv. revert Hinv.
  induction Hr as [|w1 w2 w3 Hst _ IH]; [done|]. intros. apply IH. by eapply inv_step.
Qed.

Lemma backoff_ahead w u :
  cfg_ok -> runner_inv w -> backoff_until (w_loop w) = Some u -> u <= w_now w + from_millis 10000.
Proof.
  intros (_ & _ & Hb & _) Hinv Hu. destruct (ri_backoff w Hinv u Hu) as (t & Ht & ->).
  pose proof (backoff_range (rc_base_backoff cfg) (failures (w_loop w)) Hb). lia.
Qed.


(** ** It catches up *)

Definition patience : Z := Z.max (rc_interval cfg) (from_millis 10000).

(** A turn that comes late enough makes an attempt, with any fuel that reaches the
    present tick. *)
Lemma late_turn_attempts w now gate wait :
  cfg_ok -> runner_inv w -> w_shutdown w = false ->
  w_now w + patience <= now -> now <= gate ->
  exists l, forall fuel,
    (Z.to_nat ((now - next_tick (w_loop w)) / rc_interval cfg) < fuel)%nat ->
    loop_top fuel cfg (w_shutdown w) (w_queued w) now gate wait (w_loop w) = Some (l, Attempt).
Proof.
  intros Hc Hinv Hs Hn Hg. unfold patience in Hn. pose proof (proj1 Hc) as Hi.
  pose proof (ri_tick w Hinv) as Htk.
  eexists. intros fuel Hf. unfold loop_top. rewrite Hs. cbv zeta.
  destruct (Z.leb_spec (next_tick (w_loop w)) now); [|lia].
  rewrite catch_up_exact by lia. simpl. rewrite orb_true_r. simpl.
  destruct (backoff_until (w_loop w)) as [u|] eqn:Hu; [|done].
  pose proof (backoff_ahead w u Hc Hinv Hu). by destruct (Z.ltb_spec gate u); [lia|].
Qed.

Definition quiet (w w' : World) : Prop :=
  rtc runner_step w w' /\ w_history w' = w_history w /\ w_announced w' = w_announced w
  /\ w_shutdown w' = w_shutdown w.

Lemma quiet_step w1 w2 w3 : quiet w1 w2 -> quiet w2 w3 -> quiet w1 w3.
Proof. intros (? & ? & ? & ?) (? & ? & ? & ?). split_and!; try congruence. by etrans. Qed.

(** What a reading leads to. *)
Definition caught_up (w w' : World) (s : InventorySnapshot) : Prop :=
  last (w_shown w') = Some (length (w_history w))
  /\ exists result, last (w_sink w') = Some (tenant_id, result)
     /\ scheduler_run (ForTenant tenant_id) (runner_job cfg tenant_id s) = Some (Ok result).

Lemma from_reading w s :
  cfg_ok -> w_pc w = Reading -> last (w_history w) = Some s -> isn_tenant_id s = tenant_id ->
  exists w', quiet w w' /\ w_now w' = w_now w /\ caught_up w w' s.
Proof.
  intros Hc Hp Hs Ht. destruct (runner_job_result s Hc) as (r & Hr & Hok).
  destruct (Hok Ht) as [result ->]. eexists. split; [split|].
  - eapply rtc_l; [by apply step_read|]. eapply rtc_once, (step_infer _ (w_now w)); [done..|].
    simpl. unfold infer. by rewrite Hr.
  - done.
  - split; [done|]. unfold caught_up, emit. simpl.
    rewrite !decide_False by (rewrite length_app; simpl; lia). rewrite !last_snoc. eauto.
Qed.

Lemma from_top w s :
  cfg_ok -> runner_inv w -> w_pc w = Top -> w_shutdown w = false ->
  last (w_history w) = Some s -> isn_tenant_id s = tenant_id ->
  exists w', quiet w w' /\ w_now w' = w_now w + patience /\ caught_up w w' s.
Proof.
  intros Hc Hinv Hp Hsd Hs Ht. set (now := w_now w + patience).
  assert (w_now w <= now) by (unfold now, patience, from_millis; lia).
  destruct (late_turn_attempts w now now now Hc Hinv Hsd) as [l Hl]; [lia..|].
  assert (Hst := step_top w _ now now now l Attempt Hp ltac:(lia) ltac:(lia) ltac:(lia)
                   (Hl _ (Nat.lt_succ_diag_r _))).
  set (w1 := mkWorld _ _ _ _ _ _ _ _ _ _ _) in Hst.
  destruct (from_reading w1 s) as (w' & Hq & Hn & Hu); [done..|].
  exists w'. split; [|split; [rewrite Hn; simpl; lia | exact Hu]].
  eapply quiet_step; [|exact Hq]. split; [by apply rtc_once | done].
Qed.

(** C18: from every reachable state, as long as it was not told to stop, the runner
    can show the present stock of its tenant, whatever had failed before, and
    without anything more being announced: within ten seconds or one interval of its
    clock, whichever is longer, it emits the report of the job over the last
    snapshot. *)
Theorem runner_catches_up w s :
  cfg_ok -> reachable w -> w_shutdown w = false ->
  last (w_history w) = Some s -> isn_tenant_id s = tenant_id ->
  exists w', quiet w w' /\ w_now w' <= w_now w + patience /\ caught_up w w' s.
Proof.
  intros Hc Hr Hsd Hs Ht. pose proof (inv_reachable w Hc Hr) as Hinv.
  assert (0 <= patience) by (unfold patience, from_millis; lia).
  destruct (w_pc w) as [| |v s'| |] eqn:Hp.
  - destruct (from_top w s) as (w' & ? & ? & ?); [done..|]. exists w'. split_and!; [done | lia | done].
  - destruct (from_reading w s) as (w' & ? & ? & ?); [done..|].
    exists w'. split_and!; [done | lia | done].
  - destruct (runner_job_result s' Hc) as (r & Hrun & _).
    assert (exists l sink, infer cfg tenant_id (w_now w) s' (w_loop w) (w_sink w) = Some (l, sink))
      as (l & sink & Hinf) by (unfold infer; rewrite Hrun; destruct r; eauto).
    pose proof (step_infer w (w_now w) v s' l sink Hp ltac:(lia) Hinf) as Hst.
    pose proof (inv_step _ _ Hc Hst Hinv) as Hinv1.
    edestruct from_top as (w' & Hq & Hn & Hu); [exact Hc | exact Hinv1 | done | done | done | done|].
    exists w'. split; [|split; [simpl in Hn; lia | exact Hu]].
    eapply quiet_step; [|exact Hq]. split; [by apply rtc_once | done].
  - pose proof (ri_attempt w Hinv) as Ha. unfold at_attempt in Ha. rewrite Hp in Ha. congruence.
  - by destruct (ri_no_panic w Hinv).
Qed.
End Runner.

(** ** As it is wired *)
Section Wired.
Context {S CS : Type} `{FloatText} `{Texts}.
Context `{TenantStore S Inventory.InventoryItemId Stock.InventoryReadModel}.

(** The snapshots of the stock read model have one quantity per item, and a
    movement takes two: whatever the stock and the configuration, the runner reports
    that nothing is anomalous. *)
Theorem wired_detection_is_blind (p : Projector S CS) cfg t (s : InventorySnapshot) :
  cfg_ok cfg -> get_snapshot p t = Ok s ->
  scheduler_run (ForTenant t) (runner_job cfg t s) = Some (Ok (report (runner_job cfg t s) [])).
Proof.
  intros (_ & _ & _ & Hw2 & Hw & Hz) [= <-]. unfold scheduler_run, allows. simpl job_tenant_id.
  rewrite bool_decide_true by done. cbn [negb].
  destruct (anomaly_run_total (runner_job cfg t
    {| isn_tenant_id := t; isn_items := map item_snapshot (ts_list (p_store p) t) |}) Hw)
    as (r & Hr & Hok).
  simpl job_run. rewrite Hr, Hok by done. do 3 f_equal. apply short_histories; [done|].
  apply Forall_map, Forall_true. intros rm. simpl. lia.
Qed.
End Wired.

(** ** Samples *)
Module Sample.
Import SampleTexts.
#[local] Instance float_text : FloatText := fixed2.

Definition tenant : TenantId := mkTenantId 1.
Definition cfg : InventoryAnomalyRunner :=
  {| rc_interval := from_millis 60000; rc_max_retries := 5; rc_base_backoff := from_millis 250;
     rc_window := 4; rc_z_threshold := of_int 3 |}.

Lemma cfg_works : cfg_ok cfg /\ cfg_ok runner_default.
Proof. split; split_and!; done. Qed.

Definition stock (trend : list Z) : InventorySnapshot :=
  mkSnapshot tenant [mkItemSnapshot "bolt" 0 trend].
Definition calm : InventorySnapshot := stock [10; 11; 13; 14; 16; 17].
Definition spike : InventorySnapshot := stock [10; 11; 13; 14; 16; 56].

(** The delays of the six attempts of the default configuration, and of a long
    series. *)
Example backoffs : map (fun n => as_millis (backoff (rc_base_backoff runner_default) n))
  [1; 2; 3; 4; 5; 6; 7; 100] = [250; 500; 1000; 2000; 4000; 8000; 10000; 10000].
Proof. reflexivity. Qed.

(** A tick that is three and a half intervals late is made up for by one attempt;
    the next one is on the grid. *)
Example late_tick :
  loop_top 10 cfg false false (from_millis 270000) (from_millis 270000) (from_millis 270000)
    (mkLoop (from_millis 60000) false 0 None)
  = Some (mkLoop (from_millis 300000) false 0 None, Attempt).
Proof. vm_compute. reflexivity. Qed.

(** The first attempt reads a calm stock; the update to the spike is announced
    before its result is emitted, and is left in the channel. *)
Definition first_result : option (Loop * list (TenantId * AiResult)) :=
  infer cfg tenant 0 calm (mkLoop (from_millis 60000) false 0 None) [].

Definition behind (result : AiResult) : World :=
  mkWorld 0 [calm; spike] 2 true false Top (mkLoop (from_millis 60000) false 0 None)
    [(tenant, result)] [1%nat] 0 [Succeeded].

Lemma behind_reached :
  exists result, reachable cfg tenant (behind result)
  /\ first_result = Some (mkLoop (from_millis 60000) false 0 None, [(tenant, result)]).
Proof.
  destruct first_result as [[l sink]|] eqn:E; [|by vm_compute in E].
  assert (E' := E). vm_compute in E'. injection E' as <- <-. eexists. split; [|reflexivity].
  exists 0, calm.
  eapply rtc_l; [by apply (step_top _ _ _ 1 0 0 0 (mkLoop (from_millis 60000) false 0 None) Attempt)|].
  eapply rtc_l; [by apply (step_read _ _ _ calm)|].
  eapply rtc_l; [by apply (step_update _ _ _ spike)|].
  eapply rtc_l; [by apply step_trigger|].
  eapply rtc_once. exact (step_infer cfg tenant
    (mkWorld 0 [calm; spike] 2 true false (Inferring 1 calm)
       (mkLoop (from_millis 60000) false 0 None) [] [] 0 [])
    0 1 calm _ _ eq_refl (Z.le_refl 0) E).
Qed.


Lemma runner_catches_up_witness :
  exists result w', quiet cfg tenant (behind result) w' /\ w_now w' <= from_millis 60000
  /\ caught_up cfg tenant (behind result) w' spike.
Proof.
  destruct behind_reached as (result & Hr & _). exists result.
  exact (runner_catches_up cfg tenant (behind result) spike (proj1 cfg_works) Hr
    eq_refl eq_refl eq_refl).
Defined.
End Sample.
