(* ===== verification/Worker.v ===== *)
(** * The projection worker: [infra/src/workers/projection_worker.rs]

    The loop of a worker thread, turn by turn, over the channels of the in-memory
    bus; and that, whatever the publishers and the other subscribers do, the handler
    is called on exactly its tenant's messages, in the order of publication, until
    the worker is told to stop. *)

From S2P Require Import Prelude Core Events Bus.

(** A message of some tenant.

    @src crates/events/src/tenant.rs 32-34 [TenantScoped] *)
Class TenantScoped (M : Type) := tenant_of : M -> TenantId.

(** @src crates/events/src/tenant.rs 36-40 [TenantScoped for EventEnvelope] *)
#[global] Instance EventEnvelope_tenant {E} : TenantScoped (EventEnvelope E) := env_tenant_id.

Section Worker.
Context {M H E : Type} `{!TenantScoped M}.

(** [FnMut(M) -> Result<(), E>]: the closure's own state is [H].  An error is
    logged and nothing else. *)
Context (handler : H -> M -> H * Result E unit).

(** The worker's thread and the shutdown channel of its handle.

    @src crates/infra/src/workers/projection_worker.rs 10-15 [WorkerHandle] *)
Record Worker := mkWorker {
  wk_sub : Subscription;
  wk_tenant_id : option TenantId;
  wk_state : H;
  wk_shutdown : bool;
  wk_running : bool
}.

(** @src crates/infra/src/workers/projection_worker.rs 42-65 [ProjectionWorker::spawn] *)
Definition spawn (bus : InMemoryEventBus M) (tenant_id : option TenantId) (h : H)
  : InMemoryEventBus M * Worker :=
  let '(bus', sub) := subscribe bus in
  (bus', {| wk_sub := sub; wk_tenant_id := tenant_id; wk_state := h; wk_shutdown := false;
            wk_running := true |}).

(** The thread is over: its subscription is dropped. *)
Definition stop (bus : InMemoryEventBus M) (w : Worker) : InMemoryEventBus M * Worker :=
  (drop_subscription bus (wk_sub w),
   {| wk_sub := wk_sub w; wk_tenant_id := wk_tenant_id w; wk_state := wk_state w;
      wk_shutdown := wk_shutdown w; wk_running := false |}).

(** @src crates/infra/src/workers/projection_worker.rs 88-93 [worker_loop] *)
Definition wanted (tenant_id : option TenantId) (msg : M) : bool :=
  match tenant_id with Some t => bool_decide (tenant_of msg = t) | None => true end.

(** @src crates/infra/src/workers/projection_worker.rs 87-98 [worker_loop] *)
Definition handle (tenant_id : option TenantId) (h : H) (msg : M) : H :=
  if wanted tenant_id msg then (handler h msg).1 else h.

(** One turn of the loop.

    @src crates/infra/src/workers/projection_worker.rs 80-103 [worker_loop] *)
Definition worker_turn (bus : InMemoryEventBus M) (w : Worker) : InMemoryEventBus M * Worker :=
  if negb (wk_running w) then (bus, w)
  else if wk_shutdown w then stop bus w
  else
    match recv_timeout bus (wk_sub w) with
    | (bus', Ok msg) =>
      (bus', {| wk_sub := wk_sub w; wk_tenant_id := wk_tenant_id w;
                wk_state := handle (wk_tenant_id w) (wk_state w) msg;
                wk_shutdown := wk_shutdown w; wk_running := true |})
    | (bus', Err Timeout) => (bus', w)
    | (bus', Err TimeoutDisconnected) => stop bus' w
    end.

(** The request of [shutdown]; the wait for the thread is not modelled.

    @src crates/infra/src/workers/projection_worker.rs 18-20 [WorkerHandle::shutdown] *)
Definition shutdown (w : Worker) : Worker :=
  {| wk_sub := wk_sub w; wk_tenant_id := wk_tenant_id w; wk_state := wk_state w;
     wk_shutdown := true; wk_running := wk_running w |}.

(** What can happen next: an operation of someone else on the bus, the worker's
    turn, the request to stop. *)
Inductive WorkerOp : Type :=
| WorkerBus (op : BusOp M)
| WorkerTurn
| WorkerShutdown.

Definition worker_op (s : InMemoryEventBus M * Worker) (op : WorkerOp)
  : InMemoryEventBus M * Worker :=
  match op with
  | WorkerBus op => ((bus_step s.1 op).1, s.2)
  | WorkerTurn => worker_turn s.1 s.2
  | WorkerShutdown => (s.1, shutdown s.2)
  end.

Definition worker_run (s : InMemoryEventBus M * Worker) (ops : list WorkerOp)
  : InMemoryEventBus M * Worker := foldl worker_op s ops.

Definition bus_ops (ops : list WorkerOp) : list (BusOp M) :=
  omap (fun op => match op with WorkerBus op => Some op | _ => None end) ops.

(** Nobody else receives from subscription [n] or drops it. *)
Definition others (n : nat) (ops : list WorkerOp) : Prop :=
  OpDrop n ∉ bus_ops ops /\ OpRecv n ∉ bus_ops ops.

(** The worker has handled [done] and [todo] waits in its queue. *)
Definition worker_ok (n : nat) (t : option TenantId) (h : H) (done todo : list M)
    (s : InMemoryEventBus M * Worker) : Prop :=
  bus_inv s.1 /\ receiver (wk_sub s.2) = n /\ wk_tenant_id s.2 = t
  /\ wk_state s.2 = foldl (fun h m => (handler h m).1) h (List.filter (wanted t) done)
  /\ (wk_running s.2 = true -> listening n todo s.1)
  /\ (wk_running s.2 = false -> wk_shutdown s.2 = true).

Lemma worker_turn_ok n t h finished todo s :
  worker_ok n t h finished todo s ->
  exists finished' todo', finished ++ todo = finished' ++ todo'
  /\ worker_ok n t h finished' todo' (worker_turn s.1 s.2).
Proof.
  destruct s as [bus w]. intros (Hb & Hn & Ht & Hs & Hl & Hd). simpl in *.
  unfold worker_turn. destruct (wk_running w) eqn:Er; simpl.
  2: { exists finished, todo. split; [done|]. split_and!; simpl; auto; congruence. }
  destruct (wk_shutdown w) eqn:Esd.
  { exists finished, todo. split; [done|]. split_and!; simpl; auto; done. }
  destruct (Hl eq_refl) as (Hin & c & Hc & Ha & Hsa & Hq).
  pose proof (bus_step_inv bus (OpRecv n) Hb) as Hb'.
  unfold recv_timeout, bus_step, try_recv in *. rewrite Hn. simpl in Hb'. rewrite Hc, Hq in *.
  destruct todo as [|m todo]; simpl in *.
  - rewrite Hsa. simpl. exists finished, []. split; [done|]. split_and!; simpl; auto; congruence.
  - exists (finished ++ [m]), todo. rewrite <- app_assoc. split; [done|]. split_and!; simpl; auto.
    + rewrite List.filter_app, foldl_app, <- Hs, Ht. unfold handle. simpl. by destruct (wanted t m).
    + intros _. split; [done|]. simpl. rewrite lookup_insert_eq. eauto 8.
Qed.

Lemma worker_op_ok n t h finished todo s op :
  worker_ok n t h finished todo s -> others n [op] ->
  exists finished' todo',
    finished ++ todo ++ published (bus_ops [op]) = finished' ++ todo'
    /\ worker_ok n t h finished' todo' (worker_op s op).
Proof.
  intros Hok Hot. destruct op as [op| |]; simpl in *.
  - destruct Hok as (Hb & Hn & Ht & Hs & Hl & Hd), Hot as [Hdrop Hrecv]. simpl in *.
    destruct (wk_running s.2) eqn:Er.
    + destruct (bus_step_listening s.1 op n todo Hb) as (todo' & Hl' & Hq).
      { intros ->. apply Hdrop. by left. }
      { by apply Hl. }
      exists finished, todo'. split.
      * change (finished ++ todo ++ published [op] = finished ++ todo'). f_equal. rewrite <- Hq.
        destruct op as [| |k|]; simpl; try done.
        destruct (try_recv _ _) as [b [m|]]; simpl; [|done].
        rewrite decide_False; [done|]. intros ->. apply Hrecv. by left.
      * split_and!; simpl; auto; [by apply bus_step_inv | congruence].
    + exists finished, (todo ++ published [op]). split; [done|].
      split_and!; simpl; auto; [by apply bus_step_inv | congruence].
  - rewrite app_nil_r. by apply worker_turn_ok.
  - exists finished, todo. rewrite app_nil_r. split; [done|].
    destruct Hok as (Hb & Hn & Ht & Hs & Hl & Hd). split_and!; simpl; auto.
Qed.

Lemma worker_run_ok n t h ops : forall finished todo s,
  worker_ok n t h finished todo s -> others n ops ->
  exists finished' todo',
    finished ++ todo ++ published (bus_ops ops) = finished' ++ todo'
    /\ worker_ok n t h finished' todo' (worker_run s ops).
Proof.
  induction ops as [|op ops IH]; intros finished todo s Hok Hot.
  { exists finished, todo. simpl. by rewrite app_nil_r. }
  assert (Hsplit : bus_ops (op :: ops) = bus_ops [op] ++ bus_ops ops)
    by (by destruct op).
  unfold others in Hot. rewrite Hsplit, !not_elem_of_app in Hot.
  destruct Hot as [[Hd1 Hd2] [Hr1 Hr2]].
  change (worker_run s (op :: ops)) with (worker_run (worker_op s op) ops).
  destruct (worker_op_ok n t h finished todo s op Hok) as (f1 & t1 & Heq1 & Hok1); [done|].
  destruct (IH f1 t1 _ Hok1) as (f2 & t2 & Heq2 & Hok2); [done|].
  exists f2, t2. split; [|done]. rewrite <- Heq2, Hsplit. unfold published in *.
  rewrite omap_app, !app_assoc. rewrite app_assoc in Heq1. by rewrite Heq1.
Qed.

(** C40: the worker: spawned on a running bus, whatever is published and whatever
    the other users of the bus do, it calls its handler on exactly its tenant's
    messages (on all of them without a tenant) among a prefix of those published
    since, each once and in that order, a handler's failure stopping nothing; while
    it runs the rest waits in its queue, and it stops only when it was told to. *)
Theorem worker_handles_tenant_in_order (before : list (BusOp M)) t h (ops : list WorkerOp) :
  let '(bus, w) := spawn (bus_run bus_new before).1 t h in
  others (receiver (wk_sub w)) ops ->
  let '(bus', w') := worker_run (bus, w) ops in
  exists finished todo,
    published (bus_ops ops) = finished ++ todo
    /\ wk_state w' = foldl (fun h m => (handler h m).1) h (List.filter (wanted t) finished)
    /\ (wk_running w' = true ->
        exists c, channels bus' !! receiver (wk_sub w) = Some c /\ ch_queue c = todo)
    /\ (wk_running w' = false -> wk_shutdown w' = true).
Proof.
  assert (Hnew : bus_inv (@bus_new M)) by (split; [constructor | done]).
  pose proof (bus_run_inv bus_new before Hnew) as Hb.
  generalize dependent (bus_run bus_new before).1. intros bus0 Hb. unfold spawn. simpl. intros Hot.
  assert (Hl : listening (next_channel bus0) [] (subscribe bus0).1).
  { destruct Hb as (_ & _ & Hp). unfold subscribe, listening. rewrite Hp. simpl.
    split; [set_solver|]. rewrite lookup_insert_eq. eauto 8. }
  apply (bus_step_inv bus0 OpSubscribe) in Hb.
  destruct (worker_run_ok (next_channel bus0) t h ops [] []
    ((subscribe bus0).1, mkWorker {| receiver := next_channel bus0 |} t h false true))
    as (f & todo & Heq & Hok); [| exact Hot |].
  { split_and!; [exact Hb | done..| intros _; exact Hl | done]. }
  unfold subscribe in *. simpl in *. destruct (worker_run _ ops) as [bus' w'].
  destruct Hok as (_ & Hn & _ & Hs & Hrun & Hd). simpl in *.
  exists f, todo. split_and!; auto. intros Hr. destruct (Hrun Hr) as (_ & c & Hc & _ & _ & Hq). eauto.
Qed.

(** Every message is handled, given turns: without a request to stop, a turn for
    each waiting message empties the queue. *)
Lemma turns_drain n t h finished todo s :
  worker_ok n t h finished todo s -> wk_running s.2 = true -> wk_shutdown s.2 = false ->
  worker_ok n t h (finished ++ todo) [] (worker_run s (replicate (length todo) WorkerTurn)).
Proof.
  revert finished s. induction todo as [|m todo IH]; intros finished s Hok Hr Hsd; simpl.
  { by rewrite app_nil_r. }
  destruct s as [bus w]. assert (Hok' := Hok). destruct Hok' as (Hb & Hn & Ht & Hs & Hl & Hd).
  simpl in *. destruct (Hl Hr) as (Hin & c & Hc & Ha & Hsa & Hq).
  assert (Hturn : worker_ok n t h (finished ++ [m]) todo (worker_turn bus w)
                  /\ wk_running (worker_turn bus w).2 = true
                  /\ wk_shutdown (worker_turn bus w).2 = false).
  { pose proof (bus_step_inv bus (OpRecv n) Hb) as Hb'.
    unfold worker_turn, recv_timeout, bus_step, try_recv in *. rewrite Hr, Hsd, Hn. simpl in *.
    rewrite Hc, Hq in *. simpl in *. split; [|done]. split_and!; simpl; auto; [|intros _].
    - rewrite List.filter_app, foldl_app, <- Hs, Ht. unfold handle. simpl. by destruct (wanted t m).
    - split; [done|]. simpl. rewrite lookup_insert_eq. eauto 8. }
  destruct Hturn as (Hok1 & Hr1 & Hsd1). specialize (IH _ _ Hok1 Hr1 Hsd1).
  by rewrite <- app_assoc in IH.
Qed.
End Worker.

(** ** Samples *)
Module Sample.

(** Messages are a tenant and a number; the handler keeps the numbers it was given,
    and fails on odd ones. *)
#[local] Instance pair_tenant : TenantScoped (TenantId * nat) := fst.

Definition keep (h : list nat) (m : TenantId * nat) : list nat * Result unit unit :=
  (h ++ [m.2], if Nat.odd m.2 then Err tt else Ok tt).

Definition us : TenantId := mkTenantId 1.
Definition them : TenantId := mkTenantId 2.

Definition ops : list (WorkerOp (M:=TenantId * nat)) :=
  [WorkerBus (OpPublish (us, 1)); WorkerBus (OpPublish (them, 2)); WorkerTurn; WorkerTurn;
   WorkerTurn; WorkerBus (OpPublish (us, 3)); WorkerBus (OpPublish (us, 4)); WorkerTurn].

Definition result : InMemoryEventBus (TenantId * nat) * Worker :=
  let '(bus, w) := spawn (bus_run bus_new []).1 (Some us) [] in worker_run keep (bus, w) ops.

Example failures_are_skipped : wk_state result.2 = [1; 3] /\ wk_running result.2 = true.
Proof. vm_compute. done. Qed.

Lemma worker_handles_tenant_in_order_witness :
  exists finished todo,
    published (bus_ops ops) = finished ++ todo
    /\ wk_state result.2
       = foldl (fun h m => (keep h m).1) [] (List.filter (wanted (Some us)) finished).
Proof.
  destruct (worker_handles_tenant_in_order keep [] (Some us) [] ops) as (f & todo & Hp & Hs & _).
  - split; repeat (apply not_elem_of_cons; split; [done|]); apply not_elem_of_nil.
  - exists f, todo. split; [exact Hp | exact Hs].
Defined.
End Sample.
