(* ===== verification/ReadApi.v ===== *)
(** * The interface of the read models

    What the other crates call of the projections of [infra/src/projections]
    besides [apply_envelope]: their constructors, lookups, listings, rebuilds and
    queries.  The theorems: a rebuild from the tenants' histories leaves each of
    them what its own theory says of those histories; and what the queries over
    the open invoices count, which is more than the open ones. *)

From S2P Require Import Prelude Core Events Bus EventStore ReadModel Projection.
From S2P Require Import Products Parties Sales Purchasing Invoicing.
From S2P Require Import Saga Directories Receivables.

(** ** [PartyDirectoryProjection] *)
Section Parties.
Context {S J CS : Type} `{HTS : TenantStoreLaws S PartyId PartyReadModel}.
Context `{HJ : Serde PartyEvent J} `{!ProjectionCursorStore CS}.
Implicit Types (self : Projector S CS).

(** @src crates/infra/src/projections/parties.rs 90-100 [PartyDirectoryProjection::new] *)
Definition new_parties (store : S) : Projector S CS := projector_new "parties.directory" store.

(** @src crates/infra/src/projections/parties.rs 180-183 [PartyDirectoryProjection::get] *)
Definition get_parties self (tenant_id : TenantId) (key : PartyId) : option PartyReadModel :=
  ts_get (p_store self) tenant_id key.

(** @src crates/infra/src/projections/parties.rs 185-188 [PartyDirectoryProjection::list] *)
Definition list_parties self (tenant_id : TenantId) : list PartyReadModel := ts_list (p_store self) tenant_id.

(** @src crates/infra/src/projections/parties.rs 309-343 [PartyDirectoryProjection::rebuild_from_scratch] *)
Definition rebuild_parties self (envelopes : list (EventEnvelope J))
  : Projector S CS * Result ProjectionFailure unit :=
  rebuild_from_scratch (deliver (HK := parties_projection)) ts_clear_tenant self envelopes.
End Parties.

(** ** [ProductCatalogProjection] *)
Section Products.
Context {S J CS : Type} `{HTS : TenantStoreLaws S ProductId ProductReadModel}.
Context `{HJ : Serde ProductEvent J} `{!ProjectionCursorStore CS}.
Implicit Types (self : Projector S CS).

(** @src crates/infra/src/projections/products.rs 82-89 [ProductCatalogProjection::new] *)
Definition new_products (store : S) : Projector S CS := projector_new "products.catalog" store.

(** @src crates/infra/src/projections/products.rs 148-150 [ProductCatalogProjection::get] *)
Definition get_products self (tenant_id : TenantId) (key : ProductId) : option ProductReadModel :=
  ts_get (p_store self) tenant_id key.

(** @src crates/infra/src/projections/products.rs 152-154 [ProductCatalogProjection::list] *)
Definition list_products self (tenant_id : TenantId) : list ProductReadModel := ts_list (p_store self) tenant_id.

(** @src crates/infra/src/projections/products.rs 241-269 [ProductCatalogProjection::rebuild_from_scratch] *)
Definition rebuild_products self (envelopes : list (EventEnvelope J))
  : Projector S CS * Result ProjectionFailure unit :=
  rebuild_from_scratch (deliver (HK := products_projection)) ts_clear_tenant self envelopes.
End Products.

(** ** [SalesOrdersProjection] *)
Section SalesOrders.
Context {S J CS : Type} `{HTS : TenantStoreLaws S SalesOrderId SalesOrderReadModel}.
Context `{HJ : Serde SalesOrderEvent J} `{!ProjectionCursorStore CS}.
Implicit Types (self : Projector S CS).

(** @src crates/infra/src/projections/sales_orders.rs 83-90 [SalesOrdersProjection::new] *)
Definition new_sales_orders (store : S) : Projector S CS := projector_new "sales.orders" store.

(** @src crates/infra/src/projections/sales_orders.rs 149-151 [SalesOrdersProjection::get] *)
Definition get_sales_orders self (tenant_id : TenantId) (key : SalesOrderId) : option SalesOrderReadModel :=
  ts_get (p_store self) tenant_id key.

(** @src crates/infra/src/projections/sales_orders.rs 153-155 [SalesOrdersProjection::list] *)
Definition list_sales_orders self (tenant_id : TenantId) : list SalesOrderReadModel := ts_list (p_store self) tenant_id.

(** @src crates/infra/src/projections/sales_orders.rs 251-279 [SalesOrdersProjection::rebuild_from_scratch] *)
Definition rebuild_sales_orders self (envelopes : list (EventEnvelope J))
  : Projector S CS * Result ProjectionFailure unit :=
  rebuild_from_scratch (deliver (HK := sales_orders_projection)) ts_clear_tenant self envelopes.
End SalesOrders.

(** ** [PurchaseOrdersProjection] *)
Section PurchaseOrders.
Context {S J CS : Type} `{HTS : TenantStoreLaws S PurchaseOrderId PurchaseOrderReadModel}.
Context `{HJ : Serde PurchaseOrderEvent J} `{!ProjectionCursorStore CS}.
Context (fresh_supplier : PurchaseOrderEvent -> PartyId).
Implicit Types (self : Projector S CS).

(** @src crates/infra/src/projections/purchasing.rs 78-85 [PurchaseOrdersProjection::new] *)
Definition new_purchase_orders (store : S) : Projector S CS := projector_new "purchasing.orders" store.

(** @src crates/infra/src/projections/purchasing.rs 144-146 [PurchaseOrdersProjection::get] *)
Definition get_purchase_orders self (tenant_id : TenantId) (key : PurchaseOrderId) : option PurchaseOrderReadModel :=
  ts_get (p_store self) tenant_id key.

(** @src crates/infra/src/projections/purchasing.rs 148-150 [PurchaseOrdersProjection::list] *)
Definition list_purchase_orders self (tenant_id : TenantId) : list PurchaseOrderReadModel := ts_list (p_store self) tenant_id.

(** @src crates/infra/src/projections/purchasing.rs 259-287 [PurchaseOrdersProjection::rebuild_from_scratch] *)
Definition rebuild_purchase_orders self (envelopes : list (EventEnvelope J))
  : Projector S CS * Result ProjectionFailure unit :=
  rebuild_from_scratch (deliver (HK := (purchase_orders_projection fresh_supplier))) ts_clear_tenant self envelopes.
End PurchaseOrders.

(** ** [InvoicesProjection] *)
Section Invoices.
Context {S J CS : Type} `{HTS : TenantStoreLaws S InvoiceId InvoiceReadModel}.
Context `{HJ : Serde InvoiceEvent J} `{!ProjectionCursorStore CS}.
Context (fresh_order : InvoiceEvent -> SalesOrderId).
Implicit Types (self : Projector S CS).

(** @src crates/infra/src/projections/invoices.rs 80-87 [InvoicesProjection::new] *)
Definition new_invoices (store : S) : Projector S CS := projector_new "invoicing.invoices" store.

(** @src crates/infra/src/projections/invoices.rs 146-148 [InvoicesProjection::get] *)
Definition get_invoices self (tenant_id : TenantId) (key : InvoiceId) : option InvoiceReadModel :=
  ts_get (p_store self) tenant_id key.

(** @src crates/infra/src/projections/invoices.rs 150-152 [InvoicesProjection::list] *)
Definition list_invoices self (tenant_id : TenantId) : list InvoiceReadModel := ts_list (p_store self) tenant_id.

(** @src crates/infra/src/projections/invoices.rs 248-276 [InvoicesProjection::rebuild_from_scratch] *)
Definition rebuild_invoices self (envelopes : list (EventEnvelope J))
  : Projector S CS * Result ProjectionFailure unit :=
  rebuild_from_scratch (deliver (HK := (invoices_projection fresh_order))) ts_clear_tenant self envelopes.
End Invoices.

(** ** [InvoiceAgingProjection] *)
Section Ageing.
Context {S J CS : Type} `{HTS : TenantStoreLaws S InvoiceId InvoiceAgingReadModel}.
Context `{HJ : Serde InvoiceEvent J} `{!ProjectionCursorStore CS}.
Implicit Types (self : Projector S CS).

(** @src crates/infra/src/projections/invoicing.rs 94-101 [InvoiceAgingProjection::new] *)
Definition new_ageing (store : S) : Projector S CS := projector_new "invoicing.aging" store.

(** @src crates/infra/src/projections/invoicing.rs 176-178 [InvoiceAgingProjection::get] *)
Definition get_ageing self (tenant_id : TenantId) (key : InvoiceId) : option InvoiceAgingReadModel :=
  ts_get (p_store self) tenant_id key.

(** @src crates/infra/src/projections/invoicing.rs 181-183 [InvoiceAgingProjection::list] *)
Definition list_ageing self (tenant_id : TenantId) : list InvoiceAgingReadModel := ts_list (p_store self) tenant_id.

(** @src crates/infra/src/projections/invoicing.rs 287-316 [InvoiceAgingProjection::rebuild_from_scratch] *)
Definition rebuild_ageing self (envelopes : list (EventEnvelope J))
  : Projector S CS * Result ProjectionFailure unit :=
  rebuild_from_scratch (deliver (HK := aging_projection)) ts_clear_tenant self envelopes.
End Ageing.

(** ** [OpenInvoicesProjection] *)
Section OpenInvoices.
Context {S J CS : Type} `{HTS : TenantStoreLaws S InvoiceId OpenInvoice}.
Context `{HJ : Serde InvoiceEvent J} `{!ProjectionCursorStore CS}.
Context (now : InvoiceEvent -> DateTime).
Implicit Types (self : Projector S CS).

(** @src crates/infra/src/projections/open_invoices.rs 122-129 [OpenInvoicesProjection::new] *)
Definition new_open_invoices (store : S) : Projector S CS := projector_new "invoicing.open" store.

(** @src crates/infra/src/projections/open_invoices.rs 196-198 [OpenInvoicesProjection::get] *)
Definition get_open_invoices self (tenant_id : TenantId) (key : InvoiceId) : option OpenInvoice :=
  ts_get (p_store self) tenant_id key.

(** @src crates/infra/src/projections/open_invoices.rs 201-203 [OpenInvoicesProjection::list] *)
Definition list_open_invoices self (tenant_id : TenantId) : list OpenInvoice := ts_list (p_store self) tenant_id.

(** @src crates/infra/src/projections/open_invoices.rs 347-376 [OpenInvoicesProjection::rebuild_from_scratch] *)
Definition rebuild_open_invoices self (envelopes : list (EventEnvelope J))
  : Projector S CS * Result ProjectionFailure unit :=
  rebuild_from_scratch (deliver (HK := (open_invoices_projection now))) ts_clear_tenant self envelopes.
End OpenInvoices.

(** ** A rebuild restores *)

(** [rebuild_fn] is a rebuild of the keyed projection [HK]: from any state, and
    from the whole histories of the tenants it is given, in any order and with
    repetitions, it succeeds; the entry of each of their streams is the fold of its
    history, and the other tenants keep what they had. *)
Definition restores {S K V J E CS} `{TenantStore S K V} `{!ProjectionCursorStore CS}
    (HK : Keyed S K V J E)
    (rebuild_fn : Projector S CS -> list (EventEnvelope J)
                  -> Projector S CS * Result ProjectionFailure unit) : Prop :=
  forall self (hist : TenantId -> AggregateId -> list E) (envs : list (EventEnvelope J)),
  (forall t a e, e ∈ hist t a -> kp_isolation t a e = None) ->
  (forall t a, (Z.of_nat (length (hist t a)) < 2 ^ 64)%Z) ->
  cursors_work self ->
  (forall env, env ∈ envs -> from_history (HK := HK) hist env) ->
  (forall t a i, (exists env, env ∈ envs /\ env_tenant_id env = t) -> (i < length (hist t a))%nat ->
     exists env, env ∈ envs /\ about kp_type t a env = true
                 /\ env_sequence_number env = (Z.of_nat i + 1)%Z) ->
  let '(self', r) := rebuild_fn self envs in
  r = Ok tt
  /\ (forall t a, (exists env, env ∈ envs /\ env_tenant_id env = t) ->
        ts_get (p_store self') t (kp_key a) = foldl (kp_step a) None (hist t a))
  /\ (forall t k, (forall env, env ∈ envs -> env_tenant_id env <> t) ->
        ts_get (p_store self') t k = ts_get (p_store self) t k).

Lemma keyed_restores {S K V J E CS} `{TenantStoreLaws S K V} `{!ProjectionCursorStore CS}
    (HK : Keyed S K V J E) :
  restores (CS := CS) HK (rebuild_from_scratch (deliver (HK := HK)) ts_clear_tenant).
Proof.
  intros self hist envs Hown Hshort Hw Hf Hall.
  pose proof (rebuild_tracks (HK := HK) hist Hown Hshort self envs Hw Hf Hall) as Hr.
  unfold rebuild in Hr. by destruct (rebuild_from_scratch _ _ _ _) as [self' r].
Qed.

Section Restores.
Context {J CS : Type} `{!ProjectionCursorStore CS}.
Context `{Serde PartyEvent J} `{Serde ProductEvent J} `{Serde SalesOrderEvent J}
  `{Serde PurchaseOrderEvent J} `{Serde InvoiceEvent J}.
Context {S1 S2 S3 S4 S5 S6 S7 : Type}
  `{TenantStoreLaws S1 PartyId PartyReadModel} `{TenantStoreLaws S2 ProductId ProductReadModel}
  `{TenantStoreLaws S3 SalesOrderId SalesOrderReadModel}
  `{TenantStoreLaws S4 PurchaseOrderId PurchaseOrderReadModel}
  `{TenantStoreLaws S5 InvoiceId InvoiceReadModel}
  `{TenantStoreLaws S6 InvoiceId InvoiceAgingReadModel} `{TenantStoreLaws S7 InvoiceId OpenInvoice}.

(** Every rebuild restores its read model. *)
Theorem rebuilds_restore_read_models fresh_supplier fresh_order now :
  restores (CS := CS) (parties_projection (S := S1) (J := J)) rebuild_parties
  /\ restores (CS := CS) (products_projection (S := S2) (J := J)) rebuild_products
  /\ restores (CS := CS) (sales_orders_projection (S := S3) (J := J)) rebuild_sales_orders
  /\ restores (CS := CS) (purchase_orders_projection fresh_supplier (S := S4) (J := J))
       (rebuild_purchase_orders fresh_supplier)
  /\ restores (CS := CS) (invoices_projection fresh_order (S := S5) (J := J))
       (rebuild_invoices fresh_order)
  /\ restores (CS := CS) (aging_projection (S := S6) (J := J)) rebuild_ageing
  /\ restores (CS := CS) (open_invoices_projection now (S := S7) (J := J))
       (rebuild_open_invoices now).
Proof. split_and!; apply keyed_restores. Qed.
End Restores.

(** ** Queries over the open invoices *)
Section OpenInvoiceQueries.
Context {S CS : Type} `{HTS : TenantStore S InvoiceId OpenInvoice}.
Implicit Types (self : Projector S CS).

(** @src crates/infra/src/projections/open_invoices.rs 205-213 [OpenInvoicesProjection::list_overdue] *)
Definition list_overdue self (tenant_id : TenantId) (now : DateTime) : list OpenInvoice :=
  List.filter (fun inv => (oi_due_date inv <? now)%Z) (ts_list (p_store self) tenant_id).

(** [Duration::days] in nanoseconds. *)
Definition days (n : Z) : Z := (n * 86400 * 1000000000)%Z.

(** @src crates/infra/src/projections/open_invoices.rs 215-224 [OpenInvoicesProjection::list_due_within_days] *)
Definition list_due_within_days self (tenant_id : TenantId) (n : Z) (now : DateTime)
  : list OpenInvoice :=
  let cutoff := (now + days n)%Z in
  List.filter (fun inv => (oi_due_date inv <=? cutoff)%Z && (now <=? oi_due_date inv)%Z)
    (ts_list (p_store self) tenant_id).

(** The summary a client asks for.

    @src crates/infra/src/projections/open_invoices.rs 226-229 [OpenInvoicesProjection::get_summary] *)
Definition summary self (tenant_id : TenantId) (now : DateTime) : OpenInvoicesSummary :=
  get_summary (ts_list (p_store self) tenant_id) now.
End OpenInvoiceQueries.

(** ** What the summary counts *)

(** What is still to be paid of an invoice. *)
Definition still_owed (s : Invoice) : Z :=
  if decide (inv_status s = Void) then 0%Z else outstanding_amount s.

Definition due_before (now : DateTime) (s : Invoice) : bool :=
  match inv_due_date s with Some d => (d <? now)%Z | None => false end.

Lemma outstanding_nonneg s : (0 <= outstanding_amount s)%Z.
Proof. unfold outstanding_amount. unfold saturating_subU; lia. Qed.

Lemma still_owed_nonneg s : (0 <= still_owed s)%Z.
Proof. unfold still_owed. case_decide; [done | apply outstanding_nonneg]. Qed.

Lemma owed_list_nonneg ss : Forall (Z.le 0) (map still_owed ss).
Proof. apply Forall_map, Forall_true. apply still_owed_nonneg. Qed.

(** The entries of the issued invoices, as [receivables_mirror_invoice] leaves
    them. *)
Definition entries_of (ss : list Invoice) (os : list OpenInvoice) : Prop :=
  Forall2 (fun s o => exists d g, mirrored s d g o) ss os.

Lemma entries_due now ss os :
  entries_of ss os ->
  entries_of (List.filter (due_before now) ss)
             (List.filter (fun o => bool_decide (oi_due_date o < now)%Z) os).
Proof.
  induction 1 as [|s o ss os (d & g & Hm) _ IH]; simpl; [constructor|].
  assert (Hd : due_before now s = bool_decide (oi_due_date o < now)%Z).
  { destruct Hm as (_ & _ & _ & Ho & _). unfold due_before. rewrite <- Ho.
    destruct (Z.ltb_spec (oi_due_date o) now); [by rewrite bool_decide_true|].
    by rewrite bool_decide_false by lia. }
  rewrite Hd. destruct (bool_decide _); [|exact IH]. constructor; [by exists d, g | exact IH].
Qed.

Lemma entries_owed ss os :
  entries_of ss os -> map oi_outstanding_amount os = map still_owed ss.
Proof.
  induction 1 as [|s o ss os (d & g & Hm) _ IH]; simpl; [done|]. rewrite IH. f_equal.
  destruct Hm as (_ & _ & _ & _ & _ & _ & _ & Ho). exact Ho.
Qed.

(** The amounts of the summary are what is still owed on the invoices, and of it
    what is overdue; its counts are of every issued invoice, and of every one past
    its due date, the paid and the void among them. *)
Theorem open_summary_counts_every_invoice ss os now :
  entries_of ss os -> (sumZ (map still_owed ss) < 2 ^ 64)%Z ->
  get_summary os now =
    {| ois_count := Z.of_nat (length ss);
       ois_total_outstanding := sumZ (map still_owed ss);
       ois_overdue_count := Z.of_nat (length (List.filter (due_before now) ss));
       ois_overdue_amount := sumZ (map still_owed (List.filter (due_before now) ss)) |}.
Proof.
  intros He Hfit. pose proof (entries_due now ss os He) as Hd. unfold get_summary.
  rewrite (entries_owed _ _ He), (entries_owed _ _ Hd).
  rewrite <- (Forall2_length _ _ _ He), <- (Forall2_length _ _ _ Hd).
  assert (Hle : (0 <= sumZ (map still_owed (List.filter (due_before now) ss))
                 <= sumZ (map still_owed ss))%Z).
  { split; [apply sumZ_nonneg, owed_list_nonneg|]. clear. induction ss as [|s ss IH]; simpl; [lia|].
    pose proof (still_owed_nonneg s). destruct (due_before now s); simpl; lia. }
  f_equal; apply wrapU_id; unfold inU; lia.
Qed.

(** ** Samples *)
Module Sample.
#[local] Instance sample_serde : Serde InvoiceEvent InvoiceEvent :=
  {| to_value e := Ok e; from_value j := Ok j |}.

Definition history : list InvoiceEvent :=
  emitted (empty sample_id) [sample_issue [sample_line 2 100]; sample_pay 200].

Definition delivered : Projector (InMemoryTenantStore InvoiceId OpenInvoice) InMemoryCursorStore :=
  (project_all (deliver (HK := open_invoices_projection (fun _ => 1%Z))) (new_open_invoices ∅)
     (zip_with (fun n e => mkEnvelope n sample_tenant (invoice_aggregate sample_id)
                             "invoicing.invoice" (Z.of_N n) e)
        [1%N; 2%N] history)).1.

(** A fully paid invoice is still listed as overdue, and counted. *)
Example paid_invoice_listed_as_overdue :
  map oi_outstanding_amount (list_overdue delivered sample_tenant 200) = [0%Z]
  /\ ois_overdue_count (summary delivered sample_tenant 200) = 1%Z.
Proof. vm_compute. done. Qed.
End Sample.
