(* ===== verification/JobLoop.v ===== *)
(** * The job executor's thread and the job reports: [infra/src/jobs]

    The delay before a retry ([types.rs]) in [f64]; the listings and statistics of
    the in-memory store ([store.rs]); and the polling loop of the executor's thread
    with its own statistics ([executor.rs]), whose runs are runs of the system of
    [Executor], so that what is proved there holds of every store the loop works
    on. *)

From S2P Require Import Prelude Core Float Jobs Executor.
From stdpp Require Import relations fin_map_dom.

(** ** Retry delays *)

(** @src crates/infra/src/jobs/types.rs 186-194 [RetryPolicy::exponential] *)
Definition retry_exponential (max_attempts base_delay max_delay : Z) : RetryPolicy :=
  {| max_attempts := max_attempts; base_delay := base_delay; max_delay := max_delay;
     strategy := Exponential; jitter := 0x3FB999999999999A%N |}.

Definition millis (d : Z) : Z := (d / 1000000)%Z.

(** Before the jitter, in milliseconds; [(attempt - 1) as i32] wraps.

    @src crates/infra/src/jobs/types.rs 202-215 [RetryPolicy::delay_for_attempt] *)
Definition nominal_delay (self : RetryPolicy) (attempt : Z) : f64 :=
  let base_ms := of_int (millis (base_delay self)) in
  let max_ms := of_int (millis (max_delay self)) in
  match strategy self with
  | Fixed => base_ms
  | Exponential => f64_min (f64_mul base_ms (f64_pow2 (wrapS 32 (attempt - 1)))) max_ms
  | Linear => f64_min (f64_mul base_ms (of_int attempt)) max_ms
  end.

(** @src crates/infra/src/jobs/types.rs 217-225 [RetryPolicy::delay_for_attempt] *)
Definition jitter_of (self : RetryPolicy) (attempt : Z) (delay_ms : f64) : f64 :=
  let jitter_range := f64_mul delay_ms (f64_of_bits (Z.of_N (jitter self))) in
  if f64_gt jitter_range f64_zero
  then
    let pseudo_random :=
      f64_div (f64_rem (f64_mul (of_int attempt) (of_int 17)) (of_int 100)) (of_int 100) in
    f64_mul (f64_mul jitter_range (f64_sub pseudo_random (f64_div f64_one (of_int 2)))) (of_int 2)
  else f64_zero.

(** In nanoseconds.

    @src crates/infra/src/jobs/types.rs 196-228 [RetryPolicy::delay_for_attempt] *)
Definition delay_for_attempt (self : RetryPolicy) (attempt : Z) : Z :=
  if decide (attempt = 0%Z) then 0%Z
  else
    let delay_ms := nominal_delay self attempt in
    (f64_to_u64 (f64_max (f64_add delay_ms (jitter_of self attempt delay_ms)) f64_zero)
     * 1000000)%Z.

(** Within a tenth of twice the previous delay, from half a second, up to a
    minute. *)
Definition near_nominal (attempt : Z) : bool :=
  let nominal := (Z.min (500 * 2 ^ (attempt - 1)) 60000)%Z in
  let d := millis (delay_for_attempt retry_default attempt) in
  ((9 * nominal <=? 10 * d + 10)%Z && (10 * d <=? 11 * nominal)%Z).

(** The default policy up to its thousandth attempt (it allows five). *)
Lemma default_delays attempt :
  (1 <= attempt <= 1000)%Z -> near_nominal attempt = true.
Proof.
  intros Ha. assert (H : forallb near_nominal (map Z.of_nat (seq 1 1000)) = true)
    by (vm_compute; reflexivity).
  rewrite forallb_forall in H. apply H, in_map_iff. exists (Z.to_nat attempt).
  split; [lia|]. apply in_seq. lia.
Qed.

(** The jitter comes after the cap: a delay may exceed [max_delay]. *)
Example delay_above_cap :
  millis (delay_for_attempt retry_default 11) = 64440%Z
  /\ millis (max_delay retry_default) = 60000%Z.
Proof. vm_compute. done. Qed.

(** ** Building a job *)
Section Building.
Context {J : Type}.
Implicit Types (self : Job J).

(** @src crates/infra/src/jobs/types.rs 293-297 [Job::with_retry_policy] *)
Definition with_retry_policy (policy : RetryPolicy) self : Job J :=
  {| job_id := job_id self; job_tenant_id := job_tenant_id self; job_kind := job_kind self;
     job_payload := job_payload self; job_status := job_status self; job_retry_policy := policy;
     job_attempt := job_attempt self; job_created_at := job_created_at self;
     job_updated_at := job_updated_at self; job_scheduled_at := job_scheduled_at self;
     job_history := job_history self |}.

(** @src crates/infra/src/jobs/types.rs 299-303 [Job::scheduled_at] *)
Definition scheduled_at (at_ : DateTime) self : Job J := with_scheduled_at (Some at_) self.

(** @src crates/infra/src/jobs/types.rs 305-309 [Job::delayed] *)
Definition delayed (now : DateTime) (delay : Z) self : Job J :=
  with_scheduled_at (Some (now + from_std delay)%Z) self.

(** A delayed job is not claimed before its time. *)
Lemma delayed_not_claimable now delay later tenant self :
  (0 <= delay)%Z -> (later < now + from_std delay)%Z ->
  claimable later tenant (delayed now delay self) = false.
Proof.
  intros Hd Hl. unfold claimable, is_ready, delayed. simpl.
  destruct (Z.leb_spec (now + from_std delay) later); [lia|].
  rewrite andb_false_r. by destruct (job_status self).
Qed.
End Building.

(** ** Listings and statistics of the store *)
Section Reports.
Context {J : Type}.
Implicit Types (self : InMemoryJobStore J) (j : Job J).

#[global] Instance JobKind_eq_dec : EqDecision JobKind.
Proof. solve_decision. Defined.

(** [std::mem::discriminant]. *)
Definition same_discriminant (s s' : JobStatus) : bool :=
  match s, s' with
  | Pending, Pending | Running, Running | Completed, Completed | Failed _ _, Failed _ _
  | DeadLettered _ _, DeadLettered _ _ | Cancelled, Cancelled => true
  | _, _ => false
  end.

(** [order] lists the values of a map in its iteration order.

    @src crates/infra/src/jobs/store.rs 170-191 [InMemoryJobStore::list_by_status] *)
Definition list_by_status (order : gmap JobId (Job J) -> list (Job J)) self
    (tenant_id : TenantId) (status : option JobStatus) (limit : nat) : list (Job J) :=
  take limit (sort_by older (List.filter
    (fun j => bool_decide (job_tenant_id j = tenant_id)
              && match status with None => true | Some s => same_discriminant (job_status j) s end)
    (order (jobs self)))).

(** @src crates/infra/src/jobs/store.rs 193-209 [InMemoryJobStore::list_by_kind] *)
Definition list_by_kind (order : gmap JobId (Job J) -> list (Job J)) self
    (tenant_id : TenantId) (kind : JobKind) (limit : nat) : list (Job J) :=
  take limit (sort_by older (List.filter
    (fun j => bool_decide (job_tenant_id j = tenant_id) && bool_decide (job_kind j = kind))
    (order (jobs self)))).

Definition dead_longer (e e' : DeadLetterEntry J) : bool := (dl_at e <=? dl_at e')%Z.

(** @src crates/infra/src/jobs/store.rs 227-242 [InMemoryJobStore::list_dead_letters] *)
Definition list_dead_letters
    (order : gmap JobId (DeadLetterEntry J) -> list (DeadLetterEntry J)) self
    (tenant_id : TenantId) (limit : nat) : list (DeadLetterEntry J) :=
  take limit (sort_by dead_longer (List.filter
    (fun e => bool_decide (job_tenant_id (dl_job e) = tenant_id)) (order (dead_letters self)))).

(** @src crates/infra/src/jobs/store.rs 76-85 [JobStats] *)
Record JobStats := mkJobStats {
  js_pending : nat;
  js_running : nat;
  js_completed : nat;
  js_failed : nat;
  js_dead_lettered : nat;
  js_cancelled : nat
}.

(** @src crates/infra/src/jobs/store.rs 288-300 [InMemoryJobStore::stats] *)
Definition count_job (tenant_id : TenantId) (s : JobStats) j : JobStats :=
  if decide (job_tenant_id j <> tenant_id) then s
  else
    let '(mkJobStats p r c f d x) := s in
    match job_status j with
    | Pending => mkJobStats (S p) r c f d x
    | Running => mkJobStats p (S r) c f d x
    | Completed => mkJobStats p r (S c) f d x
    | Failed _ _ => mkJobStats p r c (S f) d x
    | DeadLettered _ _ => mkJobStats p r c f (S d) x
    | Cancelled => mkJobStats p r c f d (S x)
    end.

(** @src crates/infra/src/jobs/store.rs 302-306 [InMemoryJobStore::stats] *)
Definition count_entry (tenant_id : TenantId) (s : JobStats) (e : DeadLetterEntry J) : JobStats :=
  if decide (job_tenant_id (dl_job e) = tenant_id)
  then let '(mkJobStats p r c f d x) := s in mkJobStats p r c f (S d) x
  else s.

(** @src crates/infra/src/jobs/store.rs 282-309 [InMemoryJobStore::stats] *)
Definition stats (order : gmap JobId (Job J) -> list (Job J))
    (dl_order : gmap JobId (DeadLetterEntry J) -> list (DeadLetterEntry J)) self
    (tenant_id : TenantId) : JobStats :=
  foldl (count_entry tenant_id)
    (foldl (count_job tenant_id) (mkJobStats 0 0 0 0 0 0) (order (jobs self)))
    (dl_order (dead_letters self)).

Definition stats_total (s : JobStats) : nat :=
  js_pending s + js_running s + js_completed s + js_failed s + js_dead_lettered s
  + js_cancelled s.

(** Any iteration order of the store's maps. *)
Definition any_order {V} (order : gmap JobId V -> list V) : Prop :=
  forall m, order m ≡ₚ map snd (map_to_list m).

Lemma elem_of_order {V} (order : gmap JobId V -> list V) m v :
  any_order order -> v ∈ order m <-> exists id, m !! id = Some v.
Proof.
  intros Ho. rewrite (Ho m), list_elem_of_fmap. split.
  - intros ([id w] & -> & Hin%elem_of_map_to_list). by exists id.
  - intros [id Hid]. exists (id, v). by rewrite elem_of_map_to_list.
Qed.

Lemma older_total (j j' : Job J) : older j j' = true \/ older j' j = true.
Proof. unfold older. rewrite !Z.leb_le. lia. Qed.

Lemma older_trans (j1 j2 j3 : Job J) :
  older j1 j2 = true -> older j2 j3 = true -> older j1 j3 = true.
Proof. unfold older. rewrite !Z.leb_le. lia. Qed.

(** A listing long enough has exactly the tenant's jobs of the status, the oldest
    first; a shorter one is the oldest of them. *)
Theorem list_by_status_exact order self t status limit :
  any_order order ->
  let found := list_by_status order self t status limit in
  StronglySorted (fun x y => older x y = true) found
  /\ (forall j, j ∈ found -> (exists id, jobs self !! id = Some j) /\ job_tenant_id j = t)
  /\ ((size (jobs self) <= limit)%nat ->
      forall j, (exists id, jobs self !! id = Some j) -> job_tenant_id j = t ->
        match status with None => true | Some s => same_discriminant (job_status j) s end = true ->
        j ∈ found).
Proof.
  intros Ho found. unfold found, list_by_status.
  set (keep := fun j : Job J => bool_decide (job_tenant_id j = t) && _).
  pose proof (sort_by_sorted older older_total older_trans
                (List.filter keep (order (jobs self)))) as Hs.
  assert (Helem : forall j, j ∈ sort_by older (List.filter keep (order (jobs self))) <->
            (exists id, jobs self !! id = Some j) /\ keep j = true).
  { intros j. rewrite sort_by_perm, list_elem_of_In, filter_In, <- list_elem_of_In.
    by rewrite elem_of_order. }
  split_and!.
  - rewrite <- (take_drop limit (sort_by _ _)) in Hs. by apply StronglySorted_app in Hs as (_ & ? & _).
  - intros j (i & Hi & _)%elem_of_take. apply list_elem_of_lookup_2, Helem in Hi as [? Hk].
    apply andb_true_iff in Hk as [Ht _]. by apply bool_decide_eq_true in Ht.
  - intros Hlim j Hj Ht Hst. rewrite take_ge.
    + apply Helem. split; [done|]. unfold keep. by rewrite bool_decide_true.
    + rewrite sort_by_perm. etrans; [apply List.filter_length_le|].
      rewrite (Ho (jobs self)), length_map. by rewrite length_map_to_list.
Qed.

Lemma count_jobs_total t js : forall s,
  stats_total (foldl (count_job t) s js)
  = stats_total s + length (List.filter (fun j => bool_decide (job_tenant_id j = t)) js).
Proof.
  induction js as [|j js IH]; intros s; simpl; [lia|]. rewrite IH. unfold count_job.
  destruct (decide _) as [Hne|Heq%dec_stable]; [by rewrite bool_decide_false|].
  rewrite bool_decide_true by done. destruct s. simpl.
  destruct (job_status j); unfold stats_total; simpl; lia.
Qed.

Lemma count_entries_total t es : forall s,
  stats_total (foldl (count_entry t) s es)
  = stats_total s + length (List.filter (fun e => bool_decide (job_tenant_id (dl_job e) = t)) es).
Proof.
  induction es as [|e es IH]; intros s; simpl; [lia|]. rewrite IH. unfold count_entry.
  destruct (decide _) as [Heq|Hne]; [|by rewrite bool_decide_false].
  rewrite bool_decide_true by done. destruct s. unfold stats_total. simpl. lia.
Qed.

(** The statistics count each job and each dead letter of the tenant once, and
    nothing of the other tenants. *)
Theorem stats_count_every_job order dl_order self t :
  stats_total (stats order dl_order self t)
  = length (List.filter (fun j => bool_decide (job_tenant_id j = t)) (order (jobs self)))
    + length (List.filter (fun e => bool_decide (job_tenant_id (dl_job e) = t))
                (dl_order (dead_letters self))).
Proof. unfold stats. by rewrite count_entries_total, count_jobs_total. Qed.
End Reports.

(** ** The thread *)

(** @src crates/infra/src/jobs/executor.rs 19-30 [JobExecutorConfig] *)
Record JobExecutorConfig := mkExecutorConfig {
  ec_poll_interval : Z;
  ec_max_concurrent : Z;
  ec_name : string;
  ec_tenant_id : option TenantId
}.

(** @src crates/infra/src/jobs/executor.rs 32-41 [JobExecutorConfig::default] *)
Definition config_default : JobExecutorConfig :=
  {| ec_poll_interval := 100000000; ec_max_concurrent := 4; ec_name := "job-executor";
     ec_tenant_id := None |}.

(** @src crates/infra/src/jobs/executor.rs 49-52 [JobExecutorConfig::with_tenant] *)
Definition with_tenant (tenant_id : TenantId) (self : JobExecutorConfig) : JobExecutorConfig :=
  {| ec_poll_interval := ec_poll_interval self; ec_max_concurrent := ec_max_concurrent self;
     ec_name := ec_name self; ec_tenant_id := Some tenant_id |}.

(** @src crates/infra/src/jobs/executor.rs 83-92 [ExecutorStats] *)
Record ExecutorStats := mkExecutorStats {
  xs_jobs_processed : Z;
  xs_jobs_succeeded : Z;
  xs_jobs_failed : Z;
  xs_jobs_dead_lettered : Z;
  xs_current_running : Z;
  xs_uptime_secs : Z
}.

Definition stats_default : ExecutorStats := mkExecutorStats 0 0 0 0 0 0.

Section Loop.
Context {J : Type} (delay : RetryPolicy -> Z -> Z).
Context (show_kind : JobKind -> string) (show_id : JobId -> string).
Context (handlers : list (string * JobHandler (J := J))) (config : JobExecutorConfig).
Implicit Types (st : InMemoryJobStore J) (j : Job J) (s : ExecutorStats).

(** @src crates/infra/src/jobs/executor.rs 225-229 [executor_loop] *)
Definition set_uptime (secs : Z) s : ExecutorStats :=
  {| xs_jobs_processed := xs_jobs_processed s; xs_jobs_succeeded := xs_jobs_succeeded s;
     xs_jobs_failed := xs_jobs_failed s; xs_jobs_dead_lettered := xs_jobs_dead_lettered s;
     xs_current_running := xs_current_running s; xs_uptime_secs := secs |}.

(** @src crates/infra/src/jobs/executor.rs 241-244 [executor_loop] *)
Definition started_one s : ExecutorStats :=
  {| xs_jobs_processed := xs_jobs_processed s; xs_jobs_succeeded := xs_jobs_succeeded s;
     xs_jobs_failed := xs_jobs_failed s; xs_jobs_dead_lettered := xs_jobs_dead_lettered s;
     xs_current_running := wrapU 64 (xs_current_running s + 1);
     xs_uptime_secs := xs_uptime_secs s |}.

Definition is_dead j : bool :=
  match job_status j with DeadLettered _ _ => true | _ => false end.

(** [j] is the job as its execution left it.

    @src crates/infra/src/jobs/executor.rs 248-262 [executor_loop] *)
Definition finished_one j (result : Result string unit) s : ExecutorStats :=
  let failed := negb (is_ok result) in
  {| xs_jobs_processed := wrapU 64 (xs_jobs_processed s + 1);
     xs_jobs_succeeded := wrapU 64 (xs_jobs_succeeded s + Z.b2z (is_ok result));
     xs_jobs_failed := wrapU 64 (xs_jobs_failed s + Z.b2z failed);
     xs_jobs_dead_lettered := wrapU 64 (xs_jobs_dead_lettered s
       + Z.b2z (failed && is_terminal (job_status j) && is_dead j));
     xs_current_running := saturating_subU (xs_current_running s) 1;
     xs_uptime_secs := xs_uptime_secs s |}.

(** What a turn of the loop meets: the shutdown request, the time since the start,
    the clock, the iteration order of the store. *)
Record Turn := mkTurn {
  tn_shutdown : bool;
  tn_elapsed : Z;
  tn_claim : DateTime;
  tn_clock : Clock;
  tn_order : gmap JobId (Job J) -> list (Job J)
}.

(** [false] when the thread is over; [None] among the results stands for a turn
    without a job.

    @src crates/infra/src/jobs/executor.rs 219-283 [executor_loop] *)
Definition loop_turn (tn : Turn) (running : bool) st s
  : bool * InMemoryJobStore J * ExecutorStats * option (Job J * Result string unit) :=
  if negb running then (false, st, s, None)
  else if tn_shutdown tn then (false, st, s, None)
  else
    let s1 := set_uptime (tn_elapsed tn) s in
    match claim_next (tn_order tn) (tn_claim tn) st (ec_tenant_id config) with
    | (st1, Some job) =>
      let s2 := started_one s1 in
      let '(st2, job', result) :=
        execute_job delay show_kind show_id handlers (tn_clock tn) st1 job in
      (true, st2, finished_one job' result s2, Some (job', result))
    | (st1, None) => (true, st1, s1, None)
    end.

(** A run of the loop, with the outcomes of the executions. *)
Fixpoint loop_run (turns : list Turn) (running : bool) st s
  : bool * InMemoryJobStore J * ExecutorStats * list (Job J * Result string unit) :=
  match turns with
  | [] => (running, st, s, [])
  | tn :: rest =>
    let '(running', st', s', o) := loop_turn tn running st s in
    let '(running'', st'', s'', os) := loop_run rest running' st' s' in
    (running'', st'', s'', option_list o ++ os)
  end.

(** ** The loop is an executor of the system *)

(** A turn claims a job and executes it, or does nothing. *)
Lemma loop_turn_steps tn running st s kn :
  any_order (tn_order tn) ->
  let '(_, st', _, _) := loop_turn tn running st s in
  rtc (job_step delay show_kind show_id) (mkSys st [] kn) (mkSys st' [] kn).
Proof.
  intros Ho. unfold loop_turn. destruct running; [|apply rtc_refl].
  destruct (tn_shutdown tn); [apply rtc_refl|].
  cbn [negb]. destruct (claim_next _ _ _ _) as [st1 [job|]] eqn:Ec.
  - assert (H1 := step_claim delay show_kind show_id st [] kn _ _ _ _ _ Ho Ec).
    assert (H2 := step_execute delay show_kind show_id st1 [] [] kn handlers (tn_clock tn) job).
    destruct (execute_job _ _ _ _ _ _ _) as [[st2 job'] r]. simpl in H2.
    eapply rtc_l; [exact H1|]. by apply rtc_once.
  - unfold claim_next in Ec. destruct (sort_by _ _) as [|j ?];
      [injection Ec as <-; apply rtc_refl|].
    destruct (jobs st !! job_id j); [done | injection Ec as <-; apply rtc_refl].
Qed.

Lemma loop_run_steps turns kn : forall running st s,
  Forall (fun tn => any_order (tn_order tn)) turns ->
  let '(_, st', _, _) := loop_run turns running st s in
  rtc (job_step delay show_kind show_id) (mkSys st [] kn) (mkSys st' [] kn).
Proof.
  induction turns as [|tn turns IH]; intros running st s Ho; simpl; [apply rtc_refl|].
  apply Forall_cons_1 in Ho as [Ht Ho].
  pose proof (loop_turn_steps tn running st s kn Ht) as H1.
  destruct (loop_turn tn running st s) as [[[running1 st1] s1] o].
  specialize (IH running1 st1 s1 Ho).
  destruct (loop_run turns running1 st1 s1) as [[[running2 st2] s2] os]. by etrans.
Qed.

(** ** What the statistics count *)

Definition ok_outcome (o : Job J * Result string unit) : bool := is_ok o.2.
Definition dead_outcome (o : Job J * Result string unit) : bool := negb (is_ok o.2) && is_dead o.1.

Definition counted (p : Job J * Result string unit -> bool) (os : list (Job J * Result string unit))
  : Z := Z.of_nat (length (List.filter p os)).

Lemma counted_cons p o os : counted p (o :: os) = (Z.b2z (p o) + counted p os)%Z.
Proof. unfold counted. simpl. destruct (p o); simpl length; unfold Z.b2z; lia. Qed.

Lemma dead_terminal j : is_terminal (job_status j) && is_dead j = is_dead j.
Proof. unfold is_dead. by destruct (job_status j). Qed.

(** The counters are the numbers of executions, of those that succeeded, that
    failed, and that failed for the last time, in their width; no job is running
    between two turns. *)
Definition tells s (os : list (Job J * Result string unit)) s' : Prop :=
  xs_jobs_processed s' = wrapU 64 (xs_jobs_processed s + Z.of_nat (length os))
  /\ xs_jobs_succeeded s' = wrapU 64 (xs_jobs_succeeded s + counted ok_outcome os)
  /\ xs_jobs_failed s' = wrapU 64 (xs_jobs_failed s + counted (fun o => negb (ok_outcome o)) os)
  /\ xs_jobs_dead_lettered s' = wrapU 64 (xs_jobs_dead_lettered s + counted dead_outcome os)
  /\ xs_current_running s' = xs_current_running s.

Definition in_width s : Prop :=
  is_u64 (xs_jobs_processed s) /\ is_u64 (xs_jobs_succeeded s) /\ is_u64 (xs_jobs_failed s)
  /\ is_u64 (xs_jobs_dead_lettered s) /\ xs_current_running s = 0%Z.

Lemma turn_tells tn running st s :
  in_width s ->
  let '(_, _, s', o) := loop_turn tn running st s in
  in_width s' /\ tells s (option_list o) s'.
Proof.
  intros Hw.
  assert (Hsame : forall secs, in_width (set_uptime secs s) /\ tells s [] (set_uptime secs s)).
  { intros secs. split; [exact Hw|]. destruct Hw as (H1 & H2 & H3 & H4 & _).
    unfold tells, counted. simpl.
    rewrite !Z.add_0_r. split_and!; try done; by rewrite wrapU_id. }
  assert (Hs : in_width s /\ tells s [] s)
    by (specialize (Hsame (xs_uptime_secs s)); destruct s; exact Hsame).
  unfold loop_turn. destruct running; [|exact Hs]. destruct (tn_shutdown tn); [exact Hs|].
  cbn [negb]. destruct (claim_next _ _ _ _) as [st1 [job|]]; [|apply Hsame].
  destruct (execute_job _ _ _ _ _ _ _) as [[st2 job'] r].
  destruct Hw as (_ & _ & _ & _ & H5).
  assert (Hrun : saturating_subU (wrapU 64 (xs_current_running s + 1)) 1 = 0%Z)
    by (rewrite H5, wrapU_id by done; done).
  split.
  - unfold in_width. simpl. split_and!; [by apply wrapU_range..|exact Hrun].
  - unfold tells. simpl option_list. rewrite !counted_cons. unfold counted. simpl.
    rewrite <- !andb_assoc, dead_terminal, !Z.add_0_r. split_and!; try done. by rewrite Hrun, H5.
Qed.

Lemma tells_trans s1 os1 s2 os2 s3 :
  tells s1 os1 s2 -> tells s2 os2 s3 -> tells s1 (os1 ++ os2) s3.
Proof.
  intros (E1 & E2 & E3 & E4 & E5) (H1 & H2 & H3 & H4 & H5). unfold tells, counted in *.
  rewrite !List.filter_app, !length_app, !Nat2Z.inj_add, !Z.add_assoc.
  rewrite H1, H2, H3, H4, H5, E1, E2, E3, E4, E5. by rewrite !wrapU_add_l.
Qed.

Lemma loop_tells turns : forall running st s,
  in_width s ->
  let '(_, _, s', os) := loop_run turns running st s in in_width s' /\ tells s os s'.
Proof.
  induction turns as [|tn turns IH]; intros running st s Hw; simpl.
  { split; [done|]. destruct Hw as (? & ? & ? & ? & _). unfold tells, counted. simpl.
    rewrite !Z.add_0_r. split_and!; try done; by rewrite wrapU_id. }
  pose proof (turn_tells tn running st s Hw) as Ht.
  destruct (loop_turn tn running st s) as [[[running1 st1] s1] o]. destruct Ht as [Hw1 Ht].
  specialize (IH running1 st1 s1 Hw1).
  destruct (loop_run turns running1 st1 s1) as [[[running2 st2] s2] os].
  split; [apply IH|]. eapply tells_trans; [exact Ht | apply IH].
Qed.

(** The turns before the first that finds the shutdown request. *)
Fixpoint before_stop (turns : list Turn) : list Turn :=
  match turns with
  | tn :: rest => if tn_shutdown tn then [] else tn :: before_stop rest
  | [] => []
  end.

Lemma executor_stopped_stays turns st s : loop_run turns false st s = (false, st, s, []).
Proof. induction turns as [|tn turns IH]; simpl; [done|]. by rewrite IH. Qed.

Lemma loop_until_stop turns : forall st s,
  let '(_, st', s', os) := loop_run turns true st s in
  loop_run (before_stop turns) true st s = (true, st', s', os).
Proof.
  induction turns as [|tn turns IH]; intros st s; simpl; [done|].
  unfold loop_turn at 1. simpl. destruct (tn_shutdown tn) eqn:Es.
  { by rewrite executor_stopped_stays. }
  simpl. unfold loop_turn. rewrite Es. simpl.
  destruct (claim_next _ _ _ _) as [st1 [job|]].
  - destruct (execute_job _ _ _ _ _ _ _) as [[st2 job'] r].
    specialize (IH st2 (finished_one job' r (started_one (set_uptime (tn_elapsed tn) s)))).
    destruct (loop_run turns true st2 _) as [[[r2 st3] s3] os]. by rewrite IH.
  - specialize (IH st1 (set_uptime (tn_elapsed tn) s)).
    destruct (loop_run turns true st1 _) as [[[r2 st3] s3] os]. by rewrite IH.
Qed.

(** The executor's thread: whatever its handlers do, and in whatever order the
    store lists its jobs, the store it leaves is reached by claims and executions
    of the job system, so that the system's invariant goes on to hold; its counters
    are the numbers of executions, successes, failures and last failures; and from
    the turn that finds the request to stop on it does nothing more. *)
Theorem executor_loop_exact (turns : list Turn) st kn :
  Forall (fun tn => any_order (tn_order tn)) turns ->
  sys_ok (mkSys st [] kn) ->
  let '(_, st', s', os) := loop_run turns true st stats_default in
  sys_ok (mkSys st' [] kn)
  /\ rtc (job_step delay show_kind show_id) (mkSys st [] kn) (mkSys st' [] kn)
  /\ tells stats_default os s'
  /\ loop_run (before_stop turns) true st stats_default = (true, st', s', os).
Proof.
  intros Ho Hok. pose proof (loop_run_steps turns kn true st stats_default Ho) as Hr.
  pose proof (loop_tells turns true st stats_default) as Ht.
  pose proof (loop_until_stop turns st stats_default) as Hs.
  destruct (loop_run turns true st stats_default) as [[[running st'] s'] os].
  split_and!; [|exact Hr | by apply Ht; split_and! | exact Hs].
  clear -Hr Hok. remember (mkSys st [] kn) as x eqn:Ex. remember (mkSys st' [] kn) as y eqn:Ey.
  clear Ex Ey. induction Hr as [|x y z Hst _ IH]; [done|].
  apply IH. by apply (job_step_ok delay show_kind show_id x).
Qed.
End Loop.

(** ** Samples *)
Module Sample.

Definition listed {V} (m : gmap JobId V) : list V := map snd (map_to_list m).
Definition show_kind (_ : JobKind) : string := "kind".
Definition show_id (_ : JobId) : string := "id".

(** A handler that fails on its first job and succeeds on the next. *)
Definition flaky (j : Job nat) : JobResult :=
  if decide (job_payload j = 0) then Failure "broken" else Success.
Definition handlers : list (string * JobHandler (J := nat)) := [("report"%string, flaky)].

Definition new_job (id : N) (p : nat) : Job nat :=
  mkJob (mkJobId id) (mkTenantId 1) (Custom "report") p Pending no_retry 0 (Z.of_N id) (Z.of_N id)
    None [].
Definition queue : InMemoryJobStore nat :=
  (enqueue (enqueue job_store_new (new_job 1 0)).1 (new_job 2 5)).1.

Definition turn (stop : bool) : Turn (J := nat) :=
  mkTurn stop 1 10 (mkClock 10 11 12) listed.
Definition turns : list Turn := [turn false; turn false; turn false; turn true; turn false].

Definition result := loop_run delay_for_attempt show_kind show_id handlers config_default
                       turns true queue stats_default.

Example one_succeeds_one_is_buried :
  result.1.2 = mkExecutorStats 2 1 1 1 0 1
  /\ map (fun e => job_payload (dl_job e)) (listed (dead_letters result.1.1.2)) = [0]
  /\ stats listed listed result.1.1.2 (mkTenantId 1) = mkJobStats 0 0 1 0 1 0.
Proof. vm_compute. done. Qed.

Lemma queue_ok : sys_ok (mkSys queue [] {[mkJobId 2; mkJobId 1]}).
Proof.
  assert (Hr : rtc (job_step delay_for_attempt show_kind show_id) sys_start
                 (mkSys queue [] ({[mkJobId 2]} ∪ ({[mkJobId 1]} ∪ ∅)))).
  { eapply rtc_l; [apply (step_enqueue _ _ _ job_store_new [] ∅ (mkJobId 1) 1 (mkTenantId 1)
                            (Custom "report") 0 no_retry); [set_solver | done]|].
    eapply rtc_once, (step_enqueue _ _ _ _ [] _ (mkJobId 2) 2 (mkTenantId 1)
                        (Custom "report") 5 no_retry); [set_solver | done]. }
  apply job_reachable_ok in Hr. by rewrite union_empty_r_L in Hr.
Qed.

Lemma executor_loop_exact_witness :
  let '(_, st', s', os) := result in
  sys_ok (mkSys st' [] {[mkJobId 2; mkJobId 1]}) /\ tells stats_default os s'
  /\ xs_jobs_processed s' = 2%Z.
Proof.
  pose proof (executor_loop_exact delay_for_attempt show_kind show_id handlers config_default
    turns queue {[mkJobId 2; mkJobId 1]}) as H.
  assert (E : xs_jobs_processed result.1.2 = 2%Z) by (vm_compute; reflexivity).
  unfold result in *. destruct (loop_run _ _ _ _ _ _ _ _ _) as [[[r st'] s'] os].
  destruct H as (H1 & _ & H2 & _); [|exact queue_ok|].
  - repeat (apply Forall_cons; split; [by intros m|]). by apply Forall_nil.
  - split_and!; done.
Defined.
End Sample.
