(* ===== verification/Wiring.v ===== *)
(** * The persistent wiring of the services: [api/src/app/services.rs]

    [AppServices::Persistent]: the event store and the stock read model on
    Postgres, the bus on Redis, the other read models in memory; its subscriber,
    its commands and its reads, each on the thread that makes the call.  And, for
    both variants, the anomaly runners the subscriber starts and the sink of their
    results.

    The theorems relate the variant to the in-memory one of [Services]: while the
    database answers, its subscriber keeps the same read models.  On the threads
    the API and the runners call from, though, the stores behind it do not
    answer. *)

From S2P Require Import Prelude Core Events Bus EventStore ReadModel Projection Dispatcher.
From S2P Require Import Auth Products Parties Users Sales Purchasing Invoicing Accounting.
From S2P Require Import Saga Stock Receivables TrialBalance Directories UserDirectory Services.
From S2P Require Import Http PgStore PgRefinement PgReadModel Float Anomaly AnomalyRunner.
From S2P Require Inventory.
Import Inventory (InventoryItemId, mkInventoryItemId, InventoryEvent).

(** ** The choice of the variant *)

Inductive Wiring : Type := InMemoryServices | PersistentServices.

(** [USE_PERSISTENT_STORES], read as a [bool]; [redis] says whether the feature was
    compiled in.

    @src crates/api/src/app/services.rs 226-247 [build_services] *)
Definition build_services (var : option string) (redis : bool) : Wiring :=
  let use_persistent := match var with Some s => String.eqb s "true" | None => false end in
  if use_persistent then (if redis then PersistentServices else InMemoryServices)
  else InMemoryServices.

(** ** The persistent variant *)
Section Persistent.
Context {J : Type} `{Texts} `{Driver J} `{StockDriver}.
Context `{Serde InventoryEvent J} `{Serde PartyEvent J} `{Serde ProductEvent J}
  `{Serde SalesOrderEvent J} `{Serde InvoiceEvent J} `{Serde PurchaseOrderEvent J}
  `{Serde LedgerEvent J} `{Serde UserEvent J}.
Context (fresh_order : InvoiceEvent -> SalesOrderId).
Context (fresh_supplier : PurchaseOrderEvent -> PartyId).

(** [pv_memory] holds what the variant keeps in memory; its own stock is not used.

    @src crates/api/src/app/services.rs 194-223 [AppServices::Persistent] *)
Record PersistentVariant := mkPersistent {
  pv_event_store : PgPool J;
  pv_inventory : Projector PostgresInventoryStore InMemoryCursorStore;
  pv_memory : AppServices
}.
Implicit Types (self : PersistentVariant) (env : EventEnvelope J) (envs : list (EventEnvelope J)).

(** @src crates/api/src/app/services.rs 478-546 [build_persistent_services] *)
Definition build_persistent (pool : PgPool J) (stock : PostgresInventoryStore)
  : PersistentVariant :=
  {| pv_event_store := pool; pv_inventory := projector_new "inventory.stock" stock;
     pv_memory := services_new |}.

(** An inventory envelope goes to the projection over Postgres, on the blocking
    thread of the subscriber; any other is handled as in memory.

    @src crates/api/src/app/services.rs 569-622 [build_persistent_services (subscriber)] *)
Definition persistent_turn self env : PersistentVariant :=
  let memory := pv_memory self in
  if String.eqb (env_aggregate_type env) "inventory.item" then
    let '(p, r) := Stock.apply_envelope (pv_inventory self) env in
    let memory :=
      if is_ok r then
        let message :=
          {| rt_tenant_id := env_tenant_id env;
             rt_topic := env_aggregate_type env +:+ ".projection_updated";
             rt_payload := {| pup_aggregate_type := env_aggregate_type env;
                              pup_aggregate_id := env_aggregate_id env;
                              pup_sequence_number := env_sequence_number env |} |} in
        let memory := set_realtime memory (as_realtime memory ++ [message]) in
        set_triggered memory (as_triggered memory ++ [env_tenant_id env])
      else memory in
    {| pv_event_store := pv_event_store self; pv_inventory := p; pv_memory := memory |}
  else
    {| pv_event_store := pv_event_store self; pv_inventory := pv_inventory self;
       pv_memory := subscriber_turn fresh_order fresh_supplier memory env |}.

Definition persistent_run self envs : PersistentVariant := foldl persistent_turn self envs.

(** A read of the stock, on the caller's thread; [None] is a panic.

    @src crates/api/src/app/services.rs 705-715 [AppServices::inventory_get] *)
Definition persistent_inventory_get (thread : Thread) self (tenant_id : TenantId)
    (item_id : InventoryItemId) : option (option InventoryReadModel) :=
  on_thread thread None (inventory_get (p_store (pv_inventory self)) tenant_id item_id).

(** A command, on the caller's thread: the dispatcher loads the stream first.

    @src crates/api/src/app/services.rs 694-701 [AppServices::dispatch] *)
Definition persistent_dispatch {B A C E} `{EventBus B (EventEnvelope J)} `{Aggregate A C E}
    `{Event E} `{Serde E J} (thread : Thread) (now : DateTime) self (bus : B)
    (tenant_id : TenantId) (aggregate_id : AggregateId) (aggregate_type : string) (command : C)
    (make_aggregate : TenantId -> AggregateId -> A) (new_id : nat -> Uuid)
  : option (CommandDispatcher (PgPool J) B * Result DispatchError (list (StoredEvent J))) :=
  let d := mkDispatcher (pv_event_store self) bus in
  match (trait_load_stream thread (pv_event_store self) tenant_id aggregate_id).2 with
  | None => None
  | Some (Err e) => Some (d, Err (from_store_error e))
  | Some (Ok _) =>
    Some (dispatch (HS := blocking_store now) d tenant_id aggregate_id aggregate_type command
            make_aggregate new_id)
  end.

(** ** Its subscriber keeps what the in-memory one keeps *)

Definition same_services (s : AppServices) self : Prop :=
  stock_mirrors (as_inventory s) (pv_inventory self)
  /\ pv_memory self = set_inventory s (as_inventory (pv_memory self)).

Lemma set_inventory_twice s x y : set_inventory (set_inventory s x) y = set_inventory s y.
Proof. done. Qed.

Lemma set_inventory_self s : set_inventory s (as_inventory s) = s.
Proof. by destruct s. Qed.

(** An envelope of another module does not look at the stock. *)
Lemma turn_set_inventory s x env :
  env_aggregate_type env <> "inventory.item"%string ->
  subscriber_turn fresh_order fresh_supplier (set_inventory s x) env
  = set_inventory (subscriber_turn fresh_order fresh_supplier s env) x.
Proof.
  intros Hty%String.eqb_neq. unfold subscriber_turn, apply_to_projections. rewrite Hty.
  repeat match goal with
  | |- context [String.eqb ?a ?b] => destruct (String.eqb a b)
  end; simpl; try done;
  repeat match goal with
  | |- context [let '(_, _) := ?y in _] => destruct y as [? [?|?]]; simpl
  end; done.
Qed.

Lemma turn_same s self env :
  same_services s self ->
  (env_aggregate_type env = "inventory.item"%string -> acceptable (as_inventory s) env) ->
  same_services (subscriber_turn fresh_order fresh_supplier s env) (persistent_turn self env).
Proof.
  intros [Hm Hr] Hacc. unfold persistent_turn.
  destruct (String.eqb_spec (env_aggregate_type env) "inventory.item") as [Hty|Hty].
  - pose proof (postgres_stock_mirrors _ _ env Hm (Hacc Hty)) as Hstep.
    unfold subscriber_turn, apply_to_projections. rewrite Hty. cbn [String.eqb Ascii.eqb Bool.eqb].
    change (deliver (as_inventory s) env) with (Stock.apply_envelope (as_inventory s) env).
    destruct (Stock.apply_envelope (as_inventory s) env) as [p1 r1].
    destruct (Stock.apply_envelope (pv_inventory self) env) as [p2 r2].
    destruct Hstep as [-> Hm']. destruct r1 as [u|f]; (split; [exact Hm'|]); simpl;
      rewrite Hr; done.
  - split; [|by simpl; rewrite Hr, turn_set_inventory].
    replace (as_inventory (subscriber_turn fresh_order fresh_supplier s env))
      with (as_inventory s); [exact Hm|].
    pose proof (turn_set_inventory s (as_inventory s) env Hty) as E.
    rewrite set_inventory_self in E. by rewrite E.
Qed.

(** Along a run every inventory event is one the table takes. *)
Fixpoint all_acceptable (s : AppServices) (envs : list (EventEnvelope J)) : Prop :=
  match envs with
  | [] => True
  | env :: rest =>
    (env_aggregate_type env = "inventory.item"%string -> acceptable (as_inventory s) env)
    /\ all_acceptable (subscriber_turn fresh_order fresh_supplier s env) rest
  end.

(** The two variants show the same: from an empty database that answers, the
    subscriber of the persistent variant keeps, whatever envelopes it is given, the
    stock, every other read model, the realtime messages and the triggers that the
    in-memory subscriber keeps, as long as the table takes the inventory events
    among them. *)
Theorem persistent_read_side_mirrors (pool : PgPool J) now envs :
  let empty_table := mkStock [] true now in
  all_acceptable services_new envs ->
  let s := subscriber_run fresh_order fresh_supplier services_new envs in
  let self := persistent_run (build_persistent pool empty_table) envs in
  (forall t k, persistent_inventory_get BlockingThread self t k = Some (Services.inventory_get s t k))
  /\ pv_memory self = set_inventory s (as_inventory (pv_memory self))
  /\ pv_event_store self = pool.
Proof.
  intros db Hacc s self.
  assert (Hrun : forall envs s0 self0, same_services s0 self0 -> all_acceptable s0 envs ->
    same_services (subscriber_run fresh_order fresh_supplier s0 envs) (persistent_run self0 envs)
    /\ pv_event_store (persistent_run self0 envs) = pv_event_store self0).
  { clear. intros envs. induction envs as [|env envs IH]; intros s0 self0 Hs Ha; [done|].
    destruct Ha as [Henv Ha]. simpl.
    destruct (IH _ _ (turn_same s0 self0 env Hs Henv) Ha) as [Hsame Hpool]. split; [exact Hsame|].
    rewrite Hpool. unfold persistent_turn. destruct (String.eqb _ _); [|done].
    by destruct (Stock.apply_envelope _ _) as [p [?|?]]. }
  destruct (Hrun envs services_new (build_persistent pool db)) as [[Hm Hr] Hp]; [|done|].
  { split; [|done]. by constructor. }
  split_and!; [|exact Hr | exact Hp]. intros t k. simpl. by rewrite (sm_entries _ _ Hm).
Qed.

(** ** What the other threads get *)

(** The handlers of the API are tasks of the runtime: there the variant answers no
    command and no question about the stock; it panics. *)
Theorem persistent_variant_panics_in_tasks {B A C E} `{EventBus B (EventEnvelope J)}
    `{Aggregate A C E} `{Event E} `{Serde E J} now self (bus : B) t a ty (cmd : C)
    (make : TenantId -> AggregateId -> A) new_id k :
  persistent_dispatch AsyncTask now self bus t a ty cmd make new_id = None
  /\ persistent_inventory_get AsyncTask self t k = None.
Proof. done. Qed.

(** The snapshot an anomaly runner gets: its thread has no runtime.

    @src crates/infra/src/read_model/postgres.rs 189-193 [PostgresInventoryStore::list] *)
Definition persistent_snapshot (thread : Thread) self (t : TenantId)
  : option (Result AiError InventorySnapshot) :=
  match on_thread thread [] (ts_list (p_store (pv_inventory self)) t) with
  | None => None
  | Some items => Some (Ok {| isn_tenant_id := t; isn_items := map item_snapshot items |})
  end.

(** It is empty, whatever is in the table. *)
Theorem persistent_runner_sees_no_stock self t :
  persistent_snapshot OutsideRuntime self t = Some (Ok (mkSnapshot t [])).
Proof. done. Qed.

(** After a restart the read models in memory are empty, whatever is stored. *)
Lemma restart_empties_read_models pool db t :
  let self := build_persistent pool db in
  ts_list (p_store (as_products (pv_memory self))) t = []
  /\ ts_list (p_store (as_sales (pv_memory self))) t = []
  /\ ts_list (p_store (as_ledger (pv_memory self))) t = [].
Proof. done. Qed.
End Persistent.
Arguments PersistentVariant : clear implicits.

(** ** Insights *)
Section Insights.
Context `{FloatText} `{Texts}.

(** The results, and what was sent on the realtime channel: tenant, topic, payload.

    @src crates/api/src/app/services.rs 51-56 [ApiAiInsightSink] *)
Record ApiAiInsightSink := mkApiSink {
  sink_results : list (TenantId * AiResult);
  sink_sent : list (TenantId * string * Json)
}.

(** @src crates/api/src/app/services.rs 71-86 [ApiAiInsightSink::emit] *)
Definition api_emit (self : ApiAiInsightSink) (tenant_id : TenantId) (result : AiResult)
  : ApiAiInsightSink :=
  {| sink_results := sink_results self ++ [(tenant_id, result)];
     sink_sent := sink_sent self ++
       [(tenant_id, "ai.insight_available"%string,
         JObj [("kind"%string, JStr "insights"); ("insight_type"%string, JStr "ai.result");
               ("metadata"%string, air_metadata result)])] |}.

(** Every result is announced once, to its own tenant. *)
Lemma api_sink_announces (es : list (TenantId * AiResult)) :
  let sink := foldl (fun s e => api_emit s e.1 e.2) (mkApiSink [] []) es in
  sink_results sink = es /\ map (fun m => m.1.1) (sink_sent sink) = map fst es.
Proof.
  induction es as [|e es IH] using rev_ind; [done|]. rewrite foldl_snoc. simpl in *.
  destruct IH as [-> IH]. rewrite !map_app, IH. by destruct e.
Qed.

(** ** The runners *)

(** [runners.entry(tenant).or_insert_with(..)], then [trigger]: of each runner, its
    trigger channel.

    @src crates/api/src/app/services.rs 366-379 [build_in_memory_services (subscriber)] *)
Definition trigger_runner (runners : gmap TenantId bool) (tenant_id : TenantId)
  : gmap TenantId bool :=
  let queued := unwrap_or (runners !! tenant_id) false in
  <[tenant_id := trigger queued]> runners.

(** After any run of the subscriber each tenant that had an inventory update has
    one runner, which was triggered after the last of them; nobody else has one. *)
Lemma runners_follow_triggers (triggered : list TenantId) t :
  foldl trigger_runner ∅ triggered !! t = if decide (t ∈ triggered) then Some true else None.
Proof.
  induction triggered as [|t0 l IH] using rev_ind; [done|]. rewrite foldl_snoc.
  unfold trigger_runner at 1. destruct (decide (t = t0)) as [->|Hne].
  - rewrite lookup_insert_eq, decide_True by set_solver. unfold trigger.
    by destruct (unwrap_or _ _).
  - rewrite lookup_insert_ne, IH by congruence.
    destruct (decide (t ∈ l)); [by rewrite decide_True by set_solver|].
    rewrite decide_False; [done|]. rewrite elem_of_app, list_elem_of_singleton. tauto.
Qed.
End Insights.

(** ** Samples *)
Module Sample.
Import Services.Sample.
#[local] Existing Instances item_serde party_serde product_serde order_serde invoice_serde
  purchase_serde ledger_serde user_serde PgReadModel.Sample.driver.

Example variants :
  (build_services (Some "true"%string) true, build_services (Some "true"%string) false,
   build_services (Some "1"%string) true, build_services None true)
  = (PersistentServices, InMemoryServices, InMemoryServices, InMemoryServices).
Proof. reflexivity. Qed.

(** The envelopes of the sample of [Services]. *)
Definition mirrored (pool : PgPool Payload) : Prop :=
  let order := fun _ => mkSalesOrderId (at_ 0) in
  let supplier := fun _ => mkPartyId (at_ 0) in
  forall t k,
    persistent_inventory_get BlockingThread
      (persistent_run order supplier (build_persistent pool (mkStock [] true 0)) envs) t k
    = Some (Services.inventory_get (subscriber_run order supplier services_new envs) t k).

Example sample_mirrored pool : mirrored pool.
Proof.
  unfold mirrored. intros t k.
  refine (proj1 (persistent_read_side_mirrors _ _ pool 0 envs _) t k).
  vm_compute. repeat split; intros; try discriminate; eauto.
Qed.
End Sample.
