(* ===== verification/InOrder.v ===== *)
(** * Envelopes in the order of their streams

    What a well-formed store and envelopes that repeat its streams in order offer a
    projection: the envelopes of each module are served without gaps, and the part
    that was delivered of a stream's typed history is the part delivered of the
    stream. *)

From S2P Require Import Prelude Core Events Bus EventStore ReadModel Projection Dispatcher Services.

Lemma omap_length_le {X Y} (f : X -> option Y) l : length (omap f l) <= length l.
Proof.
  induction l as [|x l IH]; simpl; [lia|]. destruct (f x); simpl; unfold omap in IH; lia.
Qed.

Lemma omap_filter {X Y} (f : X -> option Y) (P : X -> Prop) `{forall x, Decision (P x)} (l : list X) :
  omap f (filter P l) = omap (fun x => if decide (P x) then f x else None) l.
Proof.
  induction l as [|x l IH]; [done|]. rewrite filter_cons. simpl.
  destruct (decide (P x)); [|exact IH]. simpl. destruct (f x); [by f_equal | exact IH].
Qed.

Lemma omap_fmap {X Y Z} (f : Y -> option Z) (g : X -> Y) (l : list X) :
  omap f (g <$> l) = omap (fun x => f (g x)) l.
Proof. induction l as [|x l IH]; [done|]. simpl. destruct (f (g x)); [by f_equal | exact IH]. Qed.

Lemma elem_of_concat {X} (x : X) ls : x ∈ concat ls <-> exists l, x ∈ l /\ l ∈ ls.
Proof.
  rewrite list_elem_of_In, in_concat. setoid_rewrite list_elem_of_In. naive_solver.
Qed.

(** ** Envelopes in the order of their streams *)
Section InOrder.
Context {J : Type}.
Context {S : Type} `{HSL : EventStoreLaws J S}.
Implicit Types (s : S) (env : EventEnvelope J) (envs : list (EventEnvelope J))
  (se : StoredEvent J).

(** The envelopes of one stream. *)
Definition of_stream (t : TenantId) (a : AggregateId) envs : list (EventEnvelope J) :=
  filter (fun env => env_tenant_id env = t /\ env_aggregate_id env = a) envs.

Lemma of_stream_app t a xs ys : of_stream t a (xs ++ ys) = of_stream t a xs ++ of_stream t a ys.
Proof. apply filter_app. Qed.

Lemma of_stream_cons t a x xs : of_stream t a (x :: xs) = of_stream t a [x] ++ of_stream t a xs.
Proof. apply (of_stream_app t a [x]). Qed.

Lemma of_stream_none t a envs :
  (forall env, env ∈ envs -> ~ (env_tenant_id env = t /\ env_aggregate_id env = a)) ->
  of_stream t a envs = [].
Proof.
  unfold of_stream. induction envs as [|env envs IH]; intros Hn; [done|].
  rewrite filter_cons_False by (apply Hn; left). apply IH. intros e He. apply Hn. by right.
Qed.

Lemma of_stream_id t a envs :
  (forall env, env ∈ envs -> env_tenant_id env = t /\ env_aggregate_id env = a) ->
  of_stream t a envs = envs.
Proof.
  unfold of_stream. induction envs as [|env envs IH]; intros Hn; [done|].
  rewrite filter_cons_True by (apply Hn; left). f_equal. apply IH. intros e He. apply Hn. by right.
Qed.

(** Of every stream the envelopes are its first events, each once and in order. *)
Definition in_order s envs : Prop :=
  forall t a, of_stream t a envs `prefix_of` (to_envelope <$> stream s t a).

(** Every one of the envelopes is of an event of its stream. *)
Lemma in_order_elem s envs env :
  in_order s envs -> env ∈ envs ->
  exists se, se ∈ stream s (env_tenant_id env) (env_aggregate_id env) /\ env = to_envelope se.
Proof.
  intros Hin He. destruct (Hin (env_tenant_id env) (env_aggregate_id env)) as [l Hl].
  assert (Hs : env ∈ of_stream (env_tenant_id env) (env_aggregate_id env) envs)
    by (apply list_elem_of_filter; by split).
  assert (Hf : env ∈ to_envelope <$> stream s (env_tenant_id env) (env_aggregate_id env))
    by (rewrite Hl; apply elem_of_app; by left).
  apply list_elem_of_fmap in Hf as (se & -> & Hse). by exists se.
Qed.

(** The envelopes of a stream are its first events. *)
Lemma of_stream_take s envs t a :
  in_order s envs ->
  of_stream t a envs = to_envelope <$> take (length (of_stream t a envs)) (stream s t a).
Proof.
  intros Hin. destruct (Hin t a) as [l Hl]. rewrite fmap_take, Hl. symmetry. apply take_app_length.
Qed.

(** Choosing from the envelopes of a stream. *)
Lemma omap_of_stream {Y} (f g : EventEnvelope J -> option Y) t a envs :
  (forall env, env ∈ envs ->
     f env = if decide (env_tenant_id env = t /\ env_aggregate_id env = a) then g env else None) ->
  omap f envs = omap g (of_stream t a envs).
Proof.
  intros Hf. unfold of_stream. induction envs as [|env envs IH]; [done|].
  rewrite filter_cons. cbn [omap list_omap]. rewrite (Hf env) by left.
  rewrite IH by (intros e He; apply Hf; by right).
  by destruct (decide _).
Qed.

Definition short s : Prop := forall t a, (Z.of_nat (length (stream s t a)) < 2 ^ 64)%Z.

Lemma in_order_at s pre env post :
  store_ok s -> short s -> in_order s (pre ++ env :: post) ->
  let t := env_tenant_id env in let a := env_aggregate_id env in
  let n := length (of_stream t a pre) in
  exists se, stream s t a !! n = Some se /\ env = to_envelope se
    /\ env_sequence_number env = (Z.of_nat n + 1)%Z
    /\ of_stream t a pre = to_envelope <$> take n (stream s t a).
Proof.
  intros Hok Hshort Hin t a n. destruct (Hin t a) as [l Hl].
  rewrite of_stream_app in Hl. unfold of_stream at 2 in Hl.
  rewrite filter_cons_True in Hl by done.
  assert (Hn : (to_envelope <$> stream s t a) !! n = Some env).
  { rewrite Hl, <- app_assoc. simpl. by apply list_lookup_middle. }
  rewrite list_lookup_fmap in Hn. destruct (stream s t a !! n) as [se|] eqn:Ese; [|done].
  injection Hn as <-. exists se. split_and!; [done..| |].
  - by apply (stream_ok_lookup t a (stream s t a) n se (stream_wf s t a Hok) (Hshort t a)).
  - rewrite fmap_take, Hl, <- app_assoc. symmetry. apply take_app_length.
Qed.

(** How far the envelopes of a module reach into a stream of the module. *)
Lemma in_order_reach s pre post t a ty :
  store_ok s -> short s -> in_order s (pre ++ post) ->
  stream s t a = [] \/ (exists se, se ∈ stream s t a /\ se_aggregate_type se = ty) ->
  length (of_stream t a pre) <= reach ty t a pre.
Proof.
  intros Hok Hshort Hin Hst. revert post Hin.
  induction pre as [|x pre IH] using rev_ind; intros post Hin; [simpl; lia|].
  rewrite <- app_assoc in Hin. specialize (IH _ Hin). simpl in Hin.
  destruct (in_order_at s pre x post Hok Hshort Hin) as (se & Hse & He & Hseq & _).
  rewrite of_stream_app, length_app, reach_snoc.
  unfold of_stream at 2. rewrite filter_cons. destruct (decide _) as [[Ht Ha]|Hne].
  - rewrite Ht, Ha in *. rewrite (proj2 (about_spec ty t a x)); [simpl; lia|].
    split_and!; [|done..]. unfold mine. rewrite He. simpl.
    destruct Hst as [Hst|(se' & Hin' & <-)]; [by rewrite Hst in Hse|].
    apply list_elem_of_lookup_2 in Hse. destruct (stream_wf s t a Hok) as [[ty' Hown] _].
    rewrite Forall_forall in Hown. by destruct (Hown _ Hse) as (_ & _ & ->), (Hown _ Hin') as (_ & _ & ->).
  - simpl. destruct (about ty t a x) eqn:Eab; [|lia].
    apply about_spec in Eab as (_ & Ht & Ha). by destruct Hne.
Qed.

(** ** The events of a stream, as a module reads them *)
Section Typed.
Context {E : Type} (own : string) (decode : J -> Result string E).
Context (P : TenantId -> AggregateId -> E -> Prop).

(** A payload of the module is an event of which [P] holds. *)
Definition carries t a (ty : string) (payload : J) : Prop :=
  ty = own -> exists e, decode payload = Ok e /\ P t a e.

Definition all_carry s : Prop :=
  forall t a se, se ∈ stream s t a -> carries t a (se_aggregate_type se) (se_payload se).

(** The module's events in a stream. *)
Definition typed_event se : option E :=
  if decide (se_aggregate_type se = own)
  then match decode (se_payload se) with Ok e => Some e | Err _ => None end
  else None.
Definition typed_events s (t : TenantId) (a : AggregateId) : list E :=
  omap typed_event (stream s t a).

Definition reads_as t a se (e : E) : Prop :=
  se_aggregate_type se = own /\ decode (se_payload se) = Ok e /\ P t a e.

(** A stream is the module's, event by event, or another's. *)
Lemma typed_events_cases s t a :
  store_ok s -> all_carry s ->
  Forall2 (reads_as t a) (stream s t a) (typed_events s t a)
  \/ (Forall (fun se => se_aggregate_type se <> own) (stream s t a) /\ typed_events s t a = []).
Proof.
  intros Hok Hg. destruct (stream_wf s t a Hok) as [[ty Hown] _].
  specialize (Hg t a). unfold typed_events. revert Hown Hg.
  generalize (stream s t a). intros st Hown Hg.
  destruct (decide (ty = own)) as [->|Hty]; [left|right].
  - induction st as [|se st IH]; [constructor|]. apply Forall_cons_1 in Hown as [(_ & _ & Hse) Hown].
    destruct (Hg se ltac:(left) Hse) as (e & Hd & Hi). simpl.
    unfold typed_event at 1. rewrite decide_True, Hd by done.
    constructor; [done|]. apply IH; [done|]. intros se' He. apply Hg. by right.
  - split; [by eapply Forall_impl; [exact Hown|]; intros se (_ & _ & ->)|].
    clear Hg. induction st as [|se st IH]; [done|].
    apply Forall_cons_1 in Hown as [(_ & _ & Hse) Hown]. simpl.
    unfold typed_event at 1. rewrite decide_False by congruence. by apply IH.
Qed.

Lemma take_typed_events s t a n :
  store_ok s -> all_carry s ->
  take n (typed_events s t a) = omap typed_event (take n (stream s t a)).
Proof.
  intros Hok Hg. destruct (typed_events_cases s t a Hok Hg) as [Hf|[Hf ->]].
  - apply (Forall2_take _ _ _ n) in Hf. revert Hf. generalize (take n (typed_events s t a)).
    generalize (take n (stream s t a)). intros st es Hf.
    induction Hf as [|se e st es (Hty & Hd & _) _ IH]; [done|]. simpl. unfold typed_event at 1.
    rewrite decide_True, Hd by done. by rewrite IH.
  - rewrite take_nil. apply (Forall_take _ n) in Hf.
    induction Hf as [|se st Hse _ IH]; [done|]. simpl. unfold typed_event at 1.
    rewrite decide_False by done. exact IH.
Qed.

Lemma typed_events_hold s t a e :
  store_ok s -> all_carry s -> e ∈ typed_events s t a -> P t a e.
Proof.
  intros Hok Hg He. destruct (typed_events_cases s t a Hok Hg) as [Hf|[_ Hn]].
  - apply list_elem_of_lookup in He as [i Hi].
    destruct (Forall2_lookup_r _ _ _ _ _ Hf Hi) as (se & _ & _ & _ & ?). done.
  - rewrite Hn in He. by apply not_elem_of_nil in He.
Qed.

(** What a dispatcher rehydrates from the first events of a stream. *)
Definition rehydrate {A C} `{Aggregate A C E} `{!Serde E J} (fresh : A)
    (st : list (StoredEvent J)) : option A :=
  match st with
  | [] => Some fresh
  | se :: _ =>
    if decide (se_aggregate_type se = own)
    then match apply_history fresh st with Ok g => Some g | Err _ => None end
    else Some fresh
  end.

Lemma stream_ok_take t a (st : list (StoredEvent J)) n :
  stream_ok t a st -> stream_ok t a (take n st).
Proof.
  intros [[ty Hf] Hs]. split; [exists ty; by apply Forall_take|].
  intros i e [Hi _]%lookup_take_Some. by apply Hs.
Qed.

Lemma rehydrate_replays {A C} `{Aggregate A C E} `{!Serde E J} (fresh : A) s t a n :
  decode = from_value -> store_ok s -> short s -> all_carry s ->
  rehydrate fresh (take n (stream s t a)) = Some (replay fresh (take n (typed_events s t a))).
Proof.
  intros Hdec Hok Hshort Hg.
  pose proof (stream_ok_take t a _ n (stream_wf s t a Hok)) as Hst.
  assert (Hlt : (Z.of_nat (length (take n (stream s t a))) < 2 ^ 64)%Z).
  { specialize (Hshort t a). rewrite length_take. lia. }
  destruct (typed_events_cases s t a Hok Hg) as [Hf|[Hf ->]].
  - apply (Forall2_take _ _ _ n) in Hf. revert Hf Hst Hlt.
    generalize (take n (typed_events s t a)) (take n (stream s t a)). intros es st Hf Hst Hlt.
    assert (Hd : decodes st es).
    { eapply Forall2_impl; [exact Hf|]. intros se e (_ & Hd & _). by rewrite Hdec in Hd. }
    pose proof (apply_history_exact t a st es fresh Hst Hlt Hd) as Happ.
    destruct Hf as [|se e st es (Hty & _) Hf]; [done|]. unfold rehydrate.
    by rewrite decide_True, Happ.
  - rewrite take_nil. apply (Forall_take _ n) in Hf.
    destruct Hf as [|se st Hse Hf]; [done|]. simpl. by rewrite decide_False.
Qed.
End Typed.

(** ** The envelopes a keyed projection is served *)
Section Served.
Context {St K V E : Type} `{HTS : TenantStoreLaws St K V} (HK : Keyed St K V J E).

Definition typed_history s (t : TenantId) (a : AggregateId) : list E :=
  typed_events (kp_type (Keyed:=HK)) (kp_decode (Keyed:=HK)) s t a.

(** The module's events name the stream they are in. *)
Definition all_genuine s : Prop :=
  all_carry (kp_type (Keyed:=HK)) (kp_decode (Keyed:=HK))
    (fun t a e => kp_isolation (Keyed:=HK) t a e = None) s.

Lemma typed_history_cases s t a :
  store_ok s -> all_genuine s ->
  Forall2 (reads_as (kp_type (Keyed:=HK)) (kp_decode (Keyed:=HK))
             (fun t a e => kp_isolation (Keyed:=HK) t a e = None) t a)
    (stream s t a) (typed_history s t a)
  \/ (Forall (fun se => se_aggregate_type se <> kp_type (Keyed:=HK)) (stream s t a)
      /\ typed_history s t a = []).
Proof. apply typed_events_cases. Qed.

Lemma typed_history_genuine s t a e :
  store_ok s -> all_genuine s -> e ∈ typed_history s t a -> kp_isolation (Keyed:=HK) t a e = None.
Proof.
  apply (typed_events_hold _ _ (fun t a e => kp_isolation (Keyed:=HK) t a e = None)).
Qed.

Lemma elem_of_take_genuine {s t a n e} :
  store_ok s -> all_genuine s -> e ∈ take n (typed_history s t a) ->
  kp_isolation (Keyed:=HK) t a e = None.
Proof.
  intros Hok Hg (i & Hi & _)%elem_of_take. apply (typed_history_genuine s); [done..|].
  by eapply list_elem_of_lookup_2.
Qed.

Lemma typed_history_length s t a : length (typed_history s t a) <= length (stream s t a).
Proof. apply omap_length_le. Qed.

(** Envelopes in the order of the streams serve the projection. *)
Lemma in_order_served s envs :
  store_ok s -> short s -> all_genuine s -> in_order s envs ->
  served HK (typed_history s) envs.
Proof.
  intros Hok Hshort Hg Hin. split_and!.
  - intros t a e. by apply typed_history_genuine.
  - intros t a. pose proof (typed_history_length s t a). specialize (Hshort t a). lia.
  - intros env (pre & post & ->)%list_elem_of_split Hm.
    destruct (in_order_at s pre env post Hok Hshort Hin) as (se & Hse & He & Hseq & _).
    destruct (typed_history_cases s (env_tenant_id env) (env_aggregate_id env) Hok Hg)
      as [Hf|[Hf _]].
    + destruct (Forall2_lookup_l _ _ _ _ _ Hf Hse) as (e & Hi & _ & Hd & _).
      exists (length (of_stream (env_tenant_id env) (env_aggregate_id env) pre)), e.
      split_and!; [done..|]. rewrite He. exact Hd.
    + rewrite Forall_lookup in Hf. destruct (Hf _ _ Hse). unfold mine in Hm. by rewrite He in Hm.
  - intros t a pre env post -> (Hm & <- & <-)%about_spec.
    destruct (in_order_at s pre env post Hok Hshort Hin) as (se & Hse & He & Hseq & Hpre).
    enough (length (of_stream (env_tenant_id env) (env_aggregate_id env) pre)
            <= reach (kp_type (Keyed:=HK)) (env_tenant_id env) (env_aggregate_id env) pre) by lia.
    apply (in_order_reach s pre (env :: post)); [done..|]. right. exists se. split; [by eapply list_elem_of_lookup_2|].
    unfold mine in Hm. by rewrite He in Hm.
Qed.

(** What the projection was delivered of a stream. *)
Lemma seen_take s envs t a :
  store_ok s -> short s -> all_genuine s -> in_order s envs ->
  seen (kp_type (Keyed:=HK)) envs (typed_history s) t a
  = take (length (of_stream t a envs)) (typed_history s t a).
Proof.
  intros Hok Hshort Hg Hin. unfold seen.
  destruct (typed_history_cases s t a Hok Hg) as [Hf|[_ ->]]; [|by rewrite !take_nil].
  f_equal. apply Nat.le_antisymm.
  - apply reach_bound. intros env (pre & post & ->)%list_elem_of_split (_ & <- & <-)%about_spec.
    destruct (in_order_at s pre env post Hok Hshort Hin) as (_ & _ & _ & -> & _).
    rewrite of_stream_app, of_stream_cons, (of_stream_id _ _ [env])
      by (intros e ->%list_elem_of_singleton; done).
    rewrite !length_app. simpl. lia.
  - rewrite <- (app_nil_r envs) in Hin.
    apply (in_order_reach s envs [] t a _ Hok Hshort Hin).
    destruct (stream s t a) as [|se st] eqn:Est; [by left | right].
    destruct (Forall2_cons_inv_l _ _ _ _ Hf) as (e & es & [Hty _] & _).
    exists se. split; [left | done].
Qed.
End Served.
End InOrder.
