(* ===== verification/Histories.v ===== *)
(** * The histories that commands leave in the store

    What request threads decide, for the aggregates of all modules, and what the
    streams of a store hold to which only such decisions were appended, each on an
    earlier state of the store: every event names the stream it is in, entries of
    the ledger balance, and the streams of invoices and users are the events of
    some commands, run one after the other. *)

From S2P Require Import Prelude Core Events Bus EventStore ReadModel Projection Dispatcher.
From S2P Require Import Auth Products Parties Users Sales Purchasing Invoicing Accounting.
From S2P Require Import Saga Stock Receivables TrialBalance Directories UserDirectory Services.
From S2P Require Import Http Routes AdminRoutes InOrder.
From S2P Require Inventory.
Import Inventory (InventoryItemId, mkInventoryItemId, InventoryEvent, InventoryCommand,
  InventoryItem).

(** ** What request threads decide *)

(** The tenant and the aggregate a command names. *)
Definition item_command_owner (c : InventoryCommand) : TenantId * InventoryItemId :=
  match c with
  | Inventory.CmdCreateItem c => (Inventory.ci_tenant_id c, Inventory.ci_item_id c)
  | Inventory.CmdAdjustStock c => (Inventory.as_tenant_id c, Inventory.as_item_id c)
  end.
Definition product_command_owner (c : ProductCommand) : TenantId * ProductId :=
  match c with
  | CmdCreateProduct c => (cp_tenant_id c, cp_product_id c)
  | CmdActivateProduct c => (acp_tenant_id c, acp_product_id c)
  | CmdArchiveProduct c => (arp_tenant_id c, arp_product_id c)
  end.
Definition party_command_owner (c : PartyCommand) : TenantId * PartyId :=
  match c with
  | CmdRegisterParty c => (rp_tenant_id c, rp_party_id c)
  | CmdUpdateDetails c => (ud_tenant_id c, ud_party_id c)
  | CmdSuspendParty c => (sp_tenant_id c, sp_party_id c)
  end.
Definition order_command_owner (c : SalesOrderCommand) : TenantId * SalesOrderId :=
  match c with
  | CmdCreateSalesOrder c => (cso_tenant_id c, cso_order_id c)
  | Sales.CmdAddLine c => (Sales.al_tenant_id c, Sales.al_order_id c)
  | CmdConfirmOrder c => (co_tenant_id c, co_order_id c)
  | CmdMarkInvoiced c => (mi_tenant_id c, mi_order_id c)
  end.
Definition purchase_command_owner (c : PurchaseOrderCommand) : TenantId * PurchaseOrderId :=
  match c with
  | CmdCreatePurchaseOrder c => (cpo_tenant_id c, cpo_order_id c)
  | CmdAddLine c => (al_tenant_id c, al_order_id c)
  | CmdApprove c => (ap_tenant_id c, ap_order_id c)
  | CmdReceiveGoods c => (rg_tenant_id c, rg_order_id c)
  end.

(** An aggregate's events name what the command named. *)
Ltac owned :=
  match goal with H : _ ∈ _ |- _ =>
    apply list_elem_of_singleton in H; subst; reflexivity end.

Lemma item_events_owned g c es e :
  Inventory.handle g c = Ok es -> e ∈ es -> event_owner e = item_command_owner c.
Proof. destruct c as [c|c]; intros Hh He; unfold Inventory.handle, Inventory.handle_create,
  Inventory.handle_adjust in Hh; guards Hh; owned. Qed.

Lemma product_events_owned g c es e :
  Products.handle g c = Ok es -> e ∈ es -> product_owner e = product_command_owner c.
Proof. destruct c as [c|c|c]; intros Hh He; unfold Products.handle, Products.handle_create,
  Products.handle_activate, Products.handle_archive in Hh; guards Hh; owned. Qed.

Lemma party_events_owned g c es e :
  Parties.handle g c = Ok es -> e ∈ es -> party_owner e = party_command_owner c.
Proof. destruct c as [c|c|c]; intros Hh He; unfold Parties.handle, handle_register,
  handle_update, Parties.handle_suspend in Hh; guards Hh; owned. Qed.

Lemma order_events_owned g c es e :
  Sales.handle g c = Ok es -> e ∈ es -> sales_order_owner e = order_command_owner c.
Proof. destruct c as [c|c|c|c]; intros Hh He; unfold Sales.handle, Sales.handle_create,
  Sales.handle_add_line, handle_confirm, handle_mark_invoiced in Hh; guards Hh; owned. Qed.

Lemma purchase_events_owned g c es e :
  Purchasing.handle g c = Ok es -> e ∈ es -> purchase_order_owner e = purchase_command_owner c.
Proof. destruct c as [c|c|c|c]; intros Hh He; unfold Purchasing.handle, Purchasing.handle_create,
  Purchasing.handle_add_line, handle_approve, handle_receive in Hh; guards Hh; owned. Qed.

Lemma invoice_events_owned g c t i es e :
  Invoicing.handle g c = Ok es -> e ∈ es -> addressed_to t i c -> invoice_owner e = (t, i).
Proof. destruct c as [c|c|c]; intros Hh He [<- <-]; unfold Invoicing.handle, handle_issue,
  handle_register_payment, handle_void in Hh; guards Hh; owned. Qed.

Lemma purchase_opens a c es :
  Purchasing.handle (Purchasing.empty a) c = Ok es -> starts is_purchase_order_created es.
Proof. by destruct c; intros [= <-]. Qed.

(** The entry balances. *)
Definition entry_balances (_ : TenantId) (_ : AggregateId) (e : LedgerEvent) : Prop :=
  match e with EvJournalEntryPosted e => debits (je_lines e) = credits (je_lines e) end.

Lemma ledger_events_balance g c t a es e :
  Accounting.command_ok c -> Accounting.handle g c = Ok es -> e ∈ es -> entry_balances t a e.
Proof.
  destruct c as [c]. intros Hok Hh He. apply handle_post_Ok in Hh as [[_ (_ & _ & Hb)] ->]; [|done].
  by apply list_elem_of_singleton in He as ->.
Qed.

(** The user an aggregate identifier stands for. *)
Definition user_at (a : AggregateId) : UserId := mkUserId (aggregate_uuid a).

Definition user_owned (t : TenantId) (a : AggregateId) (e : UserEvent) : Prop :=
  user_event_owner e = (t, user_at a).

Lemma emitted_snoc {A C E} `{Aggregate A C E} (cs : list C) c : forall g : A,
  emitted g (cs ++ [c])
  = emitted g cs ++ match agg_handle (foldl run_command g cs) c with Ok es => es | Err _ => [] end.
Proof.
  induction cs as [|c0 cs IH]; intros g; simpl; [by rewrite app_nil_r|].
  by rewrite IH, <- app_assoc.
Qed.

Section Histories.
Context {J : Type} `{Lowercase}.
Context `{Serde InventoryEvent J} `{Serde PartyEvent J} `{Serde ProductEvent J}
  `{Serde SalesOrderEvent J} `{Serde InvoiceEvent J} `{Serde PurchaseOrderEvent J}
  `{Serde LedgerEvent J} `{Serde UserEvent J}.
Context `{!SerdeLaws InventoryEvent J} `{!SerdeLaws PartyEvent J} `{!SerdeLaws ProductEvent J}
  `{!SerdeLaws SalesOrderEvent J} `{!SerdeLaws InvoiceEvent J} `{!SerdeLaws PurchaseOrderEvent J}
  `{!SerdeLaws LedgerEvent J} `{!SerdeLaws UserEvent J}.
Context (fresh_order : InvoiceEvent -> SalesOrderId).
Context (fresh_supplier : PurchaseOrderEvent -> PartyId).

#[local] Abbreviation Store := (InMemoryEventStore J).
Implicit Types (s : Store) (us : list (UncommittedEvent J)) (se : StoredEvent J).

#[local] Abbreviation stock_k := (stock_keyed (J:=J)
  (S:=InMemoryTenantStore InventoryItemId InventoryReadModel)).
#[local] Abbreviation parties_k := (parties_projection (J:=J)
  (S:=InMemoryTenantStore PartyId PartyReadModel)).
#[local] Abbreviation products_k := (products_projection (J:=J)
  (S:=InMemoryTenantStore ProductId ProductReadModel)).
#[local] Abbreviation sales_k := (sales_orders_projection (J:=J)
  (S:=InMemoryTenantStore SalesOrderId SalesOrderReadModel)).
#[local] Abbreviation invoices_k := (invoices_projection fresh_order (J:=J)
  (S:=InMemoryTenantStore InvoiceId InvoiceReadModel)).
#[local] Abbreviation purchases_k := (purchase_orders_projection fresh_supplier (J:=J)
  (S:=InMemoryTenantStore PurchaseOrderId PurchaseOrderReadModel)).

(** The commands on invoices and users that the streams are made of. *)
Definition invoice_command_for (t : TenantId) (a : AggregateId) (c : InvoiceCommand) : Prop :=
  addressed_to t (mkInvoiceId a) c /\ Invoicing.command_ok c.
Definition user_command_for (t : TenantId) (a : AggregateId) (c : UserCommand) : Prop :=
  for_user t (user_at a) c.

(** A thread that read the store as [s] decided to append [us] at version [v]: its
    command names the stream, and its numbers fit their types. *)
Inductive decided s (t : TenantId) (a : AggregateId) : string ->
    list (UncommittedEvent J) -> ExpectedVersion -> Prop :=
| decided_item (c : InventoryCommand) ids us v :
    item_command_owner c = (t, mkInventoryItemId a) ->
    decide_events s t a "inventory.item" c make_item ids = Ok (Some (us, v)) ->
    decided s t a "inventory.item" us v
| decided_product (c : ProductCommand) ids us v :
    product_command_owner c = (t, mkProductId a) ->
    decide_events s t a "products.product" c make_product ids = Ok (Some (us, v)) ->
    decided s t a "products.product" us v
| decided_party (c : PartyCommand) ids us v :
    party_command_owner c = (t, mkPartyId a) ->
    decide_events s t a "parties.party" c make_party ids = Ok (Some (us, v)) ->
    decided s t a "parties.party" us v
| decided_order (c : SalesOrderCommand) ids us v :
    order_command_owner c = (t, mkSalesOrderId a) ->
    decide_events s t a "sales.order" c make_sales_order ids = Ok (Some (us, v)) ->
    decided s t a "sales.order" us v
| decided_purchase (c : PurchaseOrderCommand) ids us v :
    purchase_command_owner c = (t, mkPurchaseOrderId a) ->
    decide_events s t a "purchasing.order" c make_purchase_order ids = Ok (Some (us, v)) ->
    decided s t a "purchasing.order" us v
| decided_invoice (c : InvoiceCommand) ids us v :
    invoice_command_for t a c ->
    decide_events s t a "invoicing.invoice" c make_invoice ids = Ok (Some (us, v)) ->
    decided s t a "invoicing.invoice" us v
| decided_ledger (c : JournalCommand) ids us v :
    Accounting.command_ok c ->
    decide_events s t a "accounting.ledger" c make_ledger ids = Ok (Some (us, v)) ->
    decided s t a "accounting.ledger" us v
| decided_user (c : UserCommand) ids us v :
    user_command_for t a c ->
    decide_events s t a "auth.user" c make_user ids = Ok (Some (us, v)) ->
    decided s t a "auth.user" us v.

Lemma decided_exact s t a ty us v :
  decided s t a ty us v ->
  v = Exact (current_version (mem_stream s t a)) /\ batch_for t a ty us.
Proof.
  by intros []; match goal with Hd : decide_events _ _ _ _ _ _ _ = _ |- _ =>
    apply decide_Some in Hd as (_ & -> & Hb) end.
Qed.

(** What is decided carries events the aggregate gave for the command. *)
Lemma decide_events_gave {A C E} `{Aggregate A C E} `{Event E} `{HJ : Serde E J}
    `{!SerdeLaws E J} s t a ty (c : C) (make : TenantId -> AggregateId -> A) ids us v :
  decide_events s t a ty c make ids = Ok (Some (us, v)) ->
  exists g es, agg_handle g c = Ok es
    /\ Forall2 (fun u e => from_value (ue_payload u) = Ok e) us es
    /\ (mem_stream s t a = [] -> g = make t a).
Proof.
  unfold decide_events. intros Hd.
  apply bind_Ok_inv in Hd as (st & Hst & Hd). apply map_err_Ok in Hst.
  apply (load_exact s t a) in Hst as [_ ->].
  apply bind_Ok_inv in Hd as (? & _ & Hd). apply bind_Ok_inv in Hd as (g & Hg & Hd).
  apply bind_Ok_inv in Hd as (es & Hes & Hd). destruct es as [|e0 es]; [done|].
  apply bind_Ok_inv in Hd as (us' & Hus & Hd). apply map_err_Ok in Hus, Hes.
  injection Hd as <- <-. exists g, (e0 :: es). split; [done|]. split.
  - clear Hes. revert us' Hus. generalize 0. induction (e0 :: es) as [|e l IH]; intros n us' Hus.
    { by injection Hus as <-. }
    simpl in Hus. unfold from_typed in Hus. destruct (to_value_total e) as (j & Hj & Hj').
    rewrite Hj in Hus. destruct (to_uncommitted _ _ _ _ _ l) as [us1|] eqn:E1; [|done].
    injection Hus as <-. constructor; [exact Hj' | by eapply IH].
  - intros Hnil. simpl in Hg. rewrite Hnil in Hg. by injection Hg as <-.
Qed.

Lemma number_batch_elem n us se :
  se ∈ number_batch n us -> exists u k, u ∈ us /\ se = store_event k u.
Proof.
  revert n. induction us as [|u us IH]; intros n; simpl; [by intros ?%not_elem_of_nil|].
  intros [->|He]%elem_of_cons; [exists u, n; split; [left | done]|].
  destruct (IH _ He) as (u' & k & Hu & ?). exists u', k. split; [by right | done].
Qed.


(** ** What every event carries *)
Section Carries.
Context {E : Type} (own : string) (decode : J -> Result string E).
Context (P : TenantId -> AggregateId -> E -> Prop).

Definition batch_carries t a us : Prop :=
  Forall (fun u => carries own decode P t a (ue_aggregate_type u) (ue_payload u)) us.

Lemma foreign_carries t a ty us : batch_for t a ty us -> ty <> own -> batch_carries t a us.
Proof.
  intros [_ Hf] Hne. eapply Forall_impl; [exact Hf|]. intros u (_ & _ & <-) Hu. congruence.
Qed.

Lemma own_carries {A C} `{Aggregate A C E} `{Event E} `{!Serde E J} `{!SerdeLaws E J}
    s t a ty (c : C) (make : TenantId -> AggregateId -> A) ids us v :
  decode = from_value ->
  (forall g es e, agg_handle g c = Ok es -> e ∈ es -> P t a e) ->
  decide_events s t a ty c make ids = Ok (Some (us, v)) -> batch_carries t a us.
Proof.
  intros Hdec Hown Hd. destruct (decide_events_gave _ _ _ _ _ _ _ _ _ Hd) as (g & es & Hh & Hf & _).
  apply Forall_lookup. intros i u Hu _. destruct (Forall2_lookup_l _ _ _ _ _ Hf Hu) as (e & He & Hv).
  exists e. rewrite Hdec. split; [done|]. apply (Hown g es e Hh). by eapply list_elem_of_lookup_2.
Qed.

Lemma append_carries s us v t a ty :
  batch_for t a ty us -> batch_carries t a us -> all_carry own decode P s ->
  all_carry own decode P (es_append s us v).1.
Proof.
  intros Hb Hg Hall t' a' se. destruct (es_append s us v) as [s' [c|e]] eqn:Ea; simpl.
  - destruct (append_committed s us v s' c t a ty Hb Ea) as (_ & _ & _ & Hc & Hst & Ho).
    destruct (decide ((t', a') = (t, a))) as [[= -> ->]|Hne].
    + simpl in Hst. rewrite Hst. intros [Hs|Hs]%elem_of_app; [by apply Hall|].
      subst c. apply number_batch_elem in Hs as (u & k & Hu & ->).
      unfold batch_carries in Hg. rewrite Forall_forall in Hg. by apply Hg.
    + simpl in Ho. rewrite Ho by done. apply Hall.
  - pose proof (append_failed s us v s' e Ea t' a') as Hs. simpl in Hs. rewrite Hs. apply Hall.
Qed.
End Carries.

(** What a thread decides carries events of which [P] holds, when [holds] proves it
    of the aggregate's events. *)
Ltac carries_by holds :=
  intros Hd; destruct (decided_exact _ _ _ _ _ _ Hd) as [_ Hb]; destruct Hd;
  try (apply (foreign_carries _ _ _ _ _ _ _ Hb); done);
  match goal with Hd : decide_events _ _ _ _ _ _ _ = _ |- batch_carries ?own ?dec ?P _ _ _ =>
    refine (own_carries own dec P _ _ _ _ _ _ _ _ _ eq_refl _ Hd) end;
  intros g es e Hh He; holds g es e Hh He.

Lemma decided_items s t a ty us v :
  decided s t a ty us v ->
  batch_carries "inventory.item" from_value (fun t a e => Stock.isolation t a e = None) t a us.
Proof.
  carries_by ltac:(fun g es e Hh He =>
    apply isolation_None; rewrite (item_events_owned _ _ _ _ Hh He); assumption).
Qed.

Lemma decided_products s t a ty us v :
  decided s t a ty us v ->
  batch_carries "products.product" from_value
    (fun t a e => entry_isolation "product_id" product_aggregate product_owner t a e = None) t a us.
Proof.
  carries_by ltac:(fun g es e Hh He =>
    apply (entry_isolation_None _ mkProductId _ product_key_agg);
    rewrite (product_events_owned _ _ _ _ Hh He); assumption).
Qed.

Lemma decided_parties s t a ty us v :
  decided s t a ty us v ->
  batch_carries "parties.party" from_value
    (fun t a e => entry_isolation "party_id" party_aggregate party_owner t a e = None) t a us.
Proof.
  carries_by ltac:(fun g es e Hh He =>
    apply (entry_isolation_None _ mkPartyId _ party_key_agg);
    rewrite (party_events_owned _ _ _ _ Hh He); assumption).
Qed.

Lemma decided_orders s t a ty us v :
  decided s t a ty us v ->
  batch_carries "sales.order" from_value
    (fun t a e => entry_isolation "order_id" so_aggregate sales_order_owner t a e = None) t a us.
Proof.
  carries_by ltac:(fun g es e Hh He =>
    apply (entry_isolation_None _ mkSalesOrderId _ sales_key_agg);
    rewrite (order_events_owned _ _ _ _ Hh He); assumption).
Qed.

Lemma decided_purchases s t a ty us v :
  decided s t a ty us v ->
  batch_carries "purchasing.order" from_value
    (fun t a e => entry_isolation "order_id" po_aggregate purchase_order_owner t a e = None) t a us.
Proof.
  carries_by ltac:(fun g es e Hh He =>
    apply (entry_isolation_None _ mkPurchaseOrderId _ purchase_key_agg);
    rewrite (purchase_events_owned _ _ _ _ Hh He); assumption).
Qed.

Lemma decided_invoices s t a ty us v :
  decided s t a ty us v ->
  batch_carries "invoicing.invoice" from_value
    (fun t a e => entry_isolation "invoice_id" invoice_aggregate invoice_owner t a e = None) t a us.
Proof.
  carries_by ltac:(fun g es e Hh He =>
    apply (entry_isolation_None _ mkInvoiceId _ invoice_key_agg);
    apply (invoice_events_owned _ _ _ _ _ _ Hh He); match goal with Hc : invoice_command_for _ _ _ |- _ => apply Hc end).
Qed.

Lemma decided_ledgers s t a ty us v :
  decided s t a ty us v ->
  batch_carries "accounting.ledger" from_value entry_balances t a us.
Proof.
  carries_by ltac:(fun g es e Hh He => eapply (ledger_events_balance g); eassumption).
Qed.

Lemma decided_users s t a ty us v :
  decided s t a ty us v -> batch_carries "auth.user" from_value user_owned t a us.
Proof.
  carries_by ltac:(fun g es e Hh He =>
    match goal with Hc : user_command_for _ _ _ |- _ =>
      destruct (user_handle_one _ _ _ _ _ Hh Hc) as (? & -> & ?);
      apply list_elem_of_singleton in He as ->; assumption end).
Qed.

(** The first event of a purchase order's stream creates it. *)
Definition opened (st : list (StoredEvent J)) : Prop :=
  match st with
  | [] => True
  | se :: _ => se_aggregate_type se = "purchasing.order"%string ->
               exists e, from_value (se_payload se) = Ok e /\ is_purchase_order_created e
  end.

Lemma decided_opens s t a ty us v n :
  mem_stream s t a = [] -> decided s t a ty us v -> opened (number_batch n us).
Proof.
  intros Hnil Hd. destruct (decided_exact _ _ _ _ _ _ Hd) as [_ [_ Hb]].
  destruct Hd as [| | | |c ids us v Hc Hd| | |];
    try (destruct us as [|u us]; [done|]; apply Forall_cons_1 in Hb as [(_ & _ & Hty) _];
         intros Hse; simpl in Hse; congruence).
  destruct (decide_events_gave _ _ _ _ _ _ _ _ _ Hd) as (g & es & Hh & Hf & Hg).
  rewrite (Hg Hnil) in Hh. apply purchase_opens in Hh. destruct Hf as [|u e us es Hu _]; [done|].
  intros _. exists e. by split.
Qed.

Lemma opened_starts s t a :
  store_ok s -> all_genuine purchases_k s -> opened (mem_stream s t a) ->
  starts is_purchase_order_created (typed_history purchases_k s t a).
Proof.
  intros Hok Hg Ho. destruct (typed_history_cases purchases_k s t a Hok Hg) as [Hf|[_ ->]]; [|done].
  simpl in Hf. destruct Hf as [|se e st es (Hty & Hd & _) _]; [done|].
  destruct (Ho Hty) as (e' & Hd' & He). simpl in Hd. rewrite Hd' in Hd. by injection Hd as <-.
Qed.

(** ** Streams that commands ran through *)

Lemma decodes_unique {E} `{Serde E J} (st : list (StoredEvent J)) (es es' : list E) :
  decodes st es -> decodes st es' -> es = es'.
Proof.
  intros Hes. revert es'. induction Hes as [|se e st es He _ IH]; intros es' Hes'.
  - by inversion Hes'.
  - inversion Hes' as [|? e' ? ? He' Hes'']; subst. rewrite He in He'. injection He' as <-.
    f_equal. by apply IH.
Qed.

Section Ran.
Context {A C E : Type} `{Aggregate A C E} `{Event E} `{HJ : Serde E J} `{!SerdeLaws E J}.
Context (own : string) (make : TenantId -> AggregateId -> A).
Context (ok : TenantId -> AggregateId -> C -> Prop).

(** The stream is the events of some commands, from the first on. *)
Definition ran s : Prop :=
  forall t a, (Z.of_nat (length (mem_stream s t a)) < 2 ^ 64)%Z ->
  type_stable (mem_stream s t a) own ->
  exists cs, Forall (ok t a) cs /\ decodes (mem_stream s t a) (emitted (make t a) cs).

(** A decision on an earlier state that the version check lets through was made on
    the stream as it is. *)
Lemma decide_now s0 s t a (c : C) ids us v es :
  store_ok s0 -> store_ok s -> extends s0 s ->
  (Z.of_nat (length (mem_stream s t a)) < 2 ^ 64)%Z ->
  matches v (current_version (mem_stream s t a)) = true ->
  decodes (mem_stream s t a) es ->
  decide_events s0 t a own c make ids = Ok (Some (us, v)) ->
  exists decided, agg_handle (replay (make t a) es) c = Ok decided
    /\ forall n, decodes (number_batch n us) decided.
Proof.
  intros Hok0 Hok Hext Hlt Hm Hes Hd.
  destruct (decide_Some _ _ _ _ _ _ _ _ _ Hd) as (Hav & -> & _). simpl in Hm.
  apply bool_decide_eq_true in Hm.
  assert (Hsame : stream s0 t a = stream s t a)
    by (apply same_version_same_stream; [done..|simpl; congruence]).
  simpl in Hsame. rewrite <- Hsame in Hlt, Hes.
  rewrite (decide_exact s0 t a own c make ids es Hok0 Hav Hlt Hes) in Hd.
  destruct (agg_handle _ c) as [[|e decided]|err]; [done| |done].
  destruct (to_uncommitted_total t a own ids (e :: decided) 0) as (us' & Hus & Hdec).
  rewrite Hus in Hd. injection Hd as <-. by exists (e :: decided).
Qed.

Lemma append_ran s0 s t a ty us v :
  store_ok s0 -> store_ok s -> extends s0 s -> batch_for t a ty us ->
  (ty = own -> exists c ids, ok t a c /\ decide_events s0 t a own c make ids = Ok (Some (us, v))) ->
  ran s -> ran (es_append s us v).1.
Proof.
  intros Hok0 Hok Hext Hb Hown Hran t' a'.
  destruct (es_append s us v) as [s' [c|e]] eqn:Ea; simpl.
  2: { pose proof (append_failed s us v s' e Ea t' a') as Hs. simpl in Hs. rewrite Hs. apply Hran. }
  destruct (append_committed s us v s' c t a ty Hb Ea) as (_ & Hm & Hty & Hc & Hst & Ho).
  simpl in Hm, Hty, Hst, Ho.
  destruct (decide ((t', a') = (t, a))) as [[= -> ->]|Hne]; [|rewrite Ho by done; apply Hran].
  rewrite Hst, length_app. intros Hlt Hty'.
  assert (Hteq : ty = own).
  { destruct Hb as [Hne Hf]. rewrite Hc in Hty'. destruct us as [|u us]; [done|].
    apply Forall_cons_1 in Hf as [(_ & _ & <-) _].
    destruct (mem_stream s t a); simpl in *; congruence. }
  subst ty. destruct (Hown eq_refl) as (cmd & ids & Hcmd & Hd).
  destruct (Hran t a) as (cs & Hcs & Hes); [lia | done |].
  destruct (decide_now s0 s t a cmd ids us v _ Hok0 Hok Hext ltac:(lia) Hm Hes Hd)
    as (decided & Hh & Hdec).
  exists (cs ++ [cmd]). split; [by apply Forall_app_2, Forall_singleton|].
  rewrite emitted_snoc, <- replay_emitted, Hh. apply Forall2_app; [exact Hes|].
  rewrite Hc. apply Hdec.
Qed.

(** The first events of such a stream are what the first of the commands emitted. *)
Lemma ran_take `{!AggregateLaws A C E} (P : TenantId -> AggregateId -> E -> Prop) s t a n :
  store_ok s -> short s -> all_carry own from_value P s -> ran s ->
  (forall g c es, agg_inv g -> cmd_ok c -> ok t a c -> agg_handle g c = Ok es ->
     length es = 1) ->
  agg_inv (make t a) -> (forall c, ok t a c -> cmd_ok c) ->
  exists cs, Forall (ok t a) cs
    /\ take n (typed_events own from_value s t a) = emitted (make t a) cs.
Proof.
  intros Hok Hshort Hall Hran Hone Hinv Hcmd.
  destruct (typed_events_cases own from_value P s t a Hok Hall) as [Hf|[_ ->]].
  2: { exists []. by rewrite take_nil. }
  destruct (Hran t a (Hshort t a)) as (cs & Hcs & Hd).
  { simpl in Hf. destruct Hf as [|se e st es (Hty & _)]; [done | exact Hty]. }
  assert (Hes : typed_events own from_value s t a = emitted (make t a) cs).
  { eapply decodes_unique; [|exact Hd]. eapply Forall2_impl; [exact Hf|].
    by intros se e (_ & He & _). }
  rewrite Hes.
  destruct (take_emitted_for (ok t a) cs) with (a := make t a) (n := n) as [m ->]; [done..| | |].
  - eapply Forall_impl; [exact Hcs | done].
  - done.
  - exists (take m cs). split; [by apply Forall_take | done].
Qed.
End Ran.

(** ** Histories *)
Record histories s : Prop := {
  h_items : all_genuine stock_k s;
  h_products : all_genuine products_k s;
  h_parties : all_genuine parties_k s;
  h_orders : all_genuine sales_k s;
  h_purchases : all_genuine purchases_k s;
  h_opened t a : opened (mem_stream s t a);
  h_invoices : all_genuine invoices_k s;
  h_invoice_runs : ran "invoicing.invoice" make_invoice invoice_command_for s;
  h_entries : all_carry "accounting.ledger" from_value entry_balances s;
  h_users : all_carry "auth.user" from_value user_owned s;
  h_user_runs : ran "auth.user" make_user user_command_for s
}.

Lemma histories_new : histories store_new.
Proof.
  split; try (intros t a se He; by apply not_elem_of_nil in He); [by intros t a|..];
    intros t a _ _; exists []; split; constructor.
Qed.

(** Appending what was decided on an earlier state of the store. *)
Lemma append_histories s0 s t a ty us v :
  store_ok s0 -> store_ok s -> extends s0 s -> decided s0 t a ty us v ->
  histories s -> histories (es_append s us v).1.
Proof.
  intros Hok0 Hok Hext Hd Hh. destruct (decided_exact _ _ _ _ _ _ Hd) as [_ Hb]. destruct Hh.
  split; try (by eapply append_carries; eauto using decided_items, decided_products,
    decided_parties, decided_orders, decided_purchases, decided_invoices, decided_ledgers,
    decided_users).
  - intros t' a'. destruct (es_append s us v) as [s' [c|e]] eqn:Ea; simpl.
    + destruct (append_committed s us v s' c t a ty Hb Ea) as (_ & _ & _ & -> & Hs & Hs').
      simpl in Hs, Hs'. destruct (decide ((t', a') = (t, a))) as [[= -> ->]|Hne]; [|by rewrite Hs'].
      rewrite Hs. pose proof (Hext t a) as Hpre. simpl in Hpre. specialize (h_opened0 t a).
      destruct (mem_stream s t a) as [|se st]; [|done]. simpl.
      apply prefix_nil_inv in Hpre. by eapply decided_opens.
    + pose proof (append_failed s us v s' e Ea t' a') as Hs. simpl in Hs. by rewrite Hs.
  - apply (append_ran _ _ _ s0 s t a ty); try done. intros ->.
    inversion Hd; subst; eauto.
  - apply (append_ran _ _ _ s0 s t a ty); try done. intros ->.
    inversion Hd; subst; eauto.
Qed.
End Histories.
