(* ===== verification/EndToEnd.v ===== *)
(** * From a command to what the API reads: the in-memory deployment as a whole

    The composition of the dispatcher ([Dispatcher]), the in-memory store and bus
    ([EventStore], [Bus]) and the subscriber that maintains the read models
    ([Services]).  Request threads load and decide, append, and publish what they
    appended one envelope at a time; the subscriber takes one envelope at a time;
    the steps interleave.  When the commands on one stream do not overlap, every
    read model ends up showing the aggregate that rehydration gives, and the accounts
    balance; when they do, the API can lose an event for good. *)

From S2P Require Import Prelude Core Events Bus EventStore EventQuery ReadModel Projection.
From S2P Require Import Dispatcher.
From S2P Require Import Auth Products Parties Users Sales Purchasing Invoicing Accounting.
From S2P Require Import Saga Stock Receivables TrialBalance Directories UserDirectory Services.
From S2P Require Import Http Routes AdminRoutes Api InOrder Histories.
From S2P Require Inventory.
From stdpp Require Import relations.
Import Inventory (InventoryItemId, mkInventoryItemId, InventoryEvent, InventoryCommand,
  InventoryItem).

Section Deployment.
Context {J : Type} `{Lowercase}.
Context `{Serde InventoryEvent J} `{Serde PartyEvent J} `{Serde ProductEvent J}
  `{Serde SalesOrderEvent J} `{Serde InvoiceEvent J} `{Serde PurchaseOrderEvent J}
  `{Serde LedgerEvent J} `{Serde UserEvent J}.
Context `{!SerdeLaws InventoryEvent J} `{!SerdeLaws PartyEvent J} `{!SerdeLaws ProductEvent J}
  `{!SerdeLaws SalesOrderEvent J} `{!SerdeLaws InvoiceEvent J} `{!SerdeLaws PurchaseOrderEvent J}
  `{!SerdeLaws LedgerEvent J} `{!SerdeLaws UserEvent J}.
Context (fresh_order : InvoiceEvent -> SalesOrderId).
Context (fresh_supplier : PurchaseOrderEvent -> PartyId).

#[local] Abbreviation Store := (InMemoryEventStore J).
#[local] Abbreviation D := (CommandDispatcher Store (InMemoryEventBus (EventEnvelope J))).
Implicit Types (s : Store) (us : list (UncommittedEvent J)) (se : StoredEvent J).

#[local] Abbreviation stock_k := (stock_keyed (J:=J)
  (S:=InMemoryTenantStore InventoryItemId InventoryReadModel)).
#[local] Abbreviation parties_k := (parties_projection (J:=J)
  (S:=InMemoryTenantStore PartyId PartyReadModel)).
#[local] Abbreviation products_k := (products_projection (J:=J)
  (S:=InMemoryTenantStore ProductId ProductReadModel)).
#[local] Abbreviation sales_k := (sales_orders_projection (J:=J)
  (S:=InMemoryTenantStore SalesOrderId SalesOrderReadModel)).
#[local] Abbreviation invoices_k := (invoices_projection fresh_order (J:=J)
  (S:=InMemoryTenantStore InvoiceId InvoiceReadModel)).
#[local] Abbreviation purchases_k := (purchase_orders_projection fresh_supplier (J:=J)
  (S:=InMemoryTenantStore PurchaseOrderId PurchaseOrderReadModel)).

(** ** The deployment *)

(** The dispatcher with its store and bus; of each request thread, the events its
    append stored and it has still to publish; the read models. *)
Record World := mkWorld {
  w_dispatcher : D;
  w_unpublished : list (list (StoredEvent J));
  w_services : AppServices
}.

#[local] Abbreviation store w := (d_store (w_dispatcher w)).
#[local] Abbreviation bus w := (d_bus (w_dispatcher w)).

(** The subscription of the projections is the first, the saga's the second. *)
Definition projections : Subscription := mkSubscription 0.

(** @src crates/api/src/app/services.rs 249-298 [build_in_memory_services] *)
Definition deployed : World :=
  let '(b, _) := subscribe bus_new in
  let '(b, _) := subscribe b in
  mkWorld (mkDispatcher store_new b) [] services_new.

(** A turn of the subscriber thread; it waits when nothing is there.

    @src crates/api/src/app/services.rs 321-384 [build_in_memory_services (subscriber)] *)
Definition subscriber_step (w : World) : World :=
  match try_recv (bus w) projections with
  | (b, Ok env) =>
    mkWorld (mkDispatcher (store w) b) (w_unpublished w)
      (subscriber_turn fresh_order fresh_supplier (w_services w) env)
  | (_, Err _) => w
  end.

(** The last but one step of [dispatch].

    @src crates/infra/src/command_dispatcher.rs 266-267 [CommandDispatcher::dispatch] *)
Definition append_step (w : World) us v : World :=
  match es_append (store w) us v with
  | (s', Ok committed) =>
    mkWorld (mkDispatcher s' (bus w)) (committed :: w_unpublished w) (w_services w)
  | (s', Err _) => mkWorld (mkDispatcher s' (bus w)) (w_unpublished w) (w_services w)
  end.

(** One turn of the loop that publishes, by the thread between the others.

    @src crates/infra/src/command_dispatcher.rs 269-274 [CommandDispatcher::dispatch] *)
Definition publish_step (w : World) se l1 rest l2 : World :=
  mkWorld (mkDispatcher (store w) (bus_publish (bus w) (to_envelope se)).1)
    (l1 ++ rest :: l2) (w_services w).

Definition addressed (t : TenantId) (a : AggregateId) se : Prop :=
  se_tenant_id se = t /\ se_aggregate_id se = a.
#[global] Instance addressed_dec t a se : Decision (addressed t a se).
Proof. unfold addressed. apply _. Defined.

(** The other users of the bus publish nothing and leave the subscription of the
    projections alone. *)
Definition other_op (op : BusOp (EventEnvelope J)) : Prop :=
  match op with
  | OpPublish _ => False
  | OpSubscribe => True
  | OpRecv n | OpDrop n => n <> receiver projections
  end.

(** [serial] asks that a command is not committed to a stream while another
    thread has still to publish events of the stream. *)
Inductive step (serial : Prop) : World -> World -> Prop :=
| step_append w s0 t a ty us v :
    store_ok s0 -> extends s0 (store w) -> decided s0 t a ty us v ->
    (serial -> Forall (Forall (fun se => ~ addressed t a se)) (w_unpublished w)) ->
    step serial w (append_step w us v)
| step_publish w l1 se rest l2 :
    w_unpublished w = l1 ++ (se :: rest) :: l2 -> step serial w (publish_step w se l1 rest l2)
| step_return w l1 l2 :
    w_unpublished w = l1 ++ [] :: l2 ->
    step serial w (mkWorld (w_dispatcher w) (l1 ++ l2) (w_services w))
| step_bus w op :
    other_op op ->
    step serial w (mkWorld (mkDispatcher (store w) (bus_step (bus w) op).1)
                     (w_unpublished w) (w_services w))
| step_subscriber w : step serial w (subscriber_step w).

(** Nothing is left to publish, and nothing waits for the subscriber. *)
Definition quiescent (w : World) : Prop :=
  concat (w_unpublished w) = [] /\ (try_recv (bus w) projections).2 = Err Bus.Empty.

(** ** Its invariant *)

(** No two threads have events of one stream to publish. *)
Definition exclusive (l : list (list (StoredEvent J))) : Prop :=
  forall i j b b' se se' t a, l !! i = Some b -> l !! j = Some b' ->
  se ∈ b -> se' ∈ b' -> addressed t a se -> addressed t a se' -> i = j.

(** [taken] was handed to the projections, [queue] waits; every stream is what was
    published of it, and then what is to be published of it. *)
Definition world_inv (w : World) (taken queue : list (EventEnvelope J)) : Prop :=
  store_ok (store w) /\ bus_inv (bus w) /\ listening (receiver projections) queue (bus w)
  /\ w_services w = subscriber_run fresh_order fresh_supplier services_new taken
  /\ histories fresh_order fresh_supplier (store w) /\ exclusive (w_unpublished w)
  /\ forall t a, of_stream t a (taken ++ queue)
                 ++ of_stream t a (to_envelope <$> concat (w_unpublished w))
               = to_envelope <$> mem_stream (store w) t a.

Lemma deployed_inv : world_inv deployed [] [].
Proof.
  split_and!.
  - apply store_new_ok.
  - split_and!; [|repeat constructor|done]. simpl. repeat constructor; set_solver.
  - split; [simpl; set_solver|]. eexists. split_and!; [reflexivity|done..].
  - done.
  - apply histories_new.
  - intros i j b b' se se' t a Hi. discriminate Hi.
  - done.
Qed.

Lemma step_store_ok serial w w' : step serial w w' -> store_ok (store w) -> store_ok (store w').
Proof.
  intros [w0 s0 t a ty us v _ _ _ _|w0 l1 se rest l2 _|w0 l1 l2 _|w0 op _|w0] Hok; try done.
  - pose proof (proj1 (append_keeps (store w0) us v Hok)). unfold append_step.
    by destruct (es_append (store w0) us v) as [s' []].
  - unfold subscriber_step. by destruct (try_recv _ _) as [? []].
Qed.

Lemma run_store_ok serial w : rtc (step serial) deployed w -> store_ok (store w).
Proof.
  revert w. apply (rtc_ind_r (fun w => store_ok (store w)) deployed); [apply store_new_ok|].
  intros w w' _ Hs. by eapply step_store_ok.
Qed.

Lemma exclusive_shrink l l' (f : nat -> nat) :
  (forall i j, f i = f j -> i = j) ->
  (forall i b, l' !! i = Some b -> exists b0, l !! f i = Some b0 /\ b ⊆ b0) ->
  exclusive l -> exclusive l'.
Proof.
  intros Hf Hl Hex i j b b' se se' t a Hi Hj Hs Hs' Ha Ha'.
  destruct (Hl i b Hi) as (b0 & Hb0 & Hsub), (Hl j b' Hj) as (b0' & Hb0' & Hsub').
  apply Hf. by apply (Hex _ _ b0 b0' se se' t a); auto.
Qed.

(** Of a stream one thread publishes, the others publish nothing. *)
Lemma exclusive_others l1 se rest l2 t a :
  exclusive (l1 ++ (se :: rest) :: l2) -> addressed t a se ->
  of_stream t a (to_envelope <$> concat l1) = []
  /\ of_stream t a (to_envelope <$> concat l2) = [].
Proof.
  intros Hex Ha.
  assert (Hothers : forall i b se', (l1 ++ (se :: rest) :: l2) !! i = Some b -> se' ∈ b ->
    addressed t a se' -> i = length l1).
  { intros i b se' Hi Hs Ha'. apply (Hex _ _ b (se :: rest) se' se t a Hi); [|done|left|done..].
    by apply list_lookup_middle. }
  split; apply of_stream_none; intros env (se' & -> & Hin)%list_elem_of_fmap Ht;
    apply elem_of_concat in Hin as (b & Hs & [i Hi]%list_elem_of_lookup).
  - pose proof (lookup_lt_Some _ _ _ Hi).
    assert (i = length l1); [|lia]. apply (Hothers i b se'); [by rewrite lookup_app_l | done..].
  - assert (length l1 + Datatypes.S i = length l1); [|lia].
    apply (Hothers _ b se'); [|done..]. rewrite lookup_app_r by lia.
    by replace (length l1 + Datatypes.S i - length l1) with (Datatypes.S i) by lia.
Qed.

Lemma publish_step_inv w se l1 rest l2 taken queue :
  w_unpublished w = l1 ++ (se :: rest) :: l2 -> world_inv w taken queue ->
  world_inv (publish_step w se l1 rest l2) taken (queue ++ [to_envelope se]).
Proof.
  intros Hu (Hok & Hb & Hl & Hs & Hg & Hex & Hst).
  destruct (bus_step_listening (bus w) (OpPublish (to_envelope se)) _ _ Hb ltac:(done) Hl)
    as (q & Hq & Hd).
  simpl in Hd. subst q. pose proof (bus_step_inv _ (OpPublish (to_envelope se)) Hb) as Hb'.
  split_and!; try done; simpl.
  - rewrite Hu in Hex. apply (exclusive_shrink (l1 ++ (se :: rest) :: l2) _ (fun i => i)); [done | | exact Hex].
    intros i b Hi. destruct (decide (i = length l1)) as [->|Hne].
    + rewrite list_lookup_middle in Hi by done. injection Hi as <-.
      exists (se :: rest). split; [by apply list_lookup_middle | set_solver].
    + exists b. split; [|done]. destruct (decide (i < length l1)).
      * by rewrite lookup_app_l in * by lia.
      * rewrite lookup_app_r in * by lia. by destruct (i - length l1) eqn:E; [lia|].
  - intros t a. rewrite <- (Hst t a), Hu. rewrite !concat_app, !concat_cons, !fmap_app, fmap_cons.
    rewrite !of_stream_app, (of_stream_cons _ _ (to_envelope se) (to_envelope <$> rest)).
    rewrite <- !app_assoc. f_equal. f_equal.
    destruct (decide (addressed t a se)) as [Ha|Ha].
    + rewrite Hu in Hex. destruct (exclusive_others _ _ _ _ t a Hex Ha) as [-> _]. done.
    + rewrite (of_stream_none t a [to_envelope se]); [done|].
      intros env ->%list_elem_of_singleton. exact Ha.
Qed.

Lemma append_step_inv w s0 t a ty us v taken queue :
  store_ok s0 -> extends s0 (store w) -> decided s0 t a ty us v ->
  Forall (Forall (fun se => ~ addressed t a se)) (w_unpublished w) ->
  world_inv w taken queue -> world_inv (append_step w us v) taken queue.
Proof.
  intros Hok0 Hext Hd Hfree (Hok & Hb & Hl & Hs & Hg & Hex & Hst).
  destruct (decided_exact _ _ _ _ _ _ Hd) as [_ Hbatch].
  pose proof (append_histories _ _ _ _ _ _ _ _ _ Hok0 Hok Hext Hd Hg) as Hg'.
  pose proof (proj1 (append_keeps (store w) us v Hok)) as Hok'.
  unfold append_step. destruct (es_append (store w) us v) as [s' [c|e]] eqn:Ea.
  2: { split_and!; try done. intros t' a'. simpl. rewrite Hst. f_equal. symmetry.
       exact (append_failed (store w) us v s' e Ea t' a'). }
  destruct (append_committed (store w) us v s' c t a ty Hbatch Ea) as (_ & _ & _ & Hc & Hs1 & Ho).
  simpl in Hs1, Ho.
  assert (Hown : forall se, se ∈ c -> addressed t a se).
  { intros se Hse. subst c. destruct Hbatch as [_ Hf]. rewrite Forall_forall in Hf.
    apply number_batch_elem in Hse as (u & k & Hu & ->). split; by apply Hf. }
  rewrite Forall_forall in Hfree.
  split_and!; try done; simpl.
  - intros [|i] [|j] b b' se se' t' a' Hi Hj Hse Hse' Ha Ha'; simpl in *; [done|..].
    + exfalso. injection Hi as <-. apply list_elem_of_lookup_2 in Hj.
      destruct (Hown _ Hse) as [<- <-], Ha as [<- <-]. specialize (Hfree _ Hj).
      rewrite Forall_forall in Hfree. by apply (Hfree se').
    + exfalso. injection Hj as <-. apply list_elem_of_lookup_2 in Hi.
      destruct (Hown _ Hse') as [<- <-], Ha' as [<- <-]. specialize (Hfree _ Hi).
      rewrite Forall_forall in Hfree. by apply (Hfree se).
    + f_equal. by apply (Hex i j b b' se se' t' a').
  - intros t' a'. rewrite fmap_app, (of_stream_app _ _ (to_envelope <$> c)). specialize (Hst t' a').
    destruct (decide ((t', a') = (t, a))) as [[= -> ->]|Hne].
    + rewrite Hs1, fmap_app, <- Hst, <- app_assoc. f_equal.
      rewrite (of_stream_id t a (to_envelope <$> c))
        by (intros env (se & -> & Hse)%list_elem_of_fmap; by apply Hown).
      rewrite (of_stream_none t a (to_envelope <$> concat _)); [by rewrite app_nil_r|].
      intros env (se & -> & (b & Hse & Hb')%elem_of_concat)%list_elem_of_fmap.
      specialize (Hfree _ Hb'). rewrite Forall_forall in Hfree. by apply Hfree.
    + rewrite Ho by done. rewrite <- Hst. rewrite (of_stream_none t' a' (to_envelope <$> c)); [done|].
      intros env (se & -> & [<- <-]%Hown)%list_elem_of_fmap [<- <-]. done.
Qed.

Lemma return_step_inv w l1 l2 taken queue :
  w_unpublished w = l1 ++ [] :: l2 -> world_inv w taken queue ->
  world_inv (mkWorld (w_dispatcher w) (l1 ++ l2) (w_services w)) taken queue.
Proof.
  intros Hu (Hok & Hb & Hl & Hs & Hg & Hex & Hst). split_and!; try done; simpl.
  - rewrite Hu in Hex. apply (exclusive_shrink (l1 ++ [] :: l2) _
      (fun i => if decide (i < length l1) then i else Datatypes.S i)); [| |exact Hex].
    + intros i j. repeat case_decide; lia.
    + intros i b Hi. exists b. split; [|done]. case_decide.
      * by rewrite lookup_app_l in * by lia.
      * rewrite lookup_app_r in * by lia.
        by replace (Datatypes.S i - length l1) with (Datatypes.S (i - length l1)) by lia.
  - intros t a. rewrite <- (Hst t a), Hu. by rewrite !concat_app.
Qed.

(** What waits for the projections is what waited. *)
Lemma other_op_keeps b op queue q :
  other_op op ->
  delivered (receiver projections) (bus_step b op).2 ++ q = queue ++ published [op] -> q = queue.
Proof.
  intros Hop Hd. destruct op as [m| |k|k]; simpl in *; [done | by rewrite app_nil_r in Hd | |
    by rewrite app_nil_r in Hd].
  destruct (try_recv _ _) as [b' [m|e]]; simpl in *; [|by rewrite app_nil_r in Hd].
  rewrite decide_False in Hd by done. by rewrite app_nil_r in Hd.
Qed.

Lemma other_op_inv w op taken queue :
  other_op op -> world_inv w taken queue ->
  world_inv (mkWorld (mkDispatcher (store w) (bus_step (bus w) op).1) (w_unpublished w)
               (w_services w)) taken queue.
Proof.
  intros Hop (Hok & Hb & Hl & Hs & Hg & Hex & Hst).
  assert (Hdrop : op <> OpDrop (receiver projections)) by (destruct op; simpl in *; congruence).
  destruct (bus_step_listening (bus w) op _ _ Hb Hdrop Hl) as (q & Hq & Hd).
  pose proof (bus_step_inv _ op Hb) as Hb'.
  rewrite (other_op_keeps _ _ _ _ Hop Hd) in Hq. split_and!; done.
Qed.

(** The subscriber takes the first envelope that waits. *)
Lemma subscriber_inv w taken queue :
  world_inv w taken queue ->
  match queue with
  | [] => subscriber_step w = w /\ (try_recv (bus w) projections).2 = Err Bus.Empty
  | env :: rest => world_inv (subscriber_step w) (taken ++ [env]) rest
  end.
Proof.
  intros (Hok & Hb & Hl & Hs & Hg & Hex & Hst).
  destruct (bus_step_listening (bus w) (OpRecv (receiver projections)) _ _ Hb ltac:(done) Hl)
    as (q & Hq & Hd).
  pose proof (bus_step_inv _ (OpRecv (receiver projections)) Hb) as Hb'.
  pose proof Hl as (_ & c & Hc & _ & Hal & Hqc). unfold subscriber_step.
  simpl in Hd, Hq, Hb'. change {| receiver := 0 |} with projections in *.
  unfold try_recv in *. rewrite Hc, Hqc, Hal in *.
  destruct queue as [|env rest]; [done|]. simpl in *.
  injection Hd as Hd. rewrite app_nil_r in Hd. subst q.
  split_and!; try done; simpl.
  - unfold subscriber_run. by rewrite foldl_snoc, Hs.
  - intros t a. rewrite <- app_assoc. apply Hst.
Qed.

Lemma step_inv w w' :
  step True w w' -> forall taken queue, world_inv w taken queue ->
  exists taken' queue', world_inv w' taken' queue'.
Proof.
  intros [w0 s0 t a ty us v Hok0 Hext Hd Hfree|w0 l1 se rest l2 Hu|w0 l1 l2 Hu|w0 op Hop|w0]
    taken queue Hi.
  - do 2 eexists. eapply append_step_inv; eauto.
  - do 2 eexists. by eapply publish_step_inv.
  - do 2 eexists. by eapply return_step_inv.
  - do 2 eexists. by apply other_op_inv.
  - pose proof (subscriber_inv w0 taken queue Hi) as Hs. destruct queue as [|env rest]; [|eauto].
    destruct Hs as [-> _]. eauto.
Qed.

Lemma deployment_inv w :
  rtc (step True) deployed w -> exists taken queue, world_inv w taken queue.
Proof.
  intros Hr. assert (Hi : exists taken queue, world_inv deployed taken queue)
    by (do 2 eexists; apply deployed_inv).
  revert Hi. induction Hr as [w0|w0 w1 w2 Hs _ IH]; [done|].
  intros (taken & queue & Hi). apply IH. by eapply step_inv.
Qed.

(** ** What the API reads *)

(** The view of the aggregate that the dispatcher rehydrates from a stream; nothing
    before the first event. *)
Definition rehydrated {A C E V} `{Aggregate A C E} `{Serde E J} (ty : string) (fresh : A)
    (view : A -> V) (st : list (StoredEvent J)) : option V :=
  match st with
  | [] => None
  | se :: _ => if decide (se_aggregate_type se = ty) then view <$> rehydrate ty fresh st else None
  end.

Lemma rehydrated_shown {K V E A C} `{Countable K} (HK : Keyed (InMemoryTenantStore K V) K V J E)
    `{Aggregate A C E} `{HJ : Serde E J} (fresh : A) (view : A -> V) s t a n :
  kp_decode (Keyed:=HK) = from_value -> store_ok s -> short s -> all_genuine HK s ->
  let es := take n (typed_history HK s t a) in
  shown es (view (replay fresh es))
  = rehydrated (kp_type (Keyed:=HK)) fresh view (take n (mem_stream s t a)).
Proof.
  intros Hdec Hok Hshort Hg es.
  pose proof (rehydrate_replays _ _ _ fresh s t a n Hdec Hok Hshort Hg) as Hr.
  simpl in Hr. unfold rehydrated. destruct (typed_history_cases HK s t a Hok Hg) as [Hf|[Hf Hnil]].
  - simpl in Hf. apply (Forall2_take _ _ _ n) in Hf. fold es in Hf.
    change (typed_events _ _ s t a) with (typed_history HK s t a) in Hr. fold es in Hr.
    destruct (take n (mem_stream s t a)) as [|se st]; [by rewrite (Forall2_nil_inv_l _ _ Hf)|].
    destruct (Forall2_cons_inv_l _ _ _ _ Hf) as (e & es' & (Hty & _) & _ & Hes).
    rewrite decide_True, Hr by done. unfold shown. rewrite decide_False; [done|].
    by rewrite Hes.
  - unfold es. rewrite Hnil, take_nil. simpl in Hf. apply (Forall_take _ n) in Hf.
    unfold shown. rewrite decide_True by done. destruct Hf as [|se st Hse Hf]; [done|].
    by rewrite decide_False.
Qed.

(** What the API reads of an invoice: nothing before it is issued, and then its
    document and its entry in the ageing report. *)
Definition invoice_reads (services : AppServices) (t : TenantId) (a : AggregateId)
    (invoice : Invoice) : Prop :=
  exists open, follows (invoices_get services t (mkInvoiceId a),
                        ts_get (p_store (as_ar_aging services)) t (mkInvoiceId a), open) invoice.

(** The balances of a tenant's accounts add up to zero. *)
Definition books_balanced (services : AppServices) : Prop :=
  forall t, trial_balance (p_store (as_ledger services)) t = 0%Z.

(** What the API reads of an item, a product, a party, a sales order or a purchase
    order is the view of the aggregate rehydrated from [st]. *)
Definition views_show (services : AppServices) (t : TenantId) (a : AggregateId)
    (st : list (StoredEvent J)) : Prop :=
  inventory_get services t (mkInventoryItemId a)
    = rehydrated "inventory.item" (item_at a) stock_view st
  /\ products_get services t (mkProductId a)
    = rehydrated "products.product" (Products.empty (mkProductId a)) product_view st
  /\ parties_get services t (mkPartyId a)
    = rehydrated "parties.party" (Parties.empty (mkPartyId a)) party_view st
  /\ sales_get services t (mkSalesOrderId a)
    = rehydrated "sales.order" (Sales.empty (mkSalesOrderId a)) sales_order_view st
  /\ purchases_get services t (mkPurchaseOrderId a)
    = rehydrated "purchasing.order" (Purchasing.empty (mkPurchaseOrderId a))
        (purchase_order_view (mkPartyId (mkAggregateId 0))) st.

(** What the API reads of the aggregate [a] shows the aggregate rehydrated from
    [st]: the view of it; an invoice's document and entry in the ageing report; a
    user's entry in the directory. *)
Definition reads_show (services : AppServices) (t : TenantId) (a : AggregateId)
    (st : list (StoredEvent J)) : Prop :=
  views_show services t a st
  /\ (exists invoice, rehydrate "invoicing.invoice" (make_invoice t a) st = Some invoice
      /\ invoice_reads services t a invoice)
  /\ (exists user, rehydrate "auth.user" (make_user t a) st = Some user
      /\ follows_user t (users_get services t (user_at a)) user).

Lemma inv_in_order w taken queue : world_inv w taken queue -> in_order (store w) taken.
Proof.
  intros (_ & _ & _ & _ & _ & _ & Hst) t a. change (stream (store w) t a) with (mem_stream (store w) t a).
  rewrite <- Hst, of_stream_app, <- app_assoc. by apply prefix_app_r.
Qed.

(** The entry of a projection shows the aggregate rehydrated from the events
    processed. *)
Definition entry_rehydrates {K V E A C} `{Countable K}
    (HK : Keyed (InMemoryTenantStore K V) K V J E) `{Aggregate A C E} `{HJ : Serde E J}
    (fresh : AggregateId -> A) (view : A -> V) s : Prop :=
  forall t a n,
  foldl (kp_step (Keyed:=HK) a) None (take n (typed_history HK s t a))
  = rehydrated (kp_type (Keyed:=HK)) (fresh a) view (take n (mem_stream s t a)).

Lemma entry_rehydrates_by {K V E A C} `{Countable K}
    (HK : Keyed (InMemoryTenantStore K V) K V J E) `{Aggregate A C E} `{HJ : Serde E J}
    (fresh : AggregateId -> A) (view : A -> V) s :
  kp_decode (Keyed:=HK) = from_value -> store_ok s -> short s -> all_genuine HK s ->
  (forall t a n, let es := take n (typed_history HK s t a) in
     foldl (kp_step (Keyed:=HK) a) None es = shown es (view (replay (fresh a) es))) ->
  entry_rehydrates HK fresh view s.
Proof. intros Hdec Hok Hshort Hg Hfold t a n. rewrite Hfold. by apply (rehydrated_shown HK). Qed.

Section Entries.
Context (s : Store) (Hok : store_ok s) (Hshort : short s)
  (Hh : histories fresh_order fresh_supplier s).

Lemma items_rehydrate : entry_rehydrates stock_k item_at stock_view s.
Proof.
  pose proof (h_items _ _ _ Hh) as Hg. apply entry_rehydrates_by; try done.
  intros t a n. apply (stock_entry_view t a).
  intros e He%(elem_of_take_genuine stock_k Hok Hg). exact He.
Qed.

Lemma products_rehydrate :
  entry_rehydrates products_k (fun a => Products.empty (mkProductId a)) product_view s.
Proof.
  pose proof (h_products _ _ _ Hh) as Hg. apply entry_rehydrates_by; try done.
  intros t a n. apply (product_shows t a). intros e He%(elem_of_take_genuine products_k Hok Hg).
  by apply (entry_isolation_None "product_id" _ _ product_key_agg).
Qed.

Lemma parties_rehydrate :
  entry_rehydrates parties_k (fun a => Parties.empty (mkPartyId a)) party_view s.
Proof.
  pose proof (h_parties _ _ _ Hh) as Hg. apply entry_rehydrates_by; try done.
  intros t a n. apply (party_shows t a). intros e He%(elem_of_take_genuine parties_k Hok Hg).
  by apply (entry_isolation_None "party_id" _ _ party_key_agg).
Qed.

Lemma orders_rehydrate :
  entry_rehydrates sales_k (fun a => Sales.empty (mkSalesOrderId a)) sales_order_view s.
Proof.
  pose proof (h_orders _ _ _ Hh) as Hg. apply entry_rehydrates_by; try done.
  intros t a n. apply (sales_order_shows t a). intros e He%(elem_of_take_genuine sales_k Hok Hg).
  by apply (entry_isolation_None "order_id" _ _ sales_key_agg).
Qed.

Lemma purchases_rehydrate :
  entry_rehydrates purchases_k (fun a => Purchasing.empty (mkPurchaseOrderId a))
    (purchase_order_view (mkPartyId (mkAggregateId 0))) s.
Proof.
  pose proof (h_purchases _ _ _ Hh) as Hg. apply entry_rehydrates_by; try done.
  intros t a n. apply (purchase_order_shows t a).
  - intros e He%(elem_of_take_genuine purchases_k Hok Hg).
    by apply (entry_isolation_None "order_id" _ _ purchase_key_agg).
  - apply starts_take, opened_starts; [done..|]. apply (h_opened _ _ _ Hh).
Qed.

(** The first events of an invoice's stream are those of some commands, and the
    entries they make show the invoice the commands lead to. *)
Lemma invoice_rehydrates t a n :
  exists invoice open,
    rehydrate "invoicing.invoice" (make_invoice t a) (take n (mem_stream s t a)) = Some invoice
    /\ let es := take n (typed_history invoices_k s t a) in
       follows (foldl (invoice_entry fresh_order) None es, foldl aging_entry None es, open) invoice.
Proof.
  pose proof (h_invoices _ _ _ Hh) as Hg.
  pose proof (rehydrate_replays _ _ _ (make_invoice t a) s t a n eq_refl Hok Hshort Hg) as Hr.
  destruct (ran_take _ _ _ _ s t a n Hok Hshort Hg (h_invoice_runs _ _ _ Hh)) as (cs & Hcs & Hes).
  { intros g c es Hgi Hc _. by apply invoice_handle_one. }
  { apply invoice_empty_inv. }
  { by intros c [_ Hc]. }
  exists (foldl run_command (make_invoice t a) cs). eexists. split.
  { etrans; [exact Hr|]. by rewrite Hes, replay_emitted. }
  assert (Hto : take n (typed_history invoices_k s t a) = emitted (make_invoice t a) cs) by exact Hes.
  cbv zeta. rewrite Hto. apply (invoice_entries_follow fresh_order a cs).
  eapply Forall_impl; [exact Hcs|]. by intros c [_ Hc].
Qed.
End Entries.

(** One read model: it was served, and shows what it was delivered. *)
Lemma component_shows {K V E A C} `{Countable K} (HK : Keyed (InMemoryTenantStore K V) K V J E)
    `{Aggregate A C E} `{HJ : Serde E J}
    (field : AppServices -> Projector (InMemoryTenantStore K V) InMemoryCursorStore)
    (fresh : AggregateId -> A) (view : A -> V) name w taken queue t a :
  (forall self env, field (subscriber_turn fresh_order fresh_supplier self env)
                    = (deliver (HK:=HK) (field self) env).1) ->
  field services_new = projector_new name ∅ -> all_genuine HK (store w) ->
  entry_rehydrates HK fresh view (store w) -> short (store w) -> world_inv w taken queue ->
  ts_get (p_store (field (w_services w))) t (kp_key (Keyed:=HK) a)
  = rehydrated (kp_type (Keyed:=HK)) (fresh a) view
      (take (length (of_stream t a taken)) (mem_stream (store w) t a)).
Proof.
  intros Hturn Hnew Hg Hent Hshort Hi. pose proof (inv_in_order w taken queue Hi) as Hin.
  destruct Hi as (Hok & _ & _ & -> & _).
  pose proof (in_order_served HK _ _ Hok Hshort Hg Hin) as Hserved.
  etrans; [exact (component_follows fresh_order fresh_supplier HK field name _ _ Hturn Hnew
                    Hserved t a)|].
  pose proof (seen_take HK (store w) taken t a Hok Hshort Hg Hin) as Hseen. unfold seen in Hseen.
  rewrite Hseen. apply Hent.
Qed.

(** The invoice document and the ageing report were served, and show the invoice
    after some commands. *)
Lemma invoice_shows w taken queue t a :
  short (store w) -> world_inv w taken queue ->
  exists invoice,
    rehydrate "invoicing.invoice" (make_invoice t a)
      (take (length (of_stream t a taken)) (mem_stream (store w) t a)) = Some invoice
    /\ invoice_reads (w_services w) t a invoice.
Proof.
  intros Hshort Hi. pose proof (inv_in_order w taken queue Hi) as Hin.
  destruct Hi as (Hok & _ & _ & Hsv & Hh & _).
  pose proof (h_invoices _ _ _ Hh) as Hg.
  pose proof (in_order_served invoices_k _ _ Hok Hshort Hg Hin) as Hserved.
  destruct (invoice_rehydrates (store w) Hok Hshort Hh t a (length (of_stream t a taken)))
    as (invoice & open & Hr & Hf).
  exists invoice. split; [exact Hr|]. exists open. rewrite Hsv.
  rewrite (aging_follows fresh_order fresh_supplier _ _ Hserved t a).
  assert (Hd : invoices_get (subscriber_run fresh_order fresh_supplier services_new taken) t (mkInvoiceId a)
    = foldl (invoice_entry fresh_order) None
        (seen "invoicing.invoice" taken (typed_history invoices_k (store w)) t a))
    by exact (component_follows fresh_order fresh_supplier invoices_k as_invoices _ _ _
                (turn_invoices _ _) eq_refl Hserved t a).
  assert (Hto : seen "invoicing.invoice" taken (typed_history invoices_k (store w)) t a
    = take (length (of_stream t a taken)) (typed_history invoices_k (store w) t a))
    by exact (seen_take invoices_k (store w) taken t a Hok Hshort Hg Hin).
  rewrite Hd, Hto. exact Hf.
Qed.

(** The events of a user among envelopes in order. *)
Definition user_event (env : EventEnvelope J) : option UserEvent :=
  if decide (env_aggregate_type env = "auth.user"%string)
  then match from_value (env_payload env) with Ok e => Some e | Err _ => None end
  else None.

Lemma user_events_taken s envs t a :
  store_ok s -> all_carry "auth.user" from_value user_owned s -> in_order s envs ->
  omap (user_event_of t (user_at a)) (user_envelopes envs)
  = take (length (of_stream t a envs)) (typed_events "auth.user" from_value s t a).
Proof.
  intros Hok Hg Hin. rewrite (take_typed_events _ _ user_owned) by done.
  unfold user_envelopes. rewrite omap_filter.
  rewrite (omap_of_stream _ user_event t a).
  { rewrite (of_stream_take s envs t a Hin) at 1. by rewrite omap_fmap. }
  intros env He. destruct (in_order_elem s envs env Hin He) as (se & Hse & ->). simpl.
  unfold user_event. simpl. destruct (decide (se_aggregate_type se = _)) as [Hty|];
    [|by destruct (decide _)].
  destruct (Hg _ _ _ Hse Hty) as (e & Hd & Ho). unfold user_event_of. simpl.
  rewrite Hty, Hd, Ho. simpl. apply decide_ext. unfold user_at.
  split; intros [Ht Ha]; (split; [done|]); [|by rewrite Ha].
  simpl in Ha. destruct (se_aggregate_id se), a. simpl in Ha. congruence.
Qed.

(** The user directory took the events of the user, each once and in order. *)
Lemma user_shows w taken queue t a :
  short (store w) -> world_inv w taken queue ->
  exists user,
    rehydrate "auth.user" (make_user t a)
      (take (length (of_stream t a taken)) (mem_stream (store w) t a)) = Some user
    /\ follows_user t (users_get (w_services w) t (user_at a)) user.
Proof.
  intros Hshort Hi. pose proof (inv_in_order w taken queue Hi) as Hin.
  destruct Hi as (Hok & _ & _ & Hsv & Hh & _).
  pose proof (h_users _ _ _ Hh) as Hg.
  pose proof (rehydrate_replays _ _ _ (make_user t a) (store w) t a (length (of_stream t a taken))
    eq_refl Hok Hshort Hg) as Hr.
  destruct (ran_take _ _ _ _ (store w) t a (length (of_stream t a taken)) Hok Hshort Hg
    (h_user_runs _ _ _ Hh)) as (cs & Hcs & Hes).
  { intros g c es _ _ Hc Hgc. by destruct (user_handle_one _ _ _ _ _ Hgc Hc) as (e & -> & _). }
  { apply user_new_inv. }
  { done. }
  exists (foldl run_command (make_user t a) cs). split.
  { etrans; [exact Hr|]. by rewrite Hes, replay_emitted. }
  rewrite Hsv. unfold users_get. rewrite run_users, users_apply_all_get.
  rewrite (user_events_taken _ _ _ _ Hok Hg Hin), Hes.
  apply (emitted_follows user_entry (follows_user t) (for_user t (user_at a))).
  - intros v g c es Hv _ _ Hc Hgc. exact (user_entry_follows t _ v g c es Hv Hgc Hc).
  - done.
  - apply user_new_inv.
  - by apply Forall_true.
  - exact Hcs.
Qed.

(** The entries posted balance. *)
Lemma ledger_shows w taken queue : world_inv w taken queue -> books_balanced (w_services w).
Proof.
  intros Hi t. pose proof (inv_in_order w taken queue Hi) as Hin.
  destruct Hi as (_ & _ & _ & -> & Hh & _). rewrite run_ledger, deliver_all_balance; [done|].
  intros env e He Hty Hd. destruct (in_order_elem _ _ env Hin He) as (se & Hse & ->).
  destruct (h_entries _ _ _ Hh _ _ _ Hse Hty) as (e' & Hd' & Hb).
  simpl in Hd. rewrite Hd in Hd'. injection Hd' as <-. exact Hb.
Qed.

Lemma taken_shows w taken queue t a :
  short (store w) -> world_inv w taken queue ->
  reads_show (w_services w) t a
    (take (length (of_stream t a taken)) (mem_stream (store w) t a)).
Proof.
  intros Hshort Hi. assert (Hi' := Hi). destruct Hi' as (Hok & _ & _ & _ & Hh & _).
  split_and!; [split_and!|by eapply invoice_shows|by eapply user_shows].
  - exact (component_shows stock_k as_inventory _ _ _ _ _ _ _ _ (turn_stock _ _) eq_refl
      (h_items _ _ _ Hh) (items_rehydrate _ Hok Hshort Hh) Hshort Hi).
  - exact (component_shows products_k as_products _ _ _ _ _ _ _ _ (turn_products _ _) eq_refl
      (h_products _ _ _ Hh) (products_rehydrate _ Hok Hshort Hh) Hshort Hi).
  - exact (component_shows parties_k as_parties _ _ _ _ _ _ _ _ (turn_parties _ _) eq_refl
      (h_parties _ _ _ Hh) (parties_rehydrate _ Hok Hshort Hh) Hshort Hi).
  - exact (component_shows sales_k as_sales _ _ _ _ _ _ _ _ (turn_sales _ _) eq_refl
      (h_orders _ _ _ Hh) (orders_rehydrate _ Hok Hshort Hh) Hshort Hi).
  - exact (component_shows purchases_k as_purchases _ _ _ _ _ _ _ _ (turn_purchases _ _) eq_refl
      (h_purchases _ _ _ Hh) (purchases_rehydrate _ Hok Hshort Hh) Hshort Hi).
Qed.

Lemma quiescent_taken w taken queue t a :
  quiescent w -> world_inv w taken queue ->
  length (of_stream t a taken) = length (mem_stream (store w) t a).
Proof.
  intros [Hu Hq] Hi. pose proof (subscriber_inv w taken queue Hi) as Hs.
  pose proof Hi as (_ & _ & (_ & c & Hc & _ & _ & Hqc) & _ & _ & _ & Hst).
  destruct queue as [|env rest].
  - specialize (Hst t a). rewrite Hu, app_nil_r in Hst.
    rewrite <- (length_fmap to_envelope (mem_stream _ _ _)), <- Hst. by rewrite app_nil_r.
  - unfold try_recv in Hq. by rewrite Hc, Hqc in Hq.
Qed.

(** C2: what the API reads lags behind what is stored and agrees with it: let any
    number of request threads load, decide, append and publish, the subscriber take
    what comes, and the bus's other users come and go, interleaved in any way in
    which a command is committed to a stream only when no other thread still has
    events of it to publish.  At every moment, for every aggregate there are first
    events of its stored stream, all of them once everything was published and
    taken, such that what the API reads of an item, a product, a party, a sales
    order or a purchase order is the view of the aggregate the dispatcher would
    rehydrate from them, the document and the ageing entry of an invoice and the
    directory entry of a user show the invoice and the user rehydrated from them;
    and the balances of a tenant's accounts add up to zero. *)
Theorem read_models_follow_streams w :
  rtc (step True) deployed w -> short (store w) ->
  books_balanced (w_services w)
  /\ forall t a, exists n, n <= length (mem_stream (store w) t a)
    /\ (quiescent w -> n = length (mem_stream (store w) t a))
    /\ reads_show (w_services w) t a (take n (mem_stream (store w) t a)).
Proof.
  intros Hr Hshort. destruct (deployment_inv w Hr) as (taken & queue & Hi).
  split; [by eapply ledger_shows|]. intros t a.
  exists (length (of_stream t a taken)). split_and!.
  - pose proof (inv_in_order w taken queue Hi t a) as Hp%prefix_length.
    by rewrite length_fmap in Hp.
  - intros Hq. by eapply quiescent_taken.
  - by eapply taken_shows.
Qed.

(** Threads that have stored publish the rest and return, and the subscriber takes
    what waits. *)
Inductive drain : World -> World -> Prop :=
| drain_publish w l1 se rest l2 :
    w_unpublished w = l1 ++ (se :: rest) :: l2 -> drain w (publish_step w se l1 rest l2)
| drain_subscriber w : drain w (subscriber_step w).

Lemma drain_step w w' : drain w w' -> step True w w' /\ store w' = store w.
Proof.
  intros [w0 l1 se rest l2 Hu|w0]; [by split; [constructor|]|]. split; [constructor|].
  unfold subscriber_step. by destruct (try_recv _ _) as [? []].
Qed.

Lemma unpublished_drain w taken queue :
  world_inv w taken queue -> exists w' queue',
  rtc drain w w' /\ concat (w_unpublished w') = [] /\ world_inv w' taken queue'.
Proof.
  remember (length (concat (w_unpublished w))) as n eqn:Hn.
  revert w queue Hn. induction n as [n IH] using lt_wf_ind. intros w queue -> Hi.
  destruct (concat (w_unpublished w)) as [|se rest] eqn:Hc; [by exists w, queue; split_and!; [apply rtc_refl|..]|].
  assert (Hse : se ∈ concat (w_unpublished w)) by (rewrite Hc; left).
  apply elem_of_concat in Hse as (b & Hb & (l1 & l2 & Hu)%list_elem_of_split).
  destruct b as [|se' b]; [by apply not_elem_of_nil in Hb|].
  destruct (IH (length (concat (l1 ++ b :: l2)))) with (w := publish_step w se' l1 b l2)
    (queue := queue ++ [to_envelope se']) as (w' & queue' & Hr & ? & ?).
  - rewrite <- Hc, Hu, !concat_app, !length_app. simpl. rewrite !length_app. lia.
  - done.
  - by apply publish_step_inv.
  - exists w', queue'. split_and!; [|done..]. by eapply rtc_l; [constructor|].
Qed.

Lemma queue_drain queue : forall w taken,
  world_inv w taken queue -> exists w',
  rtc drain w w' /\ w_unpublished w' = w_unpublished w
  /\ (try_recv (bus w') projections).2 = Err Bus.Empty.
Proof.
  induction queue as [|env queue IH]; intros w taken Hi; pose proof (subscriber_inv _ _ _ Hi) as Hs.
  - exists w. destruct Hs as [_ Hq]. split_and!; [apply rtc_refl | done..].
  - destruct (IH _ _ Hs) as (w' & Hr & Hu & Hq). exists w'. split_and!; [|rewrite Hu|done].
    + by eapply rtc_l; [apply drain_subscriber|].
    + unfold subscriber_step. by destruct (try_recv _ _) as [? []].
Qed.

Lemma reachable_drains w :
  rtc (step True) deployed w -> short (store w) ->
  exists w', rtc drain w w' /\ store w' = store w /\ quiescent w'
    /\ forall t a, reads_show (w_services w') t a (mem_stream (store w) t a).
Proof.
  intros Hr Hshort. destruct (deployment_inv w Hr) as (taken & queue & Hi).
  destruct (unpublished_drain w taken queue Hi) as (w1 & q1 & Hr1 & Hu1 & Hi1).
  destruct (queue_drain q1 w1 taken Hi1) as (w2 & Hr2 & Hu2 & Hq2).
  assert (Hdr : rtc drain w w2) by (by etrans). exists w2.
  assert (Hst : store w2 = store w /\ rtc (step True) deployed w2).
  { clear -Hr Hdr. induction Hdr as [w|w w1 w2 [Hs Hst]%drain_step _ IH]; [done|].
    rewrite <- Hst. apply IH. by eapply rtc_r. }
  destruct Hst as [Hst Hr']. assert (Hq : quiescent w2) by (split; [by rewrite Hu2|done]).
  split_and!; [done..|]. intros t a.
  destruct (deployment_inv w2 Hr') as (tk & qu & Hi2). rewrite <- Hst in *.
  pose proof (taken_shows w2 tk qu t a Hshort Hi2) as Hshows.
  by rewrite (quiescent_taken w2 tk qu t a Hq Hi2), firstn_all in Hshows.
Qed.

(** C3: the read side catches up when the commands on a stream do not overlap: from
    every state the deployment reaches in which each command was committed to a
    stream only when no other thread still had events of it to publish, the threads
    can publish what they stored and the subscriber can take it, without another
    command; then what the API reads of every aggregate shows the aggregate the
    dispatcher rehydrates from the whole stored stream.  The condition is needed:
    [Sample.overlapping_commands_freeze_item] reaches a state without it from which
    the read side never catches up; there a replay helps ([Recovery]). *)
Theorem read_side_catches_up w :
  rtc (step True) deployed w -> short (store w) ->
  exists w', rtc drain w w' /\ store w' = store w /\ quiescent w'
    /\ forall t a, reads_show (w_services w') t a (mem_stream (store w) t a).
Proof. apply reachable_drains. Qed.

End Deployment.

(** ** The HTTP API on the deployment

    A request that runs by itself is a run of the deployment. *)
Section Requests.
Context `{SetOrder} `{Texts} `{Lowercase} `{DebugText} `{StreamOrder Json}.
Context `{Serde InventoryEvent Json} `{Serde PartyEvent Json} `{Serde ProductEvent Json}
  `{Serde SalesOrderEvent Json} `{Serde InvoiceEvent Json} `{Serde PurchaseOrderEvent Json}
  `{Serde LedgerEvent Json} `{Serde UserEvent Json}.
Context `{!SerdeLaws InventoryEvent Json} `{!SerdeLaws PartyEvent Json}
  `{!SerdeLaws ProductEvent Json} `{!SerdeLaws SalesOrderEvent Json}
  `{!SerdeLaws InvoiceEvent Json} `{!SerdeLaws PurchaseOrderEvent Json}
  `{!SerdeLaws LedgerEvent Json} `{!SerdeLaws UserEvent Json}.
Context (fresh_order : InvoiceEvent -> SalesOrderId).
Context (fresh_supplier : PurchaseOrderEvent -> PartyId).
Context (debug_strs : list string -> string).
Context (role_order : gmap string RoleDefinition -> list RoleDefinition).
Context (permission_order : gmap string PermissionDefinition -> list PermissionDefinition).
Context (default_ledger_id : AggregateId).
Context (empty_object : Json) (dummy_ids : Uuid * Uuid).
Context (job_order : Replay.ReplayJobStore -> list Uuid).

#[local] Abbreviation D :=
  (CommandDispatcher (InMemoryEventStore Json) (InMemoryEventBus (EventEnvelope Json))).
#[local] Abbreviation step := (step (J:=Json) fresh_order fresh_supplier True).
#[local] Abbreviation subscriber_step := (subscriber_step (J:=Json) fresh_order fresh_supplier).
Implicit Types (d : D) (env : Surroundings) (tenant : TenantContext)
  (principal : PrincipalContext).

(** With nothing to publish and the lock of the bus sound, the handler is a run of
    the deployment. *)
Definition stepping {A} (h : Handler D A) : Prop :=
  forall d u sv, store_ok (d_store d) -> poisoned (d_bus d) = false -> concat u = [] ->
  store_ok (d_store (h d).1) /\ poisoned (d_bus (h d).1) = false
  /\ rtc step (mkWorld d u sv) (mkWorld (h d).1 u sv).

Lemma stepping_pure {A} (h : Handler D A) : pure h -> stepping h.
Proof. intros Hp d u sv Hok Hb Hu. destruct (Hp d) as [-> _]. by split_and!; [..|apply rtc_refl]. Qed.

(** What follows may rely on what the first part returns. *)
Lemma stepping_after {A A'} (P : A -> Prop) (h : Handler D A) (f : A -> Handler D A') :
  stepping h -> (forall d x, (h d).2 = Ok x -> P x) -> (forall x, P x -> stepping (f x)) ->
  stepping (h ≫= f).
Proof.
  intros Hh Hp Hf d u sv Hok Hb Hu. destruct (Hh d u sv Hok Hb Hu) as (Hok1 & Hb1 & Hr1).
  specialize (Hp d). unfold mbind, Handler_bind. destruct (h d) as [d1 [x|r]]; [|done]. simpl in *.
  destruct (Hf x (Hp x eq_refl) d1 u sv Hok1 Hb1 Hu) as (Hok2 & Hb2 & Hr2).
  split_and!; [done..|]. by etrans.
Qed.

Lemma stepping_bind {A A'} (h : Handler D A) (f : A -> Handler D A') :
  stepping h -> (forall x, stepping (f x)) -> stepping (h ≫= f).
Proof. intros Hh Hf. by apply (stepping_after (fun _ => True)). Qed.

Lemma handler_bind_Ok {A A'} (h : Handler D A) (f : A -> Handler D A') d y :
  ((h ≫= f) d).2 = Ok y -> exists x d1, (h d).2 = Ok x /\ (f x d1).2 = Ok y.
Proof.
  unfold mbind, Handler_bind. destruct (h d) as [d1 [x|r]]; [|done]. intros Hy. by exists x, d1.
Qed.

(** The loop that publishes, by itself. *)
Lemma publish_all_steps (c : list (StoredEvent Json)) : forall s b u sv,
  poisoned b = false ->
  poisoned (publish_all b c).1 = false /\ is_ok (publish_all b c).2 = true
  /\ rtc step (mkWorld (mkDispatcher s b) (c :: u) sv)
              (mkWorld (mkDispatcher s (publish_all b c).1) u sv).
Proof.
  induction c as [|se c IH]; intros s b u sv Hb.
  - split_and!; [done..|]. apply rtc_once.
    apply (step_return _ _ _ (mkWorld (mkDispatcher s b) ([] :: u) sv) [] u eq_refl).
  - pose proof (step_publish fresh_order fresh_supplier True
      (mkWorld (mkDispatcher s b) ((se :: c) :: u) sv) [] se c u eq_refl) as Hs.
    unfold publish_step in Hs. simpl in *. unfold publish in *. rewrite Hb in *.
    destruct (retain_send _ _ _) as [chs subs]. simpl in *.
    destruct (IH s {| subscribers := subs; poisoned := false; channels := chs;
                      next_channel := next_channel b |} u sv eq_refl) as (Hp & Ho & Hr).
    split_and!; [done..|]. by eapply rtc_l.
Qed.

Lemma dispatch_stepping {A C E} `{Aggregate A C E} `{Event E} `{Serde E Json}
    t a ty (cmd : C) (make : TenantId -> AggregateId -> A) new_id :
  (forall s us v, decide_events s t a ty cmd make new_id = Ok (Some (us, v)) ->
                  decided s t a ty us v) ->
  stepping (services_dispatch t a ty cmd make new_id).
Proof.
  intros Hdec d u sv Hok Hb Hu. unfold services_dispatch, dispatch.
  destruct (decide_events (d_store d) t a ty cmd make new_id) as [[[us v]|]|e] eqn:Ed;
    [|by split_and!; [..|apply rtc_refl]..].
  assert (Hstep : step (mkWorld d u sv) (append_step (mkWorld d u sv) us v)).
  { apply (step_append _ _ _ _ (d_store d) t a ty); [done | done | by apply Hdec |].
    intros _. apply Forall_forall. intros b Hb'. apply Forall_forall. intros se Hse.
    exfalso. apply (not_elem_of_nil se). rewrite <- Hu. apply elem_of_concat. eauto. }
  pose proof (proj1 (append_keeps (d_store d) us v Hok)) as Hok'. unfold append_step in Hstep.
  simpl in Hstep, Hok'. unfold commit_events.
  change (es_append (d_store d) us v) with (EventStore.append (d_store d) us v).
  destruct (EventStore.append (d_store d) us v) as [s' [c|e]]; simpl in *.
  - destruct (publish_all_steps c s' (d_bus d) u sv Hb) as (Hp & _ & Hr).
    destruct (publish_all (d_bus d) c) as [b' r]. simpl in *. split_and!; [done..|].
    by eapply rtc_l.
  - split_and!; [done..|]. by apply rtc_once.
Qed.

Lemma execute_stepping {A C E} `{Aggregate A C E} `{Event E} `{Serde E Json}
    env k tenant principal perm a ty (cmd : C) (make : TenantId -> AggregateId -> A) :
  (forall s us v, decide_events s (ctx_tenant_id tenant) a ty cmd make (fresh_event env k)
                    = Ok (Some (us, v)) -> decided s (ctx_tenant_id tenant) a ty us v) ->
  stepping (execute env k tenant principal perm a ty cmd make).
Proof.
  intros Hd. apply stepping_bind; [apply stepping_pure, pure_authorized|]. intros _.
  by apply dispatch_stepping.
Qed.

(** The numbers of a body fit their types: a body that does not is refused when it
    is parsed. *)
Definition order_line_fits (l : CreateSalesOrderLineRequest) : Prop :=
  is_i64 (slr_quantity l) /\ is_u64 (slr_unit_price l).

Definition command_fits (c : Command) : Prop :=
  match c with
  | IssueInvoice body => Forall order_line_fits (iir_lines body)
  | RegisterInvoicePayment _ body => is_u64 (rpq_amount body)
  | PostJournalEntry body =>
    Forall (fun l => is_i64 (llr_amount l)) (pjr_lines body)
    /\ (Z.of_nat (length (pjr_lines body)) < 2 ^ 63)%Z
  | _ => True
  end.

(** Starting a replay is left to [Recovery]. *)
Definition request_fits (req : Request) : Prop :=
  match req with
  | Write c => command_fits c
  | Replays (StartReplay _ _ _) => False
  | _ => True
  end.

Lemma invoice_lines_fit order lines : forall idx d ls,
  Forall order_line_fits lines -> (invoice_lines order idx lines d).2 = Ok ls ->
  Forall line_in_range ls.
Proof.
  induction lines as [|l lines IH]; intros idx d ls Hf Hl; [by injection Hl as <-|].
  apply Forall_cons_1 in Hf as [Hfit Hf]. simpl in Hl.
  apply handler_bind_Ok in Hl as (x & d1 & _ & Hl).
  apply handler_bind_Ok in Hl as (rest & d2 & Hrest & Hl).
  injection Hl as <-. constructor; [exact Hfit | by eapply IH].
Qed.

Lemma journal_lines_fit lines ls :
  Forall (fun l => is_i64 (llr_amount l)) lines -> (Z.of_nat (length lines) < 2 ^ 63)%Z ->
  to_journal_lines lines = Ok ls -> lines_fit ls.
Proof.
  unfold to_journal_lines. intros Hf Hlt Hl.
  assert (Hacc : Forall (fun l => is_i64 (jl_amount l)) ls /\ length ls = length lines).
  { revert Hf ls Hl. clear Hlt. induction lines as [|l lines IH] using rev_ind; intros Hf ls Hl.
    - by injection Hl as <-.
    - rewrite try_fold_app in Hl. destruct (try_fold _ _ lines) as [ls0|r] eqn:Hl0; [|done].
      apply Forall_app in Hf as [Hf [Hfl _]%Forall_cons_1].
      destruct (IH Hf _ eq_refl) as [Hls0 Hlen]. simpl in Hl.
      destruct (parse_account_kind _) as [k|]; [|done]. injection Hl as <-.
      rewrite !length_app, Hlen. split; [|done]. apply Forall_app_2; [done|].
      apply Forall_singleton. exact Hfl. }
  destruct Hacc as [Hall Hlen]. split; [done|]. by rewrite Hlen.
Qed.

(** Peel a handler: what is pure, and then the command. *)
Ltac peel :=
  repeat first
    [ apply stepping_pure; solve [auto with forge]
    | apply execute_stepping; intros ? ? ?;
      solve [by econstructor | by eapply decided_item | by eapply decided_product
        | by eapply decided_party | by eapply decided_order | by eapply decided_purchase
        | eapply decided_invoice; by split
        | by eapply decided_ledger | by eapply decided_user]
    | apply stepping_bind; [|intros ?]
    | apply stepping_pure; first
        [ apply pure_parse_id | apply pure_parse_uuid | apply pure_guard_kind
        | apply pure_invoice_lines | apply pure_lift ] ].

Lemma purchase_lines_stepping env tenant principal a lines : forall k total,
  stepping (add_purchase_lines env k tenant principal a total lines).
Proof. induction lines as [|l lines IH]; intros k total; simpl; peel. apply IH. Qed.

Lemma issue_stepping env tenant principal body :
  command_fits (IssueInvoice body) -> stepping (issue_invoice env tenant principal body).
Proof.
  intros Hf. unfold issue_invoice. apply stepping_bind; [peel|]. intros order.
  apply stepping_bind; [apply stepping_pure; destruct (parse_rfc3339 _); auto with forge|].
  intros due. apply stepping_after with (Forall line_in_range).
  - apply stepping_pure, pure_invoice_lines.
  - intros d ls. by apply invoice_lines_fit.
  - intros ls Hls. peel.
Qed.

Lemma post_stepping env tenant principal body :
  command_fits (PostJournalEntry body) ->
  stepping (post_journal_entry env default_ledger_id tenant principal body).
Proof.
  intros [Hf Hlt]. unfold post_journal_entry. case_decide; [peel|].
  apply stepping_after with lines_fit.
  - apply stepping_pure, pure_lift, to_journal_lines_refused.
  - intros d ls Hl. by apply (journal_lines_fit (pjr_lines body)).
  - intros ls Hls. peel.
Qed.

Lemma perform_stepping env services tenant principal c :
  command_fits c -> stepping (perform default_ledger_id env services tenant principal c).
Proof.
  intros Hc.
  destruct c; [..|by apply issue_stepping| | | | | | |by apply post_stepping| | | | |];
    simpl; peel.
  - apply purchase_lines_stepping.
  - apply stepping_pure. destruct (existsb _ _); [auto with forge|].
    apply pure_lift, check_escalation_refused.
Qed.

#[local] Abbreviation http_request := (http_request (S:=InMemoryEventStore Json)
  (B:=InMemoryEventBus (EventEnvelope Json)) debug_strs role_order permission_order
  default_ledger_id fresh_order fresh_supplier empty_object dummy_ids job_order).

(** A request is answered, by what the read models show then, or the subscriber
    takes an envelope. *)
Inductive api_step {HeaderValue : Type} (to_str : HeaderValue -> option string)
    (decode : Decoder) (jwt : Hs256JwtValidator) : World (J:=Json) -> World (J:=Json) -> Prop :=
| api_request w env insights jobs authorization now req :
    request_fits req ->
    api_step to_str decode jwt w
      (mkWorld (http_request to_str decode jwt env (w_services w) insights jobs authorization now
                  req (w_dispatcher w)).1.1 (w_unpublished w) (w_services w))
| api_subscriber w : api_step to_str decode jwt w (subscriber_step w).

Lemma respond_fst (h : Handler D Response) d : (respond h d).1 = (h d).1.
Proof. unfold respond. by destruct (h d). Qed.

Lemma api_run {HeaderValue : Type} (to_str : HeaderValue -> option string) decode jwt w :
  rtc (api_step to_str decode jwt) deployed w ->
  w_unpublished w = [] /\ rtc step deployed w.
Proof.
  revert w. apply (rtc_ind_r (fun w => w_unpublished w = [] /\ rtc step deployed w) deployed);
    [by split; [|apply rtc_refl]|].
  intros w1 w2 _ Hs [Hu Hr].
  destruct (deployment_inv fresh_order fresh_supplier w1 Hr) as (taken & queue & Hi).
  destruct Hs as [w env insights jobs authorization now req Hfits|w].
  - split; [done|]. etrans; [exact Hr|]. destruct w as [d u sv]. simpl in *. subst u.
    destruct Hi as (Hok & (_ & _ & Hb) & _). unfold Api.http_request.
    destruct (auth_middleware _ _ _ _ _) as [[tenant principal]|status]; [|apply rtc_refl].
    simpl in Hok, Hb. destruct req as [c|q|r| |]; simpl.
    + pose proof (respond_fst (perform default_ledger_id env sv tenant principal c) d) as E.
      destruct (respond _ d) as [d' resp]. simpl in E |- *. subst d'. by apply perform_stepping.
    + pose proof (respond_fst (answer debug_strs role_order permission_order sv insights tenant
        principal q) d) as E.
      destruct (respond _ d) as [d' resp]. simpl in E |- *. subst d'.
      apply stepping_pure; [apply answer_pure | done..].
    + destruct (serve_replay _ _ _ _ _ _ _ _ _). apply rtc_refl.
    + apply rtc_refl.
    + unfold EventStream.stream_events. destruct (authorize_command _ _ _); apply rtc_refl.
  - split; [|by eapply rtc_r; [|apply step_subscriber]]. unfold EndToEnd.subscriber_step.
    by destruct (try_recv _ _) as [? []].
Qed.

(** Answer requests one at a time and let the subscriber take the rest: a [GET] of
    an item answers the item that rehydrates from what the requests stored. *)
Theorem get_item_answers_stored_item {HeaderValue : Type}
    (to_str : HeaderValue -> option string) decode jwt w :
  rtc (api_step to_str decode jwt) deployed w -> short (d_store (w_dispatcher w)) ->
  exists w', rtc (drain fresh_order fresh_supplier) w w'
    /\ d_store (w_dispatcher w') = d_store (w_dispatcher w)
    /\ forall tenant id a d, addressed_id id = Some a ->
       (respond (get_item (w_services w') tenant id) d).2
       = found_or (rehydrated "inventory.item" (item_at a) stock_view
                     (mem_stream (d_store (w_dispatcher w)) (ctx_tenant_id tenant) a))
           inventory_to_json "item not found"
         :> Response.
Proof.
  intros Hr Hshort. apply api_run in Hr as [_ Hr].
  destruct (reachable_drains fresh_order fresh_supplier w Hr Hshort) as (w' & Hd & Hst & _ & Hshow).
  exists w'. split_and!; [done..|]. intros tenant id a d Ha.
  destruct (Hshow (ctx_tenant_id tenant) a) as [[<- _] _].
  unfold addressed_id in Ha. unfold get_item, respond, parse_id, id_from_str, mbind, Handler_bind.
  destruct (parse_uuid id) as [u|]; [|done]. by injection Ha as <-.
Qed.
End Requests.

(** ** Samples *)
Module Sample.
Import Services.Sample.
#[local] Existing Instances item_serde party_serde product_serde order_serde invoice_serde
  purchase_serde ledger_serde user_serde.

#[local] Instance item_laws : SerdeLaws InventoryEvent Payload.
Proof. constructor. intros e. by eexists. Qed.
#[local] Instance party_laws : SerdeLaws PartyEvent Payload.
Proof. constructor. intros e. by eexists. Qed.
#[local] Instance product_laws : SerdeLaws ProductEvent Payload.
Proof. constructor. intros e. by eexists. Qed.
#[local] Instance order_laws : SerdeLaws SalesOrderEvent Payload.
Proof. constructor. intros e. by eexists. Qed.
#[local] Instance purchase_laws : SerdeLaws PurchaseOrderEvent Payload.
Proof. constructor. intros e. by eexists. Qed.
#[local] Instance invoice_laws : SerdeLaws InvoiceEvent Payload.
Proof. constructor. intros e. by eexists. Qed.
#[local] Instance ledger_laws : SerdeLaws LedgerEvent Payload.
Proof. constructor. intros e. by eexists. Qed.
#[local] Instance user_laws : SerdeLaws UserEvent Payload.
Proof. constructor. intros e. by eexists. Qed.
#[local] Instance lowercase : Lowercase := fun s => s.

Definition fresh_order (_ : InvoiceEvent) : SalesOrderId := mkSalesOrderId (at_ 0).
Definition fresh_supplier (_ : PurchaseOrderEvent) : PartyId := mkPartyId (at_ 0).
Definition id : InventoryItemId := mkInventoryItemId (at_ 2).
#[local] Abbreviation W := (World (J:=Payload)).
#[local] Abbreviation step := (step (J:=Payload) fresh_order fresh_supplier).

Definition create : InventoryCommand :=
  Inventory.CmdCreateItem (Inventory.mkCreateItem tenant id "bolt" 0).
Definition receive (n : Z) : InventoryCommand :=
  Inventory.CmdAdjustStock (Inventory.mkAdjustStock tenant id n 0).

(** What a thread that reads the store as it is in [w] decides, and its commit. *)
Definition decision (w : W) (c : InventoryCommand)
  : list (UncommittedEvent Payload) * ExpectedVersion :=
  match decide_events (d_store (w_dispatcher w)) tenant (at_ 2) "inventory.item" c make_item
          N.of_nat with
  | Ok (Some d) => d
  | _ => ([], Exact 0)
  end.
Definition commit (c : InventoryCommand) (w : W) : W :=
  append_step w (decision w c).1 (decision w c).2.

(** The thread that committed last, or first, publishes an event. *)
Definition publish_last (w : W) : W :=
  match w_unpublished w with
  | (se :: rest) :: l => publish_step w se [] rest l
  | _ => w
  end.
Definition publish_first (w : W) : W :=
  match w_unpublished w with
  | [l; se :: rest; l'] => publish_step w se [l] rest [l']
  | _ => w
  end.
Definition take_one (w : W) : W := subscriber_step fresh_order fresh_supplier w.

Lemma commit_run serial c w :
  rtc (step serial) deployed w -> item_command_owner c = (tenant, id) ->
  (serial -> Forall (Forall (fun se => ~ addressed tenant (at_ 2) se)) (w_unpublished w)) ->
  (decision w c).1 <> [] -> rtc (step serial) deployed (commit c w).
Proof.
  intros Hr Ho Hs Hd. eapply rtc_r; [exact Hr|].
  apply (step_append _ _ serial w (d_store (w_dispatcher w)) tenant (at_ 2) "inventory.item");
    [by eapply run_store_ok | done | | done].
  unfold decision in *. destruct (decide_events _ _ _ _ _ _ _) as [[[us v]|]|] eqn:E; [|done..].
  by eapply decided_item.
Qed.

Lemma publish_last_run serial w :
  rtc (step serial) deployed w -> rtc (step serial) deployed (publish_last w).
Proof.
  intros Hr. unfold publish_last. destruct (w_unpublished w) as [|[|se rest] l] eqn:E; [done..|].
  eapply rtc_r; [exact Hr|]. by apply step_publish.
Qed.

Lemma publish_first_run serial w :
  rtc (step serial) deployed w -> rtc (step serial) deployed (publish_first w).
Proof.
  intros Hr. unfold publish_first.
  destruct (w_unpublished w) as [|l [|[|se rest] [|l' [|? ?]]]] eqn:E; try done.
  eapply rtc_r; [exact Hr|]. by apply step_publish.
Qed.

Lemma take_run serial w :
  rtc (step serial) deployed w -> rtc (step serial) deployed (take_one w).
Proof. intros Hr. eapply rtc_r; [exact Hr | apply step_subscriber]. Qed.

Definition created : W := take_one (publish_last (commit create deployed)).
(** Two receipts: the second is committed and published between the commit of the
    first and its publication. *)
Definition overtaken : W :=
  take_one (take_one (publish_first (publish_last (commit (receive 5) (commit (receive 7) created))))).
(** A third receipt, by itself. *)
Definition afterwards : W := take_one (publish_last (commit (receive 1) overtaken)).

Lemma created_run serial : rtc (step serial) deployed created.
Proof.
  apply take_run, publish_last_run, commit_run; [apply rtc_refl | done | by constructor | by vm_compute].
Qed.

Lemma overtaken_run : rtc (step False) deployed overtaken.
Proof.
  apply take_run, take_run, publish_first_run, publish_last_run, commit_run;
    [|done|done|by vm_compute].
  apply commit_run; [apply created_run | done | done | by vm_compute].
Qed.

(** Commands on one stream overlap: the two receipts are stored, the read model
    takes one of them and then nothing more of the item, for good: it shows 7 where
    the stored item has 12, and still 7 after another receipt, by itself, makes it
    13. *)
Theorem overlapping_commands_freeze_item :
  rtc (step False) deployed afterwards /\ quiescent overtaken /\ quiescent afterwards
  /\ rm_quantity <$> inventory_get (w_services overtaken) tenant id = Some 7%Z
  /\ rm_quantity <$> inventory_get (w_services afterwards) tenant id = Some 7%Z
  /\ rm_quantity <$> rehydrated "inventory.item" (item_at (at_ 2)) stock_view
       (mem_stream (d_store (w_dispatcher afterwards)) tenant (at_ 2)) = Some 13%Z.
Proof.
  split; [|by vm_compute].
  apply take_run, publish_last_run, commit_run; [apply overtaken_run | done | done | by vm_compute].
Qed.

(** The same receipts one after the other. *)
Definition received : W := publish_last (commit (receive 5)
  (take_one (publish_last (commit (receive 7) created)))).

Lemma received_run : rtc (step True) deployed received.
Proof.
  apply publish_last_run, commit_run; [|done|by repeat constructor|by vm_compute].
  apply take_run, publish_last_run, commit_run; [|done|by repeat constructor|by vm_compute].
  apply created_run.
Qed.

Lemma one_stream_short (s : InMemoryEventStore Payload) key st :
  map_to_list (streams s) = [(key, st)] -> length st < 100 -> short s.
Proof.
  intros Hs Hl t a. change (stream s t a) with (mem_stream s t a). unfold mem_stream.
  destruct (streams s !! _) as [st'|] eqn:E; [|done]. simpl.
  apply elem_of_map_to_list in E. rewrite Hs in E. apply list_elem_of_singleton in E.
  injection E as _ ->. lia.
Qed.

Lemma received_short : short (d_store (w_dispatcher received)).
Proof. eapply one_stream_short; [by vm_compute | simpl; lia]. Qed.

(** Before the subscriber takes the last receipt the API reads 7, afterwards 12. *)
Lemma read_models_follow_streams_witness :
  exists n, n <= 3 /\ rm_quantity <$> inventory_get (w_services received) tenant id
    = rm_quantity <$> rehydrated "inventory.item" (item_at (at_ 2)) stock_view
        (take n (mem_stream (d_store (w_dispatcher received)) tenant (at_ 2))).
Proof.
  destruct (read_models_follow_streams fresh_order fresh_supplier received received_run
              received_short) as [_ Hshow].
  destruct (Hshow tenant (at_ 2)) as (n & Hn & _ & [Hi _] & _).
  exists n. split; [exact Hn | exact (f_equal (fmap rm_quantity) Hi)].
Defined.

Lemma read_side_catches_up_witness :
  exists w', rtc (drain fresh_order fresh_supplier) received w'
    /\ rm_quantity <$> inventory_get (w_services w') tenant id = Some 12%Z.
Proof.
  destruct (read_side_catches_up fresh_order fresh_supplier received received_run received_short)
    as (w' & Hd & _ & _ & Hr).
  exists w'. split; [exact Hd|]. destruct (Hr tenant (at_ 2)) as [[Hi _] _].
  refine (eq_trans (f_equal (fmap rm_quantity) Hi) _). by vm_compute.
Defined.
End Sample.
