(* ===== verification/Recovery.v ===== *)
(** * Replays repair the read models of a running deployment

    The deployment of [EndToEnd], in every state it reaches, with the replays of
    [Replay]: whatever the commands that overlapped on a stream did to the read
    models, a replay of a tenant's projections makes them show what is stored, and
    the envelopes still on their way do not undo that.  A replay is not protected
    from the subscriber: an event taken between its reading of the events and its
    clearing of the projection is lost. *)

From S2P Require Import Prelude Core Events Bus EventStore EventQuery ReadModel Projection.
From S2P Require Import Dispatcher.
From S2P Require Import Auth Products Parties Users Sales Purchasing Invoicing Accounting.
From S2P Require Import Saga Stock Receivables TrialBalance Directories UserDirectory Services.
From S2P Require Import Replay Http Routes AdminRoutes Api InOrder Histories EndToEnd.
From S2P Require Inventory.
From stdpp Require Import relations.
Import Inventory (InventoryItemId, mkInventoryItemId, InventoryEvent, InventoryCommand,
  InventoryItem).

Section Recovery.
Context {J : Type} `{Lowercase}.
Context `{Serde InventoryEvent J} `{Serde PartyEvent J} `{Serde ProductEvent J}
  `{Serde SalesOrderEvent J} `{Serde InvoiceEvent J} `{Serde PurchaseOrderEvent J}
  `{Serde LedgerEvent J} `{Serde UserEvent J}.
Context `{!SerdeLaws InventoryEvent J} `{!SerdeLaws PartyEvent J} `{!SerdeLaws ProductEvent J}
  `{!SerdeLaws SalesOrderEvent J} `{!SerdeLaws InvoiceEvent J} `{!SerdeLaws PurchaseOrderEvent J}
  `{!SerdeLaws LedgerEvent J} `{!SerdeLaws UserEvent J}.
Context (fresh_order : InvoiceEvent -> SalesOrderId).
Context (fresh_supplier : PurchaseOrderEvent -> PartyId).

#[local] Abbreviation Store := (InMemoryEventStore J).
#[local] Abbreviation W := (World (J:=J)).
#[local] Abbreviation step := (step (J:=J) fresh_order fresh_supplier).
#[local] Abbreviation drain := (drain (J:=J) fresh_order fresh_supplier).
#[local] Abbreviation turn := (subscriber_turn (J:=J) fresh_order fresh_supplier).
#[local] Abbreviation take_one := (subscriber_step (J:=J) fresh_order fresh_supplier).
#[local] Abbreviation store w := (d_store (w_dispatcher w)).
#[local] Abbreviation bus w := (d_bus (w_dispatcher w)).
Implicit Types (s : Store) (us : list (UncommittedEvent J)) (se : StoredEvent J)
  (w : W) (env : EventEnvelope J).

#[local] Abbreviation stock_k := (stock_keyed (J:=J)
  (S:=InMemoryTenantStore InventoryItemId InventoryReadModel)).
#[local] Abbreviation parties_k := (parties_projection (J:=J)
  (S:=InMemoryTenantStore PartyId PartyReadModel)).
#[local] Abbreviation products_k := (products_projection (J:=J)
  (S:=InMemoryTenantStore ProductId ProductReadModel)).
#[local] Abbreviation sales_k := (sales_orders_projection (J:=J)
  (S:=InMemoryTenantStore SalesOrderId SalesOrderReadModel)).
#[local] Abbreviation invoices_k := (invoices_projection fresh_order (J:=J)
  (S:=InMemoryTenantStore InvoiceId InvoiceReadModel)).
#[local] Abbreviation purchases_k := (purchase_orders_projection fresh_supplier (J:=J)
  (S:=InMemoryTenantStore PurchaseOrderId PurchaseOrderReadModel)).

(** ** What holds however commands overlap *)

(** The envelope is of a stored event. *)
Definition backed s env : Prop :=
  exists se, se ∈ mem_stream s (env_tenant_id env) (env_aggregate_id env) /\ env = to_envelope se.

(** What is on its way to the projections: what waits, then what is to be
    published. *)
Definition on_its_way w (queue : list (EventEnvelope J)) : list (EventEnvelope J) :=
  queue ++ (to_envelope <$> concat (w_unpublished w)).

Record sound w (queue : list (EventEnvelope J)) : Prop := {
  so_store : store_ok (store w);
  so_open : lock_poisoned (store w) = false;
  so_histories : histories fresh_order fresh_supplier (store w);
  so_bus : bus_inv (bus w);
  so_listening : listening (receiver projections) queue (bus w);
  so_backed env : env ∈ on_its_way w queue -> backed (store w) env
}.

Lemma deployed_sound : sound deployed [].
Proof.
  destruct (deployed_inv fresh_order fresh_supplier) as (Hok & Hb & Hl & Hs & Hh & _).
  split; try done. intros env He. by apply not_elem_of_nil in He.
Qed.

Lemma backed_extends s s' env : extends s s' -> backed s env -> backed s' env.
Proof.
  intros Hext (se & Hse & ->). exists se. split; [|done].
  pose proof (Hext (se_tenant_id se) (se_aggregate_id se)) as [l Hl]. simpl in Hl.
  simpl. rewrite Hl. apply elem_of_app. by left.
Qed.

Lemma append_sound w s0 t a ty us v queue :
  store_ok s0 -> extends s0 (store w) -> decided s0 t a ty us v ->
  sound w queue -> sound (append_step w us v) queue.
Proof.
  intros Hok0 Hext Hd [Hok Hopen Hh Hb Hl Hq].
  destruct (decided_exact _ _ _ _ _ _ Hd) as [_ Hbatch].
  pose proof (append_histories _ _ _ _ _ _ _ _ _ Hok0 Hok Hext Hd Hh) as Hh'.
  pose proof (append_extends (store w) us v) as Hgrow.
  destruct (append_keeps (store w) us v Hok) as [Hok' Hav].
  apply proj2 in Hav. specialize (Hav Hopen).
  unfold append_step. destruct (es_append (store w) us v) as [s' [c|e]] eqn:Ea; cbn [fst] in *;
    split; try done; intros env He; unfold on_its_way in *; simpl in He |- *.
  - apply elem_of_app in He as [He|He]; [by eapply backed_extends, Hq, elem_of_app; [|left]|].
    rewrite fmap_app, elem_of_app in He. destruct He as [He|He].
    + apply list_elem_of_fmap in He as (se & -> & Hse).
      destruct (append_committed (store w) us v s' c t a ty Hbatch Ea) as (_ & _ & _ & Hc & Hs1 & _).
      simpl in Hs1. exists se. split; [|done]. simpl.
      assert (Hown : se_tenant_id se = t /\ se_aggregate_id se = a).
      { rewrite Hc in Hse. destruct Hbatch as [_ Hf]. rewrite Forall_forall in Hf.
        apply number_batch_elem in Hse as (u & k & Hu & ->). split; by apply Hf. }
      destruct Hown as [-> ->]. rewrite Hs1. apply elem_of_app. by right.
    + by eapply backed_extends, Hq, elem_of_app; [|right].
  - by eapply backed_extends, Hq.
Qed.

Lemma publish_sound w se l1 rest l2 queue :
  w_unpublished w = l1 ++ (se :: rest) :: l2 -> sound w queue ->
  sound (publish_step w se l1 rest l2) (queue ++ [to_envelope se]).
Proof.
  intros Hu [Hok Hopen Hh Hb Hl Hq].
  destruct (bus_step_listening (bus w) (OpPublish (to_envelope se)) _ _ Hb ltac:(done) Hl)
    as (q & Hq' & Hd).
  simpl in Hd. subst q. pose proof (bus_step_inv _ (OpPublish (to_envelope se)) Hb) as Hb'.
  split; try done. intros env He. apply Hq. unfold on_its_way in *. simpl in He. rewrite Hu.
  rewrite !concat_app, concat_cons, !fmap_app in *. cbn [fmap list_fmap app]. set_solver.
Qed.

Lemma subscriber_sound w queue :
  sound w queue ->
  match queue with
  | [] => take_one w = w
  | env :: rest =>
    sound (take_one w) rest
    /\ w_services (take_one w)
       = turn (w_services w) env
    /\ store (take_one w) = store w
    /\ backed (store w) env
  end.
Proof.
  intros [Hok Hopen Hh Hb Hl Hq].
  destruct (bus_step_listening (bus w) (OpRecv (receiver projections)) _ _ Hb ltac:(done) Hl)
    as (q & Hq' & Hd).
  pose proof (bus_step_inv _ (OpRecv (receiver projections)) Hb) as Hb'.
  pose proof Hl as (_ & c & Hc & _ & Hal & Hqc). unfold subscriber_step.
  simpl in Hd, Hq', Hb'. change {| receiver := 0 |} with projections in *.
  unfold try_recv in *. rewrite Hc, Hqc, Hal in *.
  destruct queue as [|env rest]; [done|]. simpl in *.
  injection Hd as Hd. rewrite app_nil_r in Hd. subst q.
  assert (Hbk : backed (store w) env) by (apply Hq; left).
  split_and!; [|done..]. split; try done. intros env' He'. apply Hq. by right.
Qed.

Lemma other_op_sound w op queue :
  other_op op -> sound w queue ->
  sound (mkWorld (mkDispatcher (store w) (bus_step (bus w) op).1) (w_unpublished w)
           (w_services w)) queue.
Proof.
  intros Hop [Hok Hopen Hh Hb Hl Hq].
  assert (Hdrop : op <> OpDrop (receiver projections)) by (destruct op; simpl in *; congruence).
  destruct (bus_step_listening (bus w) op _ _ Hb Hdrop Hl) as (q & Hq' & Hd).
  pose proof (bus_step_inv _ op Hb) as Hb'.
  by rewrite (other_op_keeps _ _ _ _ Hop Hd) in Hq'.
Qed.

Lemma step_sound serial w w' queue :
  step serial w w' -> sound w queue -> exists queue', sound w' queue'.
Proof.
  intros [w0 s0 t a ty us v Hok0 Hext Hd _|w0 l1 se rest l2 Hu|w0 l1 l2 Hu|w0 op Hop|w0] Hs.
  - exists queue. by eapply append_sound.
  - eexists. by eapply publish_sound.
  - exists queue. destruct Hs as [Hok Hopen Hh Hb Hl Hq]. split; try done.
    intros env He. apply Hq. unfold on_its_way in *. rewrite Hu. simpl in He.
    by rewrite !concat_app in *.
  - exists queue. by apply other_op_sound.
  - pose proof (subscriber_sound _ _ Hs) as Hn. destruct queue as [|env rest].
    + exists []. by rewrite Hn.
    + exists rest. apply Hn.
Qed.

(** Every state of the deployment is sound, in whatever way its commands overlap. *)
Lemma run_sound serial w : rtc (step serial) deployed w -> exists queue, sound w queue.
Proof.
  revert w. apply (rtc_ind_r (fun w => exists queue, sound w queue) deployed).
  - exists []. apply deployed_sound.
  - intros w w' _ Hs [queue Hq]. by eapply step_sound.
Qed.

(** ** A projection that is up to date *)
Lemma stored_of_type_elem s t ty se :
  store_ok s ->
  se ∈ stored_of_type s t ty <-> exists a, se ∈ mem_stream s t a /\ se_aggregate_type se = ty.
Proof.
  intros Hok. unfold stored_of_type, stored_of_tenant.
  rewrite list_elem_of_In, filter_In, <- list_elem_of_In, tenant_events_elem.
  unfold relevant. rewrite bool_decide_eq_true, list_elem_of_singleton. split.
  - intros [([t' a] & st & Hk & <- & Hse) Hty]. apply elem_of_map_to_list in Hk.
    exists a. split; [|done]. unfold mem_stream. simpl. by rewrite Hk.
  - intros (a & Hse & Hty). split; [|done]. unfold mem_stream in Hse.
    destruct (streams s !! _) as [st|] eqn:Hk; [|by apply not_elem_of_nil in Hse].
    eexists _, st. split; [by apply elem_of_map_to_list|]. done.
Qed.

Lemma stored_backed s t a se : store_ok s -> se ∈ mem_stream s t a -> backed s (to_envelope se).
Proof.
  intros Hok Hse. exists se. split; [|done]. simpl.
  destruct (stream_wf s t a Hok) as [[ty Hown] _]. rewrite Forall_forall in Hown.
  by destruct (Hown se Hse) as (-> & -> & _).
Qed.

Section Component.
Context {K V E : Type} `{Countable K} (HK : Keyed (InMemoryTenantStore K V) K V J E).
Context (s : Store) (Hok : store_ok s) (Hshort : short s) (Hg : all_genuine HK s).
Implicit Types (p : Projector (InMemoryTenantStore K V) InMemoryCursorStore).

#[local] Abbreviation hist := (typed_history HK s).

Lemma hist_fits t a : (Z.of_nat (length (hist t a)) < 2 ^ 64)%Z.
Proof. pose proof (typed_history_length HK s t a). specialize (Hshort t a). lia. Qed.

Lemma hist_isolated t a e : e ∈ hist t a -> kp_isolation (Keyed:=HK) t a e = None.
Proof. by apply typed_history_genuine. Qed.

Lemma backed_from_history env : backed s env -> from_history (HK:=HK) hist env.
Proof.
  intros (se & Hse & He) Hm.
  set (t := env_tenant_id env) in *. set (a := env_aggregate_id env) in *.
  apply list_elem_of_lookup in Hse as [i Hi].
  destruct (stream_ok_lookup t a _ i se (stream_wf s t a Hok) (Hshort t a) Hi) as (_ & _ & Hs).
  unfold mine in Hm. rewrite He in Hm |- *. simpl in Hm.
  destruct (typed_history_cases HK s t a Hok Hg) as [Hf|[Hf _]]; simpl in Hf.
  - destruct (Forall2_lookup_l _ _ _ _ _ Hf Hi) as (e & Hhe & _ & Hd & _). by exists i, e.
  - rewrite Forall_lookup in Hf. by destruct (Hf _ _ Hi).
Qed.

Lemma history_stored t a i :
  i < length (hist t a) -> exists se,
  se ∈ stored_of_type s t (kp_type (Keyed:=HK))
  /\ about (kp_type (Keyed:=HK)) t a (to_envelope se) = true
  /\ env_sequence_number (to_envelope se) = (Z.of_nat i + 1)%Z.
Proof.
  intros Hi. destruct (lookup_lt_is_Some_2 _ _ Hi) as [e He].
  destruct (typed_history_cases HK s t a Hok Hg) as [Hf|[_ Hn]];
    [|rewrite Hn in Hi; simpl in Hi; lia].
  destruct (Forall2_lookup_r _ _ _ _ _ Hf He) as (se & Hse & Hty & _). simpl in Hse.
  destruct (stream_ok_lookup t a _ i se (stream_wf s t a Hok) (Hshort t a) Hse) as (Ht & Ha & Hs).
  exists se. split_and!; [|by apply about_spec|done].
  apply stored_of_type_elem; [done|]. exists a. split; [by eapply list_elem_of_lookup_2 | done].
Qed.

(** The projection has processed all that is stored of the tenant. *)
Definition current (t : TenantId) p : Prop :=
  cursors_work p /\ forall a, tracks (HK:=HK) hist p t a (length (hist t a)).

(** What was stored before does not disturb it. *)
Lemma current_deliver t p env :
  backed s env -> current t p -> current t (deliver (HK:=HK) p env).1.
Proof.
  intros Hb [Hw Htr]. pose proof (backed_from_history env Hb) as Hf.
  split; [by apply deliver_cursors_work|]. intros a.
  destruct (about (kp_type (Keyed:=HK)) t a env) eqn:Ha.
  - pose proof Ha as (Hm & <- & <-)%about_spec. destruct (Hf Hm) as (i & e & Hi & Hs & _).
    pose proof (lookup_lt_Some _ _ _ Hi).
    destruct (deliver_about hist hist_isolated hist_fits p env _ _ _ Hw Ha Hf (Htr _))
      as [_ Hd]; [lia|].
    by rewrite Nat.max_r in Hd by lia.
  - by apply (deliver_not_about hist hist_isolated).
Qed.

(** Its entries show what is stored. *)
Lemma current_shows {A C} `{Aggregate A C E} `{HJ : Serde E J} (fresh : AggregateId -> A)
    (view : A -> V) t p a :
  entry_rehydrates HK fresh view s -> current t p ->
  ts_get (p_store p) t (kp_key (Keyed:=HK) a)
  = rehydrated (kp_type (Keyed:=HK)) (fresh a) view (mem_stream s t a).
Proof.
  intros Hent [_ Htr]. destruct (Htr a) as (_ & _ & ->).
  rewrite firstn_all. specialize (Hent t a (length (mem_stream s t a))).
  rewrite firstn_all, take_ge in Hent by exact (typed_history_length HK s t a). exact Hent.
Qed.
End Component.

(** ** The replays of the API *)
Section Replays.
Context (order : gmap StreamKey (list (StoredEvent J)) -> list (StreamKey * list (StoredEvent J))).
Context (order_perm : forall m, order m ≡ₚ map_to_list m).
Context (empty_object : J) (dummy_ids : Uuid * Uuid) (fuel : nat).
Implicit Types (services : AppServices).

(** [json!({})] is no event. *)
Definition no_event : Prop :=
  is_ok (from_value empty_object : Result string InventoryEvent) = false
  /\ is_ok (from_value empty_object : Result string ProductEvent) = false
  /\ is_ok (from_value empty_object : Result string PartyEvent) = false
  /\ is_ok (from_value empty_object : Result string SalesOrderEvent) = false
  /\ is_ok (from_value empty_object : Result string InvoiceEvent) = false
  /\ is_ok (from_value empty_object : Result string PurchaseOrderEvent) = false.

(** The task that [start_replay] starts for a projection, run to its end on
    [services] with the events it read from the store [s].

    @src crates/api/src/app/routes/replay.rs 160-172 [start_replay] *)
Definition replay_named s services (t : TenantId) (name : string)
  : option (AppServices * ReplayProgress) :=
  config ← replay_config fresh_order fresh_supplier empty_object dummy_ids name;
  replay_task (fun _ => query_events order s) (fun _ => false) (rc_apply config) (rc_clear config)
    fuel t (rc_aggregate_types config) false services.

(** Replays one after the other, each complete. *)
Fixpoint replay_each s services (t : TenantId) (names : list string) : option AppServices :=
  match names with
  | [] => Some services
  | name :: names =>
    '(services, prog) ← replay_named s services t name;
    match phase prog with Complete => replay_each s services t names | _ => None end
  end.

Definition replayable : list string :=
  ["inventory"; "products"; "parties"; "sales"; "invoices"; "purchases"]%string.

(** The six projections keep their cursors in memory. *)
Definition local_cursors services : Prop :=
  cursors_work (as_inventory services) /\ cursors_work (as_products services)
  /\ cursors_work (as_parties services) /\ cursors_work (as_sales services)
  /\ cursors_work (as_invoices services) /\ cursors_work (as_purchases services).

(** The six projections have processed all that [s] stores of the tenant. *)
Definition up_to_date s (t : TenantId) services : Prop :=
  current stock_k s t (as_inventory services) /\ current products_k s t (as_products services)
  /\ current parties_k s t (as_parties services) /\ current sales_k s t (as_sales services)
  /\ current invoices_k s t (as_invoices services)
  /\ current purchases_k s t (as_purchases services).

Lemma turn_local_cursors services env : local_cursors services -> local_cursors (turn services env).
Proof.
  intros (? & ? & ? & ? & ? & ?). split_and!;
    [rewrite turn_stock|rewrite turn_products|rewrite turn_parties|rewrite turn_sales
    |rewrite turn_invoices|rewrite turn_purchases]; by apply deliver_cursors_work.
Qed.

Lemma run_local_cursors serial w : rtc (step serial) deployed w -> local_cursors (w_services w).
Proof.
  revert w. apply (rtc_ind_r (fun w => local_cursors (w_services w)) deployed);
    [by repeat split; left|].
  intros w w' _ [w0 s0 t a ty us v _ _ _ _|w0 l1 se rest l2 _|w0 l1 l2 _|w0 op _|w0] Hl; try done.
  - unfold append_step. by destruct (es_append _ us v) as [s' []].
  - unfold subscriber_step. destruct (try_recv _ _) as [b' [env|e]]; [|done].
    by apply turn_local_cursors.
Qed.

Section Stored.
Context (s : Store) (t : TenantId) (Hok : store_ok s) (Hshort : short s)
  (Hopen : lock_poisoned s = false) (Hh : histories fresh_order fresh_supplier s).
Context (few : (Z.of_nat (length (stored_of_tenant s t)) + PAGE_SIZE < 2 ^ 32)%Z).
Context (fuel_enough : length (stored_of_tenant s t) < fuel * Z.to_nat PAGE_SIZE).

(** One of the six. *)
Lemma replay_component {K V E} `{Countable K} (HK : Keyed (InMemoryTenantStore K V) K V J E)
    (field : AppServices -> Projector (InMemoryTenantStore K V) InMemoryCursorStore)
    (set : AppServices -> Projector (InMemoryTenantStore K V) InMemoryCursorStore -> AppServices)
    (what : string) services :
  (forall a p, field (set a p) = p) -> (forall a p q, set (set a p) q = set a q) ->
  set services (field services) = services ->
  is_ok (kp_decode (Keyed:=HK) empty_object) = false -> all_genuine HK s ->
  cursors_work (field services) ->
  exists p' prog,
    replay_task (fun _ => query_events order s) (fun _ => false)
      (apply_in field set (apply_fn HK what))
      (fun a t => set a (clear_fn empty_object dummy_ids HK (kp_type (Keyed:=HK)) (field a) t))
      fuel t [kp_type (Keyed:=HK)] false services = Some (set services p', prog)
    /\ phase prog = Complete /\ current HK s t p'.
Proof.
  intros Hgs Hss Hsg Hempty Hg Hw.
  destruct (replay_processes order order_perm s t Hopen few fuel fuel_enough Hok HK
    (typed_history HK s) what empty_object dummy_ids (field services) Hempty Hw
    (hist_isolated HK s Hok Hg) (hist_fits HK s Hshort)) as (p' & prog & Hr & Hph & Hw' & Htr).
  - intros se (a & Hse & _)%stored_of_type_elem; [|done].
    apply (backed_from_history HK s Hok Hshort Hg). by eapply stored_backed.
  - intros a i. by apply (history_stored HK s Hok Hshort Hg).
  - exists p', prog. split; [|by split]. by apply replay_task_part.
Qed.

(** The replay by a name, then those by the names that follow. *)
Ltac by_component HK field set what held :=
  intros Hempty Hw;
  destruct (replay_component HK field set what _ ltac:(done) ltac:(done)
    ltac:(by match goal with |- set ?sv _ = _ => destruct sv end) ltac:(apply Hempty)
    held Hw) as (p' & prog & Hr & Hph & Hc);
  exists p'; split; [|exact Hc]; cbn [replay_each]; unfold replay_named;
  cbn [replay_config String.eqb Ascii.eqb Bool.eqb mbind option_bind];
  match goal with |- context [replay_task ?q ?c ?ap ?cl ?f ?tt ?ty ?d ?sv] =>
    replace (replay_task q c ap cl f tt ty d sv) with (Some (set sv p', prog)) by (symmetry; exact Hr)
  end; cbn; by rewrite Hph.

Lemma replay_inventory services names :
  no_event -> cursors_work (as_inventory services) ->
  exists p, replay_each s services t ("inventory"%string :: names)
            = replay_each s (set_inventory services p) t names /\ current stock_k s t p.
Proof. by_component constr:(stock_k) as_inventory set_inventory constr:("inventory"%string) (h_items _ _ _ Hh). Qed.

Lemma replay_products services names :
  no_event -> cursors_work (as_products services) ->
  exists p, replay_each s services t ("products"%string :: names)
            = replay_each s (set_products services p) t names /\ current products_k s t p.
Proof. by_component constr:(products_k) as_products set_products constr:("product"%string) (h_products _ _ _ Hh). Qed.

Lemma replay_parties services names :
  no_event -> cursors_work (as_parties services) ->
  exists p, replay_each s services t ("parties"%string :: names)
            = replay_each s (set_parties services p) t names /\ current parties_k s t p.
Proof. by_component constr:(parties_k) as_parties set_parties constr:("party"%string) (h_parties _ _ _ Hh). Qed.

Lemma replay_sales services names :
  no_event -> cursors_work (as_sales services) ->
  exists p, replay_each s services t ("sales"%string :: names)
            = replay_each s (set_sales services p) t names /\ current sales_k s t p.
Proof. by_component constr:(sales_k) as_sales set_sales constr:("sales order"%string) (h_orders _ _ _ Hh). Qed.

Lemma replay_invoices services names :
  no_event -> cursors_work (as_invoices services) ->
  exists p, replay_each s services t ("invoices"%string :: names)
            = replay_each s (set_invoices services p) t names /\ current invoices_k s t p.
Proof. by_component constr:(invoices_k) as_invoices set_invoices constr:("invoice"%string) (h_invoices _ _ _ Hh). Qed.

Lemma replay_purchases services names :
  no_event -> cursors_work (as_purchases services) ->
  exists p, replay_each s services t ("purchases"%string :: names)
            = replay_each s (set_purchases services p) t names /\ current purchases_k s t p.
Proof. by_component constr:(purchases_k) as_purchases set_purchases constr:("purchase order"%string) (h_purchases _ _ _ Hh). Qed.

Lemma replays_up_to_date services :
  no_event -> local_cursors services ->
  exists services', replay_each s services t replayable = Some services'
    /\ up_to_date s t services'.
Proof.
  intros Hempty (W1 & W2 & W3 & W4 & W5 & W6). unfold replayable.
  destruct (replay_inventory services ["products"; "parties"; "sales"; "invoices"; "purchases"]%string
    Hempty W1) as (p1 & -> & U1).
  destruct (replay_products (set_inventory services p1)
    ["parties"; "sales"; "invoices"; "purchases"]%string Hempty W2) as (p2 & -> & U2).
  match goal with |- context [replay_each s ?sv t _] =>
    destruct (replay_parties sv ["sales"; "invoices"; "purchases"]%string Hempty W3)
      as (p3 & -> & U3) end.
  match goal with |- context [replay_each s ?sv t _] =>
    destruct (replay_sales sv ["invoices"; "purchases"]%string Hempty W4) as (p4 & -> & U4) end.
  match goal with |- context [replay_each s ?sv t _] =>
    destruct (replay_invoices sv ["purchases"]%string Hempty W5) as (p5 & -> & U5) end.
  match goal with |- context [replay_each s ?sv t _] =>
    destruct (replay_purchases sv [] Hempty W6) as (p6 & -> & U6) end.
  eexists. by split.
Qed.

(** Envelopes of what is stored, and the entries. *)
Lemma turn_up_to_date services env :
  backed s env -> up_to_date s t services -> up_to_date s t (turn services env).
Proof.
  intros Hb (? & ? & ? & ? & ? & ?). destruct Hh. split_and!;
    [rewrite turn_stock|rewrite turn_products|rewrite turn_parties|rewrite turn_sales
    |rewrite turn_invoices|rewrite turn_purchases]; by apply current_deliver.
Qed.

Lemma up_to_date_shows services a :
  up_to_date s t services ->
  views_show services t a (mem_stream s t a)
  /\ exists invoice aging open,
       rehydrate "invoicing.invoice" (make_invoice t a) (mem_stream s t a) = Some invoice
       /\ follows (invoices_get services t (mkInvoiceId a), aging, open) invoice.
Proof.
  intros (U1 & U2 & U3 & U4 & U5 & U6). split; [split_and!|].
  - exact (current_shows stock_k s _ _ t _ a (items_rehydrate _ _ s Hok Hshort Hh) U1).
  - exact (current_shows products_k s _ _ t _ a (products_rehydrate _ _ s Hok Hshort Hh) U2).
  - exact (current_shows parties_k s _ _ t _ a (parties_rehydrate _ _ s Hok Hshort Hh) U3).
  - exact (current_shows sales_k s _ _ t _ a (orders_rehydrate _ _ s Hok Hshort Hh) U4).
  - exact (current_shows purchases_k s _ _ t _ a (purchases_rehydrate _ _ s Hok Hshort Hh) U6).
  - destruct (invoice_rehydrates fresh_order fresh_supplier s Hok Hshort Hh t a
      (length (mem_stream s t a))) as (invoice & open & Hr & Hf).
    rewrite firstn_all in Hr. rewrite take_ge in Hf by exact (typed_history_length invoices_k s t a).
    destruct U5 as [_ Htr]. destruct (Htr a) as (_ & _ & Hget). rewrite firstn_all in Hget.
    exists invoice, (foldl aging_entry None (typed_history invoices_k s t a)), open.
    split; [exact Hr|]. refine (eq_ind_r (fun d => follows (d, _, _) _) Hf Hget).
Qed.
End Stored.

(** The rest of a deployment that drains changes neither the store nor a projection
    that is up to date. *)
Lemma drains_up_to_date t w w' queue :
  rtc drain w w' -> short (store w) -> sound w queue -> up_to_date (store w) t (w_services w) ->
  store w' = store w /\ up_to_date (store w) t (w_services w').
Proof.
  intros Hr. revert queue. induction Hr as [w|w w1 w2 Hd _ IH]; intros queue Hshort Hs Hup; [done|].
  assert (Hstep : exists queue1, sound w1 queue1 /\ store w1 = store w
    /\ up_to_date (store w) t (w_services w1)).
  { destruct Hd as [w l1 se rest l2 Hu|w].
    - eexists. split; [by eapply publish_sound|]. done.
    - pose proof (subscriber_sound _ _ Hs) as Hn. destruct queue as [|env rest].
      + exists []. by rewrite Hn.
      + destruct Hn as (Hs1 & Hsv & Hst & Hb). exists rest. split_and!; [done..|].
        rewrite Hsv. destruct Hs. by apply turn_up_to_date. }
  destruct Hstep as (queue1 & Hs1 & Hst & Hup1). rewrite <- Hst in *. by eapply IH.
Qed.

(** C4: replays repair the read models: in every state the deployment reaches,
    whatever commands overlapped on whatever streams and whatever that did to the
    read models, replay the six projections of a tenant (of fewer than
    [2^32 - 1000] events) while nothing else happens.  Every replay completes, and
    then what the API reads of the tenant's items, products, parties, sales orders
    and purchase orders is the view of the aggregate rehydrated from the stored
    stream, and its invoice documents show the invoices; and that stays so while
    threads publish what they stored and the subscriber takes what waits, in
    whatever order the stale envelopes come. *)
Theorem replays_repair_read_models serial w t :
  rtc (step serial) deployed w -> short (store w) -> no_event ->
  (Z.of_nat (length (stored_of_tenant (store w) t)) + PAGE_SIZE < 2 ^ 32)%Z ->
  length (stored_of_tenant (store w) t) < fuel * Z.to_nat PAGE_SIZE ->
  exists services,
    replay_each (store w) (w_services w) t replayable = Some services
    /\ forall w' a,
       rtc drain (mkWorld (w_dispatcher w) (w_unpublished w) services) w' ->
       views_show (w_services w') t a (mem_stream (store w') t a)
       /\ exists invoice aging open,
            rehydrate "invoicing.invoice" (make_invoice t a) (mem_stream (store w') t a)
              = Some invoice
            /\ follows (invoices_get (w_services w') t (mkInvoiceId a), aging, open) invoice.
Proof.
  intros Hr Hshort Hempty Hfew Hfuel. destruct (run_sound _ _ Hr) as [queue Hs].
  pose proof (run_local_cursors _ _ Hr) as Hl. assert (Hs' := Hs). destruct Hs' as [Hok Hopen Hh _ _ _].
  destruct (replays_up_to_date (store w) t Hok Hshort Hopen Hh Hfew Hfuel _ Hempty Hl)
    as (services & Hre & Hup).
  exists services. split; [exact Hre|]. intros w' a Hd.
  destruct (drains_up_to_date t _ w' queue Hd Hshort) as [Hst Hup']; [by destruct Hs|exact Hup|].
  simpl in Hst, Hup'. rewrite Hst. by apply up_to_date_shows.
Qed.
End Replays.
End Recovery.

(** ** Samples *)
Module Sample.
Import Services.Sample EndToEnd.Sample.
#[local] Existing Instances item_serde party_serde product_serde order_serde invoice_serde
  purchase_serde ledger_serde user_serde.
#[local] Existing Instances item_laws party_laws product_laws order_laws invoice_laws
  purchase_laws ledger_laws user_laws lowercase.

(** A payload that is no event of the six modules. *)
Definition empty_object : Payload :=
  PUser (EvSuspended (mkUserSuspended tenant (mkUserId 1) "" 0)).

#[local] Abbreviation replay := (replay_named fresh_order fresh_supplier map_to_list empty_object
  (0, 0)%N 1).
#[local] Abbreviation replay_six := (replay_each fresh_order fresh_supplier map_to_list empty_object
  (0, 0)%N 1).
#[local] Abbreviation store w := (d_store (w_dispatcher w)).

Definition item_shown (services : AppServices) : option Z :=
  rm_quantity <$> inventory_get services tenant EndToEnd.Sample.id.
Definition item_stored (w : World (J:=Payload)) : option Z :=
  rm_quantity <$> rehydrated "inventory.item" (item_at (at_ 2)) stock_view
    (mem_stream (store w) tenant (at_ 2)).

Lemma no_event_sample : no_event empty_object.
Proof. by split_and!. Qed.

Lemma map_order (m : gmap StreamKey (list (StoredEvent Payload))) : map_to_list m ≡ₚ map_to_list m.
Proof. done. Qed.

Lemma overtaken_short : short (store overtaken).
Proof. eapply one_stream_short; [by vm_compute | simpl; lia]. Qed.

(** The item that two overlapping receipts left at 7 shows 12 after the replays. *)
Lemma replays_repair_read_models_witness :
  item_shown (w_services overtaken) = Some 7%Z
  /\ exists services, replay_six (store overtaken) (w_services overtaken) tenant replayable = Some services
     /\ item_shown services = Some 12%Z.
Proof.
  split; [by vm_compute|].
  destruct (replays_repair_read_models fresh_order fresh_supplier map_to_list map_order empty_object
    (0, 0)%N 1 False overtaken tenant overtaken_run overtaken_short no_event_sample
    ltac:(by vm_compute) ltac:(apply Nat.ltb_lt; by vm_compute)) as (services & Hr & Hshow).
  exists services. split; [exact Hr|].
  destruct (Hshow _ (at_ 2) (rtc_refl _ _)) as [[Hi _] _].
  refine (eq_trans (f_equal (fmap rm_quantity) Hi) _). by vm_compute.
Defined.

(** A receipt that is stored, published and taken between the replay's reading of
    the events and its clearing of the projection; the replay's task then runs on;
    and another receipt follows, by itself. *)
Definition meanwhile : World (J:=Payload) := take_one (publish_last (commit (receive 7) created)).
Definition replayed : World (J:=Payload) :=
  match replay (store created) (w_services meanwhile) tenant "inventory" with
  | Some (services, _) => mkWorld (w_dispatcher meanwhile) (w_unpublished meanwhile) services
  | None => meanwhile
  end.
Definition followed : World (J:=Payload) := take_one (publish_last (commit (receive 5) replayed)).

(** The replay reports that it completed, but the receipt that was shown is lost,
    and the item is frozen: the next receipt does not reach its read model either. *)
Theorem replay_loses_event_taken_meanwhile :
  (phase ∘ snd <$> replay (store created) (w_services meanwhile) tenant "inventory") = Some Complete
  /\ item_shown (w_services meanwhile) = Some 7%Z /\ item_shown (w_services replayed) = Some 0%Z
  /\ quiescent followed /\ item_shown (w_services followed) = Some 0%Z
  /\ item_stored followed = Some 12%Z.
Proof. by vm_compute. Qed.
End Sample.
